(* ===== verification/_CoqProject ===== *)
-Q . S2P
Prelude.v
Errors.v
Bytes.v
Utf8.v
Frames.v
FramesFacts.v
FramesTheorems.v
Huffman.v
HuffmanFacts.v
Hpack.v
HpackFacts.v
HpackTable.v
HpackTheorems.v
Flow.v
Stream.v
StreamFacts.v
Connection.v
ConnectionFacts.v
FlowSafety.v
Lifecycle.v
Sending.v
Totality.v
Violations.v
Wire.v
Resets.v
Posted.v
System.v
Ledger.v
Pool.v
Text.v
Handshake.v
Idle.v
Bridge.v
BridgeFacts.v
WslayC.v
WslayFacts.v
WslayStream.v
WslaySend.v
WslayClose.v
Tunnel.v
TunnelEnds.v
Control.v
Proxy.v
Gateway.v
Serve.v
Driver.v
Web.v
Download.v
Heads.v
EndToEnd.v
Stack.v
Fetch.v
WebPool.v
Service.v
H2Server.v
Conformance.v
Origins.v
Native.v
