(* ===== verification/Prelude.v ===== *)
(** * h2ts: HTTP/2 over a WebSocket, verified

    h2ts tunnels HTTP/2 through a WebSocket.  Its Rust implementation, under
    [src/rust/crates/], is a client that speaks HTTP/2 over any byte transport
    ([h2ts-client]) and a server that accepts the WebSocket and bridges it to an
    HTTP/2 server or an upstream socket ([h2ts-server], with the [h2ts-proxy]
    binary).  This development models both as Rocq functions, file by file, and
    proves what makes them correct.

    ** The program and its model

    The client, from the codecs up:
    - [bytes.rs], [errors.rs]: Bytes, Errors.  Big-endian readers and writers, and
      lossy UTF-8 (Utf8); error codes and [H2Error].
    - [frames.rs]: Frames, with FramesFacts and FramesTheorems.  Frame types and
      flags, [serialize_frame], [parse_payload] and the incremental
      [FrameDecoder].
    - [hpack/]: Huffman and HuffmanFacts (the code table, the decoder as a walk in
      a trie); Hpack with HpackFacts, HpackTable, HpackTheorems (prefix integers,
      strings, the tables, [HpackDecoder], the stateless [HpackEncoder]).
    - [flow.rs]: Flow.  Send windows and the wakers parked on them.
    - [connection.rs]: Stream and StreamFacts (a stream's own state, its response
      head and body); Connection ([ConnState] and every method on it, requests,
      pings, body pumps, response bodies).  Methods are state-and-error monads
      ([ST] below), so that what was changed before an error stays changed.
      ConnectionFacts, FlowSafety, Lifecycle, Sending, Totality, Wire, Resets and
      Posted each follow one relation through all the methods: flow-control
      accounts, the invariant, the frames of a request, the absence of panics, the
      kinds of frames, what is refused, that what is queued can be read back.
      Violations lists the breaches that [dispatch] answers with a connection error.
      System adds the body pumps as tasks, with the conversation of a run and the
      order of its frames; Ledger replays it as the peer's flow control; Heads adds
      the heads and trailers of responses, Download the reader of a body, Driver the
      read and write loops of [drive].
    - [pool.rs]: Pool.  [H2Pool] against the class [PoolConnection], which
      Connection's model implements.
    - [web.rs]: Web ([open], the callbacks and the sink of the browser's WebSocket, and
      the client on it) and WebPool ([connect_pool], the pool over such clients).

    The server:
    - [h2ts-server/src/handshake.rs]: Handshake (on the string methods of Text).
    - [h2ts-server/src/idle.rs] and the [select!] of [lib.rs]: Idle.
    - [h2ts-server/src/wslay.rs]: Bridge and BridgeFacts (the callbacks, the four
      directions of [bridge_with] and their interleaving, for every wslay) and
      Control ([WsControl] and its channel).
    - [wslay-sys/vendor/]: WslayC (frame and event layers of the vendored C library, as
      [wslay.rs] drives them), an instance of the class [Bridge.Wslay].  WslayFacts,
      WslayStream (what it makes of a client's frames), WslaySend (what it sends) and
      WslayClose (the Close, and UTF-8) are its theorems; Tunnel and TunnelEnds those of
      the bridge over it.
    - [h2ts-server/src/lib.rs]: Serve ([WsByteStream], the three ways to serve) and
      Service (the connection behind tokio's pipe, with the spawned bridge).
    - [bin/h2ts-proxy.rs]: Proxy (command line, handler, the task it spawns) and
      Gateway (the accept loop, the connections and the tunnels together).

    Both ends together: EndToEnd (the client on its WebSocket, the bridge at the other
    end), Stack (with the body pumps: what the origin is given), Fetch (what a caller is
    given of what the origin sent).

    What drives them: H2Server ([examples/h2-server.rs]), Conformance (the battery of
    [h2ts-conformance] and [h2ts-wasm-conformance]), Origins (its verdicts on two
    servers, one of them [conformance/origin.mjs]), Native (the WebSocket transport
    of the native driver).

    The parts meet where the code's do: [Connection.on_bytes] runs the frame
    decoder of Frames and the header decoder of Hpack; Driver runs Connection's
    operations, Web runs Driver, Stack runs Web with the pumps of System, and WebPool
    routes with Pool over clients of Stack; Proxy runs Handshake and hands its
    configuration to Bridge, which Gateway runs once per tunnel; Service runs Bridge with
    Idle; Native is a run of Web with a queue before the socket.

    ** Conventions

    A call is an [outcome]: [Ok], [Err] (a Rust error value), [Panic] (an index out
    of range, an overflow under overflow checks, [expect] on [None]) or
    [OutOfFuel].  Machine integers are [Z] with their wrap-around written out
    ([as_u8], [as_u32], ...); the width of [usize] and overflow checking are the
    class [Arch], so that theorems hold for wasm32 and for 64-bit hosts, in debug
    and release builds.  Bytes and strings are lists of [Z].  A task that awaits is
    a state; what happens at its awaits is an event or an operation, and a run is
    any sequence of them, so that a theorem about runs covers every interleaving.
    Code outside the repository (tokio, hyper, the digests, the HTTP types, the browser)
    is a parameter or a source of events: classes with laws where the code relies on
    behaviour ([Http], [Digests], [Pipe]), each with an instance that runs.

    Fuel: [FrameDecoder.push] has one unit more than the bytes buffered,
    [pump_chunk] than the bytes of its chunk, [send_continuations] and the header
    decoder than the bytes of the block, eviction than the entries of the table;
    reading an integer has the seven continuation bytes the code allows, writing
    one the bits of [usize], padding eight bits.  The receive loop of wslay has what one
    read of the bridge can bring and one buffer of wslay more, its send loop what is
    pending.  Each is shown to be enough: the theorems of totality, and
    [TunnelEnds.tunnel_terminates] for wslay, rule [OutOfFuel] out as they do [Panic].
    The loop of the battery over a body takes its fuel as an argument, and one more than
    the chunks of the body is shown to do.

    ** What is shown

    - Codecs: frames and header blocks round-trip; decoding chunk by chunk equals
      decoding the whole; the Huffman decoder accepts exactly the encodings; header
      decoding refines an abstract instruction machine and keeps its table well
      formed on any input; integers round-trip up to their bound; wslay's UTF-8
      automaton accepts UTF-8.
    - Client: no peer input makes a method panic or exceed its buffers (given a [usize]
      of 50 bits or wrapping arithmetic), and the breaches of the protocol tear the
      connection down with their code; every DATA frame fits in the credit the peer's
      ledger has left, in every interleaving; the invariant of the connection;
      teardown resolves and wakes every waiter and is final; a request is on
      the wire as it was asked for; an upload is sent in order, once, and to its
      end when there is credit; frames keep an order ([System.wire_step]: SETTINGS
      first, odd increasing ids, whole header blocks, DATA only on streams open for
      it and not reset, but for the reset that refuses a promise); a body
      that is read to its end is what the peer sent, and a head is the first that
      is not informational; the driver writes exactly what is queued and ends
      only after the last of it, also over the browser's WebSocket; the pool places
      requests and keeps to its cap, also over the browser's sockets.
    - Server: the verdict of the handshake on every branch, and of the proxy in
      front of it for any command line; the bridge relays each byte once and in
      order for every wslay; the keepalive closes silent connections and no others;
      idle connections are reaped, and only those; no control frame sent into a
      bridge is lost while it runs; the proxy runs one tunnel per request it
      answers 101, and closes one whose origin cannot be reached with 1014.
    - The tunnel, over the modelled wslay: up, the peer is given the payload of the
      client's frames as they come; down, the frames sent carry what the peer sent; pings
      are answered, a Close is echoed and reported, the end of the peer is told to
      the client, and the loops of wslay return.
    - End to end, in every interleaving: the origin reads frames the client queued, in
      their order ([Stack.request_reaches_origin]); a caller is given the head and the
      body the origin sent ([Fetch.response_reaches_caller]); and both for a service in
      the process ([Service.service_in_process]).
    - The battery: which checks two servers pass ([Origins.battery_on_origins]).

    Where the code does not do what it means to, a lemma or an example says so:
    [Pool.pool_drop_wedges] (a dropped request blocks the pool), [Web.web_tunnel] and
    [WebPool.pool_on_sockets] (a closed client leaves its WebSocket open, so that sockets
    accumulate past the cap of the pool), [BridgeFacts.bridge_hoards] and
    [TunnelEnds.violation_hoards] (unbounded buffering after a protocol violation),
    [TunnelEnds.close_cut_refused] (a valid Close refused because of where it is cut),
    [TunnelEnds.close_echo_cut] (the end of the peer cuts the echo of a Close),
    [HpackTheorems.hpack_lossy_entry_size], [HpackTheorems.hpack_integer_wasm32],
    [Lifecycle.reset_wakes_no_waiter], [StreamFacts.reset_after_complete_body],
    [System.push_promise_own_stream], [System.zero_update_idle_stream],
    [Service.late_data_closes_1011] (the Close of a service that has resolved is that of
    an error when the client sends on), [Download.interim_end_stream_orphans_body],
    [Pool.pool_routes_to_goaway], [Idle.reap_race], [Proxy.dangling_origin], [Proxy.keepalive_typo],
    [Handshake.Concrete.selector_casing_echoed], [Origins.battery_on_origins] (the example
    server does not have every route of the battery).

    ** Not modelled

    The boxed transport types ([transport.rs]) and the re-exports of the crates, which
    hold no operation; hyper, tokio and the WebSocket library of the native driver; socket
    [bind], banners and logging, and the [main] of the native driver; the accept
    loop of the example server, which is that of the proxy.  Of wslay, what [wslay.rs] never
    reaches: the client role with its masking, fragmented sending, the two functions that
    write to a buffer instead of calling back, and the setters and getters it does not
    call; its generated bindings and build script.  The TypeScript and Go implementations,
    which are programs of their own. *)

From stdpp Require Export base tactics list numbers gmap strings pretty.
From Stdlib Require Export ZArith Lia ZifyBool.

#[global] Open Scope Z_scope.

(** ** Fallible computations

    A Rust call either returns [Ok], returns an error value ([Err], the [?]
    path), panics (out-of-bounds index, arithmetic overflow under
    overflow checks, [expect] on [None]), or, for a modelled loop, runs out of
    the fuel the model gave it.  Panics and missing fuel are kept apart from
    error values: the totality theorems rule both out. *)

Inductive outcome (E A : Type) : Type :=
  | Ok (a : A)
  | Err (e : E)
  | Panic
  | OutOfFuel.

Arguments Ok {E A} a.
Arguments Err {E A} e.
Arguments Panic {E A}.
Arguments OutOfFuel {E A}.

#[export] Instance outcome_ret E : MRet (outcome E) := fun A a => Ok a.

#[export] Instance outcome_bind E : MBind (outcome E) := fun A B f m =>
  match m with
  | Ok a => f a
  | Err e => Err e
  | Panic => Panic
  | OutOfFuel => OutOfFuel
  end.

Arguments outcome_ret _ _ _ /.
Arguments outcome_bind _ _ _ _ !_ /.

(** [ok_or]: Rust's [Option::ok_or_else] with an error value. *)
Definition ok_or {E A} (e : E) (o : option A) : outcome E A :=
  match o with Some a => Ok a | None => Err e end.

(** [expect]: [Option::unwrap] / [expect] / slice indexing: [None] panics. *)
Definition expect {E A} (o : option A) : outcome E A :=
  match o with Some a => Ok a | None => Panic end.

(** The call came back: a value or an error value, no panic, fuel enough. *)
Definition returns {E A} (m : outcome E A) : Prop :=
  match m with Ok _ | Err _ => True | Panic | OutOfFuel => False end.

(** ** State and failure

    Methods taking [&mut self]: the state survives an error return, because
    what was mutated before the [?] stays mutated. *)

Definition ST (S E A : Type) : Type := S -> S * outcome E A.

#[export] Instance ST_ret S E : MRet (ST S E) := fun A a s => (s, Ok a).

#[export] Instance ST_bind S E : MBind (ST S E) := fun A B f m s =>
  match m s with
  | (s', Ok a) => f a s'
  | (s', Err e) => (s', Err e)
  | (s', Panic) => (s', Panic)
  | (s', OutOfFuel) => (s', OutOfFuel)
  end.

Arguments ST_ret _ _ _ _ _ /.

Definition st_lift {S E A} (m : outcome E A) : ST S E A := fun s => (s, m).
Definition st_get {S E} : ST S E S := fun s => (s, Ok s).
Definition st_gets {S E A} (f : S -> A) : ST S E A := fun s => (s, Ok (f s)).
Definition st_put {S E} (s : S) : ST S E unit := fun _ => (s, Ok tt).
Definition st_modify {S E} (f : S -> S) : ST S E unit := fun s => (f s, Ok tt).
Definition st_throw {S E A} (e : E) : ST S E A := fun s => (s, Err e).
Definition st_panic {S E A} : ST S E A := fun s => (s, Panic).

(** [if let Err(e) = m { handler(e) }] *)
Definition st_catch {S E A} (m : ST S E A) (handler : E -> ST S E A) : ST S E A := fun s =>
  match m s with
  | (s', Err e) => handler e s'
  | x => x
  end.

(** [for x in l { f(x) }] *)
Fixpoint st_iter {S E A} (f : A -> ST S E unit) (l : list A) : ST S E unit :=
  match l with
  | [] => mret tt
  | x :: l => _ ← f x; st_iter f l
  end.

(** A method preserves an invariant of the state, whatever it returns. *)
Definition stable {S E A} (I : S -> Prop) (m : ST S E A) : Prop :=
  forall s, I s -> I (fst (m s)).

(** ** Fixed-width integers

    An unsigned w-bit Rust integer is a [Z] in [0, 2^w); [as] casts wrap. *)

Definition as_u8 (z : Z) : Z := z mod 256.
Definition as_u16 (z : Z) : Z := z mod 65536.
Definition as_u32 (z : Z) : Z := z mod 4294967296.

Definition is_u8 (z : Z) : Prop := 0 <= z < 256.
Definition is_u16 (z : Z) : Prop := 0 <= z < 65536.
Definition is_u31 (z : Z) : Prop := 0 <= z < 2147483648.
Definition is_u32 (z : Z) : Prop := 0 <= z < 4294967296.

(** A byte string: [Vec<u8>], [&[u8]] or the UTF-8 contents of a [String]. *)
Abbreviation bytes := (list Z).
Definition bytes_ok (l : bytes) : Prop := Forall is_u8 l.

(** [l.len()] as an integer. *)
Definition zlen {A} (l : list A) : Z := Z.of_nat (length l).

(** [flag_bits & mask != 0] *)
Definition has_flag (flag_bits mask : Z) : bool := negb (Z.land flag_bits mask =? 0).

(** The bytes of an ASCII string literal ([b"..."], or a [&str] constant). *)
Definition str (s : string) : bytes :=
  (fun a => Z.of_N (Ascii.N_of_ascii a)) <$> String.list_ascii_of_string s.

(** The compilation target: the width of [usize] and whether arithmetic is
    overflow-checked (a debug build, which panics) or wraps (a release build). *)
Class Arch := {
  usize_bits : Z;
  overflow_checks : bool;
}.

(** [usize] is 32 bits wide on wasm32 (the client's main target), 64 on hosts. *)
Class ArchOk (a : Arch) : Prop := usize_bits_ge : 32 <= @usize_bits a.

Definition is_usize {a : Arch} (z : Z) : Prop := 0 <= z < 2 ^ usize_bits.

Definition wasm32_release : Arch := {| usize_bits := 32; overflow_checks := false |}.
Definition wasm32_debug : Arch := {| usize_bits := 32; overflow_checks := true |}.
Definition host64_release : Arch := {| usize_bits := 64; overflow_checks := false |}.
Definition host64_debug : Arch := {| usize_bits := 64; overflow_checks := true |}.

#[export] Instance wasm32_release_ok : ArchOk wasm32_release.
Proof. unfold ArchOk; simpl; lia. Qed.
#[export] Instance wasm32_debug_ok : ArchOk wasm32_debug.
Proof. unfold ArchOk; simpl; lia. Qed.
#[export] Instance host64_release_ok : ArchOk host64_release.
Proof. unfold ArchOk; simpl; lia. Qed.
#[export] Instance host64_debug_ok : ArchOk host64_debug.
Proof. unfold ArchOk; simpl; lia. Qed.

(** ** Generic lemmas: the monads *)

Create HintDb h2ts.
Create HintDb stable.

Section outcome_lemmas.
Context {E A B : Type}.
Implicit Types (m : outcome E A) (f : A -> outcome E B).

Lemma bind_Ok m f b :
  m ≫= f = Ok b <-> exists a, m = Ok a /\ f a = Ok b.
Proof. destruct m; simpl; naive_solver. Qed.

Lemma bind_Err m f e :
  m ≫= f = Err e <-> m = Err e \/ exists a, m = Ok a /\ f a = Err e.
Proof. destruct m; simpl; naive_solver. Qed.

Lemma returns_bind m f :
  returns m -> (forall a, m = Ok a -> returns (f a)) -> returns (m ≫= f).
Proof. destruct m; simpl; naive_solver. Qed.

Lemma returns_ok_or (e : E) (o : option A) : returns (ok_or e o).
Proof. by destruct o. Qed.
End outcome_lemmas.

#[export] Hint Resolve returns_ok_or : h2ts.

Section st_lemmas.
Context {S E A B : Type}.
Implicit Types (I : S -> Prop) (m : ST S E A) (f : A -> ST S E B).

Lemma st_bind_run m f s :
  (m ≫= f) s =
  match snd (m s) with
  | Ok a => f a (fst (m s))
  | Err e => (fst (m s), Err e)
  | Panic => (fst (m s), Panic)
  | OutOfFuel => (fst (m s), OutOfFuel)
  end.
Proof. unfold mbind, ST_bind. by destruct (m s) as [? []]. Qed.

Lemma st_bind_Ok m f s s' a :
  m s = (s', Ok a) -> (m ≫= f) s = f a s'.
Proof. intros H. by rewrite st_bind_run, H. Qed.

Lemma st_bind_Err m f s s' e :
  m s = (s', Err e) -> (m ≫= f) s = (s', Err e).
Proof. intros H. by rewrite st_bind_run, H. Qed.

Lemma st_bind_inv m f s s' b :
  (m ≫= f) s = (s', Ok b) <-> exists a s1, m s = (s1, Ok a) /\ f a s1 = (s', Ok b).
Proof.
  rewrite st_bind_run. destruct (m s) as [s1 [a|e| |]]; simpl; [|naive_solver..].
  split; [eauto|]. intros (a' & s1' & [= <- <-] & H). done.
Qed.

Lemma st_lift_inv (o : outcome E A) f s s' b :
  (st_lift o ≫= f) s = (s', Ok b) <-> exists a, o = Ok a /\ f a s = (s', Ok b).
Proof. rewrite st_bind_inv. unfold st_lift. naive_solver. Qed.

Lemma st_lift_bind (o : outcome E A) f s :
  (st_lift o ≫= f) s =
  match o with
  | Ok a => f a s
  | Err e => (s, Err e)
  | Panic => (s, Panic)
  | OutOfFuel => (s, OutOfFuel)
  end.
Proof. unfold mbind, ST_bind, st_lift. by destruct o. Qed.

Lemma st_lift_Ok (a : A) f s : (st_lift (Ok a) ≫= f) s = f a s.
Proof. done. Qed.

Lemma stable_bind I m f :
  stable I m -> (forall a, stable I (f a)) -> stable I (m ≫= f).
Proof.
  intros Hm Hf s Hs. rewrite st_bind_run.
  specialize (Hm s Hs). destruct (m s) as [s' []]; simpl in *; auto.
  by apply Hf.
Qed.

Lemma stable_ret I (a : A) : stable (E:=E) I (mret a).
Proof. by intros s Hs. Qed.
Lemma stable_lift I (o : outcome E A) : stable I (st_lift o).
Proof. by intros s Hs. Qed.
Lemma stable_get I : stable (E:=E) I st_get.
Proof. by intros s Hs. Qed.
Lemma stable_gets I (g : S -> A) : stable (E:=E) I (st_gets g).
Proof. by intros s Hs. Qed.
Lemma stable_throw I (e : E) : stable (A:=A) I (st_throw e).
Proof. by intros s Hs. Qed.
Lemma stable_panic I : stable (E:=E) (A:=A) I st_panic.
Proof. by intros s Hs. Qed.
Lemma stable_modify I (g : S -> S) :
  (forall s, I s -> I (g s)) -> stable (E:=E) I (st_modify g).
Proof. intros H s Hs. by apply H. Qed.
Lemma stable_and I J m : stable I m -> stable J m -> stable (fun s => I s /\ J s) m.
Proof. intros HI HJ s [? ?]. by split; [apply HI | apply HJ]. Qed.
End st_lemmas.

(** Primitive steps of a method, as equations. *)
Lemma st_get_bind {S E B} (f : S -> ST S E B) s : (st_get ≫= f) s = f s s.
Proof. done. Qed.
Lemma st_put_bind {S E B} (f : unit -> ST S E B) x s : (st_put x ≫= f) s = f tt x.
Proof. done. Qed.
Lemma st_gets_bind {S E A B} (g : S -> A) (f : A -> ST S E B) s :
  (st_gets g ≫= f) s = f (g s) s.
Proof. done. Qed.
Lemma st_modify_bind {S E B} g (f : unit -> ST S E B) s : (st_modify g ≫= f) s = f tt (g s).
Proof. done. Qed.
Lemma st_ret_bind {S E A B} (a : A) (f : A -> ST S E B) s : (mret a ≫= f) s = f a s.
Proof. done. Qed.
Lemma st_throw_bind {S E A B} (e : E) (f : A -> ST S E B) s : (st_throw e ≫= f) s = (s, Err e).
Proof. done. Qed.
Create HintDb st.
#[export] Hint Rewrite @st_lift_Ok @st_get_bind @st_put_bind @st_gets_bind @st_modify_bind
  @st_ret_bind @st_throw_bind : st.

#[export] Hint Resolve stable_bind stable_ret stable_lift stable_get stable_gets
  stable_throw stable_panic : stable.

(** [lia] with divisions and remainders by constants unfolded. *)
Ltac zlia := Z.to_euclidean_division_equations; lia.

(** Decompose hypotheses [m ≫= f = Ok b] into the steps that succeeded. *)
Ltac inv_ok :=
  repeat match goal with
  | H : mbind _ _ = Ok _ |- _ =>
      apply bind_Ok in H; let a := fresh "a" in let Ha := fresh "H" in
      destruct H as (a & Ha & H); simpl in H
  | H : ok_or _ ?o = Ok _ |- _ => destruct o eqn:?; simpl in H; simplify_eq
  | H : Ok _ = Ok _ |- _ => injection H as H
  | H : Err _ = Ok _ |- _ => discriminate H
  | H : Panic = Ok _ |- _ => discriminate H
  | H : OutOfFuel = Ok _ |- _ => discriminate H
  | p : (_ * _)%type |- _ => destruct p; simpl in *
  | H : (if ?b then _ else _) = Ok _ |- _ => destruct b eqn:?; simpl in H
  end.

(** ** Generic lemmas: masks and shifts *)

Lemma lor_add_disjoint a c k :
  0 <= k -> 0 <= c < 2 ^ k -> Z.lor (Z.shiftl a k) c = a * 2 ^ k + c.
Proof.
  intros Hk Hc. rewrite Z.shiftl_mul_pow2 by done.
  apply Z.bits_inj'. intros i Hi.
  rewrite Z.lor_spec.
  destruct (decide (i < k)) as [Hlt|Hge].
  - rewrite Z.mul_pow2_bits_low by done. simpl.
    rewrite <- (Z.mod_pow2_bits_low (a * 2 ^ k + c) k i) by done.
    rewrite Z.add_comm, Z.mod_add by lia. by rewrite Z.mod_small.
  - rewrite Z.mul_pow2_bits_add || rewrite Z.mul_pow2_bits by lia.
    assert (Z.testbit c i = false) as ->.
    { rewrite <- (Z.mod_small c (2 ^ k)) by done.
      apply Z.mod_pow2_bits_high. lia. }
    rewrite orb_false_r. replace i with ((i - k) + k) at 2 by lia.
    rewrite <- Z.div_pow2_bits by lia.
    rewrite Z.add_comm, Z.div_add by lia.
    by rewrite Z.div_small, Z.add_0_l by done.
Qed.

Lemma land_ones_low v k : 0 <= k -> Z.land v (2 ^ k - 1) = v mod 2 ^ k.
Proof. intros. rewrite <- Z.land_ones by done. by rewrite Z.ones_equiv, Z.sub_1_r. Qed.

Lemma land_31 v : Z.land v 2147483647 = v mod 2147483648.
Proof. apply (land_ones_low v 31). lia. Qed.

Lemma land_31_id v : is_u31 v -> Z.land v 2147483647 = v.
Proof. intros ?. rewrite land_31. unfold is_u31 in *. by rewrite Z.mod_small. Qed.

Lemma land_31_range v : is_u31 (Z.land v 2147483647).
Proof. rewrite land_31. unfold is_u31. zlia. Qed.

Lemma lor_bit31 v : is_u31 v -> Z.lor v 2147483648 = v + 2147483648.
Proof.
  intros H. rewrite Z.lor_comm.
  unfold is_u31 in H. pose proof (lor_add_disjoint 1 v 31) as E.
  change (Z.shiftl 1 31) with 2147483648 in E. rewrite E; lia.
Qed.

Lemma has_bit31 v : is_u32 v -> has_flag v 2147483648 = (2147483648 <=? v).
Proof.
  intros H. unfold is_u32 in H.
  assert (Z.testbit v 31 = (2147483648 <=? v)) as <-.
  { rewrite Z.testbit_eqb by lia. destruct (Z.leb_spec 2147483648 v).
    - assert (v / 2 ^ 31 = 1) as ->; [|done].
      symmetry. apply Z.div_unique with (v - 2 ^ 31); lia.
    - by rewrite Z.div_small by lia. }
  unfold has_flag. destruct (Z.testbit v 31) eqn:Hb.
  - apply negb_true_iff, Z.eqb_neq. intros Hz.
    assert (Z.testbit (Z.land v 2147483648) 31 = true) as Ht
      by (by rewrite Z.land_spec, Hb).
    by rewrite Hz in Ht.
  - apply negb_false_iff, Z.eqb_eq, Z.bits_inj_0. intros i.
    rewrite Z.land_spec. change 2147483648 with (2 ^ 31).
    destruct (decide (0 <= i)); [|by rewrite Z.testbit_neg_r by lia].
    rewrite Z.pow2_bits_eqb by lia. destruct (Z.eqb_spec 31 i) as [<-|].
    + by rewrite Hb.
    + by rewrite andb_false_r.
Qed.

Lemma as_u8_range z : is_u8 (as_u8 z).
Proof. unfold as_u8, is_u8. zlia. Qed.
Lemma as_u8_id z : is_u8 z -> as_u8 z = z.
Proof. unfold as_u8, is_u8. zlia. Qed.
#[export] Hint Resolve as_u8_range land_31_range : h2ts.

(** A property of all bytes, by evaluation. *)
Lemma u8_forall (P : Z -> bool) :
  forallb P (Z.of_nat <$> seq 0 256) = true -> forall b, is_u8 b -> P b = true.
Proof.
  intros H b Hb. rewrite forallb_forall in H. apply H. apply list_elem_of_In.
  apply list_elem_of_fmap. exists (Z.to_nat b). unfold is_u8 in Hb.
  rewrite elem_of_seq. lia.
Qed.

(** ** Generic lemmas: byte strings *)

Lemma zlen_app {A} (l1 l2 : list A) : zlen (l1 ++ l2) = zlen l1 + zlen l2.
Proof. unfold zlen. rewrite length_app. lia. Qed.
Lemma zlen_nonneg {A} (l : list A) : 0 <= zlen l.
Proof. unfold zlen. lia. Qed.
Lemma zlen_cons {A} (x : A) l : zlen (x :: l) = 1 + zlen l.
Proof. unfold zlen. simpl. lia. Qed.

Lemma bytes_ok_app l1 l2 : bytes_ok (l1 ++ l2) <-> bytes_ok l1 /\ bytes_ok l2.
Proof. apply Forall_app. Qed.
Lemma bytes_ok_nil : bytes_ok [].
Proof. constructor. Qed.
Lemma bytes_ok_take n l : bytes_ok l -> bytes_ok (take n l).
Proof. apply Forall_take. Qed.
Lemma bytes_ok_drop n l : bytes_ok l -> bytes_ok (drop n l).
Proof. apply Forall_drop. Qed.
Lemma bytes_ok_lookup l i b : bytes_ok l -> l !! i = Some b -> is_u8 b.
Proof. intros H Hi. eapply Forall_lookup_1 in H; eauto. Qed.
#[export] Hint Resolve bytes_ok_nil bytes_ok_take bytes_ok_drop bytes_ok_lookup : h2ts.

Lemma bytes_ok_str s : bytes_ok (str s).
Proof.
  unfold str, bytes_ok. apply Forall_fmap. apply Forall_true. intros a.
  unfold is_u8. simpl. pose proof (Ascii.N_ascii_bounded a). lia.
Qed.
#[export] Hint Resolve bytes_ok_str : h2ts.

(** ** Slices *)

(** [&l[lo..hi]]: panics unless [lo <= hi <= l.len()]. *)
Definition slice {A} (lo hi : nat) (l : list A) : option (list A) :=
  if decide (lo <= hi <= length l)%nat then Some (take (hi - lo) (drop lo l)) else None.

Lemma slice_ok {A} lo hi (l : list A) :
  (lo <= hi <= length l)%nat -> slice lo hi l = Some (take (hi - lo) (drop lo l)).
Proof. intros. unfold slice. by rewrite decide_True. Qed.
