(* ===== verification/Errors.v ===== *)
(** * Errors: HTTP/2 error codes and the crate's error type

    Models [rust/crates/h2ts-client/src/errors.rs]: the enum [ErrorCode] with
    its wire values, and [H2Error], a connection error when [stream_id] is
    [None] and a stream error otherwise. *)

From S2P Require Import Prelude.

Module ErrorCode.

Inductive t :=
  | NoError | ProtocolError | InternalError | FlowControlError
  | SettingsTimeout | StreamClosed | FrameSizeError | RefusedStream
  | Cancel | CompressionError | ConnectError | EnhanceYourCalm
  | InadequateSecurity | Http11Required.

#[global] Instance t_eq_dec : EqDecision t.
Proof. solve_decision. Defined.

(** The discriminants ([#[repr(u32)]], [self as u32]). *)
Definition value (c : t) : Z :=
  match c with
  | NoError => 0 | ProtocolError => 1 | InternalError => 2
  | FlowControlError => 3 | SettingsTimeout => 4 | StreamClosed => 5
  | FrameSizeError => 6 | RefusedStream => 7 | Cancel => 8
  | CompressionError => 9 | ConnectError => 10 | EnhanceYourCalm => 11
  | InadequateSecurity => 12 | Http11Required => 13
  end.

Definition from_value (v : Z) : option t :=
  match v with
  | 0 => Some NoError
  | 1 => Some ProtocolError
  | 2 => Some InternalError
  | 3 => Some FlowControlError
  | 4 => Some SettingsTimeout
  | 5 => Some StreamClosed
  | 6 => Some FrameSizeError
  | 7 => Some RefusedStream
  | 8 => Some Cancel
  | 9 => Some CompressionError
  | 10 => Some ConnectError
  | 11 => Some EnhanceYourCalm
  | 12 => Some InadequateSecurity
  | 13 => Some Http11Required
  | _ => None
  end.

Definition name (c : t) : string :=
  match c with
  | NoError => "NO_ERROR"
  | ProtocolError => "PROTOCOL_ERROR"
  | InternalError => "INTERNAL_ERROR"
  | FlowControlError => "FLOW_CONTROL_ERROR"
  | SettingsTimeout => "SETTINGS_TIMEOUT"
  | StreamClosed => "STREAM_CLOSED"
  | FrameSizeError => "FRAME_SIZE_ERROR"
  | RefusedStream => "REFUSED_STREAM"
  | Cancel => "CANCEL"
  | CompressionError => "COMPRESSION_ERROR"
  | ConnectError => "CONNECT_ERROR"
  | EnhanceYourCalm => "ENHANCE_YOUR_CALM"
  | InadequateSecurity => "INADEQUATE_SECURITY"
  | Http11Required => "HTTP_1_1_REQUIRED"
  end.

(** Every code survives the wire, and only the fourteen values are codes. *)
Lemma from_value_spec v c : from_value v = Some c <-> v = value c.
Proof.
  split.
  - destruct v as [|p|p]; simpl; [naive_solver| |done].
    do 4 (try destruct p as [p|p|]; simpl; try done); naive_solver.
  - intros ->. by destruct c.
Qed.

Lemma value_range c : is_u32 (value c).
Proof. unfold is_u32. destruct c; simpl; lia. Qed.

Lemma value_inj c1 c2 : value c1 = value c2 -> c1 = c2.
Proof. by destruct c1, c2. Qed.

End ErrorCode.

#[export] Hint Resolve ErrorCode.value_range : h2ts.

Module H2Error.

Record t := mk {
  code : ErrorCode.t;
  message : option string;
  stream_id : option Z;
}.

#[global] Instance t_eq_dec : EqDecision t.
Proof. solve_decision. Defined.

(** [H2Error::new]: a connection-level error. *)
Definition new (c : ErrorCode.t) (msg : string) : t := mk c (Some msg) None.
(** [H2Error::code]: a code and no message. *)
Definition of_code (c : ErrorCode.t) : t := mk c None None.
(** [H2Error::stream]: a stream-scoped error. *)
Definition stream (c : ErrorCode.t) (msg : string) (id : Z) : t := mk c (Some msg) (Some id).

(** [Display] *)
Definition fmt (e : t) : string :=
  match message e with
  | Some m => ErrorCode.name (code e) +:+ ": " +:+ m
  | None => ErrorCode.name (code e)
  end.

End H2Error.

(** Results of the protocol engine. *)
Abbreviation result := (outcome H2Error.t).
