(* ===== verification/Bytes.v ===== *)
(** * Bytes: the big-endian writer and the cursor reader

    Models [rust/crates/h2ts-client/src/bytes.rs].  A [ByteWriter] is the
    growing [Vec<u8>]; a [ByteReader] is the slice with its cursor.  Fixed-width
    reads index the slice and panic out of bounds; [bytes] is the fallible read.
    [view r] is what is left to read, and the lemmas state every read on it. *)

From S2P Require Import Prelude.

(** ** Big-endian integers (the standard library's [to_be_bytes] family) *)

Definition u16_to_be_bytes (v : Z) : bytes := [Z.shiftr v 8 mod 256; v mod 256].
Definition u32_to_be_bytes (v : Z) : bytes :=
  [Z.shiftr v 24 mod 256; Z.shiftr v 16 mod 256; Z.shiftr v 8 mod 256; v mod 256].
Definition u16_from_be_bytes (a b : Z) : Z := a * 256 + b.
Definition u32_from_be_bytes (a b c d : Z) : Z :=
  a * 16777216 + b * 65536 + c * 256 + d.

Module ByteWriter.

Definition t := bytes.
Definition new : t := [].
Definition len (w : t) : Z := zlen w.
Definition u8 (v : Z) (w : t) : t := w ++ [v].
Definition u16 (v : Z) (w : t) : t := w ++ u16_to_be_bytes v.
Definition u24 (v : Z) (w : t) : t := w ++ drop 1 (u32_to_be_bytes v).
Definition u32 (v : Z) (w : t) : t := w ++ u32_to_be_bytes v.
Definition bytes (b : bytes) (w : t) : t := w ++ b.
Definition into_vec (w : t) : Prelude.bytes := w.

End ByteWriter.

Module ByteReader.

Record t := mk { buf : bytes; cursor : nat }.

Section ops.
Context {E : Type}.

Definition new (b : bytes) : t := mk b 0.
Definition remaining (r : t) : Z := zlen (buf r) - Z.of_nat (cursor r).
Definition advance (n : nat) (r : t) : t := mk (buf r) (cursor r + n).

(** [self.buf[self.cursor + i]] *)
Definition index (i : nat) (r : t) : outcome E Z := expect (buf r !! (cursor r + i)%nat).

Definition u8 (r : t) : outcome E (Z * t) :=
  v ← index 0 r; mret (v, advance 1 r).
Definition u16 (r : t) : outcome E (Z * t) :=
  a ← index 0 r; b ← index 1 r; mret (u16_from_be_bytes a b, advance 2 r).
Definition u24 (r : t) : outcome E (Z * t) :=
  a ← index 0 r; b ← index 1 r; c ← index 2 r;
  mret (Z.lor (Z.lor (Z.shiftl a 16) (Z.shiftl b 8)) c, advance 3 r).
Definition u32 (r : t) : outcome E (Z * t) :=
  a ← index 0 r; b ← index 1 r; c ← index 2 r; d ← index 3 r;
  mret (u32_from_be_bytes a b c d, advance 4 r).
Definition peek (r : t) : outcome E Z := index 0 r.
End ops.

(** [bytes(n)]: [None] when fewer than [n] bytes remain. *)
Definition bytes (n : Z) (r : t) : option (Prelude.bytes * t) :=
  if remaining r <? n then None
  else Some (take (Z.to_nat n) (drop (cursor r) (buf r)), advance (Z.to_nat n) r).

(** What is left to read. *)
Definition view (r : t) : Prelude.bytes := drop (cursor r) (buf r).
Definition wf (r : t) : Prop := (cursor r <= length (buf r))%nat.

End ByteReader.

(** ** Round trips of the integer encodings *)

Lemma u16_be_roundtrip v :
  is_u16 v -> u16_to_be_bytes v = [v / 256; v mod 256] /\
  u16_from_be_bytes (v / 256) (v mod 256) = v.
Proof.
  unfold is_u16, u16_to_be_bytes, u16_from_be_bytes. intros H.
  rewrite Z.shiftr_div_pow2 by lia. split; [|zlia].
  do 2 f_equal. change (2 ^ 8) with 256. rewrite Z.mod_small; zlia.
Qed.

Lemma u32_be_roundtrip v :
  is_u32 v ->
  u32_from_be_bytes (Z.shiftr v 24 mod 256) (Z.shiftr v 16 mod 256)
    (Z.shiftr v 8 mod 256) (v mod 256) = v.
Proof.
  unfold is_u32, u32_from_be_bytes. intros H.
  rewrite !Z.shiftr_div_pow2 by lia.
  change (2 ^ 24) with 16777216. change (2 ^ 16) with 65536. change (2 ^ 8) with 256.
  zlia.
Qed.

Lemma u32_from_be_range a b c d :
  is_u8 a -> is_u8 b -> is_u8 c -> is_u8 d -> is_u32 (u32_from_be_bytes a b c d).
Proof. unfold is_u8, is_u32, u32_from_be_bytes. lia. Qed.

Lemma u32_to_be_ok v : bytes_ok (u32_to_be_bytes v).
Proof. unfold u32_to_be_bytes, bytes_ok, is_u8. repeat constructor; zlia. Qed.
Lemma u16_to_be_ok v : bytes_ok (u16_to_be_bytes v).
Proof. unfold u16_to_be_bytes, bytes_ok, is_u8. repeat constructor; zlia. Qed.
#[export] Hint Resolve u32_from_be_range u32_to_be_ok u16_to_be_ok : h2ts.

(** ** Reads, stated on the view *)

Section reader.
Context {E : Type}.
Implicit Types (r : ByteReader.t).
Import ByteReader.

Lemma view_advance n r : view (advance n r) = drop n (view r).
Proof. unfold view. simpl. by rewrite drop_drop. Qed.

Lemma wf_advance n r : (n <= length (view r))%nat -> wf r -> wf (advance n r).
Proof. unfold view, wf. simpl. rewrite length_drop. lia. Qed.

Lemma wf_new b : wf (new b).
Proof. unfold wf. simpl. lia. Qed.

Lemma view_new b : view (new b) = b.
Proof. done. Qed.

Lemma remaining_view r : wf r -> remaining r = zlen (view r).
Proof. unfold wf, remaining, view, zlen. rewrite length_drop. lia. Qed.

Lemma index_view i r : index (E:=E) i r = expect (view r !! i).
Proof. unfold index, view. by rewrite lookup_drop. Qed.

Lemma u8_view r :
  u8 (E:=E) r = match view r with b :: _ => Ok (b, advance 1 r) | [] => Panic end.
Proof. unfold u8. rewrite index_view. by destruct (view r). Qed.

Lemma peek_view r :
  peek (E:=E) r = match view r with b :: _ => Ok b | [] => Panic end.
Proof. unfold peek. rewrite index_view. by destruct (view r). Qed.

Lemma u16_view r a b l :
  view r = a :: b :: l -> u16 (E:=E) r = Ok (u16_from_be_bytes a b, advance 2 r).
Proof. intros H. unfold u16. by rewrite !index_view, H. Qed.

Lemma u32_view r a b c d l :
  view r = a :: b :: c :: d :: l ->
  u32 (E:=E) r = Ok (u32_from_be_bytes a b c d, advance 4 r).
Proof. intros H. unfold u32. by rewrite !index_view, H. Qed.

Lemma u32_view_bytes r v l :
  is_u32 v -> view r = u32_to_be_bytes v ++ l -> u32 (E:=E) r = Ok (v, advance 4 r).
Proof.
  intros Hv H. erewrite u32_view by exact H. by rewrite u32_be_roundtrip.
Qed.

Lemma bytes_view n r :
  wf r -> 0 <= n ->
  bytes n r = if zlen (view r) <? n then None
              else Some (take (Z.to_nat n) (view r), advance (Z.to_nat n) r).
Proof. intros. unfold bytes. by rewrite remaining_view. Qed.

Lemma bytes_view_app r l1 l2 :
  wf r -> view r = l1 ++ l2 -> bytes (zlen l1) r = Some (l1, advance (length l1) r).
Proof.
  intros Hw H. rewrite bytes_view by (done || apply zlen_nonneg).
  rewrite H, zlen_app. unfold zlen. rewrite Nat2Z.id.
  destruct (Z.ltb_spec (Z.of_nat (length l1) + Z.of_nat (length l2)) (Z.of_nat (length l1)));
    [lia|]. by rewrite take_app_length.
Qed.

Lemma bytes_view_all r n :
  wf r -> n = zlen (view r) -> bytes n r = Some (view r, advance (Z.to_nat n) r).
Proof.
  intros Hw ->. unfold zlen at 2. rewrite Nat2Z.id.
  apply (bytes_view_app r (view r) []); [done|]. by rewrite app_nil_r.
Qed.
End reader.

Ltac reader := rewrite ?view_advance, ?view_new; simpl; rewrite ?drop_0; simpl.
#[export] Hint Resolve wf_new wf_advance : h2ts.


Lemma drop_u32 v l : drop 4 (u32_to_be_bytes v ++ l) = l.
Proof. done. Qed.
Lemma drop_u16 v l : drop 2 (u16_to_be_bytes v ++ l) = l.
Proof. done. Qed.
Lemma zlen_u32 v : zlen (u32_to_be_bytes v) = 4.
Proof. done. Qed.
Lemma zlen_u16 v : zlen (u16_to_be_bytes v) = 2.
Proof. done. Qed.
Lemma length_u32 v : length (u32_to_be_bytes v) = 4%nat.
Proof. done. Qed.
#[export] Hint Rewrite drop_u32 drop_u16 zlen_u32 zlen_u16 @zlen_app @zlen_cons : h2ts.

#[global] Opaque u32_to_be_bytes u16_to_be_bytes.
