(* ===== verification/Utf8.v ===== *)
(** * Utf8: [String::from_utf8_lossy]

    [decode_utf8] of [bytes.rs] is the standard library's lossy decoder.  A Rust
    [String] is its UTF-8 bytes here, so the decoder maps bytes to bytes: each
    maximal invalid prefix becomes U+FFFD (EF BF BD), valid sequences are copied.
    The byte ranges are those of the standard library's [Utf8Chunks] iterator. *)

From S2P Require Import Prelude.

(** U+FFFD REPLACEMENT CHARACTER *)
Definition REPLACEMENT : bytes := [239; 191; 189].

Definition between (lo hi b : Z) : bool := (lo <=? b) && (b <=? hi).
(** A continuation byte: 80..BF. *)
Definition is_cont (b : Z) : bool := between 128 191 b.

(** The second byte allowed after a three-byte lead. *)
Definition second3 (b0 b1 : Z) : bool :=
  ((b0 =? 224) && between 160 191 b1) ||
  (between 225 236 b0 && is_cont b1) ||
  ((b0 =? 237) && between 128 159 b1) ||
  (between 238 239 b0 && is_cont b1).

(** The second byte allowed after a four-byte lead. *)
Definition second4 (b0 b1 : Z) : bool :=
  ((b0 =? 240) && between 144 191 b1) ||
  (between 241 243 b0 && is_cont b1) ||
  ((b0 =? 244) && between 128 143 b1).

(** [String::from_utf8_lossy(b).into_owned()] *)
Fixpoint decode_utf8 (l : bytes) : bytes :=
  match l with
  | [] => []
  | b0 :: l1 =>
    if b0 <? 128 then b0 :: decode_utf8 l1
    else if between 194 223 b0 then
      match l1 with
      | b1 :: l2 =>
        if is_cont b1 then b0 :: b1 :: decode_utf8 l2 else REPLACEMENT ++ decode_utf8 l1
      | [] => REPLACEMENT
      end
    else if between 224 239 b0 then
      match l1 with
      | b1 :: l2 =>
        if second3 b0 b1 then
          match l2 with
          | b2 :: l3 =>
            if is_cont b2 then b0 :: b1 :: b2 :: decode_utf8 l3
            else REPLACEMENT ++ decode_utf8 l2
          | [] => REPLACEMENT
          end
        else REPLACEMENT ++ decode_utf8 l1
      | [] => REPLACEMENT
      end
    else if between 240 244 b0 then
      match l1 with
      | b1 :: l2 =>
        if second4 b0 b1 then
          match l2 with
          | b2 :: l3 =>
            if is_cont b2 then
              match l3 with
              | b3 :: l4 =>
                if is_cont b3 then b0 :: b1 :: b2 :: b3 :: decode_utf8 l4
                else REPLACEMENT ++ decode_utf8 l3
              | [] => REPLACEMENT
              end
            else REPLACEMENT ++ decode_utf8 l2
          | [] => REPLACEMENT
          end
        else REPLACEMENT ++ decode_utf8 l1
      | [] => REPLACEMENT
      end
    else REPLACEMENT ++ decode_utf8 l1
  end.

(** The invariant of a [String]: a sequence of well-formed UTF-8 sequences. *)
Inductive utf8_valid : bytes -> Prop :=
  | utf8_nil : utf8_valid []
  | utf8_1 b0 l : 0 <= b0 < 128 -> utf8_valid l -> utf8_valid (b0 :: l)
  | utf8_2 b0 b1 l :
      between 194 223 b0 = true -> is_cont b1 = true ->
      utf8_valid l -> utf8_valid (b0 :: b1 :: l)
  | utf8_3 b0 b1 b2 l :
      between 224 239 b0 = true -> second3 b0 b1 = true -> is_cont b2 = true ->
      utf8_valid l -> utf8_valid (b0 :: b1 :: b2 :: l)
  | utf8_4 b0 b1 b2 b3 l :
      between 240 244 b0 = true -> second4 b0 b1 = true ->
      is_cont b2 = true -> is_cont b3 = true ->
      utf8_valid l -> utf8_valid (b0 :: b1 :: b2 :: b3 :: l).

#[export] Hint Constructors utf8_valid : h2ts.

(** ** Lemmas *)

Ltac between_lia := unfold second3, second4, is_cont, between in *; lia.

Lemma utf8_valid_bytes_ok l : utf8_valid l -> bytes_ok l.
Proof.
  unfold bytes_ok, is_u8. induction 1; repeat constructor; try done; between_lia.
Qed.

(** Decoding a valid string returns it unchanged. *)
Lemma decode_utf8_valid l : utf8_valid l -> decode_utf8 l = l.
Proof.
  induction 1; simpl; [done|..].
  - by destruct (Z.ltb_spec b0 128); [congruence|lia].
  - destruct (Z.ltb_spec b0 128); [between_lia|]. rewrite H, H0. congruence.
  - destruct (Z.ltb_spec b0 128); [between_lia|].
    destruct (between 194 223 b0) eqn:?; [between_lia|].
    rewrite H, H0, H1. congruence.
  - destruct (Z.ltb_spec b0 128); [between_lia|].
    destruct (between 194 223 b0) eqn:?; [between_lia|].
    destruct (between 224 239 b0) eqn:?; [between_lia|].
    rewrite H, H0, H1, H2. congruence.
Qed.

Lemma utf8_valid_replacement l : utf8_valid l -> utf8_valid (REPLACEMENT ++ l).
Proof. intros. simpl. by apply utf8_3. Qed.
#[export] Hint Resolve utf8_valid_replacement : h2ts.

(** Whatever the bytes, the result is a valid string: a decoded header name or
    value is always a [String]. *)
Lemma decode_utf8_is_valid l : bytes_ok l -> utf8_valid (decode_utf8 l).
Proof.
  remember (length l) as n eqn:Hn. revert l Hn.
  induction (lt_wf n) as [n _ IH]. intros l -> Hok.
  assert (forall l', (length l' < length l)%nat -> bytes_ok l' -> utf8_valid (decode_utf8 l'))
    as IH' by (intros; by eapply IH).
  clear IH.
  destruct Hok as [|b0 l1 H0 Hok]; [simpl; eauto with h2ts|].
  assert (utf8_valid (decode_utf8 l1)) as V1 by (apply IH'; simpl; [lia|done]).
  assert (utf8_valid REPLACEMENT) as VR by (apply (utf8_valid_replacement []); eauto with h2ts).
  unfold is_u8 in H0. simpl. destruct (Z.ltb_spec b0 128); [apply utf8_1; [lia|done]|].
  destruct Hok as [|b1 l2 H1 Hok];
    [repeat (case_match; eauto with h2ts)|].
  assert (utf8_valid (decode_utf8 l2)) as V2 by (apply IH'; simpl; [lia|done]).
  destruct Hok as [|b2 l3 H2 Hok];
    [repeat (case_match; eauto with h2ts)|].
  assert (utf8_valid (decode_utf8 l3)) as V3 by (apply IH'; simpl; [lia|done]).
  destruct Hok as [|b3 l4 H3 Hok];
    [repeat (case_match; eauto with h2ts)|].
  assert (utf8_valid (decode_utf8 l4)) as V4 by (apply IH'; simpl; [lia|done]).
  repeat (case_match; eauto with h2ts).
Qed.

Lemma utf8_valid_app l1 l2 : utf8_valid l1 -> utf8_valid l2 -> utf8_valid (l1 ++ l2).
Proof. induction 1; simpl; eauto with h2ts. Qed.

Lemma utf8_valid_ascii l : Forall (fun b => 0 <= b < 128) l -> utf8_valid l.
Proof. induction 1; eauto with h2ts. Qed.
