(* ===== verification/Frames.v ===== *)
(** * Frames: the HTTP/2 frame model and codec

    Models [rust/crates/h2ts-client/src/frames.rs]: the [Frame] enum,
    [serialize_frame] (9-byte header and payload), [parse_payload] and the
    streaming [FrameDecoder].  The theorems about them are in FramesFacts.v. *)

From S2P Require Import Prelude Errors Bytes.

Definition FRAME_HEADER_SIZE : Z := 9.
Definition DEFAULT_MAX_FRAME_SIZE : Z := 16384.

(** Frame type identifiers (RFC 7540 section 6). *)
Module frame_type.
Definition DATA : Z := 0.
Definition HEADERS : Z := 1.
Definition PRIORITY : Z := 2.
Definition RST_STREAM : Z := 3.
Definition SETTINGS : Z := 4.
Definition PUSH_PROMISE : Z := 5.
Definition PING : Z := 6.
Definition GOAWAY : Z := 7.
Definition WINDOW_UPDATE : Z := 8.
Definition CONTINUATION : Z := 9.
End frame_type.

(** Flag bits per frame type. *)
Module flags.
Definition DATA_END_STREAM : Z := 1.
Definition DATA_PADDED : Z := 8.
Definition HEADERS_END_STREAM : Z := 1.
Definition HEADERS_END_HEADERS : Z := 4.
Definition HEADERS_PADDED : Z := 8.
Definition HEADERS_PRIORITY : Z := 32.
Definition SETTINGS_ACK : Z := 1.
Definition PING_ACK : Z := 1.
Definition PUSH_PROMISE_END_HEADERS : Z := 4.
Definition PUSH_PROMISE_PADDED : Z := 8.
Definition CONTINUATION_END_HEADERS : Z := 4.
End flags.

(** SETTINGS parameters; absent fields are [None]. *)
Record Settings := mkSettings {
  header_table_size : option Z;
  enable_push : option bool;
  max_concurrent_streams : option Z;
  initial_window_size : option Z;
  max_frame_size : option Z;
  max_header_list_size : option Z;
}.

Definition default_settings : Settings := mkSettings None None None None None None.

Record Priority := mkPriority {
  stream_dependency : Z;
  weight : Z;
  exclusive : bool;
}.

Module Frame.
Inductive t :=
  | Data (stream_id : Z) (data : bytes) (end_stream : bool)
  | Headers (stream_id : Z) (header_block_fragment : bytes)
      (end_stream end_headers : bool) (priority : option Priority)
  | Priority (stream_id : Z) (priority : Priority)
  | RstStream (stream_id error_code : Z)
  | Settings (ack : bool) (settings : Settings)
  | PushPromise (stream_id promised_stream_id : Z)
      (header_block_fragment : bytes) (end_headers : bool)
  | Ping (ack : bool) (opaque_data : bytes)
  | Goaway (last_stream_id error_code : Z) (debug_data : bytes)
  | WindowUpdate (stream_id window_size_increment : Z)
  | Continuation (stream_id : Z) (header_block_fragment : bytes) (end_headers : bool).
End Frame.

#[global] Instance Settings_eq_dec : EqDecision Settings.
Proof. solve_decision. Defined.
#[global] Instance Priority_eq_dec : EqDecision Priority.
Proof. solve_decision. Defined.
#[global] Instance Frame_eq_dec : EqDecision Frame.t.
Proof. solve_decision. Defined.

Record Encoded := mkEncoded {
  type_id : Z;
  flag_bits : Z;
  enc_stream_id : Z;
  payload : bytes;
}.

Section codec.
Context {arch : Arch}.

(** [weight - 1] on a [u16]: underflow panics under overflow checks. *)
Definition weight_minus_1 (w : Z) : result Z :=
  if w <? 1 then (if overflow_checks then Panic else Ok (as_u16 (w - 1)))
  else Ok (w - 1).

(** The dependency word and weight byte of HEADERS and PRIORITY. *)
Definition write_priority (p : Priority) (w : ByteWriter.t) : result ByteWriter.t :=
  let dep := Z.land (stream_dependency p) 2147483647 in
  let w := ByteWriter.u32 (if exclusive p then Z.lor dep 2147483648 else dep) w in
  wt ← weight_minus_1 (weight p);
  mret (ByteWriter.u8 (as_u8 wt) w).

(** One SETTINGS parameter, when present. *)
Definition write_setting (id : Z) (v : option Z) (w : ByteWriter.t) : ByteWriter.t :=
  match v with
  | Some v => ByteWriter.u32 v (ByteWriter.u16 id w)
  | None => w
  end.

Definition bool_to_u32 (b : bool) : Z := if b then 1 else 0.

Definition encode_goaway (last_stream_id error_code : Z) (debug_data : bytes) : result Encoded :=
  let w := ByteWriter.u32 (Z.land last_stream_id 2147483647) ByteWriter.new in
  let w := ByteWriter.u32 error_code w in
  let w := ByteWriter.bytes debug_data w in
  mret (mkEncoded frame_type.GOAWAY 0 0 (ByteWriter.into_vec w)).

Definition encode_window_update (stream_id window_size_increment : Z) : result Encoded :=
  let w := ByteWriter.u32 (Z.land window_size_increment 2147483647) ByteWriter.new in
  mret (mkEncoded frame_type.WINDOW_UPDATE 0 stream_id (ByteWriter.into_vec w)).

Definition encode_body (frame : Frame.t) : result Encoded :=
  match frame with
  | Frame.Data stream_id data end_stream =>
      mret (mkEncoded frame_type.DATA
        (if end_stream then flags.DATA_END_STREAM else 0) stream_id data)
  | Frame.Headers stream_id header_block_fragment end_stream end_headers priority =>
      let f := if end_headers then flags.HEADERS_END_HEADERS else 0 in
      let f := if end_stream then Z.lor f flags.HEADERS_END_STREAM else f in
      match priority with
      | Some p =>
          let f := Z.lor f flags.HEADERS_PRIORITY in
          w ← write_priority p ByteWriter.new;
          let w := ByteWriter.bytes header_block_fragment w in
          mret (mkEncoded frame_type.HEADERS f stream_id (ByteWriter.into_vec w))
      | None => mret (mkEncoded frame_type.HEADERS f stream_id header_block_fragment)
      end
  | Frame.Priority stream_id priority =>
      w ← write_priority priority ByteWriter.new;
      mret (mkEncoded frame_type.PRIORITY 0 stream_id (ByteWriter.into_vec w))
  | Frame.RstStream stream_id error_code =>
      mret (mkEncoded frame_type.RST_STREAM 0 stream_id
        (ByteWriter.u32 error_code ByteWriter.new))
  | Frame.Settings ack settings =>
      let w := write_setting 1 (header_table_size settings) ByteWriter.new in
      let w := write_setting 2 (bool_to_u32 <$> enable_push settings) w in
      let w := write_setting 3 (max_concurrent_streams settings) w in
      let w := write_setting 4 (initial_window_size settings) w in
      let w := write_setting 5 (max_frame_size settings) w in
      let w := write_setting 6 (max_header_list_size settings) w in
      mret (mkEncoded frame_type.SETTINGS (if ack then flags.SETTINGS_ACK else 0) 0
        (ByteWriter.into_vec w))
  | Frame.PushPromise stream_id promised_stream_id header_block_fragment end_headers =>
      let w := ByteWriter.u32 (Z.land promised_stream_id 2147483647) ByteWriter.new in
      let w := ByteWriter.bytes header_block_fragment w in
      mret (mkEncoded frame_type.PUSH_PROMISE
        (if end_headers then flags.PUSH_PROMISE_END_HEADERS else 0) stream_id
        (ByteWriter.into_vec w))
  | Frame.Ping ack opaque_data =>
      mret (mkEncoded frame_type.PING (if ack then flags.PING_ACK else 0) 0 opaque_data)
  | Frame.Goaway last_stream_id error_code debug_data =>
      encode_goaway last_stream_id error_code debug_data
  | Frame.WindowUpdate stream_id window_size_increment =>
      encode_window_update stream_id window_size_increment
  | Frame.Continuation stream_id header_block_fragment end_headers =>
      mret (mkEncoded frame_type.CONTINUATION
        (if end_headers then flags.CONTINUATION_END_HEADERS else 0) stream_id
        header_block_fragment)
  end.

(** The 9-byte header: [payload.len() as u32] truncated to 24 bits, type, flags,
    31-bit stream id. *)
Definition frame_header (len : Z) (ty fl sid : Z) : bytes :=
  ByteWriter.u32 (Z.land sid 2147483647)
    (ByteWriter.u8 fl (ByteWriter.u8 ty (ByteWriter.u24 (as_u32 len) ByteWriter.new))).

Definition serialize_frame (frame : Frame.t) : result bytes :=
  e ← encode_body frame;
  mret (ByteWriter.bytes (payload e)
    (frame_header (zlen (payload e)) (type_id e) (flag_bits e) (enc_stream_id e))).

End codec.

(** ** Parsing *)

Definition truncated : H2Error.t :=
  H2Error.new ErrorCode.ProtocolError "truncated frame payload".

(** [checked_sub] on [usize]. *)
Definition checked_sub (a b : Z) : option Z := if a <? b then None else Some (a - b).

Definition read_padded (r : ByteReader.t) (len : Z) (padded : bool) : result bytes :=
  if negb padded then '(data, _) ← ok_or truncated (ByteReader.bytes len r); mret data
  else if len <? 1 then
    Err (H2Error.new ErrorCode.ProtocolError "padded frame missing pad length")
  else
    '(pad_length, r) ← ByteReader.u8 r;
    data_length ← ok_or
      (H2Error.new ErrorCode.ProtocolError "pad length exceeds frame payload")
      (checked_sub (len - 1) pad_length);
    '(data, r) ← ok_or truncated (ByteReader.bytes data_length r);
    let _ := ByteReader.bytes pad_length r in
    mret data.

(** [let dep = r.u32(); let weight = r.u8() as u16 + 1; Priority { .. }] *)
Definition read_priority (r : ByteReader.t) : result (Priority * ByteReader.t) :=
  '(dep, r) ← ByteReader.u32 r;
  '(wt, r) ← ByteReader.u8 r;
  mret (mkPriority (Z.land dep 2147483647) (wt + 1) (has_flag dep 2147483648), r).

(** The pad-length byte of HEADERS and PUSH_PROMISE, 0 when not padded. *)
Definition read_pad_length (r : ByteReader.t) (len : Z) (padded : bool) (msg : string)
    : result (Z * ByteReader.t) :=
  if padded then
    if len <? 1 then Err (H2Error.new ErrorCode.ProtocolError msg) else ByteReader.u8 r
  else mret (0, r).

Definition bool_to_usize (b : bool) : Z := if b then 1 else 0.

(** One SETTINGS entry, by identifier; unknown ones are ignored. *)
Definition set_setting (id value : Z) (s : Settings) : Settings :=
  let '(mkSettings a b c d e f) := s in
  match id with
  | 1 => mkSettings (Some value) b c d e f
  | 2 => mkSettings a (Some (negb (value =? 0))) c d e f
  | 3 => mkSettings a b (Some value) d e f
  | 4 => mkSettings a b c (Some value) e f
  | 5 => mkSettings a b c d (Some value) f
  | 6 => mkSettings a b c d e (Some value)
  | _ => s
  end.

(** [for _ in 0..len / 6] *)
Fixpoint read_settings (n : nat) (r : ByteReader.t) (s : Settings) : result Settings :=
  match n with
  | O => mret s
  | S n =>
      '(id, r) ← ByteReader.u16 r;
      '(value, r) ← ByteReader.u32 r;
      read_settings n r (set_setting id value s)
  end.

(** The arms of [parse_payload] for PUSH_PROMISE, PING, GOAWAY and WINDOW_UPDATE. *)
Definition parse_push_promise (fl stream_id len : Z) (r : ByteReader.t) : result (option Frame.t) :=
  let padded := has_flag fl flags.PUSH_PROMISE_PADDED in
  '(pad_length, r) ← read_pad_length r len padded "invalid PUSH_PROMISE padding";
  if ByteReader.remaining r <? 4 then
    Err (H2Error.new ErrorCode.ProtocolError "PUSH_PROMISE truncated")
  else
    '(word, r) ← ByteReader.u32 r;
    let promised := Z.land word 2147483647 in
    let overhead := bool_to_usize padded + 4 + pad_length in
    frag_length ← ok_or
      (H2Error.new ErrorCode.ProtocolError "invalid PUSH_PROMISE padding")
      (checked_sub len overhead);
    '(fragment, _) ← ok_or truncated (ByteReader.bytes frag_length r);
    mret (Some (Frame.PushPromise stream_id promised fragment
      (has_flag fl flags.PUSH_PROMISE_END_HEADERS))).

Definition parse_ping (fl len : Z) (r : ByteReader.t) : result (option Frame.t) :=
  if negb (len =? 8) then
    Err (H2Error.new ErrorCode.FrameSizeError "PING must be 8 bytes")
  else
    '(opaque, _) ← ok_or truncated (ByteReader.bytes 8 r);
    mret (Some (Frame.Ping (has_flag fl flags.PING_ACK) opaque)).

Definition parse_goaway (len : Z) (r : ByteReader.t) : result (option Frame.t) :=
  if len <? 8 then Err (H2Error.new ErrorCode.FrameSizeError "GOAWAY too short")
  else
    '(word, r) ← ByteReader.u32 r;
    let last_stream_id := Z.land word 2147483647 in
    '(error_code, r) ← ByteReader.u32 r;
    '(debug_data, _) ← ok_or truncated (ByteReader.bytes (len - 8) r);
    mret (Some (Frame.Goaway last_stream_id error_code debug_data)).

Definition parse_window_update (stream_id len : Z) (r : ByteReader.t) : result (option Frame.t) :=
  if negb (len =? 4) then
    Err (H2Error.new ErrorCode.FrameSizeError "WINDOW_UPDATE must be 4 bytes")
  else
    '(word, _) ← ByteReader.u32 r;
    mret (Some (Frame.WindowUpdate stream_id (Z.land word 2147483647))).

(** [parse_payload]; [Ok None] is an unknown frame type, to be skipped. *)
Definition parse_payload (ty fl stream_id : Z) (payload : bytes)
    : result (option Frame.t) :=
  let r := ByteReader.new payload in
  let len := zlen payload in
  if ty =? frame_type.DATA then
    data ← read_padded r len (has_flag fl flags.DATA_PADDED);
    mret (Some (Frame.Data stream_id data (has_flag fl flags.DATA_END_STREAM)))
  else if ty =? frame_type.HEADERS then
    let padded := has_flag fl flags.HEADERS_PADDED in
    let has_priority := has_flag fl flags.HEADERS_PRIORITY in
    '(pad_length, r) ← read_pad_length r len padded "invalid HEADERS padding";
    '(priority, r) ←
      (if has_priority then
         if ByteReader.remaining r <? 5 then
           Err (H2Error.new ErrorCode.ProtocolError "HEADERS priority truncated")
         else '(p, r) ← read_priority r; mret (Some p, r)
       else mret (None, r));
    let overhead := bool_to_usize padded + (if has_priority then 5 else 0) + pad_length in
    frag_length ← ok_or
      (H2Error.new ErrorCode.ProtocolError "invalid HEADERS padding")
      (checked_sub len overhead);
    '(fragment, _) ← ok_or truncated (ByteReader.bytes frag_length r);
    mret (Some (Frame.Headers stream_id fragment
      (has_flag fl flags.HEADERS_END_STREAM) (has_flag fl flags.HEADERS_END_HEADERS)
      priority))
  else if ty =? frame_type.PRIORITY then
    if negb (len =? 5) then
      Err (H2Error.stream ErrorCode.FrameSizeError "PRIORITY must be 5 bytes" stream_id)
    else
      '(p, _) ← read_priority r;
      mret (Some (Frame.Priority stream_id p))
  else if ty =? frame_type.RST_STREAM then
    if negb (len =? 4) then
      Err (H2Error.new ErrorCode.FrameSizeError "RST_STREAM must be 4 bytes")
    else
      '(error_code, _) ← ByteReader.u32 r;
      mret (Some (Frame.RstStream stream_id error_code))
  else if ty =? frame_type.SETTINGS then
    let ack := has_flag fl flags.SETTINGS_ACK in
    if ack && negb (len =? 0) then
      Err (H2Error.new ErrorCode.FrameSizeError "SETTINGS ACK must be empty")
    else if negb (len mod 6 =? 0) then
      Err (H2Error.new ErrorCode.FrameSizeError "SETTINGS length not multiple of 6")
    else
      settings ← read_settings (Z.to_nat (len / 6)) r default_settings;
      mret (Some (Frame.Settings ack settings))
  else if ty =? frame_type.PUSH_PROMISE then
    parse_push_promise fl stream_id len r
  else if ty =? frame_type.PING then parse_ping fl len r
  else if ty =? frame_type.GOAWAY then parse_goaway len r
  else if ty =? frame_type.WINDOW_UPDATE then parse_window_update stream_id len r
  else if ty =? frame_type.CONTINUATION then
    '(fragment, _) ← ok_or truncated (ByteReader.bytes len r);
    mret (Some (Frame.Continuation stream_id fragment
      (has_flag fl flags.CONTINUATION_END_HEADERS)))
  else mret None.

(** ** The streaming decoder *)

Module FrameDecoder.

Record t := mk { pending : bytes; max_frame_size : Z }.

Definition new (max_frame_size : Z) : t := mk [] max_frame_size.
Definition default : t := new DEFAULT_MAX_FRAME_SIZE.

(** [while buf.len() - offset >= FRAME_HEADER_SIZE { .. }]: the frames read and
    the final offset.  Every turn moves [offset] by at least nine bytes, so
    [length buf] turns are enough. *)
Fixpoint push_loop (fuel : nat) (max : Z) (buf : bytes) (offset : nat)
    (frames : list Frame.t) : result (list Frame.t * nat) :=
  match fuel with
  | O => OutOfFuel
  | S fuel =>
    if zlen buf - Z.of_nat offset <? FRAME_HEADER_SIZE then mret (frames, offset)
    else
      b0 ← expect (buf !! offset);
      b1 ← expect (buf !! (offset + 1)%nat);
      b2 ← expect (buf !! (offset + 2)%nat);
      let length := Z.lor (Z.lor (Z.shiftl b0 16) (Z.shiftl b1 8)) b2 in
      if max <? length then
        Err (H2Error.new ErrorCode.FrameSizeError
          ("frame length " +:+ pretty length +:+ " exceeds max " +:+ pretty max))
      else
        let total := FRAME_HEADER_SIZE + length in
        if zlen buf - Z.of_nat offset <? total then mret (frames, offset)
        else
          ty ← expect (buf !! (offset + 3)%nat);
          fl ← expect (buf !! (offset + 4)%nat);
          s0 ← expect (buf !! (offset + 5)%nat);
          s1 ← expect (buf !! (offset + 6)%nat);
          s2 ← expect (buf !! (offset + 7)%nat);
          s3 ← expect (buf !! (offset + 8)%nat);
          let stream_id := Z.land (u32_from_be_bytes s0 s1 s2 s3) 2147483647 in
          payload ← expect (slice (offset + Z.to_nat FRAME_HEADER_SIZE)
            (offset + Z.to_nat total) buf);
          frame ← parse_payload ty fl stream_id payload;
          let frames := match frame with Some f => frames ++ [f] | None => frames end in
          push_loop fuel max buf (offset + Z.to_nat total) frames
  end.

(** [push]: [pending] is taken first, so an error leaves it empty. *)
Definition push (chunk : bytes) : ST t H2Error.t (list Frame.t) :=
  d ← st_get;
  let buf := match pending d with [] => chunk | p => p ++ chunk end in
  _ ← st_put (mk [] (max_frame_size d));
  '(frames, offset) ← st_lift (push_loop (S (length buf)) (max_frame_size d) buf 0 []);
  _ ← st_put (mk (if (offset =? length buf)%nat then [] else drop offset buf)
                 (max_frame_size d));
  mret frames.

End FrameDecoder.
