(* ===== verification/FramesFacts.v ===== *)
(** * FramesFacts: correctness of the frame codec

    The streaming decoder is compared with a reference, [deframe], which reads
    one frame at a time off a byte string; from that follow independence of the
    chunking, the round trip with [serialize_frame], totality and the bound on
    what the decoder buffers. *)

From S2P Require Import Prelude Errors Bytes Frames.

(** ** Reference: one frame off a byte string *)

(** [Ok None]: the frame at the head of [l] is not complete yet;
    [Ok (Some (f, n))]: it takes [n] bytes, and [f] is [None] when its type is
    unknown. *)
Definition frame_at (max : Z) (l : bytes) : result (option (option Frame.t * nat)) :=
  match l with
  | b0 :: b1 :: b2 :: ty :: fl :: s0 :: s1 :: s2 :: s3 :: rest =>
      let length := Z.lor (Z.lor (Z.shiftl b0 16) (Z.shiftl b1 8)) b2 in
      if max <? length then
        Err (H2Error.new ErrorCode.FrameSizeError
          ("frame length " +:+ pretty length +:+ " exceeds max " +:+ pretty max))
      else if zlen l <? 9 + length then mret None
      else
        let stream_id := Z.land (u32_from_be_bytes s0 s1 s2 s3) 2147483647 in
        frame ← parse_payload ty fl stream_id (take (Z.to_nat length) rest);
        mret (Some (frame, Z.to_nat (9 + length)))
  | _ => mret None
  end.

Fixpoint deframe_fuel (fuel : nat) (max : Z) (l : bytes) : result (list Frame.t * bytes) :=
  match fuel with
  | O => OutOfFuel
  | S fuel =>
      o ← frame_at max l;
      match o with
      | None => mret ([], l)
      | Some (f, n) =>
          '(fs, rest) ← deframe_fuel fuel max (drop n l);
          mret (option_list f ++ fs, rest)
      end
  end.

(** All the complete frames of [l], and the bytes of the incomplete last one. *)
Definition deframe (max : Z) (l : bytes) : result (list Frame.t * bytes) :=
  deframe_fuel (S (length l)) max l.

(** Pushing chunks one after the other, up to the first error. *)
Fixpoint push_all (chunks : list bytes) : ST FrameDecoder.t H2Error.t (list Frame.t) :=
  match chunks with
  | [] => mret []
  | c :: chunks =>
      fs ← FrameDecoder.push c;
      fs' ← push_all chunks;
      mret (fs ++ fs')
  end.

(** The decoder holds an incomplete frame only. *)
Definition decoder_ok (d : FrameDecoder.t) : Prop :=
  frame_at (FrameDecoder.max_frame_size d) (FrameDecoder.pending d) = Ok None.

(** ** [parse_payload] always returns *)

Section parse_returns.

Lemma checked_sub_Some a b c : checked_sub a b = Some c <-> b <= a /\ c = a - b.
Proof. unfold checked_sub. destruct (Z.ltb_spec a b); naive_solver lia. Qed.

Lemma returns_if {E A} (b : bool) (m1 m2 : outcome E A) :
  (b = true -> returns m1) -> (b = false -> returns m2) -> returns (if b then m1 else m2).
Proof. destruct b; auto. Qed.

Lemma returns_u8 r :
  (0 < length (ByteReader.view r))%nat -> returns (ByteReader.u8 (E:=H2Error.t) r).
Proof. rewrite u8_view. by destruct (ByteReader.view r); simpl; [lia|]. Qed.

Lemma u8_Ok r x :
  ByteReader.u8 (E:=H2Error.t) r = Ok x ->
  exists b l, ByteReader.view r = b :: l /\ x = (b, ByteReader.advance 1 r).
Proof. rewrite u8_view. destruct (ByteReader.view r); [done|]. intros [= <-]. eauto. Qed.

Lemma u16_Ok r x :
  ByteReader.u16 (E:=H2Error.t) r = Ok x ->
  exists a b l, ByteReader.view r = a :: b :: l /\
    x = (u16_from_be_bytes a b, ByteReader.advance 2 r).
Proof.
  unfold ByteReader.u16. rewrite !index_view.
  destruct (ByteReader.view r) as [|a [|b l]]; try done. intros [= <-]. eauto.
Qed.

Lemma u32_Ok r x :
  ByteReader.u32 (E:=H2Error.t) r = Ok x ->
  exists a b c d l, ByteReader.view r = a :: b :: c :: d :: l /\
    x = (u32_from_be_bytes a b c d, ByteReader.advance 4 r).
Proof.
  unfold ByteReader.u32. rewrite !index_view.
  destruct (ByteReader.view r) as [|a [|b [|c [|d l]]]]; try done. intros [= <-].
  repeat eexists.
Qed.

Lemma returns_u16 r :
  (2 <= length (ByteReader.view r))%nat -> returns (ByteReader.u16 (E:=H2Error.t) r).
Proof.
  unfold ByteReader.u16. rewrite !index_view.
  destruct (ByteReader.view r) as [|a [|b l]]; simpl; (lia || done).
Qed.

Lemma returns_u32 r :
  (4 <= length (ByteReader.view r))%nat -> returns (ByteReader.u32 (E:=H2Error.t) r).
Proof.
  unfold ByteReader.u32. rewrite !index_view.
  destruct (ByteReader.view r) as [|a [|b [|c [|d l]]]]; simpl; (lia || done).
Qed.

Lemma returns_read_priority r :
  (5 <= length (ByteReader.view r))%nat -> returns (read_priority r).
Proof.
  intros H. apply returns_bind; [by apply returns_u32; lia|].
  intros x (a & b & c & d & l & Hv & ->)%u32_Ok.
  apply returns_bind; [apply returns_u8; reader; rewrite Hv in *; reader; simpl in H; lia|].
  by intros [].
Qed.

Lemma returns_read_settings n r s :
  (6 * n <= length (ByteReader.view r))%nat -> returns (read_settings n r s).
Proof.
  revert r s. induction n as [|n IH]; intros r s H; simpl; [done|].
  apply returns_bind; [apply returns_u16; lia|].
  intros x (a & b & l & Hv & ->)%u16_Ok.
  assert (ByteReader.view (ByteReader.advance 2 r) = l) as Hv2
    by (by reader; rewrite Hv; reader).
  rewrite Hv in H. simpl in H.
  apply returns_bind; [apply returns_u32; rewrite Hv2; lia|].
  intros y (a' & b' & c' & d' & l' & Hv' & ->)%u32_Ok.
  apply IH. reader. rewrite <- Hv2, Hv' in H. simpl in H. rewrite <- view_advance.
  reader. rewrite view_advance in Hv'. rewrite Hv'. reader. lia.
Qed.

Lemma returns_read_pad_length r len padded msg :
  zlen (ByteReader.view r) = len -> returns (read_pad_length r len padded msg).
Proof.
  intros <-. unfold read_pad_length. destruct padded; [|done].
  destruct (Z.ltb_spec (zlen (ByteReader.view r)) 1); [done|].
  apply returns_u8. unfold zlen in *. lia.
Qed.

Lemma returns_expect_bytes n r :
  returns (ok_or truncated (ByteReader.bytes n r)).
Proof. apply returns_ok_or. Qed.

Lemma returns_read_padded payload padded :
  returns (read_padded (ByteReader.new payload) (zlen payload) padded).
Proof.
  unfold read_padded. destruct padded; simpl.
  - destruct (Z.ltb_spec (zlen payload) 1); [done|].
    apply returns_bind; [apply returns_u8; rewrite view_new; unfold zlen in *; lia|].
    intros [pad r] _. do 2 (apply returns_bind; [apply returns_ok_or|]; intros ? _).
    by case_match.
  - apply returns_bind; [apply returns_ok_or|]. by intros [].
Qed.
End parse_returns.

Ltac returns_step :=
  match goal with
  | |- returns (if _ then _ else _) => apply returns_if; intros
  | |- returns (ok_or _ _ ≫= _) => apply returns_bind; [apply returns_ok_or|intros [] _]
  | |- returns (Ok _) => exact I
  | |- returns (Err _) => exact I
  | |- returns (mret _) => exact I
  | |- returns (let '(_, _) := ?x in _) => destruct x
  end.

Lemma read_pad_length_wf r len padded msg p r' :
  ByteReader.wf r -> read_pad_length r len padded msg = Ok (p, r') -> ByteReader.wf r'.
Proof.
  intros Hw. unfold read_pad_length. destruct padded; [|by intros [= <- <-]].
  case_match; [done|]. intros (b & l & Hv & [= -> ->])%u8_Ok.
  apply wf_advance; [|done]. rewrite Hv. simpl. lia.
Qed.

Lemma remaining_ge r n :
  ByteReader.wf r -> (ByteReader.remaining r <? n) = false ->
  n <= zlen (ByteReader.view r).
Proof. intros ?. rewrite remaining_view by done. lia. Qed.

Lemma parse_headers_returns payload fl id :
  returns (parse_payload frame_type.HEADERS fl id payload).
Proof.
  unfold parse_payload, parse_push_promise, parse_ping, parse_goaway, parse_window_update. simpl.
  apply returns_bind; [by apply returns_read_pad_length|]. intros [pad r] Hr.
  apply read_pad_length_wf in Hr; [|apply wf_new].
  apply returns_bind; [repeat returns_step|].
  - apply returns_bind; [|by intros []].
    apply returns_read_priority. apply remaining_ge in H0; [|done].
    unfold zlen in H0. lia.
  - intros [pr r'] _. repeat returns_step.
Qed.

Lemma parse_push_promise_returns payload fl id :
  returns (parse_payload frame_type.PUSH_PROMISE fl id payload).
Proof.
  unfold parse_payload, parse_push_promise, parse_ping, parse_goaway, parse_window_update. simpl.
  apply returns_bind; [by apply returns_read_pad_length|]. intros [pad r] Hr.
  apply read_pad_length_wf in Hr; [|apply wf_new].
  repeat returns_step. apply returns_bind.
  - apply returns_u32. apply remaining_ge in H; [|done]. unfold zlen in H. lia.
  - intros [w r'] _. repeat returns_step.
Qed.

Lemma eqb_false_eq a b : negb (a =? b) = false -> a = b.
Proof. rewrite negb_false_iff. apply Z.eqb_eq. Qed.

(** Parsing a payload never panics, whatever the bytes. *)
Lemma parse_payload_returns ty fl id payload :
  returns (parse_payload ty fl id payload).
Proof.
  destruct (Z.eq_dec ty frame_type.HEADERS) as [->|];
    [apply parse_headers_returns|].
  destruct (Z.eq_dec ty frame_type.PUSH_PROMISE) as [->|];
    [apply parse_push_promise_returns|].
  unfold parse_payload, parse_push_promise, parse_ping, parse_goaway, parse_window_update.
  repeat first
    [ progress returns_step
    | match goal with
      | H : negb (zlen _ =? _) = false |- _ => apply eqb_false_eq in H
      | |- returns (read_padded _ _ _ ≫= _) =>
          apply returns_bind; [apply returns_read_padded|intros ? _]
      | H : (ty =? _) = true |- _ => apply Z.eqb_eq in H; done
      end ].
  - apply returns_bind; [apply returns_read_priority|by intros []].
    rewrite view_new. unfold zlen in *. lia.
  - apply returns_bind; [apply returns_u32|by intros []].
    rewrite view_new. unfold zlen in *. lia.
  - apply returns_bind; [apply returns_read_settings|done].
    rewrite view_new. apply eqb_false_eq in H5. unfold zlen in *. zlia.
  - apply returns_bind; [apply returns_u32; rewrite view_new; unfold zlen in *; lia|].
    intros x (a & b & c & d & l & Hv & ->)%u32_Ok.
    apply returns_bind; [apply returns_u32; reader|].
    + rewrite view_new in Hv. subst. reader. unfold zlen in *. simpl in *. lia.
    + intros [w r'] _. repeat returns_step.
  - apply returns_bind; [apply returns_u32|by intros []].
    rewrite view_new. unfold zlen in *. lia.
Qed.
#[export] Hint Resolve parse_payload_returns : h2ts.

(** ** The reference reader *)

Lemma list_9 (l : bytes) :
  (9 <= length l)%nat ->
  exists b0 b1 b2 ty fl s0 s1 s2 s3 rest,
    l = b0 :: b1 :: b2 :: ty :: fl :: s0 :: s1 :: s2 :: s3 :: rest.
Proof.
  intros H. do 9 (destruct l as [|? l]; simpl in H; [lia|]). repeat eexists.
Qed.

Lemma frame_at_short max l : zlen l < 9 -> frame_at max l = Ok None.
Proof.
  unfold zlen. intros H. do 9 (destruct l as [|? l]; [done|]). simpl in H. lia.
Qed.

Lemma frame_at_returns max l : returns (frame_at max l).
Proof.
  destruct (decide (9 <= length l)%nat) as [H9|].
  - apply list_9 in H9 as (b0&b1&b2&ty&fl&s0&s1&s2&s3&rest&->). unfold frame_at.
    repeat returns_step. apply returns_bind; [auto with h2ts|done].
  - by rewrite frame_at_short by (unfold zlen; lia).
Qed.

Lemma length24_nonneg b0 b1 b2 l :
  bytes_ok (b0 :: b1 :: b2 :: l) ->
  0 <= Z.lor (Z.lor (Z.shiftl b0 16) (Z.shiftl b1 8)) b2.
Proof.
  unfold bytes_ok. rewrite !Forall_cons. unfold is_u8. intros (?&?&?&_).
  rewrite !Z.lor_nonneg, !Z.shiftl_nonneg. lia.
Qed.

(** A complete frame takes at least its header and is contained in [l]. *)
Lemma frame_at_size max l f n :
  bytes_ok l -> frame_at max l = Ok (Some (f, n)) -> (9 <= n <= length l)%nat.
Proof.
  intros Hok. destruct (decide (9 <= length l)%nat) as [H9|].
  - apply list_9 in H9 as (b0&b1&b2&ty&fl&s0&s1&s2&s3&rest&->). unfold frame_at.
    pose proof (length24_nonneg _ _ _ _ Hok).
    destruct (_ <? _); [done|].
    destruct (Z.ltb_spec (zlen (b0 :: b1 :: b2 :: ty :: fl :: s0 :: s1 :: s2 :: s3 :: rest))
      (9 + Z.lor (Z.lor (Z.shiftl b0 16) (Z.shiftl b1 8)) b2)); [done|].
    intros (g & _ & [= -> <-])%bind_Ok. unfold zlen in *. lia.
  - by rewrite frame_at_short by (unfold zlen; lia).
Qed.

(** Reading a frame only looks at the frame: more bytes behind it change
    nothing, be it accepted or refused. *)
Lemma frame_at_app max l x o :
  bytes_ok l -> frame_at max l = Ok (Some o) -> frame_at max (l ++ x) = Ok (Some o).
Proof.
  intros Hok. destruct (decide (9 <= length l)%nat) as [H9|].
  - apply list_9 in H9 as (b0&b1&b2&ty&fl&s0&s1&s2&s3&rest&->). unfold frame_at. simpl.
    pose proof (length24_nonneg _ _ _ _ Hok).
    set (n := Z.lor (Z.lor (Z.shiftl b0 16) (Z.shiftl b1 8)) b2) in *.
    rewrite !zlen_cons, zlen_app. pose proof (zlen_nonneg x).
    destruct (max <? n); [done|]. unfold zlen in *.
    repeat (case_match; try lia; try done).
    rewrite take_app_le by lia. auto.
  - by rewrite frame_at_short by (unfold zlen; lia).
Qed.

Lemma frame_at_app_err max l x e :
  bytes_ok l -> frame_at max l = Err e -> frame_at max (l ++ x) = Err e.
Proof.
  intros Hok. destruct (decide (9 <= length l)%nat) as [H9|].
  - apply list_9 in H9 as (b0&b1&b2&ty&fl&s0&s1&s2&s3&rest&->). unfold frame_at. simpl.
    pose proof (length24_nonneg _ _ _ _ Hok).
    set (n := Z.lor (Z.lor (Z.shiftl b0 16) (Z.shiftl b1 8)) b2) in *.
    rewrite !zlen_cons, zlen_app. pose proof (zlen_nonneg x).
    destruct (max <? n); [done|]. unfold zlen in *.
    repeat (case_match; try lia; try done).
    rewrite take_app_le by lia. auto.
  - by rewrite frame_at_short by (unfold zlen; lia).
Qed.

(** What is incomplete is short: fewer bytes than a header and the largest
    payload allowed. *)
Lemma frame_at_None max l :
  0 <= max -> frame_at max l = Ok None -> zlen l < 9 + max.
Proof.
  intros Hm. destruct (decide (9 <= length l)%nat) as [H|]; [|unfold zlen; lia].
  apply list_9 in H as (b0&b1&b2&ty&fl&s0&s1&s2&s3&rest&->). unfold frame_at.
  repeat case_match; try done; [lia|].
  intros (g & _ & ?)%bind_Ok. done.
Qed.

(** ** [deframe]: fuel, totality, appending *)

Lemma deframe_fuel_mono k k' max l :
  bytes_ok l -> (length l < k)%nat -> (length l < k')%nat ->
  deframe_fuel k max l = deframe_fuel k' max l.
Proof.
  revert k' l. induction k as [|k IH]; intros k' l Hok Hk Hk'; [lia|].
  destruct k' as [|k']; [lia|]. simpl.
  destruct (frame_at max l) as [[[f n]|]| | |] eqn:Hf; simpl; try done.
  pose proof (frame_at_size _ _ _ _ Hok Hf).
  rewrite (IH k'); [done|by apply bytes_ok_drop| |]; rewrite length_drop; lia.
Qed.

Lemma deframe_unfold max l :
  bytes_ok l ->
  deframe max l =
    (o ← frame_at max l;
     match o with
     | None => mret ([], l)
     | Some (f, n) =>
         '(fs, rest) ← deframe max (drop n l);
         mret (option_list f ++ fs, rest)
     end).
Proof.
  intros Hok. unfold deframe at 1. simpl.
  destruct (frame_at max l) as [[[f n]|]| | |] eqn:Hf; simpl; try done.
  pose proof (frame_at_size _ _ _ _ Hok Hf).
  unfold deframe. rewrite (deframe_fuel_mono _ (S (length (drop n l)))); try done.
  - by apply bytes_ok_drop.
  - rewrite length_drop. lia.
  - lia.
Qed.

(** Induction over the frames of a byte string. *)
Lemma deframe_ind (max : Z) (P : bytes -> Prop) :
  (forall l, bytes_ok l ->
     (forall f n, frame_at max l = Ok (Some (f, n)) -> P (drop n l)) -> P l) ->
  forall l, bytes_ok l -> P l.
Proof.
  intros Hstep l. remember (length l) as k eqn:Hk. revert l Hk.
  induction (lt_wf k) as [k _ IH]. intros l -> Hok.
  apply Hstep; [done|]. intros f n Hf.
  pose proof (frame_at_size _ _ _ _ Hok Hf).
  eapply IH; [|done|by apply bytes_ok_drop]. rewrite length_drop. lia.
Qed.

Lemma deframe_returns max l : bytes_ok l -> returns (deframe max l).
Proof.
  revert l. apply (deframe_ind max). intros l Hok IH. rewrite deframe_unfold by done.
  apply returns_bind; [apply frame_at_returns|]. intros [[f n]|] Hf; [|done].
  apply returns_bind; [by eapply IH|]. by intros [].
Qed.

(** The rest is an incomplete frame at the end of the input. *)
Lemma deframe_rest max l fs rest :
  bytes_ok l -> deframe max l = Ok (fs, rest) ->
  frame_at max rest = Ok None /\ exists n, rest = drop n l.
Proof.
  intros Hok. revert fs rest. pattern l. revert l Hok.
  apply (deframe_ind max). intros l Hok IH fs rest. rewrite deframe_unfold by done.
  intros ([[f n]|] & Hf & H)%bind_Ok.
  - apply bind_Ok in H as ([fs' rest'] & H & [= <- ->]).
    destruct (IH _ _ Hf _ _ H) as [? [m ->]]. split; [done|].
    exists (n + m)%nat. by rewrite drop_drop.
  - injection H as <- <-. split; [done|]. by exists 0%nat.
Qed.

Lemma deframe_app max l x :
  bytes_ok l -> bytes_ok x ->
  deframe max (l ++ x) =
    ('(fs, rest) ← deframe max l;
     '(fs', rest') ← deframe max (rest ++ x);
     mret (fs ++ fs', rest')).
Proof.
  intros Hok Hx. pattern l. revert l Hok. apply (deframe_ind max). intros l Hok IH.
  rewrite (deframe_unfold max l) by done.
  destruct (frame_at max l) as [[[f n]|]|e| |] eqn:Hf; simpl.
  - rewrite deframe_unfold by (by apply bytes_ok_app).
    rewrite (frame_at_app _ _ _ _ Hok Hf). simpl.
    pose proof (frame_at_size _ _ _ _ Hok Hf).
    rewrite drop_app_le by lia. rewrite (IH _ _ eq_refl).
    destruct (deframe max (drop n l)) as [[fs rest]| | |]; simpl; try done.
    destruct (deframe max (rest ++ x)) as [[fs' rest']| | |]; simpl; try done.
    by rewrite app_assoc.
  - by destruct (deframe max (l ++ x)) as [[]| | |].
  - rewrite deframe_unfold by (by apply bytes_ok_app).
    by rewrite (frame_at_app_err _ _ _ _ Hok Hf).
  - pose proof (frame_at_returns max l) as Hr. by rewrite Hf in Hr.
  - pose proof (frame_at_returns max l) as Hr. by rewrite Hf in Hr.
Qed.

(** ** [push_loop] computes [deframe] *)

Lemma push_loop_deframe k max buf off acc :
  bytes_ok buf -> (off <= length buf)%nat ->
  FrameDecoder.push_loop k max buf off acc =
    ('(fs, rest) ← deframe_fuel k max (drop off buf);
     mret (acc ++ fs, (length buf - length rest)%nat)).
Proof.
  intros Hok. revert off acc. induction k as [|k IH]; intros off acc Hoff; [done|]. simpl.
  assert (zlen buf - Z.of_nat off = zlen (drop off buf)) as ->
    by (unfold zlen; rewrite length_drop; lia).
  unfold FRAME_HEADER_SIZE.
  destruct (Z.ltb_spec (zlen (drop off buf)) 9) as [Hs|Hs].
  { rewrite frame_at_short by done. simpl. rewrite app_nil_r, length_drop.
    do 2 f_equal. lia. }
  assert (9 <= length (drop off buf))%nat as H9 by (unfold zlen in Hs; lia).
  apply list_9 in H9 as (b0&b1&b2&ty&fl&s0&s1&s2&s3&rest&Hl).
  assert (forall i, buf !! (off + i)%nat =
    (b0 :: b1 :: b2 :: ty :: fl :: s0 :: s1 :: s2 :: s3 :: rest) !! i) as Hi
    by (intros i; by rewrite <- Hl, lookup_drop).
  rewrite <- (Nat.add_0_r off) at 1. rewrite !Hi, Hl. simpl.
  pose proof (bytes_ok_drop off _ Hok) as Hdok. rewrite Hl in Hdok.
  pose proof (length24_nonneg _ _ _ _ Hdok).
  set (n := Z.lor (Z.lor (Z.shiftl b0 16) (Z.shiftl b1 8)) b2) in *.
  destruct (max <? n); [done|].
  rewrite <- Hl. destruct (Z.ltb_spec (zlen (drop off buf)) (9 + n)) as [?|Hge].
  { simpl. rewrite app_nil_r, length_drop. do 2 f_equal. lia. }
  unfold zlen in Hge. rewrite length_drop in Hge.
  rewrite slice_ok by lia. simpl.
  assert (drop (off + Z.to_nat 9) buf = rest) as ->
    by (rewrite <- drop_drop, Hl; done).
  replace (off + Z.to_nat (9 + n) - (off + Z.to_nat 9))%nat with (Z.to_nat n) by lia.
  destruct (parse_payload _ _ _ _) as [f| | |]; simpl; try done.
  rewrite IH by lia. rewrite <- drop_drop.
  destruct (deframe_fuel k max _) as [[fs r]| | |]; simpl; try done.
  destruct f; simpl; by rewrite <- ?app_assoc.
Qed.

(** [push] in terms of [deframe]. *)
Lemma push_deframe c d :
  bytes_ok (FrameDecoder.pending d) -> bytes_ok c ->
  FrameDecoder.push c d =
  match deframe (FrameDecoder.max_frame_size d) (FrameDecoder.pending d ++ c) with
  | Ok (fs, rest) => (FrameDecoder.mk rest (FrameDecoder.max_frame_size d), Ok fs)
  | Err e => (FrameDecoder.new (FrameDecoder.max_frame_size d), Err e)
  | Panic => (FrameDecoder.new (FrameDecoder.max_frame_size d), Panic)
  | OutOfFuel => (FrameDecoder.new (FrameDecoder.max_frame_size d), OutOfFuel)
  end.
Proof.
  intros Hp Hc. unfold FrameDecoder.push.
  assert (match FrameDecoder.pending d with [] => c | p => p ++ c end
    = FrameDecoder.pending d ++ c) as Hbuf by (by destruct (FrameDecoder.pending d)).
  assert (bytes_ok (FrameDecoder.pending d ++ c)) as Hok by (by apply bytes_ok_app).
  unfold st_get, st_put, st_lift, mbind, ST_bind. cbv beta iota zeta. rewrite Hbuf.
  rewrite push_loop_deframe by (done || lia). rewrite drop_0. fold (deframe
    (FrameDecoder.max_frame_size d) (FrameDecoder.pending d ++ c)).
  destruct (deframe _ _) as [[fs rest]| | |] eqn:Hd; try done. simpl.
  destruct (deframe_rest _ _ _ _ Hok Hd) as [_ [n Hrest]].
  set (buf := FrameDecoder.pending d ++ c) in *. rewrite Hrest, length_drop.
  unfold mret, ST_ret.
  destruct (Nat.eqb_spec (length buf - (length buf - n)) (length buf)).
  - by rewrite drop_ge by lia.
  - do 3 f_equal. lia.
Qed.

Lemma decoder_new_ok max : decoder_ok (FrameDecoder.new max).
Proof. done. Qed.
#[export] Hint Resolve decoder_new_ok : h2ts.

(** ** What a frame must satisfy to cross the wire unchanged *)

Definition priority_ok (p : Priority) : Prop :=
  is_u31 (stream_dependency p) /\ 1 <= weight p <= 256.

Definition opt_ok {A} (P : A -> Prop) (o : option A) : Prop :=
  match o with Some a => P a | None => True end.

Definition settings_ok (s : Settings) : Prop :=
  opt_ok is_u32 (header_table_size s) /\ opt_ok is_u32 (max_concurrent_streams s) /\
  opt_ok is_u32 (initial_window_size s) /\ opt_ok is_u32 (max_frame_size s) /\
  opt_ok is_u32 (max_header_list_size s).

(** Field ranges: stream ids have 31 bits, a weight is 1..256, a SETTINGS ACK is
    empty, PING carries eight bytes. *)
Definition frame_ok (f : Frame.t) : Prop :=
  match f with
  | Frame.Data id data _ => is_u31 id /\ bytes_ok data
  | Frame.Headers id frag _ _ p => is_u31 id /\ bytes_ok frag /\ opt_ok priority_ok p
  | Frame.Priority id p => is_u31 id /\ priority_ok p
  | Frame.RstStream id code => is_u31 id /\ is_u32 code
  | Frame.Settings ack s => settings_ok s /\ (ack = true -> s = default_settings)
  | Frame.PushPromise id promised frag _ => is_u31 id /\ is_u31 promised /\ bytes_ok frag
  | Frame.Ping _ data => length data = 8%nat /\ bytes_ok data
  | Frame.Goaway last code debug => is_u31 last /\ is_u32 code /\ bytes_ok debug
  | Frame.WindowUpdate id inc => is_u31 id /\ is_u31 inc
  | Frame.Continuation id frag _ => is_u31 id /\ bytes_ok frag
  end.

Definition setting_len {A} (o : option A) : Z := if o then 6 else 0.

(** The length of a frame's payload on the wire. *)
Definition payload_len (f : Frame.t) : Z :=
  match f with
  | Frame.Data _ data _ => zlen data
  | Frame.Headers _ frag _ _ p => (if p then 5 else 0) + zlen frag
  | Frame.Priority _ _ => 5
  | Frame.RstStream _ _ => 4
  | Frame.Settings _ s =>
      setting_len (header_table_size s) + setting_len (enable_push s) +
      setting_len (max_concurrent_streams s) + setting_len (initial_window_size s) +
      setting_len (max_frame_size s) + setting_len (max_header_list_size s)
  | Frame.PushPromise _ _ frag _ => 4 + zlen frag
  | Frame.Ping _ _ => 8
  | Frame.Goaway _ _ debug => 8 + zlen debug
  | Frame.WindowUpdate _ _ => 4
  | Frame.Continuation _ frag _ => zlen frag
  end.

Definition frame_sid (f : Frame.t) : Z :=
  match f with
  | Frame.Data id _ _ | Frame.Headers id _ _ _ _ | Frame.Priority id _
  | Frame.RstStream id _ | Frame.PushPromise id _ _ _ | Frame.WindowUpdate id _
  | Frame.Continuation id _ _ => id
  | Frame.Settings _ _ | Frame.Ping _ _ | Frame.Goaway _ _ _ => 0
  end.

Section roundtrip.
Context {arch : Arch}.

(** The encoded body parses back to the frame. *)
Definition body_roundtrip (f : Frame.t) : Prop :=
  exists e, encode_body f = Ok e /\ zlen (payload e) = payload_len f /\
    bytes_ok (payload e) /\ is_u8 (type_id e) /\ is_u8 (flag_bits e) /\
    enc_stream_id e = frame_sid f /\
    parse_payload (type_id e) (flag_bits e) (frame_sid f) (payload e) = Ok (Some f).

Lemma bytes_view_new l :
  ByteReader.bytes (zlen l) (ByteReader.new l) =
  Some (l, ByteReader.advance (length l) (ByteReader.new l)).
Proof. apply (bytes_view_app _ l []); [apply wf_new|]. by rewrite view_new, app_nil_r. Qed.

Lemma data_roundtrip id d es : bytes_ok d -> body_roundtrip (Frame.Data id d es).
Proof.
  intros Hd. eexists. split; [done|]. simpl. repeat split; try done.
  1,2: by destruct es.
  unfold parse_payload, parse_push_promise, parse_ping, parse_goaway, parse_window_update, read_padded.
  destruct es; simpl; rewrite bytes_view_new; done.
Qed.

Lemma write_priority_bytes p w :
  priority_ok p ->
  write_priority p w = Ok (w ++ u32_to_be_bytes
    (if exclusive p then stream_dependency p + 2147483648 else stream_dependency p)
    ++ [weight p - 1]).
Proof.
  intros [Hd Hw]. unfold write_priority, weight_minus_1.
  destruct (Z.ltb_spec (weight p) 1); [lia|]. simpl.
  unfold ByteWriter.u8, ByteWriter.u32.
  rewrite land_31_id, as_u8_id by (done || unfold is_u8; lia).
  rewrite lor_bit31 by done. by rewrite <- app_assoc.
Qed.

(** Reading back the dependency word and the weight. *)
Lemma read_priority_bytes p r l :
  priority_ok p ->
  ByteReader.view r = u32_to_be_bytes
    (if exclusive p then stream_dependency p + 2147483648 else stream_dependency p)
    ++ weight p - 1 :: l ->
  read_priority r = Ok (p, ByteReader.advance 5 r).
Proof.
  intros [Hd Hw] Hv. unfold read_priority.
  set (v := if exclusive p then _ else _) in *.
  assert (is_u32 v) as Hu by (unfold v, is_u32, is_u31 in *; destruct (exclusive p); lia).
  rewrite (u32_view_bytes _ v (weight p - 1 :: l)) by done. simpl.
  rewrite u8_view, view_advance, Hv, drop_u32. simpl.
  assert (has_flag v 2147483648 = exclusive p) as ->.
  { rewrite has_bit31 by done. unfold v, is_u31 in *. destruct (exclusive p); lia. }
  assert (Z.land v 2147483647 = stream_dependency p) as ->.
  { rewrite land_31. unfold v, is_u31 in *. destruct (exclusive p); zlia. }
  unfold mret, outcome_ret, ByteReader.advance. simpl.
  rewrite Z.sub_add, <- Nat.add_assoc. by destruct p.
Qed.

Lemma is_u8_weight p : priority_ok p -> is_u8 (weight p - 1).
Proof. unfold priority_ok, is_u8. lia. Qed.

Lemma priority_bytes_ok v p l :
  priority_ok p -> bytes_ok l -> bytes_ok (u32_to_be_bytes v ++ weight p - 1 :: l).
Proof.
  intros Hp Hl. apply bytes_ok_app. split; [apply u32_to_be_ok|].
  constructor; [by apply is_u8_weight|done].
Qed.

Lemma priority_roundtrip id p : priority_ok p -> body_roundtrip (Frame.Priority id p).
Proof.
  intros Hp. unfold body_roundtrip. simpl. rewrite write_priority_bytes by done. simpl.
  eexists. split; [done|]. simpl. repeat split; try done.
  - apply (priority_bytes_ok _ _ []); auto with h2ts.
  - unfold parse_payload, parse_push_promise, parse_ping, parse_goaway, parse_window_update. simpl.
    rewrite (read_priority_bytes p _ []) by (done || by rewrite view_new). done.
Qed.

Lemma headers_roundtrip id frag es eh p :
  bytes_ok frag -> opt_ok priority_ok p -> body_roundtrip (Frame.Headers id frag es eh p).
Proof.
  intros Hf Hp. unfold body_roundtrip. destruct p as [p|]; simpl.
  - simpl in Hp. rewrite write_priority_bytes by done. simpl.
    set (dep := if exclusive p then _ else _).
    eexists. split; [done|]. simpl. unfold ByteWriter.bytes, ByteWriter.into_vec.
    rewrite <- app_assoc. simpl. split_and!; try done; try by destruct es, eh.
    + autorewrite with h2ts. lia.
    + by apply priority_bytes_ok.
    + set (pl := u32_to_be_bytes dep ++ weight p - 1 :: frag).
      set (fl := Z.lor _ flags.HEADERS_PRIORITY).
      assert (has_flag fl 1 = es /\ has_flag fl 4 = eh /\ has_flag fl 8 = false /\
        has_flag fl 32 = true) as (E1 & E4 & E8 & E32) by (by destruct es, eh).
      assert (zlen pl = 5 + zlen frag) as Hlen by (unfold pl; autorewrite with h2ts; lia).
      pose proof (zlen_nonneg frag) as Hn.
      unfold parse_payload, parse_push_promise, parse_ping, parse_goaway, parse_window_update. simpl.
      unfold flags.HEADERS_PRIORITY, flags.HEADERS_PADDED, flags.HEADERS_END_STREAM,
        flags.HEADERS_END_HEADERS. rewrite E1, E4, E8, E32. simpl.
      rewrite remaining_view, view_new, Hlen by apply wf_new.
      destruct (Z.ltb_spec (5 + zlen frag) 5); [lia|].
      rewrite (read_priority_bytes p _ frag) by done. simpl.
      rewrite (proj2 (checked_sub_Some _ _ (zlen frag))) by lia. simpl.
      rewrite (bytes_view_app _ frag []); [done| |].
      * apply wf_advance; [|apply wf_new]. rewrite view_new. unfold zlen in Hlen. lia.
      * by rewrite view_advance, view_new, app_nil_r.
  - eexists. split; [done|]. simpl. split_and!; try done; try by destruct es, eh.
    pose proof (zlen_nonneg frag).
    unfold parse_payload, parse_push_promise, parse_ping, parse_goaway, parse_window_update. destruct es, eh; simpl;
      rewrite (proj2 (checked_sub_Some _ _ (zlen frag))) by lia; simpl;
      rewrite bytes_view_new; done.
Qed.

(** *** SETTINGS, as a list of entries *)

Definition opt_entry (id : Z) (o : option Z) : list (Z * Z) :=
  match o with Some v => [(id, v)] | None => [] end.

Definition settings_entries (s : Settings) : list (Z * Z) :=
  opt_entry 1 (header_table_size s) ++ opt_entry 2 (bool_to_u32 <$> enable_push s) ++
  opt_entry 3 (max_concurrent_streams s) ++ opt_entry 4 (initial_window_size s) ++
  opt_entry 5 (max_frame_size s) ++ opt_entry 6 (max_header_list_size s).

Definition entry_bytes (e : Z * Z) : bytes :=
  u16_to_be_bytes e.1 ++ u32_to_be_bytes e.2.

Lemma write_setting_entry id o w :
  write_setting id o w = w ++ (opt_entry id o ≫= entry_bytes).
Proof.
  destruct o; simpl; [|by rewrite app_nil_r].
  unfold ByteWriter.u32, ByteWriter.u16, entry_bytes. simpl.
  by rewrite app_nil_r, <- app_assoc.
Qed.

Lemma zlen_entries es : zlen (es ≫= entry_bytes) = 6 * zlen es.
Proof.
  induction es; [done|]. rewrite bind_cons. unfold entry_bytes at 1.
  autorewrite with h2ts. lia.
Qed.

Lemma entries_bytes_ok es : bytes_ok (es ≫= entry_bytes).
Proof.
  induction es; [constructor|]. rewrite bind_cons. unfold entry_bytes at 1.
  rewrite !bytes_ok_app. auto with h2ts.
Qed.

Lemma u16_view_bytes r v l :
  is_u16 v -> ByteReader.view r = u16_to_be_bytes v ++ l ->
  ByteReader.u16 (E:=H2Error.t) r = Ok (v, ByteReader.advance 2 r).
Proof.
  intros Hv H. destruct (u16_be_roundtrip v Hv) as [Hb Hr]. rewrite Hb in H.
  by rewrite (u16_view _ _ _ l H), Hr.
Qed.

Definition entry_ok (e : Z * Z) : Prop := is_u16 e.1 /\ is_u32 e.2.

Lemma read_settings_entries es r s :
  Forall entry_ok es -> ByteReader.view r = es ≫= entry_bytes ->
  read_settings (length es) r s = Ok (fold_left (fun s e => set_setting e.1 e.2 s) es s).
Proof.
  intros Hes. revert r s.
  induction Hes as [|[id v] es [Hid Hval] Hes IH]; intros r s Hv; simpl; [done|].
  simpl in Hid, Hval. rewrite bind_cons in Hv. unfold entry_bytes in Hv at 1.
  cbn [fst snd] in Hv.
  rewrite <- app_assoc in Hv.
  rewrite (u16_view_bytes _ _ _ Hid Hv). simpl.
  rewrite (u32_view_bytes _ v (es ≫= entry_bytes)); [|done|].
  - simpl. apply IH. by rewrite !view_advance, Hv, drop_u16, drop_u32.
  - by rewrite view_advance, Hv, drop_u16.
Qed.

Lemma settings_entries_ok s : settings_ok s -> Forall entry_ok (settings_entries s).
Proof.
  intros (H1 & H3 & H4 & H5 & H6). unfold settings_entries.
  assert (opt_ok is_u32 (bool_to_u32 <$> enable_push s)) as H2.
  { destruct (enable_push s) as [[]|]; simpl; unfold is_u32; lia. }
  assert (forall id o, is_u16 id -> opt_ok is_u32 o -> Forall entry_ok (opt_entry id o)) as H.
  { intros id [v|] ? ?; simpl; [by apply Forall_singleton|constructor]. }
  rewrite !Forall_app. unfold is_u16 in H.
  split_and!; (apply H; [lia|done]).
Qed.

Lemma settings_fold s :
  fold_left (fun s e => set_setting e.1 e.2 s) (settings_entries s) default_settings = s.
Proof.
  destruct s as [a b c d e f].
  destruct a, b as [[]|], c, d, e, f; reflexivity.
Qed.

Lemma zlen_settings_entries s :
  6 * zlen (settings_entries s) = payload_len (Frame.Settings false s).
Proof.
  destruct s as [a b c d e f]. unfold settings_entries. simpl.
  destruct a, b, c, d, e, f; reflexivity.
Qed.

Lemma settings_roundtrip ack s :
  settings_ok s -> (ack = true -> s = default_settings) ->
  body_roundtrip (Frame.Settings ack s).
Proof.
  intros Hs Hack. unfold body_roundtrip. eexists. split; [done|].
  simpl. unfold ByteWriter.into_vec, ByteWriter.new. rewrite !write_setting_entry, app_nil_l.
  rewrite <- !bind_app. rewrite <- !app_assoc. fold (settings_entries s).
  change (payload_len (Frame.Settings ack s)) with (payload_len (Frame.Settings false s)).
  rewrite zlen_entries, zlen_settings_entries.
  split_and!; try done; try by destruct ack.
  - apply entries_bytes_ok.
  - unfold parse_payload, parse_push_promise, parse_ping, parse_goaway, parse_window_update. rewrite zlen_entries.
    assert (has_flag (if ack then flags.SETTINGS_ACK else 0) flags.SETTINGS_ACK = ack)
      as -> by (by destruct ack). simpl.
    assert (ack && negb (6 * zlen (settings_entries s) =? 0) = false) as ->
      by (destruct ack; [by rewrite Hack|done]).
    assert (negb ((6 * zlen (settings_entries s)) mod 6 =? 0) = false) as ->
      by (rewrite Z.mul_comm, Z.mod_mul by lia; done).
    rewrite Z.mul_comm, Z.div_mul by lia. unfold zlen. rewrite Nat2Z.id.
    rewrite read_settings_entries by (done || by apply settings_entries_ok).
    simpl. by rewrite settings_fold.
Qed.

Lemma rst_roundtrip id code : is_u32 code -> body_roundtrip (Frame.RstStream id code).
Proof.
  intros Hc. eexists. split; [done|]. simpl.
  unfold ByteWriter.u32, ByteWriter.new, ByteWriter.into_vec. simpl.
  split_and!; try done; auto with h2ts.
  unfold parse_payload, parse_push_promise, parse_ping, parse_goaway, parse_window_update. rewrite zlen_u32. simpl.
  rewrite (u32_view_bytes _ code []) by (done || by rewrite view_new, app_nil_r). done.
Qed.

Lemma window_update_roundtrip id inc :
  is_u31 inc -> body_roundtrip (Frame.WindowUpdate id inc).
Proof.
  intros Hc. eexists. split; [done|]. simpl.
  unfold ByteWriter.u32, ByteWriter.new, ByteWriter.into_vec. simpl.
  rewrite land_31_id by done. split_and!; try done; auto with h2ts.
  unfold parse_payload, parse_push_promise, parse_ping, parse_goaway, parse_window_update. rewrite zlen_u32. simpl.
  rewrite (u32_view_bytes _ inc [])
    by (by rewrite view_new, app_nil_r || (unfold is_u31, is_u32 in *; lia)).
  simpl. by rewrite land_31_id.
Qed.

Lemma ping_roundtrip ack d :
  length d = 8%nat -> bytes_ok d -> body_roundtrip (Frame.Ping ack d).
Proof.
  intros Hl Hd. eexists. split; [done|]. simpl.
  assert (zlen d = 8) as Hz by (unfold zlen; lia).
  split_and!; try done; try by destruct ack.
  unfold parse_payload, parse_push_promise, parse_ping, parse_goaway, parse_window_update. rewrite Hz. simpl.
  pose proof (bytes_view_new d) as Hb. rewrite Hz in Hb. rewrite Hb. by destruct ack.
Qed.

Lemma continuation_roundtrip id frag eh :
  bytes_ok frag -> body_roundtrip (Frame.Continuation id frag eh).
Proof.
  intros Hf. eexists. split; [done|]. simpl. split_and!; try done; try by destruct eh.
  unfold parse_payload, parse_push_promise, parse_ping, parse_goaway, parse_window_update. simpl. rewrite bytes_view_new. by destruct eh.
Qed.

Lemma is_u31_u32 v : is_u31 v -> is_u32 v.
Proof. unfold is_u31, is_u32. lia. Qed.
Local Hint Resolve is_u31_u32 : h2ts.

Lemma goaway_roundtrip last code debug :
  is_u31 last -> is_u32 code -> bytes_ok debug ->
  body_roundtrip (Frame.Goaway last code debug).
Proof.
  intros Hl Hc Hd. eexists. split; [done|]. simpl.
  unfold ByteWriter.u32, ByteWriter.bytes, ByteWriter.new, ByteWriter.into_vec. simpl.
  rewrite land_31_id, <- app_assoc by done.
  set (pl := u32_to_be_bytes last ++ u32_to_be_bytes code ++ debug).
  assert (zlen pl = 8 + zlen debug) as Hz by (unfold pl; autorewrite with h2ts; lia).
  pose proof (zlen_nonneg debug).
  split_and!; try done.
  { unfold pl. rewrite !bytes_ok_app. auto with h2ts. }
  unfold parse_payload, parse_push_promise, parse_ping, parse_goaway, parse_window_update. rewrite Hz. simpl.
  destruct (Z.ltb_spec (8 + zlen debug) 8); [lia|].
  rewrite (u32_view_bytes _ last (u32_to_be_bytes code ++ debug)) by (auto with h2ts). simpl.
  rewrite (u32_view_bytes _ code debug) by (done || by rewrite view_advance, view_new).
  simpl. replace (8 + zlen debug - 8) with (zlen debug) by lia.
  rewrite (bytes_view_app _ debug []).
  - simpl. by rewrite land_31_id.
  - repeat apply wf_advance; try apply wf_new;
      rewrite ?view_advance, view_new; unfold pl; rewrite ?drop_u32;
      rewrite !length_app, !length_u32; lia.
  - by rewrite !view_advance, view_new, app_nil_r.
Qed.

Lemma push_promise_roundtrip id promised frag eh :
  is_u31 promised -> bytes_ok frag ->
  body_roundtrip (Frame.PushPromise id promised frag eh).
Proof.
  intros Hp Hf. eexists. split; [done|]. simpl.
  unfold ByteWriter.u32, ByteWriter.bytes, ByteWriter.new, ByteWriter.into_vec. simpl.
  rewrite land_31_id by done. set (pl := u32_to_be_bytes promised ++ frag).
  assert (zlen pl = 4 + zlen frag) as Hz by (unfold pl; autorewrite with h2ts; lia).
  pose proof (zlen_nonneg frag).
  split_and!; try done; try by destruct eh.
  { unfold pl. rewrite !bytes_ok_app. auto with h2ts. }
  unfold parse_payload, parse_push_promise, parse_ping, parse_goaway, parse_window_update. rewrite Hz.
  assert (has_flag (if eh then flags.PUSH_PROMISE_END_HEADERS else 0)
    flags.PUSH_PROMISE_PADDED = false) as -> by (by destruct eh).
  simpl. rewrite remaining_view, view_new, Hz by apply wf_new.
  destruct (Z.ltb_spec (4 + zlen frag) 4); [lia|].
  rewrite (u32_view_bytes _ promised frag) by (auto with h2ts). simpl.
  rewrite (proj2 (checked_sub_Some _ _ (zlen frag))) by lia. simpl.
  rewrite (bytes_view_app _ frag []).
  - simpl. rewrite land_31_id by done. by destruct eh.
  - apply wf_advance; [|apply wf_new]. rewrite view_new. unfold pl.
    rewrite length_app, length_u32. lia.
  - by rewrite view_advance, view_new, app_nil_r.
Qed.

Lemma frame_body_roundtrip f : frame_ok f -> body_roundtrip f.
Proof.
  destruct f; simpl; intros; destruct_and?;
    auto using data_roundtrip, headers_roundtrip, priority_roundtrip, rst_roundtrip,
      settings_roundtrip, push_promise_roundtrip, ping_roundtrip, goaway_roundtrip,
      window_update_roundtrip, continuation_roundtrip.
Qed.

Lemma frame_sid_ok f : frame_ok f -> is_u31 (frame_sid f).
Proof. destruct f; simpl; intros; destruct_and?; try done; unfold is_u31; lia. Qed.

(** *** The header *)

Lemma frame_header_bytes len ty fl sid :
  0 <= len < 16777216 -> is_u31 sid ->
  frame_header len ty fl sid =
  [len / 65536; (len / 256) mod 256; len mod 256; ty; fl;
   (sid / 16777216) mod 256; (sid / 65536) mod 256; (sid / 256) mod 256; sid mod 256].
Proof.
  intros Hl Hs. unfold frame_header, ByteWriter.u32, ByteWriter.u24, ByteWriter.u8.
  rewrite land_31_id by done. unfold as_u32. rewrite (Z.mod_small len) by lia.
  Transparent u32_to_be_bytes. unfold u32_to_be_bytes, ByteWriter.new. simpl.
  Opaque u32_to_be_bytes.
  rewrite !Z.shiftr_div_pow2 by lia.
  change (2 ^ 24) with 16777216. change (2 ^ 16) with 65536. change (2 ^ 8) with 256.
  do 2 f_equal. zlia.
Qed.

Lemma length24 len :
  0 <= len < 16777216 ->
  Z.lor (Z.lor (Z.shiftl (len / 65536) 16) (Z.shiftl ((len / 256) mod 256) 8)) (len mod 256)
  = len.
Proof.
  intros H.
  assert (Z.lor (Z.shiftl (len / 65536) 16) (Z.shiftl ((len / 256) mod 256) 8)
    = Z.shiftl (len / 256) 8) as ->.
  { rewrite (lor_add_disjoint _ (Z.shiftl _ 8) 16); rewrite ?Z.shiftl_mul_pow2 by lia;
      [zlia|lia|zlia]. }
  rewrite (lor_add_disjoint _ _ 8); [zlia|lia|zlia].
Qed.

Lemma u32_sid_bytes sid :
  is_u31 sid ->
  Z.land (u32_from_be_bytes ((sid / 16777216) mod 256) ((sid / 65536) mod 256)
    ((sid / 256) mod 256) (sid mod 256)) 2147483647 = sid.
Proof.
  intros H. rewrite land_31. unfold u32_from_be_bytes, is_u31 in *. zlia.
Qed.

(** The frame can be sent to a peer that accepts payloads of [max] bytes. *)
Definition sendable (max : Z) (f : Frame.t) : Prop :=
  frame_ok f /\ payload_len f <= max /\ payload_len f < 16777216.

(** A serialized frame is read back, and only it, whatever follows. *)
Lemma frame_at_serialize max f x :
  sendable max f ->
  exists bs, serialize_frame f = Ok bs /\ bytes_ok bs /\ zlen bs = 9 + payload_len f /\
    frame_at max (bs ++ x) = Ok (Some (Some f, length bs)).
Proof.
  intros (Hok & Hmax & H24).
  destruct (frame_body_roundtrip f Hok) as ([ty fl sid pl] & He & Hlen & Hpl & Hty & Hfl & Hsid & Hparse).
  simpl in *. subst sid. pose proof (zlen_nonneg pl) as Hn.
  pose proof (frame_sid_ok f Hok) as Hsid.
  eexists. split; [unfold serialize_frame; rewrite He; done|]. simpl.
  unfold ByteWriter.bytes. rewrite frame_header_bytes by (done || lia).
  rewrite Hlen. set (n := payload_len f) in *.
  assert (zlen (n / 65536 :: (n / 256) mod 256 :: n mod 256 :: ty :: fl ::
    (frame_sid f / 16777216) mod 256 :: (frame_sid f / 65536) mod 256 ::
    (frame_sid f / 256) mod 256 :: frame_sid f mod 256 :: pl) = 9 + n) as Hz
    by (rewrite !zlen_cons; lia).
  split_and!.
  - unfold bytes_ok, is_u31 in *. simpl. repeat (constructor; [unfold is_u8 in *; zlia|]). done.
  - done.
  - unfold frame_at. simpl. rewrite length24 by lia.
    destruct (Z.ltb_spec max n); [lia|].
    rewrite !zlen_cons, zlen_app. rewrite !zlen_cons in Hz. pose proof (zlen_nonneg x).
    destruct (Z.ltb_spec (1 + (1 + (1 + (1 + (1 + (1 + (1 + (1 + (1 + (zlen pl + zlen x))))))))))
      (9 + n)); [lia|].
    rewrite u32_sid_bytes by done.
    assert (Z.to_nat n = length pl) as -> by (unfold zlen in *; lia).
    rewrite take_app_length, Hparse. simpl. do 3 f_equal. unfold zlen in *. lia.
Qed.

(** The bytes of a list of frames, in order. *)
Fixpoint serialize_all (fs : list Frame.t) : result bytes :=
  match fs with
  | [] => mret []
  | f :: fs => b ← serialize_frame f; bs ← serialize_all fs; mret (b ++ bs)
  end.

Lemma deframe_serialize max fs :
  Forall (sendable max) fs ->
  exists bs, serialize_all fs = Ok bs /\ bytes_ok bs /\ deframe max bs = Ok (fs, []).
Proof.
  induction 1 as [|f fs Hf _ IH]; [exists []; split_and!; [done|constructor|done]|].
  destruct IH as (bs & Hs & Hbs & Hd).
  destruct (frame_at_serialize max f bs Hf) as (b & Hb & Hbok & _ & Hat).
  exists (b ++ bs). simpl. rewrite Hb, Hs. split; [done|].
  assert (bytes_ok (b ++ bs)) by (by apply bytes_ok_app). split; [done|].
  rewrite deframe_unfold, Hat by done. simpl. by rewrite drop_app_length, Hd.
Qed.
End roundtrip.

(** ** Chunks *)

(** The decoder does not depend on how the bytes were cut into chunks.
    Pushing chunks one by one gives the frames, the error and the decoder state
    of pushing their concatenation at once. *)
Lemma push_all_concat (chunks : list bytes) (d : FrameDecoder.t) :
  decoder_ok d -> bytes_ok (FrameDecoder.pending d) -> Forall bytes_ok chunks ->
  push_all chunks d = FrameDecoder.push (concat chunks) d.
Proof.
  intros Hd Hp Hc. revert d Hd Hp. induction Hc as [|c cs Hok Hc IH]; intros d Hd Hp; simpl.
  - rewrite push_deframe, app_nil_r, deframe_unfold by (done || constructor).
    rewrite Hd. by destruct d.
  - assert (bytes_ok (concat cs)) as Hcs by (by apply Forall_concat).
    rewrite !push_deframe by (try apply bytes_ok_app; done).
    rewrite app_assoc, deframe_app by (try apply bytes_ok_app; done).
    rewrite st_bind_run, push_deframe by done.
    destruct (deframe _ (FrameDecoder.pending d ++ c)) as [[fs rest]| | |] eqn:Hdf;
      simpl; try done.
    assert (bytes_ok (FrameDecoder.pending d ++ c)) as Hpc by (by apply bytes_ok_app).
    destruct (deframe_rest _ _ _ _ Hpc Hdf) as [Hrest [n ->]].
    rewrite st_bind_run, IH by (try apply bytes_ok_drop; done).
    rewrite push_deframe by (try apply bytes_ok_drop; done). simpl.
    by destruct (deframe _ (_ ++ concat cs)) as [[]| | |].
Qed.


(** ** Decoded frames are well formed *)

Section decoded.

Lemma bytes_Ok n r d r' :
  ByteReader.wf r -> bytes_ok (ByteReader.view r) ->
  ok_or truncated (ByteReader.bytes n r) = Ok (d, r') ->
  bytes_ok d /\ zlen d <= Z.max 0 n /\ zlen d <= zlen (ByteReader.view r).
Proof.
  intros Hw Hok. unfold ByteReader.bytes. fold (ByteReader.view r).
  destruct (_ <? _); [done|]. intros [= <- _].
  split; [by apply bytes_ok_take|]. unfold zlen. rewrite length_take. lia.
Qed.

Lemma view_ok_advance n r :
  bytes_ok (ByteReader.view r) -> bytes_ok (ByteReader.view (ByteReader.advance n r)).
Proof. intros. rewrite view_advance. by apply bytes_ok_drop. Qed.

Lemma zlen_view_advance n r : zlen (ByteReader.view (ByteReader.advance n r)) <= zlen (ByteReader.view r).
Proof. rewrite view_advance. unfold zlen. rewrite length_drop. lia. Qed.

(** Facts about a reader after a successful read. *)
Lemma u8_post r b r' :
  ByteReader.wf r -> bytes_ok (ByteReader.view r) ->
  ByteReader.u8 (E:=H2Error.t) r = Ok (b, r') ->
  is_u8 b /\ ByteReader.wf r' /\ bytes_ok (ByteReader.view r') /\
  zlen (ByteReader.view r) = 1 + zlen (ByteReader.view r').
Proof.
  intros Hw Hok (x & l & Hv & [= -> ->])%u8_Ok. rewrite Hv in Hok.
  inversion Hok; subst. split_and!; try done.
  - apply wf_advance; [rewrite Hv; simpl; lia|done].
  - rewrite view_advance, Hv. simpl. by rewrite drop_0.
  - rewrite view_advance, Hv. simpl. rewrite drop_0, zlen_cons. lia.
Qed.

Lemma u32_post r v r' :
  ByteReader.wf r -> bytes_ok (ByteReader.view r) ->
  ByteReader.u32 (E:=H2Error.t) r = Ok (v, r') ->
  is_u32 v /\ ByteReader.wf r' /\ bytes_ok (ByteReader.view r') /\
  zlen (ByteReader.view r) = 4 + zlen (ByteReader.view r').
Proof.
  intros Hw Hok (a & b & c & d & l & Hv & [= -> ->])%u32_Ok. rewrite Hv in Hok.
  unfold bytes_ok in Hok. rewrite !Forall_cons in Hok. destruct Hok as (?&?&?&?&?).
  split_and!; auto with h2ts.
  - apply wf_advance; [rewrite Hv; simpl; lia|done].
  - rewrite view_advance, Hv. simpl. by rewrite drop_0.
  - rewrite view_advance, Hv. simpl. rewrite drop_0, !zlen_cons. lia.
Qed.

Lemma read_priority_post r p r' :
  ByteReader.wf r -> bytes_ok (ByteReader.view r) ->
  read_priority r = Ok (p, r') ->
  priority_ok p /\ ByteReader.wf r' /\ bytes_ok (ByteReader.view r') /\
  zlen (ByteReader.view r) = 5 + zlen (ByteReader.view r').
Proof.
  intros Hw Hok ([v r1] & H1 & H)%bind_Ok. apply bind_Ok in H as ([w r2] & H2 & [= <- <-]).
  apply u32_post in H1 as (?&?&?&?); try done.
  apply u8_post in H2 as (Hw2&?&?&?); try done.
  split_and!; try done; [|lia]. split; simpl; [auto with h2ts|]. unfold is_u8 in Hw2. lia.
Qed.

Lemma set_setting_ok id v s : is_u32 v -> settings_ok s -> settings_ok (set_setting id v s).
Proof.
  intros Hv. destruct s as [a b c d e f]. unfold settings_ok. simpl. intros (?&?&?&?&?).
  repeat (case_match; simpl; try done).
Qed.

Lemma set_setting_len id v s :
  payload_len (Frame.Settings false (set_setting id v s)) <=
  6 + payload_len (Frame.Settings false s).
Proof.
  destruct s as [a b c d e f].
  assert (forall A (o : option A), 0 <= setting_len o <= 6) as Hsl by (by intros ? []; simpl; lia).
  unfold set_setting. repeat (case_match; try (simpl; lia));
    simpl; pose proof (Hsl _ a); pose proof (Hsl _ b); pose proof (Hsl _ c);
    pose proof (Hsl _ d); pose proof (Hsl _ e); pose proof (Hsl _ f); lia.
Qed.

Lemma read_settings_post n r s s' :
  ByteReader.wf r -> bytes_ok (ByteReader.view r) -> settings_ok s ->
  read_settings n r s = Ok s' ->
  settings_ok s' /\
  payload_len (Frame.Settings false s') <= 6 * Z.of_nat n + payload_len (Frame.Settings false s).
Proof.
  revert r s. induction n as [|n IH]; intros r s Hw Hok Hs.
  { intros [= <-]. split; [done|]. lia. }
  intros ([id r1] & H1 & H)%bind_Ok. apply bind_Ok in H as ([v r2] & H2 & H).
  apply u16_Ok in H1 as (a & b & l & Hv & [= -> ->]).
  apply u32_post in H2 as (?&?&?&?).
  - apply IH in H as [? Hlen]; try done; [|by apply set_setting_ok]. split; [done|].
    pose proof (set_setting_len (u16_from_be_bytes a b) v s). lia.
  - apply wf_advance; [rewrite Hv; simpl; lia|done].
  - by apply view_ok_advance.
Qed.

Lemma read_pad_length_post payload padded msg p r :
  bytes_ok payload ->
  read_pad_length (ByteReader.new payload) (zlen payload) padded msg = Ok (p, r) ->
  0 <= p /\ ByteReader.wf r /\ bytes_ok (ByteReader.view r) /\
  zlen payload = bool_to_usize padded + zlen (ByteReader.view r).
Proof.
  intros Hok. unfold read_pad_length. destruct padded; simpl.
  - case_match; [done|]. intros Hu8%u8_post; [|apply wf_new|done].
    destruct Hu8 as (Hp&?&?&?). unfold is_u8 in Hp. split_and!; try done; lia.
  - intros [= <- <-]. split_and!; try done. apply wf_new.
Qed.

Lemma read_padded_post payload padded d :
  bytes_ok payload ->
  read_padded (ByteReader.new payload) (zlen payload) padded = Ok d ->
  bytes_ok d /\ zlen d <= zlen payload.
Proof.
  intros Hok. unfold read_padded. destruct padded; simpl.
  - case_match; [done|]. intros ([p r] & E1 & E2)%bind_Ok.
    apply u8_post in E1 as (?&?&?&Hl); [|apply wf_new|done].
    apply bind_Ok in E2 as (n & _ & E2). apply bind_Ok in E2 as ([d' r'] & E2 & E3).
    injection E3 as <-. apply bytes_Ok in E2 as (?&?&?); try done. split; [done|].
    rewrite view_new in Hl. lia.
  - intros ([d' r'] & E & [= <-])%bind_Ok.
    apply bytes_Ok in E as (?&?&?); [done|apply wf_new|done].
Qed.

(** What [parse_payload] accepts is a well-formed frame no longer than the
    payload it was read from. *)
Lemma parse_payload_ok ty fl id payload f :
  is_u31 id -> bytes_ok payload ->
  parse_payload ty fl id payload = Ok (Some f) ->
  frame_ok f /\ payload_len f <= zlen payload.
Proof.
  intros Hid Hok. unfold parse_payload, parse_push_promise, parse_ping, parse_goaway, parse_window_update.
  pose proof (wf_new payload) as Hw. pose proof (zlen_nonneg payload).
  assert (bytes_ok (ByteReader.view (ByteReader.new payload))) as Hv by done.
  assert (zlen (ByteReader.view (ByteReader.new payload)) = zlen payload) as Hz by done.
  destruct (ty =? frame_type.DATA).
  { intros (d & Hd & [= <-])%bind_Ok. by apply read_padded_post in Hd as [? ?]. }
  destruct (ty =? frame_type.HEADERS).
  { intros ([p r] & Hp & H1)%bind_Ok. apply read_pad_length_post in Hp as (?&?&?&Hl); [|done].
    apply bind_Ok in H1 as ([pr r'] & Hpr & H1). apply bind_Ok in H1 as (n & Hn & H1).
    apply bind_Ok in H1 as ([frag r''] & Hfr & H1). injection H1 as <-. simpl.
    destruct (has_flag fl flags.HEADERS_PRIORITY).
    - case_match; [done|]. apply bind_Ok in Hpr as ([q r1] & Hq & [= <- <-]).
      apply read_priority_post in Hq as (?&?&?&?); try done.
      apply bytes_Ok in Hfr as (?&?&?); try done. split_and!; try done.
      unfold bool_to_usize in *. case_match; lia.
    - injection Hpr as <- <-. apply bytes_Ok in Hfr as (?&?&?); try done. split_and!; try done.
      unfold bool_to_usize in *. case_match; lia. }
  destruct (ty =? frame_type.PRIORITY).
  { destruct (Z.eqb_spec (zlen payload) 5); [|done].
    intros ([p r] & Hp & [= <-])%bind_Ok. 
    apply read_priority_post in Hp as (?&?&?&?); try done. simpl. split_and!; try done; lia. }
  destruct (ty =? frame_type.RST_STREAM).
  { destruct (Z.eqb_spec (zlen payload) 4); [|done].
    intros ([p r] & Hp & [= <-])%bind_Ok. 
    apply u32_post in Hp as (?&?&?&?); try done. simpl. split_and!; try done; lia. }
  destruct (ty =? frame_type.SETTINGS).
  { destruct (has_flag fl flags.SETTINGS_ACK && negb (zlen payload =? 0)) eqn:Hack; [done|].
    destruct (Z.eqb_spec (zlen payload mod 6) 0) as [Hm|]; [|done].
    intros (s & Hs & [= <-])%bind_Ok.
    assert (settings_ok default_settings) as Hdef by done.
    pose proof (read_settings_post _ _ _ _ Hw Hv Hdef Hs) as [Hso Hlen].
    split; [split; [done|]|].
    - intros E. rewrite E in Hack. simpl in Hack.
      destruct (Z.eqb_spec (zlen payload) 0) as [E0|]; [|done].
      rewrite E0 in Hs. by injection Hs.
    - rewrite Z2Nat.id in Hlen by zlia. simpl in *. zlia. }
  destruct (ty =? frame_type.PUSH_PROMISE).
  { intros ([p r] & Hp & H1)%bind_Ok. apply read_pad_length_post in Hp as (?&?&?&Hl); [|done].
    case_match; [done|]. apply bind_Ok in H1 as ([w r'] & Hw' & H1).
    apply bind_Ok in H1 as (n & Hn & H1).
    apply bind_Ok in H1 as ([frag r''] & Hfr & H1). injection H1 as <-. simpl.
    apply u32_post in Hw' as (?&?&?&?); try done.
    apply bytes_Ok in Hfr as (?&?&?); try done. split_and!; auto with h2ts.
    unfold bool_to_usize in *. case_match; lia. }
  destruct (ty =? frame_type.PING).
  { destruct (Z.eqb_spec (zlen payload) 8) as [H8|]; [|done].
    intros ([d r] & Hd & [= <-])%bind_Ok. rewrite <- H8 in Hd.
    rewrite bytes_view_new in Hd. injection Hd as <- _. simpl.
    split_and!; try done; [unfold zlen in H8; lia|lia]. }
  destruct (ty =? frame_type.GOAWAY).
  { case_match; [done|]. intros ([w r] & Hw1 & H1)%bind_Ok.
    apply bind_Ok in H1 as ([c r1] & Hc & H1). apply bind_Ok in H1 as ([d r2] & Hd & [= <-]).
    apply u32_post in Hw1 as (?&?&?&?); try done. apply u32_post in Hc as (?&?&?&?); try done.
    apply bytes_Ok in Hd as (?&?&?); try done. simpl. split_and!; auto with h2ts. lia. }
  destruct (ty =? frame_type.WINDOW_UPDATE).
  { destruct (Z.eqb_spec (zlen payload) 4); [|done].
    intros ([p r] & Hp & [= <-])%bind_Ok. simpl. split_and!; auto with h2ts. lia. }
  destruct (ty =? frame_type.CONTINUATION).
  { intros ([d r] & Hd & [= <-])%bind_Ok.
    apply bytes_Ok in Hd as (?&?&?); try done. }
  intros [=].
Qed.

Lemma frame_at_frame_ok max l f n :
  bytes_ok l -> frame_at max l = Ok (Some (Some f, n)) ->
  frame_ok f /\ payload_len f <= Z.max 0 max.
Proof.
  intros Hok. destruct (decide (9 <= length l)%nat) as [H9|].
  - apply list_9 in H9 as (b0&b1&b2&ty&fl&s0&s1&s2&s3&rest&->). unfold frame_at.
    pose proof (length24_nonneg _ _ _ _ Hok). set (len := Z.lor _ b2) in *.
    destruct (Z.ltb_spec max len); [done|]. case_match; [done|].
    intros (g & Hg & [= -> <-])%bind_Ok.
    apply parse_payload_ok in Hg as [? Hl]; [|apply land_31_range|].
    + split; [done|]. etransitivity; [exact Hl|]. unfold zlen. rewrite length_take. lia.
    + unfold bytes_ok in *. rewrite !Forall_cons in Hok. destruct_and?. by apply Forall_take.
  - by rewrite frame_at_short by (unfold zlen; lia).
Qed.

Lemma deframe_frames_ok max l fs rest :
  bytes_ok l -> deframe max l = Ok (fs, rest) ->
  Forall (fun f => frame_ok f /\ payload_len f <= Z.max 0 max) fs.
Proof.
  intros Hok. revert fs rest. pattern l. revert l Hok.
  apply (deframe_ind max). intros l Hok IH fs rest. rewrite deframe_unfold by done.
  intros ([[f n]|] & Hf & H)%bind_Ok; [|injection H as <- <-; constructor].
  apply bind_Ok in H as ([fs' rest'] & H & [= <- ->]).
  apply Forall_app. split; [|by eapply IH].
  destruct f; simpl; [|constructor]. constructor; [|constructor]. by eapply frame_at_frame_ok.
Qed.
End decoded.
