(* ===== verification/FramesTheorems.v ===== *)
(** * FramesTheorems: what the frame codec guarantees

    The streaming decoder does not depend on the chunks its bytes arrive in,
    reads back what the serializer writes, always returns, keeps a bounded
    buffer, and yields only well-formed frames. *)

From S2P Require Import Prelude Errors Bytes Frames FramesFacts.

(** C1: The decoder does not depend on how the bytes were cut into chunks.
    Pushing chunks one by one gives the frames, the error and the decoder state
    of pushing their concatenation at once. *)
Theorem push_chunking (chunks : list bytes) (d : FrameDecoder.t) :
  decoder_ok d -> bytes_ok (FrameDecoder.pending d) -> Forall bytes_ok chunks ->
  push_all chunks d = FrameDecoder.push (concat chunks) d.
Proof. apply push_all_concat. Qed.

(** C33: Frames written by [serialize_frame] are read back by the decoder, the
    same frames in the same order, whatever chunks their bytes arrive in. *)
Theorem frames_roundtrip {arch : Arch} (max : Z) (fs : list Frame.t) (chunks : list bytes)
    (wire : bytes) :
  Forall (sendable max) fs -> serialize_all fs = Ok wire -> concat chunks = wire ->
  push_all chunks (FrameDecoder.new max) = (FrameDecoder.new max, Ok fs).
Proof.
  intros Hfs Hw Hc. destruct (deframe_serialize max fs Hfs) as (bs & Hs & Hbs & Hd).
  assert (wire = bs) as -> by congruence.
  assert (Forall bytes_ok chunks) as Hchunks.
  { apply Forall_forall. intros c Hin. rewrite <- Hc in Hbs.
    apply list_elem_of_split in Hin as (l1 & l2 & ->). rewrite concat_app in Hbs. simpl in Hbs.
    by apply bytes_ok_app in Hbs as [_ [? _]%bytes_ok_app]. }
  rewrite push_all_concat by (done || constructor || auto with h2ts).
  rewrite Hc, push_deframe by (done || constructor). simpl. by rewrite Hd.
Qed.

(** [push] always returns, and keeps at most one incomplete frame: fewer
    bytes than a header and the largest payload accepted. *)
Theorem push_total_bounded (c : bytes) (d : FrameDecoder.t) :
  decoder_ok d -> bytes_ok (FrameDecoder.pending d) -> bytes_ok c ->
  0 <= FrameDecoder.max_frame_size d ->
  let '(d', res) := FrameDecoder.push c d in
  returns res /\ decoder_ok d' /\ bytes_ok (FrameDecoder.pending d') /\
  FrameDecoder.max_frame_size d' = FrameDecoder.max_frame_size d /\
  zlen (FrameDecoder.pending d') < FRAME_HEADER_SIZE + FrameDecoder.max_frame_size d.
Proof.
  intros Hd Hp Hc Hm. rewrite push_deframe by done.
  assert (bytes_ok (FrameDecoder.pending d ++ c)) as Hpc by (by apply bytes_ok_app).
  pose proof (deframe_returns (FrameDecoder.max_frame_size d) _ Hpc) as Hret.
  unfold FRAME_HEADER_SIZE.
  destruct (deframe _ _) as [[fs rest]| | |] eqn:Hdf; simpl in *; try done.
  - destruct (deframe_rest _ _ _ _ Hpc Hdf) as [Hrest [n ->]].
    split_and!; try done; [by apply bytes_ok_drop|by apply frame_at_None].
  - split_and!; try done; [constructor|unfold zlen; simpl; lia].
Qed.

(** C38: Every frame the decoder yields is well formed, whatever bytes the peer
    sends: stream ids and window increments have 31 bits, weights are 1..256, a
    PING carries eight bytes, a SETTINGS acknowledgement nothing, and no payload
    is larger than the limit we advertised. *)
Theorem push_frames_ok (c : bytes) (d d' : FrameDecoder.t) (fs : list Frame.t) :
  bytes_ok (FrameDecoder.pending d) -> bytes_ok c -> FrameDecoder.push c d = (d', Ok fs) ->
  Forall (fun f => frame_ok f /\ payload_len f <= Z.max 0 (FrameDecoder.max_frame_size d)) fs.
Proof.
  intros Hp Hc H. rewrite push_deframe in H by done.
  destruct (deframe _ _) as [[fs' rest]| | |] eqn:Hd; try discriminate H.
  injection H as _ ->. eapply deframe_frames_ok; [|exact Hd]. by apply bytes_ok_app.
Qed.

(** ** Witnesses *)

(** A SETTINGS frame and a PING, cut in the middle of a header. *)
Definition sample_chunks : list bytes :=
  [[0; 0; 6; 4]; [0; 0; 0; 0; 0; 0; 3; 0; 0; 0; 7; 0; 0; 8; 6; 0; 0; 0; 0; 0];
   [1; 2; 3; 4; 5; 6; 7; 8]].

Definition sample_frames : list Frame.t :=
  [Frame.Settings false (mkSettings None None (Some 7) None None None);
   Frame.Ping false [1; 2; 3; 4; 5; 6; 7; 8]].

Lemma sample_chunks_ok : Forall bytes_ok sample_chunks.
Proof. repeat constructor; done. Qed.

Lemma push_chunking_witness :
  push_all sample_chunks FrameDecoder.default =
  FrameDecoder.push (concat sample_chunks) FrameDecoder.default /\
  snd (push_all sample_chunks FrameDecoder.default) = Ok sample_frames.
Proof.
  split; [|vm_compute; reflexivity].
  apply (push_chunking sample_chunks FrameDecoder.default);
    [reflexivity|constructor|exact sample_chunks_ok].
Defined.

Lemma frames_roundtrip_witness :
  push_all sample_chunks (FrameDecoder.new 16384) = (FrameDecoder.new 16384, Ok sample_frames).
Proof.
  apply (@frames_roundtrip host64_debug 16384 sample_frames sample_chunks
    (concat sample_chunks)); [|vm_compute; reflexivity|reflexivity].
  unfold sample_frames. repeat constructor; simpl; (done || (unfold is_u32; lia)).
Defined.

Lemma push_total_bounded_witness :
  zlen (FrameDecoder.pending (fst (FrameDecoder.push [0; 0; 6; 4; 0] FrameDecoder.default)))
    < FRAME_HEADER_SIZE + 16384.
Proof.
  pose proof (push_total_bounded [0; 0; 6; 4; 0] FrameDecoder.default) as H.
  destruct (FrameDecoder.push [0; 0; 6; 4; 0] FrameDecoder.default) as [d' res].
  apply H; [reflexivity|constructor|repeat constructor; done|simpl; unfold DEFAULT_MAX_FRAME_SIZE; lia].
Defined.

Lemma push_frames_ok_witness :
  exists d', FrameDecoder.push (concat sample_chunks) FrameDecoder.default = (d', Ok sample_frames)
    /\ Forall (fun f => frame_ok f /\ payload_len f <= 16384) sample_frames.
Proof.
  exists FrameDecoder.default. split; [vm_compute; reflexivity|].
  apply (push_frames_ok (concat sample_chunks) FrameDecoder.default FrameDecoder.default
    sample_frames); [constructor|repeat constructor; done|vm_compute; reflexivity].
Defined.
