(* ===== verification/HuffmanFacts.v ===== *)
(** * HuffmanFacts: the Huffman coder is a bijection onto its image

    Both directions are stated on bit strings: [bits_of] of a byte string, and
    [codes], the concatenated codes of the symbols.  Two facts about the table
    are computed once: every code leads to its symbol in the trie, and every
    symbol of the trie sits at the end of its code. *)

From S2P Require Import Prelude Errors Huffman.

(** ** Bit strings *)

Definition bits_of (l : bytes) : list bool := l ≫= (fun b => code_bits b 8).

(** The code of a symbol, as bits. *)
Definition symbol_bits (b : Z) : list bool :=
  match HUFFMAN_CODES !! Z.to_nat b with
  | Some (code, nbits) => code_bits code nbits
  | None => []
  end.

Definition codes (l : bytes) : list bool := l ≫= symbol_bits.

Lemma codes_cons b l : codes (b :: l) = symbol_bits b ++ codes l.
Proof. done. Qed.

Lemma codes_app l1 l2 : codes (l1 ++ l2) = codes l1 ++ codes l2.
Proof. apply bind_app. Qed.

Lemma land_1_testbit v i :
  0 <= i -> negb (Z.land (Z.shiftr v i) 1 =? 0) = Z.testbit v i.
Proof.
  intros Hi. change 1 with (Z.ones 1). rewrite Z.land_ones by lia.
  change (2 ^ 1) with 2. rewrite <- Z.bit0_mod, Z.shiftr_spec by lia.
  rewrite Z.add_0_l. by destruct (Z.testbit v i).
Qed.

Lemma length_code_bits v n : length (code_bits v n) = n.
Proof. induction n; simpl; congruence. Qed.

Lemma length_bits_of l : length (bits_of l) = (8 * length l)%nat.
Proof.
  induction l; [done|]. unfold bits_of in *. rewrite bind_cons, length_app, IHl.
  rewrite length_code_bits. simpl. lia.
Qed.

Lemma bits_of_cons b l : bits_of (b :: l) = code_bits b 8 ++ bits_of l.
Proof. done. Qed.

Lemma code_bits_lookup v n i :
  (i < n)%nat -> code_bits v n !! i = Some (Z.testbit v (Z.of_nat (n - 1 - i))).
Proof.
  revert i. induction n as [|n IH]; intros i Hi; [lia|]. simpl.
  destruct i as [|i]; simpl.
  - rewrite land_1_testbit by lia. do 3 f_equal. lia.
  - rewrite IH by lia. do 3 f_equal. lia.
Qed.

(** A byte is its bits. *)
Lemma code_bits_inj a b : is_u8 a -> is_u8 b -> code_bits a 8 = code_bits b 8 -> a = b.
Proof.
  unfold is_u8. intros Ha Hb H.
  rewrite <- (Z.mod_small a (2 ^ 8)), <- (Z.mod_small b (2 ^ 8)) by lia.
  apply Z.bits_inj'. intros i Hi. destruct (decide (i < 8)).
  - rewrite !Z.mod_pow2_bits_low by lia.
    apply (f_equal (fun l => l !! Z.to_nat (7 - i))) in H.
    rewrite !code_bits_lookup in H by lia. injection H as H.
    by replace (Z.of_nat (7 - Z.to_nat (7 - i))) with i in H by lia.
  - by rewrite !Z.mod_pow2_bits_high by lia.
Qed.

Lemma bits_of_inj l1 l2 : bytes_ok l1 -> bytes_ok l2 -> bits_of l1 = bits_of l2 -> l1 = l2.
Proof.
  intros H1. revert l2. induction H1 as [|a l1 Ha H1 IH]; intros l2 H2 H.
  - destruct H2; [done|]. apply (f_equal length) in H. rewrite !length_bits_of in H. simpl in H. lia.
  - destruct H2 as [|b l2 Hb H2];
      [apply (f_equal length) in H; rewrite !length_bits_of in H; simpl in H; lia|].
    rewrite !bits_of_cons in H.
    apply app_inj_1 in H as [Hab Hl]; [|by rewrite !length_code_bits].
    f_equal; [by apply code_bits_inj|by apply IH].
Qed.

(** ** Setting a bit *)

Lemma lor_u8 a b : is_u8 a -> is_u8 b -> is_u8 (Z.lor a b).
Proof.
  unfold is_u8. intros Ha Hb. split; [apply Z.lor_nonneg; lia|].
  assert (Z.lor a b = Z.lor a b mod 2 ^ 8) as ->; [|apply Z.mod_pos_bound; lia].
  apply Z.bits_inj'. intros i Hi. destruct (decide (i < 8)).
  - by rewrite Z.mod_pow2_bits_low by lia.
  - rewrite Z.mod_pow2_bits_high by lia. rewrite Z.lor_spec.
    rewrite <- (Z.mod_small a (2 ^ 8)), <- (Z.mod_small b (2 ^ 8)) by lia.
    by rewrite !Z.mod_pow2_bits_high by lia.
Qed.

Lemma shiftr_128 j : (j < 8)%nat -> Z.shiftr 128 (Z.of_nat j) = 2 ^ (7 - Z.of_nat j).
Proof.
  intros. rewrite Z.shiftr_div_pow2 by lia. change 128 with (2 ^ 7).
  symmetry. apply Z.pow_sub_r; lia.
Qed.

Lemma code_bits_set b j :
  (j < 8)%nat ->
  code_bits (Z.lor b (Z.shiftr 128 (Z.of_nat j))) 8 = <[j := true]> (code_bits b 8).
Proof.
  intros Hj. apply list_eq. intros i. destruct (decide (i < 8)%nat).
  - rewrite code_bits_lookup by lia. rewrite Z.lor_spec, shiftr_128 by done.
    rewrite Z.pow2_bits_eqb by lia. destruct (decide (i = j)) as [->|].
    + rewrite list_lookup_insert_eq by (by rewrite length_code_bits).
      f_equal. destruct (Z.eqb_spec (7 - Z.of_nat j) (Z.of_nat (8 - 1 - j))); [|lia].
      apply orb_true_r.
    + rewrite list_lookup_insert_ne, code_bits_lookup by lia.
      f_equal. destruct (Z.eqb_spec (7 - Z.of_nat j) (Z.of_nat (8 - 1 - i))); [lia|].
      apply orb_false_r.
  - rewrite !lookup_ge_None_2; [done| |]; rewrite ?length_insert, length_code_bits; lia.
Qed.

Lemma bits_of_insert out i j b :
  out !! i = Some b -> (j < 8)%nat ->
  bits_of (<[i := Z.lor b (Z.shiftr 128 (Z.of_nat j))]> out) =
  <[(8 * i + j)%nat := true]> (bits_of out).
Proof.
  revert i. induction out as [|a out IH]; intros i Hi Hj; [done|].
  destruct i as [|i].
  - injection Hi as ->. cbn [insert list_insert]. rewrite !bits_of_cons, code_bits_set by done.
    rewrite insert_app_l by (rewrite length_code_bits; lia). done.
  - simpl in Hi. set (x := Z.lor _ _) in *.
    change (<[S i:=x]> (a :: out)) with (a :: <[i:=x]> out).
    rewrite !bits_of_cons, IH by done.
    rewrite insert_app_r_alt by (rewrite length_code_bits; lia).
    rewrite length_code_bits. do 2 f_equal. lia.
Qed.

(** What [set_bit] does to a buffer whose bits from [pos] on are still 0. *)
Lemma set_bit_ok out pre k :
  bytes_ok out -> bits_of out = pre ++ false :: replicate k false ->
  exists out', set_bit out (length pre) = Ok out' /\ bytes_ok out' /\
    length out' = length out /\ bits_of out' = pre ++ true :: replicate k false.
Proof.
  intros Hok Hb. pose proof (length_bits_of out) as Hl.
  rewrite Hb, length_app in Hl. simpl in Hl. rewrite length_replicate in Hl.
  pose proof (Nat.div_mod_eq (length pre) 8). pose proof (Nat.mod_upper_bound (length pre) 8).
  set (i := (length pre / 8)%nat) in *. set (j := (length pre mod 8)%nat) in *.
  destruct (out !! i) as [b|] eqn:Hi.
  2:{ apply lookup_ge_None_1 in Hi. lia. }
  unfold set_bit. fold i j. rewrite Hi. simpl.
  eexists. split; [done|]. split_and!.
  - apply Forall_insert; [done|]. apply lor_u8; [by eapply bytes_ok_lookup|].
    rewrite shiftr_128 by lia. unfold is_u8. split; [apply Z.pow_nonneg; lia|].
    change 256 with (2 ^ 8). apply Z.pow_lt_mono_r; lia.
  - apply length_insert.
  - rewrite bits_of_insert by (done || lia). rewrite Hb.
    replace (8 * i + j)%nat with (length pre + 0)%nat by lia.
    rewrite insert_app_r. done.
Qed.

(** ** The encoder writes the codes, then ones *)

Lemma write_code_ok code n out pre k :
  bytes_ok out -> (n <= k)%nat -> bits_of out = pre ++ replicate k false ->
  exists out', write_code code n out (length pre) = Ok (out', (length pre + n)%nat) /\
    bytes_ok out' /\ length out' = length out /\
    bits_of out' = pre ++ code_bits code n ++ replicate (k - n) false.
Proof.
  revert out pre k. induction n as [|n IH]; intros out pre k Hok Hk Hb; simpl.
  - exists out. rewrite Nat.add_0_r, Nat.sub_0_r. done.
  - destruct k as [|k]; [lia|]. simpl in Hb. set (bit := negb _).
    assert (exists out', (if bit then set_bit out (length pre) else mret out) = Ok out' /\
      bytes_ok out' /\ length out' = length out /\
      bits_of out' = (pre ++ [bit]) ++ replicate k false) as (out1 & H1 & Hok1 & Hl1 & Hb1).
    { rewrite <- app_assoc. destruct bit; [by apply set_bit_ok|]. by exists out. }
    rewrite H1. simpl.
    destruct (IH out1 (pre ++ [bit]) k) as (out2 & H2 & Hok2 & Hl2 & Hb2); [done|lia|done|].
    exists out2. rewrite length_app in H2. simpl in H2.
    rewrite Nat.add_1_r in H2. rewrite H2. split_and!; [do 2 f_equal; lia|done|lia|].
    by rewrite Hb2, <- app_assoc.
Qed.

Lemma code_of_Ok b : is_u8 b -> exists code n, code_of b = Ok (code, n) /\
  symbol_bits b = code_bits code n.
Proof.
  unfold is_u8, code_of, symbol_bits. intros Hb.
  destruct (lookup_lt_is_Some_2 HUFFMAN_CODES (Z.to_nat b)) as [[c n] ->].
  { change (length HUFFMAN_CODES) with 257%nat. lia. }
  by exists c, n.
Qed.

Lemma encoded_bit_length_ok l :
  bytes_ok l -> encoded_bit_length l = Ok (length (codes l)).
Proof.
  induction 1 as [|b l Hb _ IH]; [done|]. cbn [encoded_bit_length].
  destruct (code_of_Ok b Hb) as (c & n & -> & Hs). simpl. rewrite IH. simpl.
  rewrite length_app, Hs, length_code_bits. done.
Qed.

Lemma write_symbols_ok l out pre k :
  bytes_ok l -> bytes_ok out -> (length (codes l) <= k)%nat ->
  bits_of out = pre ++ replicate k false ->
  exists out', write_symbols l out (length pre) = Ok (out', (length pre + length (codes l))%nat) /\
    bytes_ok out' /\ length out' = length out /\
    bits_of out' = pre ++ codes l ++ replicate (k - length (codes l)) false.
Proof.
  intros Hl. revert out pre k.
  induction Hl as [|b l Hb _ IH]; intros out pre k Hok Hk Hbits; simpl.
  - exists out. rewrite Nat.add_0_r, Nat.sub_0_r. done.
  - rewrite codes_cons in *. rewrite length_app in Hk.
    destruct (code_of_Ok b Hb) as (c & n & -> & Hs). simpl. rewrite Hs in *.
    rewrite length_code_bits in Hk.
    destruct (write_code_ok c n out pre k) as (o1 & H1 & Hok1 & Hl1 & Hb1); [done|lia|done|].
    rewrite H1. simpl. rewrite app_assoc in Hb1.
    destruct (IH o1 (pre ++ code_bits c n) (k - n)%nat)
      as (o2 & H2 & Hok2 & Hl2 & Hb2); [done|lia|done|].
    rewrite length_app, length_code_bits in H2. exists o2.
    rewrite length_app, length_code_bits. split_and!.
    + rewrite H2. do 2 f_equal. lia.
    + done.
    + lia.
    + rewrite Hb2. rewrite <- !app_assoc. do 4 f_equal. lia.
Qed.

Lemma pad_ones_ok fuel out pre k :
  (k < fuel)%nat -> (k < 8)%nat -> bytes_ok out -> bits_of out = pre ++ replicate k false ->
  exists out', pad_ones fuel out (length pre) = Ok out' /\ bytes_ok out' /\
    bits_of out' = pre ++ replicate k true.
Proof.
  revert out pre k. induction fuel as [|fuel IH]; intros out pre k Hf Hk Hok Hb; [lia|].
  cbn [pad_ones].
  pose proof (length_bits_of out) as Hl.
  rewrite Hb, length_app, length_replicate in Hl.
  destruct (Nat.eqb_spec (length pre mod 8) 0) as [Hm|Hm].
  - assert (k = 0)%nat as ->.
    { apply Nat.Div0.mod_divides in Hm as [q Hq]. lia. }
    by exists out.
  - destruct k as [|k].
    { exfalso. apply Hm. apply Nat.Div0.mod_divides. exists (length out). lia. }
    destruct (set_bit_ok out pre k Hok Hb) as (o1 & -> & Hok1 & _ & Hb1). simpl.
    destruct (IH o1 (pre ++ [true]) k) as (o2 & H2 & Hok2 & Hb2); [lia|lia|done| |].
    { by rewrite Hb1, <- app_assoc. }
    rewrite length_app, Nat.add_1_r in H2. exists o2. split_and!; [done|done|].
    by rewrite Hb2, <- app_assoc.
Qed.

Lemma bits_of_zeros n : bits_of (replicate n 0) = replicate (8 * n) false.
Proof.
  induction n as [|n IH]; [done|].
  replace (8 * S n)%nat with (8 + 8 * n)%nat by lia. rewrite replicate_add, <- IH. done.
Qed.

Lemma div_ceil8_spec n : (n <= 8 * div_ceil8 n < n + 8)%nat.
Proof.
  unfold div_ceil8. pose proof (Nat.div_mod_eq (n + 7) 8).
  pose proof (Nat.mod_upper_bound (n + 7) 8). lia.
Qed.

(** The encoder never panics; its output is the codes padded with fewer than
    eight 1-bits. *)
Lemma huffman_encode_ok l :
  bytes_ok l ->
  exists e k, huffman_encode l = Ok e /\ bytes_ok e /\ (k < 8)%nat /\
    length e = div_ceil8 (length (codes l)) /\
    bits_of e = codes l ++ replicate k true.
Proof.
  intros Hl. unfold huffman_encode. rewrite encoded_bit_length_ok by done. simpl.
  set (n := length (codes l)). pose proof (div_ceil8_spec n) as Hn.
  destruct (write_symbols_ok l (replicate (div_ceil8 n) 0) [] (8 * div_ceil8 n))
    as (o1 & H1 & Hok1 & Hl1 & Hb1); [done| |lia|by rewrite bits_of_zeros|].
  { apply Forall_replicate. unfold is_u8. lia. }
  simpl in H1. rewrite H1. simpl.
  destruct (pad_ones_ok 8 o1 (codes l) (8 * div_ceil8 n - n)) as (o2 & H2 & Hok2 & Hb2);
    [lia|lia|done|done|].
  exists o2, (8 * div_ceil8 n - n)%nat. split_and!; [done|done|lia| |done].
  apply (f_equal length) in Hb2.
  rewrite length_bits_of, length_app, length_replicate in Hb2. fold n in Hb2. lia.
Qed.

(** ** The trie *)

Fixpoint descend (n : TrieNode) (q : list bool) {struct q} : option TrieNode :=
  match q with
  | [] => Some n
  | b :: q => c ← child n b; descend c q
  end.

(** Every marked node, with its path. *)
Fixpoint leaves (n : TrieNode) : list (list bool * nat) :=
  match n with
  | Node c0 c1 s =>
      match s with Some s => [([], s)] | None => [] end ++
      match c0 with Some c => (fun x => (false :: x.1, x.2)) <$> leaves c | None => [] end ++
      match c1 with Some c => (fun x => (true :: x.1, x.2)) <$> leaves c | None => [] end
  end.

Lemma descend_leaves q n m s :
  descend n q = Some m -> symbol m = Some s -> (q, s) ∈ leaves n.
Proof.
  revert n. induction q as [|b q IH]; intros n Hd Hs; simpl in Hd.
  - injection Hd as ->. destruct m as [c0 c1 o]. simpl in *. rewrite Hs. left.
  - destruct n as [c0 c1 o]. destruct (child (Node c0 c1 o) b) as [c|] eqn:Hc; [|done].
    simpl in Hd. specialize (IH c Hd Hs). simpl. apply elem_of_app. right.
    apply elem_of_app. destruct b; simpl in Hc; subst.
    + right. apply list_elem_of_fmap. by exists (q, s).
    + left. apply list_elem_of_fmap. by exists (q, s).
Qed.

Lemma descend_app n q1 q2 : descend n (q1 ++ q2) = (m ← descend n q1; descend m q2).
Proof.
  revert n. induction q1 as [|b q1 IH]; intros n; simpl; [done|].
  destruct (child n b); simpl; [by rewrite IH|done].
Qed.

(** No node on the way down [q] is marked, and the node at its end is [s]. *)
Fixpoint leads_to (n : TrieNode) (q : list bool) (s : nat) {struct q} : bool :=
  match q with
  | [] => match symbol n with Some s' => (s' =? s)%nat | None => false end
  | b :: q =>
      match child n b, symbol n with
      | Some c, None => leads_to c q s
      | _, _ => false
      end
  end.

(** Computed: every marked node of the trie sits at the end of its code. *)
Lemma trie_leaves_ok :
  forallb (fun x => bool_decide ((fun c => code_bits c.1 c.2) <$> HUFFMAN_CODES !! x.2
    = Some x.1)) (leaves root) = true.
Proof. vm_compute. reflexivity. Qed.

(** Computed: the code of every symbol, EOS included, leads to it. *)
Lemma trie_codes_ok :
  forallb (fun s => match HUFFMAN_CODES !! s with
    | Some (c, n) => leads_to root (code_bits c n) s && negb (n =? 0)%nat
    | None => false end) (seq 0 257) = true.
Proof. vm_compute. reflexivity. Qed.

Lemma trie_sound q m s :
  descend root q = Some m -> symbol m = Some s ->
  (s < 257)%nat /\ symbol_bits (Z.of_nat s) = q.
Proof.
  intros Hd Hs. pose proof (descend_leaves _ _ _ _ Hd Hs) as Hin.
  pose proof trie_leaves_ok as Ht. rewrite forallb_forall in Ht.
  apply list_elem_of_In in Hin. specialize (Ht _ Hin). apply bool_decide_eq_true in Ht.
  simpl in Ht. unfold symbol_bits. rewrite Nat2Z.id.
  destruct (HUFFMAN_CODES !! s) as [[c n]|] eqn:Hl; [|done]. injection Ht as <-.
  split; [|done]. apply lookup_lt_Some in Hl. exact Hl.
Qed.

Lemma trie_complete b : is_u8 b -> leads_to root (symbol_bits b) (Z.to_nat b) = true.
Proof.
  unfold is_u8. intros Hb. pose proof trie_codes_ok as Ht. rewrite forallb_forall in Ht.
  specialize (Ht (Z.to_nat b)). rewrite in_seq in Ht. unfold symbol_bits.
  destruct (HUFFMAN_CODES !! Z.to_nat b) as [[c n]|]; [|by discriminate Ht; lia].
  apply andb_true_iff in Ht; [apply Ht|lia].
Qed.

Lemma symbol_bits_nonempty b : is_u8 b -> symbol_bits b <> [].
Proof.
  unfold is_u8. intros Hb. pose proof trie_codes_ok as Ht. rewrite forallb_forall in Ht.
  specialize (Ht (Z.to_nat b)). rewrite in_seq in Ht. unfold symbol_bits.
  destruct (HUFFMAN_CODES !! Z.to_nat b) as [[c n]|]; [|by discriminate Ht; lia].
  intros Hn. apply (f_equal length) in Hn. rewrite length_code_bits in Hn. simpl in Hn. subst n.
  rewrite andb_false_r in Ht. by discriminate Ht; lia.
Qed.

#[local] Opaque root build_trie.

(** ** The decoder, on bits *)

Fixpoint decode_bits (l : list bool) (s : DecodeState) : result DecodeState :=
  match l with
  | [] => mret s
  | b :: l => s ← decode_bit s b; decode_bits l s
  end.

Lemma decode_bits_app l1 l2 s :
  decode_bits (l1 ++ l2) s = (s ← decode_bits l1 s; decode_bits l2 s).
Proof.
  revert s. induction l1 as [|b l1 IH]; intros s; [done|]. cbn.
  destruct (decode_bit s b); simpl; [apply IH|done..].
Qed.

Lemma decode_byte_bits b n s : decode_byte b n s = decode_bits (code_bits b n) s.
Proof.
  revert s. induction n as [|n IH]; intros s; [done|]. cbn.
  destruct (decode_bit _ _); simpl; [apply IH|done..].
Qed.

Lemma decode_bytes_bits l s : decode_bytes l s = decode_bits (bits_of l) s.
Proof.
  revert s. induction l as [|b l IH]; intros s; [done|].
  rewrite bits_of_cons, decode_bits_app, <- decode_byte_bits. cbn [decode_bytes].
  destruct (decode_byte b 8 s); simpl; [apply IH|done..].
Qed.

(** The decoder stands at the end of the path [q], which is not a whole code. *)
Definition at_path (s : DecodeState) (q : list bool) : Prop :=
  descend root q = Some (node s) /\ depth s = length q /\
  partial_bits s = zlen q /\ partial_all_ones s = forallb id q.

Lemma at_path_root o : at_path (mkDecode o root 0 0 true) [].
Proof. repeat split. Qed.

Lemma decode_bit_sound s q b s' :
  at_path s q -> decode_bit s b = Ok s' ->
  exists syms q', bytes_ok syms /\ out s' = out s ++ syms /\
    q ++ [b] = codes syms ++ q' /\ at_path s' q'.
Proof.
  intros (Hn & Hd & Hp & Ha). unfold decode_bit.
  destruct (child (node s) b) as [n|] eqn:Hc; [|done].
  assert (descend root (q ++ [b]) = Some n) as Hq.
  { rewrite descend_app, Hn. simpl. by rewrite Hc. }
  destruct (symbol n) as [sym|] eqn:Hs; [|intros [= <-]].
  - destruct (Nat.eqb_spec sym HUFFMAN_EOS); [done|]. intros [= <-].
    destruct (trie_sound _ _ _ Hq Hs) as [Hlt Hb].
    assert (is_u8 (Z.of_nat sym)) by (unfold is_u8, HUFFMAN_EOS in *; lia).
    exists [Z.of_nat sym], []. split_and!; try done.
    + by constructor.
    + simpl. by rewrite as_u8_id.
    + by rewrite codes_cons, Hb, !app_nil_r.
  - exists [], (q ++ [b]). split_and!; [constructor|by rewrite app_nil_r|done|].
    split_and!; simpl; [done|rewrite length_app; simpl; lia|unfold zlen in *; rewrite length_app; simpl; lia|].
    rewrite forallb_app, <- Ha. destruct b; simpl; [by rewrite andb_true_r|by rewrite andb_false_r].
Qed.

Lemma decode_bits_sound l s q s' :
  at_path s q -> decode_bits l s = Ok s' ->
  exists syms q', bytes_ok syms /\ out s' = out s ++ syms /\
    q ++ l = codes syms ++ q' /\ at_path s' q'.
Proof.
  revert s q. induction l as [|b l IH]; intros s q Hs H.
  - injection H as <-. exists [], q. rewrite !app_nil_r. by split_and!; [constructor| | |].
  - cbn in H. apply bind_Ok in H as (s1 & H1 & H).
    destruct (decode_bit_sound _ _ _ _ Hs H1) as (y1 & q1 & Hok1 & Ho1 & Hq1 & Hs1).
    destruct (IH s1 q1 Hs1 H) as (y2 & q2 & Hok2 & Ho2 & Hq2 & Hs2).
    exists (y1 ++ y2), q2. split_and!.
    + by apply bytes_ok_app.
    + by rewrite Ho2, Ho1, app_assoc.
    + rewrite codes_app, <- app_assoc, <- Hq2, app_assoc, <- Hq1. by rewrite <- app_assoc.
    + done.
Qed.

Lemma decode_leads_to q s sym :
  q <> [] -> (sym < 256)%nat -> leads_to (node s) q sym = true ->
  decode_bits q s = Ok (mkDecode (out s ++ [Z.of_nat sym]) root 0 0 true).
Proof.
  intros Hq Hsym. revert s. induction q as [|b q IH]; intros s H; [done|]. clear Hq.
  cbn in H |- *. unfold decode_bit. destruct (child (node s) b) as [c|]; [|done].
  destruct (symbol (node s)); [done|].
  destruct q as [|b' q].
  - simpl in H. destruct (symbol c) as [s'|]; [|done]. apply Nat.eqb_eq in H as ->.
    destruct (Nat.eqb_spec sym HUFFMAN_EOS); [unfold HUFFMAN_EOS in *; lia|]. simpl.
    rewrite as_u8_id; [done|unfold is_u8; lia].
  - assert (symbol c = None) as ->.
    { simpl in H. destruct (child c b'); [|done]. by destruct (symbol c). }
    cbn [mbind outcome_bind mret outcome_ret]. by rewrite IH.
Qed.

Lemma decode_bits_codes l o :
  bytes_ok l ->
  decode_bits (codes l) (mkDecode o root 0 0 true) = Ok (mkDecode (o ++ l) root 0 0 true).
Proof.
  intros Hl. revert o. induction Hl as [|b l Hb _ IH]; intros o; [by rewrite app_nil_r|].
  rewrite codes_cons, decode_bits_app.
  rewrite (decode_leads_to (symbol_bits b) _ (Z.to_nat b));
    [|by apply symbol_bits_nonempty|unfold is_u8 in Hb; lia|by apply trie_complete].
  unfold is_u8 in Hb. cbn [mbind outcome_bind out]. rewrite IH, Z2Nat.id by lia.
  by rewrite <- app_assoc.
Qed.

(** Fewer than eight 1-bits are a proper prefix of EOS: they end at no leaf. *)
Lemma decode_bits_ones k o :
  (k < 8)%nat ->
  exists s, decode_bits (replicate k true) (mkDecode o root 0 0 true) = Ok s /\
    out s = o /\ partial_bits s = Z.of_nat k /\ partial_all_ones s = true.
Proof.
  intros Hk. do 8 (destruct k as [|k]; [eexists; by vm_compute|]). lia.
Qed.

Lemma forallb_id_ones q : forallb id q = true -> q = replicate (length q) true.
Proof. induction q as [|[] q IH]; simpl; intros H; [done|by rewrite <- IH|done]. Qed.

Lemma huffman_decode_complete l e :
  bytes_ok l -> huffman_encode l = Ok e -> huffman_decode e = Ok l.
Proof.
  intros Hl He. destruct (huffman_encode_ok l Hl) as (e' & k & He' & _ & Hk & _ & Hb).
  rewrite He in He'. injection He' as <-.
  unfold huffman_decode. rewrite decode_bytes_bits, Hb, decode_bits_app.
  unfold decode_init. rewrite decode_bits_codes by done. cbn [mbind outcome_bind].
  destruct (decode_bits_ones k ([] ++ l) Hk) as (s & Hs & Ho & Hp & Ha).
  cbn [app] in *. rewrite Hs. cbn [mbind outcome_bind]. rewrite Hp, Ha, Ho.
  assert ((7 <? Z.of_nat k) = false) as -> by lia. by rewrite andb_false_r.
Qed.

Lemma huffman_decode_sound e l :
  bytes_ok e -> huffman_decode e = Ok l -> bytes_ok l /\ huffman_encode l = Ok e.
Proof.
  intros He H. unfold huffman_decode in H. apply bind_Ok in H as (s & Hs & H).
  rewrite decode_bytes_bits in Hs.
  destruct (decode_bits_sound _ _ _ _ (at_path_root []) Hs) as (l' & q & Hl & Ho & Hb & Hq).
  simpl in Ho, Hb. destruct Hq as (_ & Hd & Hp & Ha).
  assert (out s = l /\ (length q < 8)%nat /\ q = replicate (length q) true) as (Hout & Hk & Hq).
  { rewrite Hd, Hp in H. destruct q as [|b q]; simpl in H; [injection H as ->; simpl; by split_and!; [|lia|]|].
    destruct (7 <? zlen (b :: q)) eqn:Hlt; [done|]. simpl in H.
    destruct (partial_all_ones s) eqn:Hones; [|done]. injection H as ->.
    split_and!; [done|unfold zlen in Hlt; lia|]. apply forallb_id_ones. by rewrite <- Ha. }
  rewrite Ho in Hout. simpl in Hout. clear Ho; subst l'. split; [done|].
  destruct (huffman_encode_ok l Hl) as (e' & k & He' & Hok' & Hk' & _ & Hb').
  rewrite He'. f_equal. apply bits_of_inj; [done..|].
  rewrite Hb, Hb', Hq. do 2 f_equal.
  pose proof (length_bits_of e) as L1. pose proof (length_bits_of e') as L2.
  rewrite Hb, length_app in L1. rewrite Hb', length_app, length_replicate in L2. lia.
Qed.

Lemma huffman_decode_err' e x :
  huffman_decode e = Err x -> exists msg, x = compression_error msg.
Proof.
  unfold huffman_decode. rewrite decode_bytes_bits. generalize decode_init.
  induction (bits_of e) as [|b l IH]; intros s H; cbn in H.
  - destruct (_ && _) in H; [injection H as <-; eauto|done].
  - destruct (decode_bit s b) as [s'|x'| |] eqn:Hb; cbn in H; [by apply (IH s')| |done..].
    injection H as <-. unfold decode_bit in Hb. destruct (child _ _) as [n|]; [|injection Hb as <-; eauto].
    destruct (symbol n); [|done]. destruct (_ =? _)%nat; [injection Hb as <-; eauto|done].
Qed.

Lemma huffman_decode_err e x : huffman_decode e = Err x -> H2Error.code x = ErrorCode.CompressionError.
Proof. intros H. by destruct (huffman_decode_err' e x H) as [? ->]. Qed.

Lemma huffman_decode_err_stream e x : huffman_decode e = Err x -> H2Error.stream_id x = None.
Proof. intros H. by destruct (huffman_decode_err' e x H) as [? ->]. Qed.

Lemma huffman_decode_returns e : returns (huffman_decode e).
Proof.
  unfold huffman_decode. rewrite decode_bytes_bits. apply returns_bind.
  - generalize decode_init. induction (bits_of e) as [|b l IH]; intros s; [done|].
    cbn [decode_bits]. apply returns_bind; [|intros s' _; apply IH].
    unfold decode_bit. destruct (child _ _) as [n|]; [|done].
    destruct (symbol n); [|done]. by destruct (_ =? _)%nat.
  - intros s _. by destruct (_ && _).
Qed.

Lemma huffman_shorter_ok l e :
  bytes_ok l -> huffman_encode l = Ok e ->
  huffman_shorter l = Ok (length e <? length l)%nat.
Proof.
  intros Hl He. destruct (huffman_encode_ok l Hl) as (e' & k & He' & _ & _ & Hlen & _).
  rewrite He in He'. injection He' as <-. unfold huffman_shorter.
  rewrite encoded_bit_length_ok by done. simpl. by rewrite Hlen.
Qed.

(** ** Theorems *)

(** C35: [huffman_decode] accepts exactly the outputs of [huffman_encode]: every
    byte string is decoded to itself after encoding, and nothing else is
    accepted, so no two wire strings decode to the same header text (over-long
    padding, padding with a 0 bit and EOS are all rejected). *)
Theorem huffman_exact input out :
  bytes_ok input ->
  (huffman_decode input = Ok out <-> bytes_ok out /\ huffman_encode out = Ok input).
Proof.
  intros Hin. split; [by apply huffman_decode_sound|].
  intros [Hout He]. by apply huffman_decode_complete.
Qed.

Lemma huffman_exact_witness :
  huffman_decode [0xf1; 0xe3; 0xc2; 0xe5; 0xf2; 0x3a; 0x6b; 0xa0; 0xab; 0x90; 0xf4; 0xff]
    = Ok (str "www.example.com") /\ bytes_ok (str "www.example.com").
Proof.
  assert (bytes_ok [0xf1; 0xe3; 0xc2; 0xe5; 0xf2; 0x3a; 0x6b; 0xa0; 0xab; 0x90; 0xf4; 0xff])
    as Hok by (repeat constructor; done).
  assert (bytes_ok (str "www.example.com")) as Hs by (repeat constructor; done).
  split; [|exact Hs].
  apply (proj2 (huffman_exact _ (str "www.example.com") Hok)).
  split; [exact Hs|vm_compute; reflexivity].
Defined.

(** The encoder never indexes out of bounds; its output is the symbols'
    codes padded to a byte boundary with fewer than eight 1-bits, and
    [huffman_shorter] says whether that output is strictly shorter. *)
Theorem huffman_encode_spec l :
  bytes_ok l ->
  exists e k, huffman_encode l = Ok e /\ bytes_ok e /\ (k < 8)%nat /\
    bits_of e = codes l ++ replicate k true /\
    huffman_shorter l = Ok (length e <? length l)%nat.
Proof.
  intros Hl. destruct (huffman_encode_ok l Hl) as (e & k & He & Hok & Hk & _ & Hb).
  exists e, k. split_and!; [done..|]. by apply huffman_shorter_ok.
Qed.

Lemma huffman_encode_spec_witness :
  exists e, huffman_encode (str "/index.html") = Ok e /\
    huffman_shorter (str "/index.html") = Ok (length e <? 11)%nat.
Proof.
  destruct (huffman_encode_spec (str "/index.html")) as (e & k & He & _ & _ & _ & Hs).
  { repeat constructor; done. }
  exists e. split; [exact He|exact Hs].
Defined.

(** Decoding any input comes back with a value or with a
    COMPRESSION_ERROR: no index out of bounds, no missing fuel. *)
Theorem huffman_decode_total input :
  returns (huffman_decode input) /\
  forall e, huffman_decode input = Err e -> H2Error.code e = ErrorCode.CompressionError.
Proof. split; [apply huffman_decode_returns|apply huffman_decode_err]. Qed.

Lemma huffman_decode_total_witness :
  huffman_decode [0xff; 0xff; 0xff; 0xff] =
    Err (compression_error "EOS symbol in Huffman stream") /\
  ErrorCode.CompressionError = H2Error.code (compression_error "EOS symbol in Huffman stream").
Proof.
  assert (huffman_decode [0xff; 0xff; 0xff; 0xff] =
    Err (compression_error "EOS symbol in Huffman stream")) as H by (vm_compute; reflexivity).
  split; [exact H|]. symmetry.
  exact (proj2 (huffman_decode_total [0xff; 0xff; 0xff; 0xff]) _ H).
Defined.
