(* ===== verification/Hpack.v ===== *)
(** * Hpack: header compression

    Models [rust/crates/h2ts-client/src/hpack/mod.rs] and [static_table.rs]:
    prefix integers, string literals, the static table with its lookup maps,
    [HpackDecoder] with its dynamic table, and [HpackEncoder], which is
    stateless.  A [String] is its UTF-8 bytes; [usize] arithmetic on integers
    read from the wire follows the [Arch] (shifts and additions panic or wrap).
    The sizes of strings held in memory are exact integers: their sums stay
    below the address space.  The theorems are in HpackFacts.v. *)

From S2P Require Import Prelude Errors Bytes Utf8 Huffman.

Definition ENTRY_OVERHEAD : Z := 32.
Definition DEFAULT_TABLE_SIZE : Z := 4096.

(** ** The static table *)

Definition STATIC_TABLE : list (bytes * bytes) := [
  (str ":authority", []);
  (str ":method", str "GET");
  (str ":method", str "POST");
  (str ":path", str "/");
  (str ":path", str "/index.html");
  (str ":scheme", str "http");
  (str ":scheme", str "https");
  (str ":status", str "200");
  (str ":status", str "204");
  (str ":status", str "206");
  (str ":status", str "304");
  (str ":status", str "400");
  (str ":status", str "404");
  (str ":status", str "500");
  (str "accept-charset", []);
  (str "accept-encoding", str "gzip, deflate");
  (str "accept-language", []);
  (str "accept-ranges", []);
  (str "accept", []);
  (str "access-control-allow-origin", []);
  (str "age", []);
  (str "allow", []);
  (str "authorization", []);
  (str "cache-control", []);
  (str "content-disposition", []);
  (str "content-encoding", []);
  (str "content-language", []);
  (str "content-length", []);
  (str "content-location", []);
  (str "content-range", []);
  (str "content-type", []);
  (str "cookie", []);
  (str "date", []);
  (str "etag", []);
  (str "expect", []);
  (str "expires", []);
  (str "from", []);
  (str "host", []);
  (str "if-match", []);
  (str "if-modified-since", []);
  (str "if-none-match", []);
  (str "if-range", []);
  (str "if-unmodified-since", []);
  (str "last-modified", []);
  (str "link", []);
  (str "location", []);
  (str "max-forwards", []);
  (str "proxy-authenticate", []);
  (str "proxy-authorization", []);
  (str "range", []);
  (str "referer", []);
  (str "refresh", []);
  (str "retry-after", []);
  (str "server", []);
  (str "set-cookie", []);
  (str "strict-transport-security", []);
  (str "transfer-encoding", []);
  (str "user-agent", []);
  (str "vary", []);
  (str "via", []);
  (str "www-authenticate", [])
].

Definition STATIC_TABLE_LENGTH : Z := zlen STATIC_TABLE.

(** ** Header fields *)

Record Header := mkHeader {
  name : bytes;
  value : bytes;
  never_index : bool;
}.

#[global] Instance Header_eq_dec : EqDecision Header.
Proof. solve_decision. Defined.

(** [Header::new] *)
Definition header (n v : bytes) : Header := mkHeader n v false.
(** [Header::never_indexed] *)
Definition never_indexed (n v : bytes) : Header := mkHeader n v true.

Section integers.
Context {arch : Arch}.

(** ** [usize] arithmetic *)

(** [a + b]: panics or wraps on overflow. *)
Definition usize_add (a b : Z) : result Z :=
  if a + b <? 2 ^ usize_bits then Ok (a + b)
  else if overflow_checks then Panic else Ok ((a + b) mod 2 ^ usize_bits).

(** [a << s]: bits shifted out are lost; a shift amount of [usize::BITS] or
    more panics, or is masked to the low bits of the amount. *)
Definition usize_shl (a s : Z) : result Z :=
  if s <? usize_bits then Ok (Z.shiftl a s mod 2 ^ usize_bits)
  else if overflow_checks then Panic
  else Ok (Z.shiftl a (s mod usize_bits) mod 2 ^ usize_bits).

(** ** Prefix integers *)

(** [(1usize << prefix_bits) - 1] *)
Definition prefix_max (prefix_bits : Z) : Z := Z.shiftl 1 prefix_bits - 1.

(** [while rest >= 128]: seven bits a turn, so [usize_bits] turns are enough. *)
Fixpoint write_integer_loop (fuel : nat) (rest : Z) (w : ByteWriter.t) : result ByteWriter.t :=
  match fuel with
  | O => OutOfFuel
  | S fuel =>
      if 128 <=? rest then
        write_integer_loop fuel (rest / 128) (ByteWriter.u8 (as_u8 (rest mod 128) + 128) w)
      else mret (ByteWriter.u8 (as_u8 rest) w)
  end.

Definition write_integer (value prefix_bits first_byte_flags : Z) (w : ByteWriter.t)
    : result ByteWriter.t :=
  let max := prefix_max prefix_bits in
  if value <? max then mret (ByteWriter.u8 (Z.lor first_byte_flags (as_u8 value)) w)
  else
    let w := ByteWriter.u8 (Z.lor first_byte_flags (as_u8 max)) w in
    write_integer_loop (Z.to_nat usize_bits) (value - max) w.

(** The [loop]: [shift] grows by 7 and stops above 42, so seven turns. *)
Fixpoint read_integer_loop (fuel : nat) (value shift : Z) (r : ByteReader.t)
    : result (Z * ByteReader.t) :=
  match fuel with
  | O => OutOfFuel
  | S fuel =>
      if ByteReader.remaining r =? 0 then Err (compression_error "truncated integer")
      else
        '(byte, r) ← ByteReader.u8 r;
        shifted ← usize_shl (Z.land byte 0x7f) shift;
        value ← usize_add value shifted;
        let shift := shift + 7 in
        if 42 <? shift then Err (compression_error "integer overflow")
        else if Z.land byte 0x80 =? 0 then mret (value, r)
        else read_integer_loop fuel value shift r
  end.

Definition read_integer (r : ByteReader.t) (prefix_bits : Z) : result (Z * ByteReader.t) :=
  let max := prefix_max prefix_bits in
  '(b, r) ← ByteReader.u8 r;
  let value := Z.land b (as_u8 max) in
  if value <? max then mret (value, r)
  else read_integer_loop 7 value 0 r.

(** ** String literals *)

Definition write_string (w : ByteWriter.t) (raw : bytes) : result ByteWriter.t :=
  shorter ← huffman_shorter raw;
  if (shorter : bool) then
    encoded ← huffman_encode raw;
    w ← write_integer (zlen encoded) 7 0x80 w;
    mret (ByteWriter.bytes encoded w)
  else
    w ← write_integer (zlen raw) 7 0x00 w;
    mret (ByteWriter.bytes raw w).

Definition read_string (r : ByteReader.t) : result (bytes * ByteReader.t) :=
  if ByteReader.remaining r =? 0 then Err (compression_error "truncated string")
  else
    first ← ByteReader.peek r;
    let huffman := has_flag first 0x80 in
    '(length, r) ← read_integer r 7;
    if ByteReader.remaining r <? length then Err (compression_error "string length exceeds block")
    else
      '(raw, r) ← ok_or (compression_error "truncated string") (ByteReader.bytes length r);
      decoded ← (if huffman then huffman_decode raw else mret raw);
      mret (decode_utf8 decoded, r).

End integers.

(** ** Static table lookup maps *)

Record StaticMaps := mkMaps {
  name_to_index : gmap bytes Z;
  pair_to_index : gmap bytes Z;
}.

Definition pair_key (n v : bytes) : bytes := n ++ [0] ++ v.

(** [map.entry(k).or_insert(v)] *)
Definition or_insert (k : bytes) (v : Z) (m : gmap bytes Z) : gmap bytes Z :=
  match m !! k with Some _ => m | None => <[k := v]> m end.

Fixpoint fill_maps (entries : list (bytes * bytes)) (i : Z) (m : StaticMaps) : StaticMaps :=
  match entries with
  | [] => m
  | (n, v) :: entries =>
      let index := i + 1 in
      fill_maps entries (i + 1)
        (mkMaps (or_insert n index (name_to_index m))
                (<[pair_key n v := index]> (pair_to_index m)))
  end.

Definition static_maps : StaticMaps := fill_maps STATIC_TABLE 0 (mkMaps ∅ ∅).

(** ** The decoder *)

Module HpackDecoder.

Record t := mk {
  dynamic : list (bytes * bytes);  (* newest first *)
  size : Z;
  max_size : Z;
  protocol_max : Z;
}.

Definition new (max_size : Z) : t := mk [] 0 max_size max_size.
Definition default : t := new DEFAULT_TABLE_SIZE.

Definition entry_size (e : bytes * bytes) : Z := zlen e.1 + zlen e.2 + ENTRY_OVERHEAD.

(** [while self.size + extra > self.max_size && !self.dynamic.is_empty()]: pop
    the oldest entry; every turn shortens the table. *)
Fixpoint evict (fuel : nat) (extra : Z) (d : t) : result t :=
  match fuel with
  | O => OutOfFuel
  | S fuel =>
      if (max_size d <? size d + extra) then
        match last (dynamic d) with
        | None => mret d
        | Some removed =>
            evict fuel extra
              (mk (removelast (dynamic d)) (size d - entry_size removed)
                  (max_size d) (protocol_max d))
        end
      else mret d
  end.

Definition apply_max_size (new_size : Z) : ST t H2Error.t unit :=
  d ← st_get;
  if protocol_max d <? new_size then
    st_throw (compression_error "dynamic table size update too large")
  else
    d ← st_lift (evict (S (length (dynamic d))) 0
                   (mk (dynamic d) (size d) new_size (protocol_max d)));
    st_put d.

(** The result of [apply_max_size] is discarded ([let _ =]). *)
Definition set_protocol_max_size (n : Z) (d : t) : t :=
  let d := mk (dynamic d) (size d) (max_size d) n in
  if n <? max_size d then fst (apply_max_size n d) else d.

(** [1..=STATIC_TABLE_LENGTH] is the static table; [index - 62] is the position
    in the dynamic table (callers pass a nonzero index). *)
Definition entry_at (index : Z) (d : t) : result (bytes * bytes) :=
  if (1 <=? index) && (index <=? STATIC_TABLE_LENGTH) then
    expect (STATIC_TABLE !! Z.to_nat (index - 1))
  else
    let di := index - STATIC_TABLE_LENGTH - 1 in
    ok_or (compression_error ("invalid HPACK index " +:+ pretty index)) (dynamic d !! Z.to_nat di).

Definition insert (n v : bytes) : ST t H2Error.t unit :=
  let sz := entry_size (n, v) in
  d ← st_get;
  d ← st_lift (evict (S (length (dynamic d))) sz d);
  if sz <=? max_size d then
    st_put (mk ((n, v) :: dynamic d) (size d + sz) (max_size d) (protocol_max d))
  else
    st_put (mk [] 0 (max_size d) (protocol_max d)).

Section decode.
Context {arch : Arch}.

(** The name of a literal: by index, or a string when the index is 0. *)
Definition read_name (name_index : Z) (r : ByteReader.t) (d : t)
    : result (bytes * ByteReader.t) :=
  if name_index =? 0 then read_string r
  else e ← entry_at name_index d; mret (e.1, r).

(** The body of the loop: one representation of the block, with the headers it
    adds. *)
Definition decode_one (r : ByteReader.t) : ST t H2Error.t (list Header * ByteReader.t) :=
  first ← st_lift (ByteReader.peek r);
  if has_flag first 0x80 then
    '(index, r) ← st_lift (read_integer r 7);
    if index =? 0 then st_throw (compression_error "indexed field with index 0")
    else
      d ← st_get;
      '(n, v) ← st_lift (entry_at index d);
      mret ([header n v], r)
  else if has_flag first 0x40 then
    '(name_index, r) ← st_lift (read_integer r 6);
    d ← st_get;
    '(n, r) ← st_lift (read_name name_index r d);
    '(v, r) ← st_lift (read_string r);
    _ ← insert n v;
    mret ([header n v], r)
  else if has_flag first 0x20 then
    '(new_size, r) ← st_lift (read_integer r 5);
    _ ← apply_max_size new_size;
    mret ([], r)
  else
    '(name_index, r) ← st_lift (read_integer r 4);
    d ← st_get;
    '(n, r) ← st_lift (read_name name_index r d);
    '(v, r) ← st_lift (read_string r);
    mret ([header n v], r).

(** [while r.remaining() > 0]: every turn reads at least a byte. *)
Fixpoint decode_loop (fuel : nat) (r : ByteReader.t) (headers : list Header)
    : ST t H2Error.t (list Header) :=
  match fuel with
  | O => st_lift OutOfFuel
  | S fuel =>
      if 0 <? ByteReader.remaining r then
        '(hs, r) ← decode_one r;
        decode_loop fuel r (headers ++ hs)
      else mret headers
  end.

Definition decode (block : bytes) : ST t H2Error.t (list Header) :=
  decode_loop (S (length block)) (ByteReader.new block) [].

End decode.
End HpackDecoder.

(** ** The encoder *)

Definition to_ascii_lowercase (s : bytes) : bytes :=
  (fun b => if (65 <=? b) && (b <=? 90) then b + 32 else b) <$> s.

Module HpackEncoder.
Section encode.
Context {arch : Arch}.

Definition encode_header (h : Header) (w : ByteWriter.t) : result ByteWriter.t :=
  let n := to_ascii_lowercase (name h) in
  match pair_to_index static_maps !! pair_key n (value h) with
  | Some index => write_integer index 7 0x80 w
  | None =>
      let flags := if never_index h then 0x10 else 0x00 in
      w ← match name_to_index static_maps !! n with
          | Some name_index => write_integer name_index 4 flags w
          | None => w ← write_integer 0 4 flags w; write_string w n
          end;
      write_string w (value h)
  end.

Fixpoint encode_loop (headers : list Header) (w : ByteWriter.t) : result ByteWriter.t :=
  match headers with
  | [] => mret w
  | h :: headers => w ← encode_header h w; encode_loop headers w
  end.

Definition encode (headers : list Header) : result bytes :=
  w ← encode_loop headers ByteWriter.new;
  mret (ByteWriter.into_vec w).

End encode.
End HpackEncoder.
