(* ===== verification/HpackFacts.v ===== *)
(** * HpackFacts: header compression is faithful

    The codecs are stated with [reads]: a reader applied to an encoding followed
    by anything returns the value and stands right after the encoding.  The
    dynamic table is specified by [fit], the longest prefix of the entries that
    fits, and the decoder by a grammar of instructions and their effects. *)

From S2P Require Import Prelude Errors Bytes Utf8 Huffman HuffmanFacts Hpack.

(** ** Readers *)

Definition reads {A} (p : ByteReader.t -> result (A * ByteReader.t)) (enc : bytes) (a : A)
    : Prop :=
  forall r tail, ByteReader.wf r -> ByteReader.view r = enc ++ tail ->
    p r = Ok (a, ByteReader.advance (length enc) r).

(** A position after an encoding that was there is well formed, and what
    follows the encoding is next. *)
Lemma after_enc r enc tail :
  ByteReader.wf r -> ByteReader.view r = enc ++ tail ->
  ByteReader.wf (ByteReader.advance (length enc) r) /\
  ByteReader.view (ByteReader.advance (length enc) r) = tail.
Proof.
  intros Hr Hv. split.
  - apply wf_advance; [|done]. rewrite Hv, length_app. lia.
  - by rewrite view_advance, Hv, drop_app_length.
Qed.

Lemma advance_advance n m r :
  ByteReader.advance m (ByteReader.advance n r) = ByteReader.advance (n + m) r.
Proof. unfold ByteReader.advance. simpl. f_equal. lia. Qed.

Lemma remaining_pos r b l :
  ByteReader.wf r -> ByteReader.view r = b :: l -> (ByteReader.remaining r =? 0) = false.
Proof. intros Hr Hv. rewrite remaining_view, Hv, zlen_cons by done. pose proof (zlen_nonneg l). lia. Qed.

(** ** Prefix integers *)

Section integers.
Context {arch : Arch} {arch_ok : ArchOk arch}.

Lemma usize_bits_pos : 32 <= usize_bits.
Proof using arch_ok. apply arch_ok. Qed.

Lemma usize_add_ok a b : a + b < 2 ^ usize_bits -> usize_add a b = Ok (a + b).
Proof using Type. intros. unfold usize_add. by destruct (Z.ltb_spec (a + b) (2 ^ usize_bits)); [|lia]. Qed.

Lemma usize_shl_ok a s :
  0 <= a -> 0 <= s < usize_bits -> a * 2 ^ s < 2 ^ usize_bits -> usize_shl a s = Ok (a * 2 ^ s).
Proof using Type.
  intros Ha Hs H. unfold usize_shl. destruct (Z.ltb_spec s usize_bits); [|lia].
  rewrite Z.shiftl_mul_pow2, Z.mod_small by nia. done.
Qed.

Lemma land_7f b : Z.land b 127 = b mod 128.
Proof using Type. apply (land_ones_low b 7). lia. Qed.

Lemma land_80 b : is_u8 b -> (Z.land b 128 =? 0) = (b <? 128).
Proof using Type.
  intros H. apply eqb_prop. revert b H.
  apply (u8_forall (fun b => Bool.eqb (Z.land b 128 =? 0) (b <? 128))). by vm_compute.
Qed.

(** One turn of the reader on the byte [b], whose low seven bits are those of
    what is left to read, at [shift = 7 * j]. *)
Lemma read_integer_turn rest b k value j r tail :
  0 <= rest -> is_u8 b -> b mod 128 = rest mod 128 ->
  0 <= j -> Z.of_nat k = 7 - j -> j = 0 \/ 1 <= rest -> rest < 128 ^ (6 - j) -> 0 <= value ->
  value + rest * 2 ^ (7 * j) < 2 ^ usize_bits ->
  ByteReader.wf r -> ByteReader.view r = b :: tail ->
  read_integer_loop k value (7 * j) r =
    (if b <? 128 then Ok (value + rest mod 128 * 2 ^ (7 * j), ByteReader.advance 1 r)
     else read_integer_loop (k - 1) (value + rest mod 128 * 2 ^ (7 * j)) (7 * (j + 1))
            (ByteReader.advance 1 r)).
Proof using arch_ok.
  pose proof usize_bits_pos as Hbits. intros Hrest Hb Hbl Hj Hk Hj1 Hr6 Hv Hsum Hr Hview.
  assert (0 <= rest mod 128 <= rest) by zlia.
  assert (j < 6).
  { destruct (Z.ltb_spec j 6); [done|]. exfalso.
    destruct (decide (j = 6)) as [->|]; [simpl in Hr6; lia|].
    rewrite Z.pow_neg_r in Hr6; lia. }
  assert (0 < 2 ^ (7 * j)) by (apply Z.pow_pos_nonneg; lia).
  assert (7 * j < usize_bits).
  { destruct Hj1 as [->|Hj1]; [lia|]. apply (Z.pow_lt_mono_r_iff 2); [lia|lia|nia]. }
  destruct k as [|k]; [lia|]. cbn [read_integer_loop].
  rewrite (remaining_pos r b tail), u8_view, Hview by done. cbn [mbind outcome_bind].
  rewrite land_7f, Hbl, usize_shl_ok by (lia || nia). cbn [mbind outcome_bind].
  rewrite usize_add_ok by nia. cbn [mbind outcome_bind].
  destruct (Z.ltb_spec 42 (7 * j + 7)); [lia|].
  rewrite land_80 by done. rewrite Nat.sub_1_r. simpl pred.
  by replace (7 * j + 7) with (7 * (j + 1)) by lia.
Qed.

(** The continuation bytes of [rest], read back at [shift = 7 * j]. *)
Definition reads_digits (rest : Z) (ds : bytes) : Prop :=
  forall k value j,
    0 <= j -> Z.of_nat k = 7 - j -> j = 0 \/ 1 <= rest -> rest < 128 ^ (6 - j) -> 0 <= value ->
    value + rest * 2 ^ (7 * j) < 2 ^ usize_bits ->
    reads (read_integer_loop k value (7 * j)) ds (value + rest * 2 ^ (7 * j)).

Lemma reads_digits_last rest : 0 <= rest < 128 -> reads_digits rest [rest].
Proof using arch_ok.
  intros H k value j Hj Hk Hj1 Hr6 Hv Hsum r tail Hr Hview.
  rewrite (read_integer_turn rest rest k value j r tail) by (done || unfold is_u8; lia).
  destruct (Z.ltb_spec rest 128); [|lia]. by rewrite Z.mod_small.
Qed.

Lemma reads_digits_more rest ds :
  128 <= rest -> reads_digits (rest / 128) ds -> reads_digits rest ((rest mod 128 + 128) :: ds).
Proof using arch_ok.
  intros Hge Hread k value j Hj Hk Hj1 Hr6 Hv Hsum r tail Hr Hview.
  assert (0 <= rest mod 128 < 128) by zlia. set (low := rest mod 128) in *.
  assert (rest = low + 128 * (rest / 128)) as Hr128 by (unfold low; zlia).
  assert (1 <= rest / 128) by zlia.
  assert (2 ^ (7 * (j + 1)) = 128 * 2 ^ (7 * j)) as Hpow.
  { replace (7 * (j + 1)) with (7 * j + 7) by lia. rewrite Z.pow_add_r by lia. lia. }
  assert (0 < 2 ^ (7 * j)) by (apply Z.pow_pos_nonneg; lia).
  assert (1 < 6 - j).
  { destruct (Z.ltb_spec 1 (6 - j)); [done|]. exfalso.
    assert (128 ^ (6 - j) <= 128 ^ 1) by (apply Z.pow_le_mono_r; lia). lia. }
  assert (rest / 128 < 128 ^ (6 - (j + 1))) as Hr6'.
  { apply Z.div_lt_upper_bound; [lia|]. rewrite <- Z.pow_succ_r by lia.
    by replace (Z.succ (6 - (j + 1))) with (6 - j) by lia. }
  destruct (after_enc r [low + 128] (ds ++ tail)) as [Hr1 Hview1]; [done|done|].
  cbn [length] in Hr1, Hview1.
  rewrite (read_integer_turn rest (low + 128) k value j r (ds ++ tail))
    by (done || unfold is_u8, low; zlia).
  destruct (Z.ltb_spec (low + 128) 128); [lia|].
  replace (value + rest * 2 ^ (7 * j)) with
    ((value + low * 2 ^ (7 * j)) + rest / 128 * 2 ^ (7 * (j + 1))) by (rewrite Hpow; nia).
  change (rest mod 128) with low.
  rewrite (Hread (k - 1)%nat (value + low * 2 ^ (7 * j)) (j + 1)
    ltac:(lia) ltac:(lia) ltac:(lia) Hr6' ltac:(nia) ltac:(lia) _ tail Hr1 Hview1).
  by rewrite advance_advance.
Qed.

Lemma write_integer_loop_ok fuel rest :
  0 <= rest < 128 ^ Z.of_nat fuel -> fuel <> O ->
  exists ds, (forall w, write_integer_loop fuel rest w = Ok (w ++ ds)) /\ bytes_ok ds /\
    reads_digits rest ds.
Proof using arch_ok.
  revert rest. induction fuel as [|fuel IH]; intros rest Hrest Hf; [done|]. clear Hf.
  cbn [write_integer_loop].
  destruct (Z.leb_spec 128 rest) as [Hge|Hlt].
  - assert (rest / 128 < 128 ^ Z.of_nat fuel) as Hdiv.
    { rewrite Nat2Z.inj_succ, Z.pow_succ_r in Hrest by lia. apply Z.div_lt_upper_bound; lia. }
    assert (1 <= rest / 128) by zlia.
    destruct (IH (rest / 128)) as (ds & Hw & Hok & Hread);
      [lia|intros ->; simpl in Hdiv; lia|].
    exists ((rest mod 128 + 128) :: ds). split_and!.
    + intros w. rewrite Hw, as_u8_id by (unfold is_u8; zlia).
      unfold ByteWriter.u8. by rewrite <- app_assoc.
    + constructor; [unfold is_u8; zlia|done].
    + by apply reads_digits_more.
  - exists [rest]. split_and!.
    + intros w. rewrite as_u8_id by (unfold is_u8; lia). done.
    + constructor; [unfold is_u8; lia|constructor].
    + apply reads_digits_last. lia.
Qed.
(** A prefix length and first-byte flags that leave the prefix free. *)
Definition prefix_ok (p fl : Z) : Prop := 1 <= p <= 7 /\ is_u8 fl /\ fl mod 2 ^ p = 0.

Lemma prefix_max_pow p : 1 <= p -> prefix_max p = 2 ^ p - 1.
Proof using Type. intros. unfold prefix_max. by rewrite Z.shiftl_mul_pow2, Z.mul_1_l by lia. Qed.

Lemma prefix_pow p : 1 <= p <= 7 -> 2 <= 2 ^ p <= 128.
Proof using Type.
  intros. change 2 with (2 ^ 1) at 1. change 128 with (2 ^ 7).
  split; apply Z.pow_le_mono_r; lia.
Qed.

(** The first byte of a prefix integer: flags above, prefix below. *)
Lemma prefix_byte p fl c :
  prefix_ok p fl -> 0 <= c < 2 ^ p ->
  Z.lor fl (as_u8 c) = fl + c /\ is_u8 (fl + c) /\
  Z.land (fl + c) (as_u8 (prefix_max p)) = c.
Proof using Type.
  intros (Hp & Hfl & Hm) Hc. pose proof (prefix_pow p Hp) as Hpow.
  assert (fl = Z.shiftl (fl / 2 ^ p) p) as Hsh.
  { rewrite Z.shiftl_mul_pow2 by lia. pose proof (Z.div_mod fl (2 ^ p)). lia. }
  assert (is_u8 (fl + c)) as Hu.
  { unfold is_u8 in *. split; [lia|].
    assert (2 ^ 8 = 2 ^ (8 - p) * 2 ^ p) as H8 by (rewrite <- Z.pow_add_r by lia; f_equal; lia).
    change (2 ^ 8) with 256 in H8. pose proof (Z.div_mod fl (2 ^ p)).
    assert (fl / 2 ^ p < 2 ^ (8 - p)) by (apply Z.div_lt_upper_bound; lia). nia. }
  split_and!; [|done|].
  - rewrite as_u8_id by (unfold is_u8; lia). rewrite Hsh at 1.
    rewrite lor_add_disjoint by lia. rewrite <- Z.shiftl_mul_pow2 by lia. by rewrite <- Hsh.
  - rewrite prefix_max_pow, as_u8_id by (unfold is_u8; lia). rewrite land_ones_low by lia.
    rewrite Z.add_mod, Hm, Z.add_0_l, Z.mod_mod by lia. by apply Z.mod_small.
Qed.

(** The values [read_integer] gives back: a [usize], at most 2^42 above the
    prefix maximum. *)
Definition codable (p v : Z) : Prop :=
  is_usize v /\ v - (2 ^ p - 1) < 2 ^ 42.

Lemma integer_codec p fl v :
  prefix_ok p fl -> codable p v ->
  exists c enc, (forall w, write_integer v p fl w = Ok (w ++ (fl + c) :: enc)) /\
    0 <= c < 2 ^ p /\ bytes_ok ((fl + c) :: enc) /\
    reads (fun r => read_integer r p) ((fl + c) :: enc) v.
Proof using arch_ok.
  pose proof usize_bits_pos as Hbits.
  intros Hp [[Hv0 Hv] Hv42]. pose proof Hp as (Hp7 & _ & _). pose proof (prefix_pow p Hp7).
  unfold write_integer. rewrite prefix_max_pow by lia.
  destruct (Z.ltb_spec v (2 ^ p - 1)) as [Hlt|Hge].
  - destruct (prefix_byte p fl v Hp) as (Hor & Hu & Hland); [lia|].
    exists v, []. split_and!; [intros w; by rewrite Hor|lia|lia|by constructor|].
    intros r tail Hr Hview. unfold read_integer. rewrite u8_view, Hview.
    cbn [mbind outcome_bind app]. rewrite Hland, prefix_max_pow by lia.
    by destruct (Z.ltb_spec v (2 ^ p - 1)); [|lia].
  - destruct (prefix_byte p fl (2 ^ p - 1) Hp) as (Hor & Hu & Hland); [lia|].
    destruct (write_integer_loop_ok (Z.to_nat usize_bits) (v - (2 ^ p - 1)))
      as (ds & Hw & Hok & Hread); [|lia|].
    { split; [lia|]. rewrite Z2Nat.id by lia. apply Z.lt_le_trans with (2 ^ usize_bits); [lia|].
      apply Z.pow_le_mono_l. lia. }
    exists (2 ^ p - 1), ds. split_and!; [|lia|lia|by constructor|].
    { intros w. rewrite Hor, Hw. unfold ByteWriter.u8. by rewrite <- app_assoc. }
    intros r tail Hr Hview. unfold read_integer. rewrite u8_view, Hview.
    cbn [mbind outcome_bind app]. rewrite Hland, prefix_max_pow by lia.
    destruct (Z.ltb_spec (2 ^ p - 1) (2 ^ p - 1)); [lia|].
    destruct (after_enc r [fl + (2 ^ p - 1)] (ds ++ tail)) as [Hr1 Hv1]; [done|done|].
    cbn [length] in *.
    change 0 with (7 * 0). rewrite (Hread 7%nat (2 ^ p - 1) 0) with (tail := tail);
      [|lia|lia|lia|by change (128 ^ (6 - 0)) with (2 ^ 42)|lia|simpl; lia|done|done].
    rewrite advance_advance. do 3 f_equal. simpl. lia.
Qed.

(** ** String literals *)

Lemma codable_small p v : 1 <= p -> 0 <= v < 2 ^ 32 -> codable p v.
Proof using arch_ok.
  intros Hp Hv. unfold codable, is_usize. pose proof usize_bits_pos.
  assert (2 ^ 32 <= 2 ^ usize_bits) by (apply Z.pow_le_mono_r; lia).
  assert (0 < 2 ^ p) by (apply Z.pow_pos_nonneg; lia).
  assert (2 ^ 32 < 2 ^ 42) by done. lia.
Qed.

Lemma has_flag_prefix fl c p mask :
  prefix_ok p fl -> 0 <= c < 2 ^ p ->
  (forall b, is_u8 b -> has_flag b mask = has_flag (b - b mod 2 ^ p) mask) ->
  has_flag (fl + c) mask = has_flag fl mask.
Proof using Type.
  intros Hp Hc Hm. destruct (prefix_byte p fl c Hp Hc) as (_ & Hu & _).
  rewrite Hm by done. f_equal. destruct Hp as (_ & _ & Hfl).
  rewrite Z.add_mod, Hfl, Z.add_0_l, Z.mod_mod by lia. rewrite Z.mod_small; lia.
Qed.

(** The four leading-bit tests of the decoder look above the prefix. *)
Lemma mask_above p mask :
  forallb (fun b => Bool.eqb (has_flag b mask) (has_flag (b - b mod 2 ^ p) mask))
    (Z.of_nat <$> seq 0 256) = true ->
  forall b, is_u8 b -> has_flag b mask = has_flag (b - b mod 2 ^ p) mask.
Proof using Type.
  intros H b Hb. apply eqb_prop. revert b Hb. by apply u8_forall.
Qed.

Lemma flag_7 fl c : prefix_ok 7 fl -> 0 <= c < 2 ^ 7 -> has_flag (fl + c) 128 = has_flag fl 128.
Proof using Type. intros Hp Hc. apply (has_flag_prefix fl c 7 128 Hp Hc), mask_above. by vm_compute. Qed.

Lemma flag_4 fl c mask :
  prefix_ok 4 fl -> 0 <= c < 2 ^ 4 -> mask = 128 \/ mask = 64 \/ mask = 32 ->
  has_flag (fl + c) mask = has_flag fl mask.
Proof using Type.
  intros Hp Hc Hm. apply (has_flag_prefix fl c 4 mask Hp Hc), mask_above.
  by destruct Hm as [->|[->| ->]]; vm_compute.
Qed.

(** The payload of a string literal, whose first byte says whether it is
    Huffman-coded. *)
Lemma string_codec raw :
  bytes_ok raw -> zlen raw < 2 ^ 32 ->
  exists enc, (forall w, write_string w raw = Ok (w ++ enc)) /\ bytes_ok enc /\ enc <> [] /\
    reads read_string enc (decode_utf8 raw).
Proof using arch_ok.
  intros Hraw Hlen.
  destruct (huffman_encode_ok raw Hraw) as (e & k & He & Hok & _).
  unfold write_string. rewrite (huffman_shorter_ok raw e) by done. cbn [mbind outcome_bind].
  (* the payload written and its flag *)
  assert (exists fl body, (fl = 128 \/ fl = 0) /\ bytes_ok body /\ zlen body < 2 ^ 32 /\
    (if has_flag fl 128 then huffman_decode body else mret body) = Ok raw /\
    forall w, (if (length e <? length raw)%nat
               then encoded ← huffman_encode raw; w ← write_integer (zlen encoded) 7 128 w;
                    mret (ByteWriter.bytes encoded w)
               else w ← write_integer (zlen raw) 7 0 w; mret (ByteWriter.bytes raw w)) =
              (w ← write_integer (zlen body) 7 fl w; mret (ByteWriter.bytes body w)))
    as (fl & body & Hfl & Hbody & Hblen & Hdec & Hwrite).
  { destruct (Nat.ltb_spec (length e) (length raw)) as [Hs|Hs].
    - exists 128, e. split_and!; [by left|done|unfold zlen in *; lia| |by rewrite He].
      change (has_flag 128 128) with true. by apply huffman_decode_complete.
    - exists 0, raw. by split_and!; [right| | | |]. }
  assert (prefix_ok 7 fl) as Hp by (destruct Hfl as [->| ->]; unfold prefix_ok, is_u8; split; [lia|split; [lia|done]|lia|split; [lia|done]]).
  destruct (integer_codec 7 fl (zlen body) Hp) as (c & enc & Hw & Hc & Hencok & Hread).
  { apply codable_small; [lia|]. pose proof (zlen_nonneg body). lia. }
  exists (((fl + c) :: enc) ++ body). split_and!.
  - intros w. rewrite Hwrite, Hw. cbn [mbind outcome_bind]. unfold ByteWriter.bytes.
    by rewrite <- app_assoc.
  - by apply bytes_ok_app.
  - done.
  - intros r tail Hr Hview. rewrite <- app_assoc in Hview. unfold read_string.
    rewrite (remaining_pos r (fl + c) (enc ++ body ++ tail)), peek_view, Hview by done.
    cbn [app mbind outcome_bind].
    rewrite (flag_7 fl c Hp Hc).
    rewrite (Hread r (body ++ tail) Hr Hview). cbn [mbind outcome_bind].
    destruct (after_enc r ((fl + c) :: enc) (body ++ tail) Hr Hview) as [Hr1 Hv1].
    rewrite remaining_view, Hv1, zlen_app by done. pose proof (zlen_nonneg tail).
    destruct (Z.ltb_spec (zlen body + zlen tail) (zlen body)); [lia|].
    rewrite (bytes_view_app _ body tail) by done. cbn [ok_or mbind outcome_bind].
    rewrite Hdec. cbn [mbind outcome_bind mret outcome_ret].
    rewrite advance_advance; do 3 f_equal; simpl; rewrite length_app; lia.
Qed.
End integers.

(** ** The static table maps *)

Lemma app_zero_inj (n n' v v' : bytes) :
  0 ∉ n' -> 0 ∉ v' -> n ++ 0 :: v = n' ++ 0 :: v' -> n = n' /\ v = v'.
Proof.
  revert n'. induction n as [|a n IH]; intros [|b n'] Hn Hv H; simpl in H; simplify_eq.
  - done.
  - by destruct Hn; left.
  - destruct Hv. apply elem_of_app. right. left.
  - destruct (IH n') as [-> ->]; [|done|done|done]. intros ?. apply Hn. by right.
Qed.

(** The 1-based index [i] of the entry [(n, v)]. *)
Definition static_at (i : Z) (n v : bytes) : Prop :=
  1 <= i <= STATIC_TABLE_LENGTH /\ STATIC_TABLE !! Z.to_nat (i - 1) = Some (n, v).

Lemma pair_map_ok :
  forallb (fun x => match STATIC_TABLE !! Z.to_nat (x.2 - 1) with
    | Some (n, v) => (1 <=? x.2) && (x.2 <=? 61) && bool_decide (x.1 = pair_key n v)
        && forallb (fun b => negb (b =? 0)) (n ++ v)
    | None => false end) (map_to_list (pair_to_index static_maps)) = true.
Proof. by vm_compute. Qed.

Lemma name_map_ok :
  forallb (fun x => match STATIC_TABLE !! Z.to_nat (x.2 - 1) with
    | Some (n, v) => (1 <=? x.2) && (x.2 <=? 61) && bool_decide (x.1 = n)
    | None => false end) (map_to_list (name_to_index static_maps)) = true.
Proof. by vm_compute. Qed.

Lemma map_forallb (P : bytes * Z -> bool) (m : gmap bytes Z) k i :
  forallb P (map_to_list m) = true -> m !! k = Some i -> P (k, i) = true.
Proof.
  intros Hok H. apply elem_of_map_to_list, list_elem_of_In in H.
  rewrite forallb_forall in Hok. by apply Hok.
Qed.

#[local] Opaque static_maps.

Lemma pair_to_index_sound n v i :
  pair_to_index static_maps !! pair_key n v = Some i -> static_at i n v.
Proof.
  intros H. pose proof (map_forallb _ _ _ _ pair_map_ok H) as Hok.
  unfold static_at. change STATIC_TABLE_LENGTH with 61. simpl in Hok.
  destruct (STATIC_TABLE !! Z.to_nat (i - 1)) as [[n' v']|]; [|done].
  apply andb_true_iff in Hok as [Hok Hz]. apply andb_true_iff in Hok as [Hi Hk].
  apply bool_decide_eq_true in Hk. rewrite forallb_forall in Hz.
  assert (0 ∉ n' ++ v') as Hnz.
  { intros Hin. apply list_elem_of_In in Hin. by specialize (Hz _ Hin). }
  destruct (app_zero_inj n n' v v') as [-> ->];
    [intros ?; apply Hnz, elem_of_app; by left|intros ?; apply Hnz, elem_of_app; by right
    |exact Hk|split; [lia|done]].
Qed.

Lemma name_to_index_sound n i :
  name_to_index static_maps !! n = Some i -> exists v, static_at i n v.
Proof.
  intros H. pose proof (map_forallb _ _ _ _ name_map_ok H) as Hok.
  unfold static_at. change STATIC_TABLE_LENGTH with 61. simpl in Hok.
  destruct (STATIC_TABLE !! Z.to_nat (i - 1)) as [[n' v']|]; [|done]. exists v'.
  apply andb_true_iff in Hok as [Hi Hk]. apply bool_decide_eq_true in Hk as ->.
  split; [lia|done].
Qed.

Lemma entry_at_static i n v d : static_at i n v -> HpackDecoder.entry_at i d = Ok (n, v).
Proof.
  intros [Hi H]. unfold HpackDecoder.entry_at.
  replace ((1 <=? i) && (i <=? STATIC_TABLE_LENGTH)) with true by lia. by rewrite H.
Qed.

(** ** Headers, written and read back *)

Lemma utf8_valid_lowercase s : utf8_valid s -> utf8_valid (to_ascii_lowercase s).
Proof.
  unfold to_ascii_lowercase.
  assert (forall b, 128 <= b -> (if (65 <=? b) && (b <=? 90) then b + 32 else b) = b) as Hhi.
  { intros b Hb. by replace ((65 <=? b) && (b <=? 90)) with false by lia. }
  induction 1; rewrite ?fmap_cons; [constructor|..].
  - destruct ((65 <=? b0) && (b0 <=? 90)) eqn:?; constructor; (done || lia).
  - rewrite !Hhi by between_lia. by constructor.
  - rewrite !Hhi by between_lia. by constructor.
  - rewrite !Hhi by between_lia. by constructor.
Qed.

Lemma length_lowercase s : zlen (to_ascii_lowercase s) = zlen s.
Proof. unfold zlen, to_ascii_lowercase. by rewrite length_fmap. Qed.

(** A header the encoder can be given: Rust strings, shorter than 4 GiB. *)
Definition header_ok (h : Header) : Prop :=
  utf8_valid (name h) /\ utf8_valid (value h) /\ zlen (name h) < 2 ^ 32 /\ zlen (value h) < 2 ^ 32.

(** What the peer's decoder sees: the name in lower case, the marker gone. *)
Definition normal (h : Header) : Header := header (to_ascii_lowercase (name h)) (value h).

Section header_codec.
Context {arch : Arch} {arch_ok : ArchOk arch}.
Import HpackDecoder HpackEncoder.

(** The name part of a literal header field, with its flags. *)
Lemma name_codec n fl :
  prefix_ok 4 fl -> utf8_valid n -> zlen n < 2 ^ 32 ->
  exists c enc,
    (forall w, (match name_to_index static_maps !! n with
                | Some name_index => write_integer name_index 4 fl w
                | None => w ← write_integer 0 4 fl w; write_string w n
                end) = Ok (w ++ (fl + c) :: enc)) /\
    0 <= c < 2 ^ 4 /\ bytes_ok ((fl + c) :: enc) /\
    forall d, reads (fun r => '(i, r) ← read_integer r 4; read_name i r d) ((fl + c) :: enc) n.
Proof using arch_ok.
  intros Hfl Hn Hlen. destruct (name_to_index static_maps !! n) as [i|] eqn:Hi.
  - apply name_to_index_sound in Hi as [v [Hi Hl]].
    change STATIC_TABLE_LENGTH with 61 in Hi.
    destruct (integer_codec 4 fl i Hfl) as (c & enc & Hw & Hc & Hok & Hread).
    { apply codable_small; lia. }
    exists c, enc. split_and!; [done|lia|lia|done|]. intros d r tail Hr Hv.
    rewrite (Hread r tail Hr Hv). cbn [mbind outcome_bind]. unfold read_name.
    destruct (Z.eqb_spec i 0); [lia|]. rewrite (entry_at_static i n v); [done|].
    by split.
  - destruct (integer_codec 4 fl 0 Hfl) as (c & enc & Hw & Hc & Hok & Hread).
    { apply codable_small; lia. }
    destruct (string_codec n) as (es & Hws & Hoks & _ & Hreads);
      [by apply utf8_valid_bytes_ok|done|].
    assert (bytes_ok (((fl + c) :: enc) ++ es)) as Hoks' by (apply bytes_ok_app; by split).
    exists c, (enc ++ es). split_and!; [|lia|lia|exact Hoks'|].
    + intros w. rewrite Hw. cbn [mbind outcome_bind]. by rewrite Hws, <- app_assoc.
    + intros d r tail Hr Hv. change ((fl + c) :: enc ++ es) with (((fl + c) :: enc) ++ es) in *.
      rewrite <- app_assoc in Hv. destruct (after_enc r _ _ Hr Hv) as [Hr1 Hv1].
      rewrite (Hread r (es ++ tail) Hr Hv). cbn [mbind outcome_bind]. unfold read_name.
      rewrite Z.eqb_refl, (Hreads _ tail Hr1 Hv1), decode_utf8_valid by done.
      by rewrite advance_advance, length_app.
Qed.

Lemma flags_ok h : prefix_ok 4 (if never_index h then 16 else 0).
Proof using Type. unfold prefix_ok, is_u8. destruct (never_index h); split_and!; (lia || done). Qed.

(** One header, written and read back, with the decoder's table untouched. *)
Lemma header_codec h :
  header_ok h ->
  exists enc, (forall w, encode_header h w = Ok (w ++ enc)) /\ bytes_ok enc /\ enc <> [] /\
    forall d r tail, ByteReader.wf r -> ByteReader.view r = enc ++ tail ->
      decode_one r d = (d, Ok ([normal h], ByteReader.advance (length enc) r)).
Proof using arch_ok.
  intros (Hn & Hv & Hln & Hlv). apply utf8_valid_lowercase in Hn.
  rewrite <- length_lowercase in Hln. unfold encode_header, normal.
  set (n := to_ascii_lowercase (name h)) in *.
  destruct (pair_to_index static_maps !! pair_key n (value h)) as [i|] eqn:Hi.
  - apply pair_to_index_sound in Hi as Hs. pose proof Hs as [Hi61 _].
    change STATIC_TABLE_LENGTH with 61 in Hi61.
    assert (prefix_ok 7 128) as Hfl by (unfold prefix_ok, is_u8; split_and!; (lia || done)).
    destruct (integer_codec 7 128 i Hfl) as (c & enc & Hw & Hc & Hok & Hread).
    { apply codable_small; lia. }
    exists ((128 + c) :: enc). split_and!; [done|done|done|].
    intros d r tail Hr Hview. unfold decode_one.
    rewrite peek_view, Hview. cbn [app]. rewrite st_lift_Ok.
    rewrite (flag_7 128 c Hfl Hc).
    change (has_flag 128 128) with true. cbv iota.
    rewrite (Hread r tail Hr Hview), st_lift_Ok. cbv iota beta.
    destruct (Z.eqb_spec i 0); [lia|].
    rewrite st_get_bind, (entry_at_static i n (value h) d Hs). reflexivity.
  - clear Hi. pose proof (flags_ok h) as Hfl. set (fl := if never_index h then 16 else 0) in *.
    destruct (name_codec n fl Hfl Hn Hln) as (c & enc & Hw & Hc & Hok & Hread).
    destruct (string_codec (value h)) as (ev & Hwv & Hokv & _ & Hreadv);
      [by apply utf8_valid_bytes_ok|done|]. rewrite decode_utf8_valid in Hreadv by done.
    exists (((fl + c) :: enc) ++ ev).
    split_and!; [|apply bytes_ok_app; split; assumption|discriminate|].
    + intros w. rewrite Hw. cbn [mbind outcome_bind]. by rewrite Hwv, <- app_assoc.
    + intros d r tail Hr Hview. rewrite <- app_assoc in Hview. unfold decode_one.
      rewrite peek_view, Hview. cbn [app]. rewrite st_lift_Ok.
      rewrite !(flag_4 fl c _ Hfl Hc) by tauto.
      assert (has_flag fl 128 = false /\ has_flag fl 64 = false /\ has_flag fl 32 = false)
        as (-> & -> & ->) by (unfold fl; by destruct (never_index h)). cbv iota.
      specialize (Hread d r (ev ++ tail) Hr Hview). cbv beta in Hread.
      destruct (after_enc r _ _ Hr Hview) as [Hr1 Hv1].
      rewrite st_lift_bind. destruct (read_integer r 4) as [[ni r1]| | |] eqn:Hni;
        rewrite ?Hni in Hread; try discriminate Hread.
      cbn [mbind outcome_bind] in Hread.
      rewrite st_get_bind, Hread, st_lift_Ok, (Hreadv _ tail Hr1 Hv1).
      rewrite st_lift_Ok, advance_advance.
      cbn [length app]. by rewrite length_app.
Qed.
End header_codec.

(** Short ASCII headers, by evaluation. *)
Definition ascii_header (h : Header) : bool :=
  forallb (fun b => (0 <=? b) && (b <? 128)) (name h ++ value h) &&
  (zlen (name h) <? 2 ^ 32) && (zlen (value h) <? 2 ^ 32).

Lemma ascii_headers_ok hs : forallb ascii_header hs = true -> Forall header_ok hs.
Proof.
  intros H. apply Forall_forall. intros h Hh. rewrite forallb_forall in H.
  apply list_elem_of_In in Hh. specialize (H h Hh). unfold ascii_header in H.
  rewrite forallb_app in H. apply andb_true_iff in H as [H Hv].
  apply andb_true_iff in H as [H Hn]. apply andb_true_iff in H as [H1 H2].
  rewrite forallb_forall in H1, H2.
  split_and!; try lia; apply utf8_valid_ascii, Forall_forall; intros b Hb;
    apply list_elem_of_In in Hb; [specialize (H1 b Hb)|specialize (H2 b Hb)]; lia.
Qed.
