(* ===== verification/HpackTable.v ===== *)
(** * HpackTable: the dynamic table and the decoder's contract

    The dynamic table is specified by [fit], the longest prefix (newest first)
    of the entries that fits the size limit; the decoder by a grammar of
    instructions, read without any state, and by their effects on the table
    ([exec]).  [post] is the contract of a fallible step: what it returns, and
    that it fails only with COMPRESSION_ERROR. *)

From S2P Require Import Prelude Errors Bytes Utf8 Huffman HuffmanFacts Hpack.
Import HpackDecoder.

(** ** The table *)

Abbreviation entry := (bytes * bytes)%type.

Fixpoint table_size (l : list entry) : Z :=
  match l with [] => 0 | e :: l => entry_size e + table_size l end.

(** The longest prefix of [l] of total size at most [limit]. *)
Fixpoint fit (limit : Z) (l : list entry) : list entry :=
  match l with
  | [] => []
  | e :: l => if entry_size e <=? limit then e :: fit (limit - entry_size e) l else []
  end.

Lemma entry_size_pos e : 32 <= entry_size e.
Proof.
  unfold entry_size, ENTRY_OVERHEAD.
  pose proof (zlen_nonneg e.1). pose proof (zlen_nonneg e.2). lia.
Qed.

Lemma table_size_app l1 l2 : table_size (l1 ++ l2) = table_size l1 + table_size l2.
Proof. induction l1; simpl; lia. Qed.

Lemma table_size_nonneg l : 0 <= table_size l.
Proof. induction l as [|e l IH]; simpl; [lia|]. pose proof (entry_size_pos e). lia. Qed.

Lemma fit_size limit l : 0 <= limit -> table_size (fit limit l) <= limit.
Proof.
  revert limit. induction l as [|e l IH]; intros limit Hl; simpl; [lia|].
  destruct (Z.leb_spec (entry_size e) limit); simpl; [|lia].
  specialize (IH (limit - entry_size e)). lia.
Qed.

Lemma fit_all limit l : table_size l <= limit -> fit limit l = l.
Proof.
  revert limit. induction l as [|e l IH]; intros limit Hl; simpl in *; [done|].
  pose proof (table_size_nonneg l). destruct (Z.leb_spec (entry_size e) limit); [|lia].
  by rewrite IH by lia.
Qed.

Lemma fit_snoc limit l e :
  limit < table_size (l ++ [e]) -> fit limit (l ++ [e]) = fit limit l.
Proof.
  revert limit. induction l as [|a l IH]; intros limit Hl; simpl in *.
  - by destruct (Z.leb_spec (entry_size e) limit); [lia|].
  - destruct (entry_size a <=? limit); [|done]. by rewrite IH by lia.
Qed.

Lemma fit_prefix limit l : fit limit l `prefix_of` l.
Proof.
  revert limit. induction l as [|e l IH]; intros limit; simpl; [done|].
  destruct (_ <=? _); [by apply prefix_cons|apply prefix_nil].
Qed.

(** No longer prefix fits. *)
Lemma fit_longest limit l p :
  p `prefix_of` l -> table_size p <= limit -> p `prefix_of` fit limit l.
Proof.
  revert limit p. induction l as [|e l IH]; intros limit p Hp Hs; simpl.
  - done.
  - destruct p as [|a p]; [apply prefix_nil|].
    apply prefix_cons_inv_1 in Hp as Ha. apply prefix_cons_inv_2 in Hp. subst a. simpl in Hs.
    pose proof (table_size_nonneg p). destruct (Z.leb_spec (entry_size e) limit); [|lia].
    apply prefix_cons, IH; [done|lia].
Qed.

Lemma evict_fit fuel extra d :
  size d = table_size (dynamic d) -> (length (dynamic d) < fuel)%nat -> 0 <= extra ->
  let l := fit (max_size d - extra) (dynamic d) in
  evict fuel extra d = Ok (mk l (table_size l) (max_size d) (protocol_max d)).
Proof.
  revert d. induction fuel as [|fuel IH]; intros [l sz mx pm] Hs Hf Hx; [simpl in *; lia|].
  cbn [evict dynamic size max_size protocol_max] in *. subst sz.
  destruct (Z.ltb_spec mx (table_size l + extra)) as [Hlt|Hge].
  2:{ by rewrite fit_all by lia. }
  destruct l as [|e l _] using rev_ind; [done|].
  rewrite last_snoc, removelast_last.
  rewrite table_size_app. cbn [table_size]. rewrite Z.add_0_r, Z.add_simpl_r.
  rewrite IH; cbn [dynamic size max_size protocol_max]; [|done| |done].
  - by rewrite fit_snoc by (rewrite table_size_app in *; simpl in *; lia).
  - rewrite length_app in Hf. simpl in Hf. lia.
Qed.

(** The entries of a table are Rust strings, its size is their total, and the
    limits are in order. *)
Definition strings_ok (e : entry) : Prop := utf8_valid e.1 /\ utf8_valid e.2.

Definition table_ok (d : t) : Prop :=
  size d = table_size (dynamic d) /\ size d <= max_size d /\ max_size d <= protocol_max d /\
  Forall strings_ok (dynamic d).

(** The table after a change of its contents or its limit. *)
Definition with_table (l : list entry) (mx : Z) (d : t) : t :=
  mk (fit mx l) (table_size (fit mx l)) mx (protocol_max d).

Lemma with_table_ok l mx d :
  0 <= mx <= protocol_max d -> Forall strings_ok l -> table_ok (with_table l mx d).
Proof.
  intros Hm Hl. unfold table_ok, with_table. simpl. split_and!; [done|apply fit_size; lia|lia|].
  destruct (fit_prefix mx l) as [k Hk]. rewrite Hk in Hl. by apply Forall_app in Hl as [? _].
Qed.

Lemma table_ok_max d : table_ok d -> 0 <= max_size d.
Proof. intros (Hs & Hm & _). pose proof (table_size_nonneg (dynamic d)). lia. Qed.

Lemma insert_run n v d :
  table_ok d -> insert n v d = (with_table ((n, v) :: dynamic d) (max_size d) d, Ok tt).
Proof.
  intros (Hs & Hm & Hp & _). unfold insert. autorewrite with st.
  pose proof (entry_size_pos (n, v)).
  rewrite evict_fit by (done || lia). autorewrite with st. unfold with_table. cbn [fit max_size].
  destruct (Z.leb_spec (entry_size (n, v)) (max_size d)); [|done].
  cbn [dynamic size max_size protocol_max table_size].
  by rewrite (Z.add_comm (table_size _) (entry_size _)).
Qed.

Lemma apply_max_size_run k d :
  table_ok d ->
  apply_max_size k d =
    if protocol_max d <? k then (d, Err (compression_error "dynamic table size update too large"))
    else (with_table (dynamic d) k d, Ok tt).
Proof.
  intros (Hs & Hm & Hp & _). unfold apply_max_size. autorewrite with st.
  destruct (protocol_max d <? k); [done|].
  rewrite evict_fit by (done || simpl; lia). autorewrite with st. cbn [max_size].
  by rewrite Z.sub_0_r.
Qed.

Lemma set_protocol_max_size_run n d :
  table_ok d -> 0 <= n ->
  set_protocol_max_size n d =
    mk (fit (Z.min n (max_size d)) (dynamic d)) (table_size (fit (Z.min n (max_size d)) (dynamic d)))
       (Z.min n (max_size d)) n.
Proof.
  intros (Hs & Hm & Hp & _) Hn. unfold set_protocol_max_size. cbn [max_size].
  destruct (Z.ltb_spec n (max_size d)).
  - unfold apply_max_size. autorewrite with st. cbn [protocol_max].
    destruct (Z.ltb_spec n n); [lia|].
    rewrite evict_fit by (done || simpl; lia). cbn [max_size dynamic protocol_max].
    by rewrite Z.sub_0_r, Z.min_l by lia.
  - rewrite Z.min_r by lia. rewrite fit_all by lia. by rewrite <- Hs.
Qed.

(** ** Readers that move forward *)

(** A cursor over bytes. *)
Definition rdr_ok (r : ByteReader.t) : Prop := ByteReader.wf r /\ bytes_ok (ByteReader.buf r).

Definition moved (r r' : ByteReader.t) : Prop :=
  ByteReader.buf r' = ByteReader.buf r /\
  (ByteReader.cursor r < ByteReader.cursor r' <= length (ByteReader.buf r))%nat.

Lemma moved_ok r r' : rdr_ok r -> moved r r' -> rdr_ok r'.
Proof. unfold rdr_ok, moved, ByteReader.wf. intros [? ?] [Hb ?]. rewrite Hb. split; [lia|done]. Qed.

Lemma moved_trans r1 r2 r3 : moved r1 r2 -> moved r2 r3 -> moved r1 r3.
Proof. unfold moved. intros [H1 ?] [H2 ?]. rewrite H1 in *. split; [congruence|lia]. Qed.

Lemma rdr_ok_view r : rdr_ok r -> bytes_ok (ByteReader.view r).
Proof. intros [_ H]. by apply bytes_ok_drop. Qed.

Lemma nonempty_view r :
  rdr_ok r -> ByteReader.remaining r <> 0 -> exists b l, ByteReader.view r = b :: l /\ is_u8 b.
Proof.
  intros Hr Hn. pose proof (rdr_ok_view r Hr) as Hok. destruct Hr as [Hr _].
  rewrite remaining_view in Hn by done.
  destruct (ByteReader.view r) as [|b l]; [done|]. inversion Hok; subst. by exists b, l.
Qed.

Lemma moved_advance n r :
  (0 < n <= length (ByteReader.view r))%nat -> moved r (ByteReader.advance n r).
Proof.
  unfold moved, ByteReader.view. rewrite length_drop. simpl. intros. split; [done|lia].
Qed.

(** ** Contracts *)

Section contracts.
Context {arch : Arch} {arch_ok : ArchOk arch}.

(** [usize] is wide enough for the decoder's integers, or arithmetic wraps. *)
Definition ints_ok : Prop := 50 <= usize_bits \/ overflow_checks = false.

(** [m] returns a value that satisfies [Q], or fails with a connection error
    COMPRESSION_ERROR; it never runs out of fuel, and panics only where [usize]
    is narrow and checked. *)
Definition post {A} (m : result A) (Q : A -> Prop) : Prop :=
  match m with
  | Ok a => Q a
  | Err e => H2Error.code e = ErrorCode.CompressionError /\ H2Error.stream_id e = None
  | Panic => ~ ints_ok
  | OutOfFuel => False
  end.

Lemma post_bind {A B} (m : result A) (f : A -> result B) (Q : A -> Prop) (R : B -> Prop) :
  post m Q -> (forall a, Q a -> post (f a) R) -> post (m ≫= f) R.
Proof using Type. destruct m; simpl; naive_solver. Qed.

Lemma post_mono {A} (m : result A) (Q R : A -> Prop) :
  post m Q -> (forall a, Q a -> R a) -> post m R.
Proof using Type. destruct m; simpl; naive_solver. Qed.

(** The same for a method of the decoder that keeps its table well formed. *)
Definition st_post {A} (m : ST t H2Error.t A) (d : t) (Q : A -> Prop) : Prop :=
  table_ok (fst (m d)) /\ post (snd (m d)) Q.

Lemma st_post_bind {A B} (m : ST t H2Error.t A) (f : A -> ST t H2Error.t B) d Q R :
  st_post m d Q -> (forall a d', Q a -> table_ok d' -> st_post (f a) d' R) ->
  st_post (m ≫= f) d R.
Proof using Type.
  unfold st_post. intros [Hd Hm] Hf. rewrite st_bind_run.
  destruct (m d) as [d' [a|e| |]]; simpl in *; auto.
Qed.

Lemma st_post_lift {A} (m : result A) d Q : table_ok d -> post m Q -> st_post (st_lift m) d Q.
Proof using Type. done. Qed.

Lemma st_post_get {B} (f : t -> ST t H2Error.t B) d R :
  st_post (f d) d R -> st_post (st_get ≫= f) d R.
Proof using Type. done. Qed.

(** ** Integers *)

Lemma usize_pos : 0 < 2 ^ usize_bits.
Proof using arch_ok. apply Z.pow_pos_nonneg; [lia|]. pose proof usize_bits_ge. lia. Qed.

(** Checked arithmetic that must not overflow is on wide integers. *)
Lemma ints_ok_wide : ints_ok -> overflow_checks = true -> 50 <= usize_bits.
Proof using Type. intros [H|H] ?; [done|congruence]. Qed.

Lemma usize_add_post a b :
  0 <= a + b -> (50 <= usize_bits -> a + b < 2 ^ 50) ->
  post (usize_add a b) (fun v => is_usize v /\ (50 <= usize_bits -> v = a + b)).
Proof using arch_ok.
  pose proof usize_pos as Hpos. intros Hab Hs.
  assert (50 <= usize_bits -> 2 ^ 50 <= 2 ^ usize_bits) as Hpow
    by (intros; apply Z.pow_le_mono_r; lia).
  unfold usize_add, is_usize. destruct (Z.ltb_spec (a + b) (2 ^ usize_bits)); simpl; [lia|].
  destruct overflow_checks eqn:Ho; simpl.
  - intros Hi. pose proof (ints_ok_wide Hi Ho). lia.
  - split; [by apply Z.mod_pos_bound|lia].
Qed.

Lemma usize_shl_post a s :
  0 <= a < 128 -> 0 <= s <= 42 ->
  post (usize_shl a s) (fun v => is_usize v /\ (50 <= usize_bits -> v = a * 2 ^ s)).
Proof using arch_ok.
  pose proof usize_pos as Hpos. intros Ha Hs. unfold usize_shl, is_usize.
  assert (50 <= usize_bits -> a * 2 ^ s < 2 ^ usize_bits) as Hfit.
  { intros Hb. apply Z.lt_le_trans with (128 * 2 ^ s); [assert (0 < 2 ^ s) by (apply Z.pow_pos_nonneg; lia); nia|].
    change 128 with (2 ^ 7). rewrite <- Z.pow_add_r by lia. apply Z.pow_le_mono_r; lia. }
  destruct (Z.ltb_spec s usize_bits); simpl.
  - split; [by apply Z.mod_pos_bound|]. intros Hb. rewrite Z.shiftl_mul_pow2 by lia.
    apply Z.mod_small. specialize (Hfit Hb).
    assert (0 < 2 ^ s) by (apply Z.pow_pos_nonneg; lia). nia.
  - destruct overflow_checks eqn:Ho; simpl.
    + intros Hi. pose proof (ints_ok_wide Hi Ho). lia.
    + split; [by apply Z.mod_pos_bound|lia].
Qed.

(** A value read, and the reader past it. *)
Definition read_ok {A} (r : ByteReader.t) (Q : A -> Prop) (x : A * ByteReader.t) : Prop :=
  Q x.1 /\ moved r x.2.

Lemma read_integer_loop_post k value j r :
  Z.of_nat k = 7 - j -> 0 <= j < 7 -> is_usize value ->
  (50 <= usize_bits -> value < 128 + 2 ^ (7 * j)) -> rdr_ok r ->
  post (read_integer_loop k value (7 * j) r) (read_ok r is_usize).
Proof using arch_ok.
  revert value j r. induction k as [|k IH]; intros value j r Hk Hj Hval Hb Hr; [lia|].
  cbn [read_integer_loop]. destruct (Z.eqb_spec (ByteReader.remaining r) 0) as [|Hrem]; [done|].
  destruct (nonempty_view r Hr Hrem) as (b & l & Hview & Hbu).
  rewrite u8_view, Hview. cbn [mbind outcome_bind].
  assert (moved r (ByteReader.advance 1 r)) as Hmv
    by (apply moved_advance; rewrite Hview; simpl; lia).
  change 127 with (2 ^ 7 - 1). rewrite land_ones_low by lia.
  assert (0 <= b mod 2 ^ 7 < 128) by (apply Z.mod_pos_bound; lia).
  assert (0 < 2 ^ (7 * j) <= 2 ^ 42)
    by (split; [apply Z.pow_pos_nonneg|apply Z.pow_le_mono_r]; lia).
  assert (2 ^ (7 * (j + 1)) = 128 * 2 ^ (7 * j)) as Hpow.
  { replace (7 * (j + 1)) with (7 * j + 7) by lia. rewrite Z.pow_add_r by lia. lia. }
  eapply post_bind; [apply usize_shl_post; lia|]. intros v [Hv Hv'].
  unfold is_usize in *.
  eapply post_bind; [apply usize_add_post; [lia|intros; nia]|]. intros u [Hu Hu'].
  destruct (Z.ltb_spec 42 (7 * j + 7)); [done|].
  destruct (_ =? 0); [by split|].
  replace (7 * j + 7) with (7 * (j + 1)) by lia.
  eapply post_mono; [apply IH|]; [lia|lia|done|intros; rewrite Hpow; nia|by eapply moved_ok|].
  intros [w r'] [Hw Hm]. split; [done|]. by eapply moved_trans.
Qed.

Lemma read_integer_post r p :
  rdr_ok r -> ByteReader.remaining r <> 0 -> 1 <= p <= 7 ->
  post (read_integer r p) (read_ok r is_usize).
Proof using arch_ok.
  intros Hr Hrem Hp. destruct (nonempty_view r Hr Hrem) as (b & l & Hview & Hbu).
  unfold read_integer. rewrite u8_view, Hview. cbn [mbind outcome_bind].
  assert (moved r (ByteReader.advance 1 r)) as Hmv
    by (apply moved_advance; rewrite Hview; simpl; lia).
  assert (2 <= 2 ^ p <= 128) as Hpow.
  { change 2 with (2 ^ 1) at 1. change 128 with (2 ^ 7). split; apply Z.pow_le_mono_r; lia. }
  assert (prefix_max p = 2 ^ p - 1) as -> by (unfold prefix_max; by rewrite Z.shiftl_mul_pow2, Z.mul_1_l by lia).
  rewrite as_u8_id, land_ones_low by (unfold is_u8; lia).
  assert (0 <= b mod 2 ^ p < 2 ^ p) by (apply Z.mod_pos_bound; lia).
  assert (is_usize (b mod 2 ^ p)) as Hv.
  { unfold is_usize. assert (2 ^ 7 <= 2 ^ usize_bits); [|lia].
    apply Z.pow_le_mono_r; [lia|]. pose proof usize_bits_ge. lia. }
  destruct (_ <? _); [by split|].
  change 0 with (7 * 0). eapply post_mono;
    [apply read_integer_loop_post; [lia|lia|done|simpl; lia|by eapply moved_ok]|].
  intros [w r'] [Hw Hm]. split; [done|]. by eapply moved_trans.
Qed.

Lemma huffman_decode_post l Q :
  (forall o, huffman_decode l = Ok o -> Q o) -> post (huffman_decode l) Q.
Proof using Type.
  intros HQ. pose proof (huffman_decode_returns l). pose proof (huffman_decode_err l).
  destruct (huffman_decode l) as [o|e| |] eqn:He; simpl; [by apply HQ| |done|done].
  split; [auto|]. by apply huffman_decode_err_stream in He.
Qed.

Lemma read_string_post r :
  rdr_ok r -> post (read_string r) (read_ok r utf8_valid).
Proof using arch_ok.
  intros Hr. unfold read_string.
  destruct (Z.eqb_spec (ByteReader.remaining r) 0) as [|Hrem]; [done|].
  destruct (nonempty_view r Hr Hrem) as (b & l & Hview & Hbu).
  rewrite peek_view, Hview. cbn [mbind outcome_bind].
  eapply post_bind; [by apply read_integer_post; [| |lia]|]. intros [n r1] [[Hn _] Hm1].
  simpl in Hn, Hm1. pose proof (moved_ok _ _ Hr Hm1) as Hr1. pose proof Hr1 as [Hwf1 Hbuf1].
  destruct (Z.ltb_spec (ByteReader.remaining r1) n) as [|Hlen]; [done|].
  rewrite bytes_view by done. rewrite remaining_view in Hlen by done.
  destruct (Z.ltb_spec (zlen (ByteReader.view r1)) n); [lia|].
  cbn [ok_or mbind outcome_bind].
  set (raw := take _ _).
  assert (bytes_ok raw) as Hraw by (apply bytes_ok_take, rdr_ok_view; done).
  apply post_bind with bytes_ok.
  { destruct (has_flag b 128); [|done]. apply huffman_decode_post.
    intros o Ho. by apply (huffman_decode_sound raw). }
  intros o Ho. split; [by apply decode_utf8_is_valid|]. simpl.
  destruct Hm1 as [Hb Hc]. unfold moved. simpl. split; [done|].
  unfold zlen, ByteReader.view in Hlen. rewrite length_drop in Hlen. rewrite <- Hb in *. lia.
Qed.
End contracts.

(** ** The grammar of a header block, and the effect of its instructions *)

Inductive instr :=
  | Indexed (i : Z)
  | Literal (add : bool) (n : Z + bytes) (v : bytes)
  | SizeUpdate (k : Z).

(** The single index space: the static table, then the dynamic table. *)
Definition table_lookup (i : Z) (d : t) : option entry :=
  if i <? 1 then None else (STATIC_TABLE ++ dynamic d) !! Z.to_nat (i - 1).

Definition exec (i : instr) (d : t) : option (t * list Header) :=
  match i with
  | Indexed i => e ← table_lookup i d; Some (d, [header e.1 e.2])
  | Literal add nm v =>
      n ← (match nm with inl i => fst <$> table_lookup i d | inr n => Some n end);
      Some (if add then with_table ((n, v) :: dynamic d) (max_size d) d else d, [header n v])
  | SizeUpdate k =>
      if protocol_max d <? k then None else Some (with_table (dynamic d) k d, [])
  end.

Fixpoint exec_all (il : list instr) (d : t) : option (t * list Header) :=
  match il with
  | [] => Some (d, [])
  | i :: il =>
      '(d, hs) ← exec i d;
      '(d, hs') ← exec_all il d;
      Some (d, hs ++ hs')
  end.

Section grammar.
Context {arch : Arch}.

(** A literal's name: its index, or the string that follows the index 0. *)
Definition parse_name (r : ByteReader.t) (p : Z) : result ((Z + bytes) * ByteReader.t) :=
  '(i, r) ← read_integer r p;
  if i =? 0 then '(n, r) ← read_string r; mret (inr n, r) else mret (inl i, r).

Definition parse_literal (add : bool) (r : ByteReader.t) (p : Z)
    : result (instr * ByteReader.t) :=
  '(n, r) ← parse_name r p;
  '(v, r) ← read_string r;
  mret (Literal add n v, r).

Definition parse_instr (r : ByteReader.t) : result (instr * ByteReader.t) :=
  first ← ByteReader.peek r;
  if has_flag first 0x80 then '(i, r) ← read_integer r 7; mret (Indexed i, r)
  else if has_flag first 0x40 then parse_literal true r 6
  else if has_flag first 0x20 then '(k, r) ← read_integer r 5; mret (SizeUpdate k, r)
  else parse_literal false r 4.

Fixpoint parse_loop (fuel : nat) (r : ByteReader.t) : result (list instr) :=
  match fuel with
  | O => OutOfFuel
  | S fuel =>
      if 0 <? ByteReader.remaining r then
        '(i, r) ← parse_instr r;
        il ← parse_loop fuel r;
        mret (i :: il)
      else mret []
  end.

Definition parse_block (block : bytes) : result (list instr) :=
  parse_loop (S (length block)) (ByteReader.new block).

Lemma entry_at_lookup i d e :
  1 <= i -> entry_at i d = Ok e <-> table_lookup i d = Some e.
Proof using Type.
  intros Hi. unfold entry_at, table_lookup. destruct (Z.ltb_spec i 1); [lia|].
  change STATIC_TABLE_LENGTH with (Z.of_nat (length STATIC_TABLE)).
  destruct ((1 <=? i) && (i <=? Z.of_nat (length STATIC_TABLE))) eqn:Hs.
  - rewrite lookup_app_l by lia. destruct (STATIC_TABLE !! _); simpl; naive_solver.
  - rewrite lookup_app_r by lia.
    replace (Z.to_nat (i - 1) - length STATIC_TABLE)%nat
      with (Z.to_nat (i - Z.of_nat (length STATIC_TABLE) - 1)) by lia.
    destruct (dynamic d !! _); simpl; naive_solver.
Qed.
End grammar.

Section decode_facts.
Context {arch : Arch} {arch_ok : ArchOk arch}.

Lemma static_strings_ok : Forall strings_ok STATIC_TABLE.
Proof using Type.
  assert (forallb (fun e => forallb (fun b => (0 <=? b) && (b <? 128)) (e.1 ++ e.2)) STATIC_TABLE
    = true) as H by (by vm_compute).
  apply Forall_forall. intros e He. rewrite forallb_forall in H.
  apply list_elem_of_In in He. specialize (H e He). rewrite forallb_app in H.
  apply andb_true_iff in H as [H1 H2].
  split; apply utf8_valid_ascii, Forall_forall; intros b Hb; apply list_elem_of_In in Hb;
    [rewrite forallb_forall in H1; specialize (H1 b Hb)
    |rewrite forallb_forall in H2; specialize (H2 b Hb)]; lia.
Qed.

Lemma table_lookup_strings i d e : table_ok d -> table_lookup i d = Some e -> strings_ok e.
Proof using Type.
  intros (_ & _ & _ & Hd). unfold table_lookup. destruct (i <? 1); [done|]. intros He.
  eapply Forall_lookup_1; [|exact He]. apply Forall_app. by split; [apply static_strings_ok|].
Qed.

Lemma entry_at_post i d :
  1 <= i -> table_ok d ->
  post (entry_at i d) (fun e => table_lookup i d = Some e /\ strings_ok e).
Proof using Type.
  intros Hi Hd. destruct (entry_at i d) as [e|e| |] eqn:He; simpl.
  - apply entry_at_lookup in He; [|done]. split; [done|by eapply table_lookup_strings].
  - unfold entry_at in He. destruct (_ && _).
    + by destruct (STATIC_TABLE !! _).
    + destruct (dynamic d !! _); [done|]. by injection He as <-.
  - unfold entry_at in He. destruct (_ && _) eqn:Hs; [|by destruct (dynamic d !! _)].
    change STATIC_TABLE_LENGTH with (Z.of_nat (length STATIC_TABLE)) in Hs.
    destruct (STATIC_TABLE !! _) eqn:Hl; [done|]. apply lookup_ge_None_1 in Hl. lia.
  - unfold entry_at in He. destruct (_ && _); [by destruct (STATIC_TABLE !! _)|].
    by destruct (dynamic d !! _).
Qed.

(** Decoded header fields are Rust strings, without the sensitivity marker. *)
Definition decoded_ok (h : Header) : Prop :=
  utf8_valid (name h) /\ utf8_valid (value h) /\ never_index h = false.

Lemma header_decoded e : strings_ok e -> decoded_ok (header e.1 e.2).
Proof using Type. intros [? ?]. by split_and!. Qed.

(** The name an instruction denotes. *)
Definition instr_name (n : Z + bytes) (d : t) : option bytes :=
  match n with inl i => fst <$> table_lookup i d | inr n => Some n end.

Lemma read_name_parse p r d n r' :
  rdr_ok r -> ByteReader.remaining r <> 0 -> 1 <= p <= 7 ->
  ('(i, r) ← read_integer r p; read_name i r d) = Ok (n, r') <->
  exists nm, parse_name r p = Ok (nm, r') /\ instr_name nm d = Some n.
Proof using arch_ok.
  intros Hr Hrem Hp. pose proof (read_integer_post r p Hr Hrem Hp) as Hpost.
  unfold parse_name, read_name.
  destruct (read_integer r p) as [[i r1]|e| |]; simpl in *; [|naive_solver..].
  destruct Hpost as [[Hi _] _]. simpl in Hi. destruct (Z.eqb_spec i 0) as [->|Hne].
  - destruct (read_string r1) as [[s r2]|e| |]; simpl; [|naive_solver..].
    split; [intros [= -> ->]; by eexists|]. intros (nm & [= <- ->] & [= ->]). done.
  - split.
    + intros H. apply bind_Ok in H as (e & He & [= <- <-]). exists (inl i). split; [done|]. simpl.
      apply entry_at_lookup in He; [by rewrite He|lia].
    + intros (nm & [= <- <-] & H). simpl in H.
      destruct (table_lookup i d) as [e|] eqn:He; [|done]. injection H as <-.
      apply entry_at_lookup in He as ->; [done|lia].
Qed.

Lemma parse_literal_Ok add r p i r' :
  parse_literal add r p = Ok (i, r') <->
  exists nm v r1, parse_name r p = Ok (nm, r1) /\ read_string r1 = Ok (v, r') /\
    i = Literal add nm v.
Proof using Type.
  unfold parse_literal. destruct (parse_name r p) as [[nm r1]|e| |]; simpl; [|naive_solver..].
  destruct (read_string r1) as [[v r2]|e| |] eqn:Hs; simpl.
  - split; [intros [= <- <-]; by exists nm, v, r1|].
    intros (nm' & v' & r1' & [= <- <-] & Hs' & ->). by rewrite Hs in Hs'; simplify_eq.
  - naive_solver congruence.
  - naive_solver congruence.
  - naive_solver congruence.
Qed.

(** The reads of a literal, as the decoder sequences them. *)
Lemma literal_reads {B} p r d (k : bytes -> bytes -> ByteReader.t -> ST t H2Error.t B) d' b :
  rdr_ok r -> ByteReader.remaining r <> 0 -> 1 <= p <= 7 ->
  ('(ni, r) ← st_lift (read_integer r p); d ← st_get;
   '(n, r) ← st_lift (read_name ni r d); '(v, r) ← st_lift (read_string r); k n v r) d
    = (d', Ok b) <->
  exists nm n v r1 r2, parse_name r p = Ok (nm, r1) /\ read_string r1 = Ok (v, r2) /\
    instr_name nm d = Some n /\ k n v r2 d = (d', Ok b).
Proof using arch_ok.
  intros Hr Hrem Hp. rewrite st_lift_inv. split.
  - intros ([i r0] & Hi & H). rewrite st_get_bind, st_lift_inv in H.
    destruct H as ([n r1] & Hn & H). rewrite st_lift_inv in H. destruct H as ([v r2] & Hv & H).
    destruct (proj1 (read_name_parse p r d n r1 Hr Hrem Hp)) as (nm & Hnm & Hin);
      [by rewrite Hi|]. by exists nm, n, v, r1, r2.
  - intros (nm & n & v & r1 & r2 & Hnm & Hv & Hin & H).
    pose proof (proj2 (read_name_parse p r d n r1 Hr Hrem Hp) (ex_intro _ nm (conj Hnm Hin))) as Hn.
    apply bind_Ok in Hn as ([i r0] & Hi & Hn). exists (i, r0). split; [done|].
    by rewrite st_get_bind, Hn, st_lift_Ok, Hv, st_lift_Ok.
Qed.

(** One turn of the decoder reads one instruction and executes it. *)
Lemma decode_one_exec r d d' hs r' :
  rdr_ok r -> ByteReader.remaining r <> 0 -> table_ok d ->
  decode_one r d = (d', Ok (hs, r')) <->
  exists i, parse_instr r = Ok (i, r') /\ exec i d = Some (d', hs).
Proof using arch_ok.
  intros Hr Hrem Hd. destruct (nonempty_view r Hr Hrem) as (b & l & Hview & _).
  unfold decode_one, parse_instr. rewrite peek_view, Hview, st_lift_Ok. cbn [mbind outcome_bind].
  destruct (has_flag b 128); [|destruct (has_flag b 64); [|destruct (has_flag b 32)]].
  - pose proof (read_integer_post r 7 Hr Hrem ltac:(lia)) as Hp. rewrite st_lift_bind.
    destruct (read_integer r 7) as [[i r1]|e| |]; simpl in *; [|naive_solver..].
    destruct Hp as [[Hi _] _]. simpl in Hi. destruct (Z.eqb_spec i 0) as [->|Hne].
    { split; [done|]. by intros (? & [= <- <-] & H). }
    rewrite st_get_bind, st_lift_inv. split.
    + intros (e & He & H). apply entry_at_lookup in He; [|lia]. destruct e as [n v].
      injection H as <- <- <-. exists (Indexed i). simpl. by rewrite He.
    + intros (? & [= <- <-] & H). simpl in H.
      destruct (table_lookup i d) as [[n v]|] eqn:He; [|done]. injection H as <- <-.
      apply entry_at_lookup in He; [|lia]. by exists (n, v).
  - rewrite literal_reads by (done || lia). setoid_rewrite parse_literal_Ok. split.
    + intros (nm & n & v & r1 & r2 & Hnm & Hv & Hin & H).
      rewrite (st_bind_Ok _ _ _ _ _ (insert_run n v d Hd)) in H. injection H as <- <- <-.
      exists (Literal true nm v). split; [by exists nm, v, r1|].
      unfold exec. fold (instr_name nm d). by rewrite Hin.
    + intros (? & (nm & v & r1 & Hnm & Hv & ->) & H). unfold exec in H. fold (instr_name nm d) in H.
      destruct (instr_name nm d) as [n|] eqn:Hin; [|done]. injection H as <- <-.
      exists nm, n, v, r1, r'. by rewrite (st_bind_Ok _ _ _ _ _ (insert_run n v d Hd)).
  - rewrite st_lift_bind. destruct (read_integer r 5) as [[k r1]|e| |]; simpl; [|naive_solver..].
    rewrite st_bind_run, apply_max_size_run by done. simpl.
    destruct (protocol_max d <? k) eqn:Hk; simpl.
    + split; [done|]. intros (? & [= <- <-] & H). simpl in H. by rewrite Hk in H.
    + split.
      * intros [= <- <- <-]. exists (SizeUpdate k). simpl. by rewrite Hk.
      * intros (? & [= <- <-] & H). simpl in H. rewrite Hk in H. by simplify_eq.
  - rewrite literal_reads by (done || lia). setoid_rewrite parse_literal_Ok. split.
    + intros (nm & n & v & r1 & r2 & Hnm & Hv & Hin & H). injection H as <- <- <-.
      exists (Literal false nm v). split; [by exists nm, v, r1|].
      unfold exec. fold (instr_name nm d). by rewrite Hin.
    + intros (? & (nm & v & r1 & Hnm & Hv & ->) & H). unfold exec in H. fold (instr_name nm d) in H.
      destruct (instr_name nm d) as [n|] eqn:Hin; [|done]. injection H as <- <-.
      by exists nm, n, v, r1, r'.
Qed.

(** ** The decoder's contract *)

Lemma read_name_post i r d :
  is_usize i -> rdr_ok r -> table_ok d ->
  post (read_name i r d) (fun x => utf8_valid x.1 /\ (moved r x.2 \/ x.2 = r)).
Proof using arch_ok.
  intros [Hi _] Hr Hd. unfold read_name. destruct (Z.eqb_spec i 0).
  - eapply post_mono; [by apply read_string_post|]. intros x [? ?]. auto.
  - eapply post_bind; [apply entry_at_post; [lia|done]|]. intros e [_ [? ?]]. simpl. auto.
Qed.

Lemma insert_post n v d : table_ok d -> utf8_valid n -> utf8_valid v ->
  st_post (insert n v) d (fun _ => True).
Proof using Type.
  intros Hd Hn Hv. unfold st_post. rewrite insert_run by done. split; [|done]. simpl.
  apply with_table_ok.
  - split; [by apply table_ok_max|apply Hd].
  - constructor; [by split|apply Hd].
Qed.

Lemma apply_max_size_post k d : table_ok d -> 0 <= k -> st_post (apply_max_size k) d (fun _ => True).
Proof using Type.
  intros Hd Hk. unfold st_post. rewrite apply_max_size_run by done.
  destruct (Z.ltb_spec (protocol_max d) k); simpl; [done|]. split; [|done].
  apply with_table_ok; [lia|apply Hd].
Qed.

(** The reads and the effect of a literal, with the continuation's contract. *)
Lemma literal_post {B} p r d (k : bytes -> bytes -> ByteReader.t -> ST t H2Error.t B) Q :
  rdr_ok r -> ByteReader.remaining r <> 0 -> 1 <= p <= 7 -> table_ok d ->
  (forall n v r', utf8_valid n -> utf8_valid v -> moved r r' -> st_post (k n v r') d Q) ->
  st_post ('(ni, r) ← st_lift (read_integer r p); d ← st_get;
    '(n, r) ← st_lift (read_name ni r d); '(v, r) ← st_lift (read_string r); k n v r) d Q.
Proof using arch_ok.
  intros Hr Hrem Hp Hd Hk. unfold st_post. rewrite st_lift_bind.
  pose proof (read_integer_post r p Hr Hrem Hp) as H1.
  destruct (read_integer r p) as [[i r1]|e| |]; [|done..].
  destruct H1 as [Hi Hm1]. simpl in Hi, Hm1. pose proof (moved_ok _ _ Hr Hm1) as Hr1.
  rewrite st_get_bind, st_lift_bind. pose proof (read_name_post i r1 d Hi Hr1 Hd) as H2.
  destruct (read_name i r1 d) as [[n r2]|e| |]; [|done..].
  destruct H2 as [Hn Hm2]. simpl in Hn, Hm2.
  assert (moved r r2) as Hm02 by (destruct Hm2 as [Hm2| ->]; [by eapply moved_trans|done]).
  pose proof (moved_ok _ _ Hr Hm02) as Hr2.
  rewrite st_lift_bind. pose proof (read_string_post r2 Hr2) as H3.
  destruct (read_string r2) as [[v r3]|e| |]; [|done..]. destruct H3 as [Hv Hm3].
  apply Hk; [done|done|by eapply moved_trans].
Qed.

Lemma decode_one_post r d :
  rdr_ok r -> ByteReader.remaining r <> 0 -> table_ok d ->
  st_post (decode_one r) d (fun x => Forall decoded_ok x.1 /\ moved r x.2).
Proof using arch_ok.
  intros Hr Hrem Hd. destruct (nonempty_view r Hr Hrem) as (b & l & Hview & _).
  assert (forall n v, utf8_valid n -> utf8_valid v -> Forall decoded_ok [header n v]) as Hh
    by (intros n v Hn Hv; constructor; [by split_and!|constructor]).
  unfold decode_one. eapply st_post_bind with (Q := fun x => x = b);
    [apply st_post_lift; [done|by rewrite peek_view, Hview]|]. intros x d1 -> Hd1.
  clear d Hd. rename d1 into d, Hd1 into Hd.
  destruct (has_flag b 128); [|destruct (has_flag b 64); [|destruct (has_flag b 32)]].
  - eapply st_post_bind; [apply st_post_lift; [done|by apply read_integer_post; [| |lia]]|].
    intros [i r1] d1 [[Hi _] Hm] Hd1. simpl in *. destruct (Z.eqb_spec i 0); [by split|].
    apply st_post_get. eapply st_post_bind;
      [apply st_post_lift; [done|apply entry_at_post; [lia|done]]|].
    intros [nm v] d2 [_ [? ?]] Hd2. simpl in *.
    split; [done|]. split; [by apply Hh|done].
  - apply literal_post; [done|done|lia|done|]. intros n v r' Hn Hv Hm.
    eapply st_post_bind; [by apply insert_post|]. intros _ d2 _ Hd2.
    by split; [|split; [apply Hh|]].
  - eapply st_post_bind; [apply st_post_lift; [done|by apply read_integer_post; [| |lia]]|].
    intros [k r1] d1 [[Hk _] Hm] Hd1. simpl in *.
    eapply st_post_bind; [by apply apply_max_size_post|]. intros _ d2 _ Hd2.
    by split; [|split; [constructor|]].
  - apply literal_post; [done|done|lia|done|]. intros n v r' Hn Hv Hm.
    by split; [|split; [apply Hh|]].
Qed.

Lemma moved_fuel r r' :
  moved r r' -> rdr_ok r -> (length (ByteReader.view r') < length (ByteReader.view r))%nat.
Proof using Type.
  unfold moved, ByteReader.view. intros [-> H] _. rewrite !length_drop. lia.
Qed.

Lemma decode_loop_post fuel r hs d :
  (length (ByteReader.view r) < fuel)%nat -> rdr_ok r -> table_ok d -> Forall decoded_ok hs ->
  st_post (decode_loop fuel r hs) d (Forall decoded_ok).
Proof using arch_ok.
  revert r hs d. induction fuel as [|fuel IH]; intros r hs d Hf Hr Hd Hhs; [lia|].
  cbn [decode_loop]. destruct (Z.ltb_spec 0 (ByteReader.remaining r)); [|done].
  eapply st_post_bind; [by apply decode_one_post; [|lia|]|].
  intros [hs1 r1] d1 [Hh Hm] Hd1. simpl in Hh, Hm. pose proof (moved_fuel _ _ Hm Hr).
  apply IH; [lia|by eapply moved_ok|done|]. by apply Forall_app.
Qed.

Lemma decode_post block d :
  bytes_ok block -> table_ok d -> st_post (decode block) d (Forall decoded_ok).
Proof using arch_ok.
  intros Hb Hd. apply decode_loop_post; [rewrite view_new; lia| |done|constructor].
  split; [apply wf_new|done].
Qed.

(** ** The decoder refines parse, then execute *)

Lemma decode_loop_exec fuel r acc d d' out :
  rdr_ok r -> table_ok d ->
  decode_loop fuel r acc d = (d', Ok out) <->
  exists il hs, parse_loop fuel r = Ok il /\ exec_all il d = Some (d', hs) /\ out = acc ++ hs.
Proof using arch_ok.
  revert r acc d. induction fuel as [|fuel IH]; intros r acc d Hr Hd.
  { simpl. split; [done|]. by intros (? & ? & ? & _). }
  cbn [decode_loop parse_loop]. destruct (Z.ltb_spec 0 (ByteReader.remaining r)) as [Hrem|].
  2:{ split.
      - intros [= <- <-]. exists [], []. by rewrite app_nil_r.
      - intros (il & hs & [= <-] & [= <- <-] & ->). by rewrite app_nil_r. }
  assert (forall d1 hs1 r1, decode_one r d = (d1, Ok (hs1, r1)) -> rdr_ok r1 /\ table_ok d1) as Hok.
  { intros d1 hs1 r1 H1. pose proof (decode_one_post r d Hr ltac:(lia) Hd) as [Hd1 Hp].
    rewrite H1 in Hd1, Hp. destruct Hp as [_ Hm]. split; [by eapply moved_ok|done]. }
  rewrite st_bind_inv. split.
  - intros ([hs1 r1] & d1 & H1 & H). destruct (Hok _ _ _ H1) as [Hr1 Hd1].
    apply IH in H as (il & hs & Hp & He & ->); [|done..].
    apply decode_one_exec in H1 as (i & Hi & Hx); [|done|lia|done].
    exists (i :: il), (hs1 ++ hs). rewrite Hi. cbn [mbind outcome_bind]. rewrite Hp. split; [done|].
    simpl. rewrite Hx. simpl. rewrite He. simpl. by rewrite app_assoc.
  - intros (il & hs & Hp & He & ->). apply bind_Ok in Hp as ([i r1] & Hi & Hp).
    apply bind_Ok in Hp as (il1 & Hp & [= <-]). simpl in He.
    destruct (exec i d) as [[d1 hs1]|] eqn:Hx; [|done]. simpl in He.
    destruct (exec_all il1 d1) as [[d2 hs2]|] eqn:He1; [|done]. injection He as <- <-.
    pose proof (proj2 (decode_one_exec r d d1 hs1 r1 Hr ltac:(lia) Hd)
      (ex_intro _ i (conj Hi Hx))) as H1.
    destruct (Hok _ _ _ H1) as [Hr1 Hd1].
    exists (hs1, r1), d1. split; [done|]. apply IH; [done|done|].
    exists il1, hs2. by rewrite app_assoc.
Qed.
End decode_facts.
