(* ===== verification/HpackTheorems.v ===== *)
(** * HpackTheorems: what header compression guarantees

    The round trip of the encoder through any decoder, the decoder's contract
    and its refinement of the grammar, the dynamic table's specification, and
    two behaviours that depart from RFC 7541. *)

From S2P Require Import Prelude Errors Bytes Utf8 Huffman HuffmanFacts Hpack HpackFacts.
From S2P Require Import HpackTable.

Section loop.
Context {arch : Arch} {arch_ok : ArchOk arch}.

Lemma headers_codec hs :
  Forall header_ok hs ->
  exists enc, (forall w, HpackEncoder.encode_loop hs w = Ok (w ++ enc)) /\ bytes_ok enc /\
    (length hs <= length enc)%nat /\
    forall fuel d r acc, (length hs < fuel)%nat -> ByteReader.wf r -> ByteReader.view r = enc ->
      HpackDecoder.decode_loop fuel r acc d = (d, Ok (acc ++ (normal <$> hs))).
Proof using arch_ok.
  induction 1 as [|h hs Hh _ (enc & Hw & Hok & Hlen & Hdec)].
  - exists []. split_and!; [intros w; by rewrite app_nil_r|constructor|done|].
    intros [|fuel] d r acc Hf Hr Hv; [simpl in *; lia|]. cbn [HpackDecoder.decode_loop].
    rewrite remaining_view, Hv by done. by rewrite app_nil_r.
  - destruct (header_codec h Hh) as (e & Hwe & Hoke & Hne & Hde). exists (e ++ enc). split_and!.
    + intros w. cbn [HpackEncoder.encode_loop]. rewrite Hwe. cbn [mbind outcome_bind].
      by rewrite Hw, app_assoc.
    + apply bytes_ok_app. by split.
    + rewrite length_app. destruct e; [done|simpl in *; lia].
    + intros [|fuel] d r acc Hf Hr Hv; [lia|]. cbn [HpackDecoder.decode_loop].
      rewrite remaining_view, Hv, zlen_app by done. pose proof (zlen_nonneg enc).
      assert (0 < zlen e) by (destruct e; [done|rewrite zlen_cons; pose proof (zlen_nonneg e); lia]).
      destruct (Z.ltb_spec 0 (zlen e + zlen enc)); [|lia].
      rewrite (st_bind_Ok _ _ _ _ _ (Hde d r enc Hr Hv)).
      destruct (after_enc r e enc Hr Hv) as [Hr1 Hv1].
      rewrite Hdec by (done || simpl in *; lia). by rewrite <- app_assoc.
Qed.
End loop.

(** ** Theorems *)

(** C34: Whatever the state of the peer's decoder, the block that
    [HpackEncoder.encode] writes decodes to the same fields in the same order,
    names in lower case, and leaves the decoder's table as it was: the stateless
    encoder can never lose synchronisation. *)
Theorem hpack_encode_decode {arch : Arch} {arch_ok : ArchOk arch} hs d :
  Forall header_ok hs ->
  exists block, HpackEncoder.encode hs = Ok block /\ bytes_ok block /\
    HpackDecoder.decode block d = (d, Ok (normal <$> hs)).
Proof.
  intros Hhs. destruct (headers_codec hs Hhs) as (enc & Hw & Hok & Hlen & Hdec).
  exists enc. unfold HpackEncoder.encode. rewrite Hw. split_and!; [done|done|].
  unfold HpackDecoder.decode. by rewrite Hdec by (done || lia || apply wf_new).
Qed.

Lemma hpack_encode_decode_witness :
  exists block,
    @HpackEncoder.encode wasm32_release
      [header (str ":method") (str "GET"); header (str "X-Trace") (str "a1b2");
       never_indexed (str "authorization") (str "Bearer t0ken")] = Ok block /\
    @HpackDecoder.decode wasm32_release block HpackDecoder.default =
      (HpackDecoder.default,
       Ok [header (str ":method") (str "GET"); header (str "x-trace") (str "a1b2");
           header (str "authorization") (str "Bearer t0ken")]).
Proof.
  destruct (@hpack_encode_decode wasm32_release wasm32_release_ok
    [header (str ":method") (str "GET"); header (str "X-Trace") (str "a1b2");
     never_indexed (str "authorization") (str "Bearer t0ken")] HpackDecoder.default)
    as (block & He & _ & Hd).
  - apply ascii_headers_ok. vm_compute. reflexivity.
  - exists block. split; [exact He|exact Hd].
Defined.

(** C37: [HpackDecoder.decode] is "parse, then execute": it returns [hs] and the
    table [d'] exactly when the block parses as a list of instructions (a grammar
    that knows nothing of the table) and executing them one by one, against the
    single index space of static and dynamic entries, gives [hs] and [d']. *)
Theorem hpack_decode_refines {arch : Arch} {arch_ok : ArchOk arch} block d d' hs :
  bytes_ok block -> table_ok d ->
  HpackDecoder.decode block d = (d', Ok hs) <->
  exists il, parse_block block = Ok il /\ exec_all il d = Some (d', hs).
Proof.
  intros Hb Hd. unfold HpackDecoder.decode, parse_block.
  assert (rdr_ok (ByteReader.new block)) as Hr by (split; [apply wf_new|done]).
  rewrite decode_loop_exec by done.
  split; [intros (il & hs' & ? & ? & ->)|intros (il & ? & ?)]; by eauto 10.
Qed.

Lemma table_ok_default : table_ok HpackDecoder.default.
Proof. unfold table_ok. simpl. unfold DEFAULT_TABLE_SIZE. split_and!; (lia || done || constructor). Qed.

Lemma hpack_decode_refines_witness :
  HpackDecoder.decode (arch := host64_debug) [0x40; 1; 97; 1; 98; 0xbe] HpackDecoder.default =
    (with_table [([97], [98])] 4096 HpackDecoder.default,
     Ok [header [97] [98]; header [97] [98]]).
Proof.
  apply (proj2 (@hpack_decode_refines host64_debug host64_debug_ok
    [0x40; 1; 97; 1; 98; 0xbe] HpackDecoder.default
    (with_table [([97], [98])] 4096 HpackDecoder.default) [header [97] [98]; header [97] [98]]
    ltac:(repeat constructor; done) table_ok_default)).
  exists [Literal true (inr [97]) [98]; Indexed 62]. split; vm_compute; reflexivity.
Defined.

(** The contract of [HpackDecoder.decode] on any bytes: the table stays well
    formed (size accounted exactly, within its limit, entries valid strings) even
    when the block is rejected half way; a result is a list of valid strings; a
    failure is a connection error COMPRESSION_ERROR; and it never panics where
    [usize] is wide or arithmetic wraps. *)
Theorem hpack_decode_contract {arch : Arch} {arch_ok : ArchOk arch} block d :
  bytes_ok block -> table_ok d ->
  table_ok (fst (HpackDecoder.decode block d)) /\
  post (snd (HpackDecoder.decode block d)) (Forall decoded_ok).
Proof. apply decode_post. Qed.

Lemma hpack_decode_contract_witness :
  table_ok (fst (HpackDecoder.decode (arch := host64_debug)
    [0x40; 1; 97; 1; 98; 0x80] HpackDecoder.default)) /\
  snd (HpackDecoder.decode (arch := host64_debug)
    [0x40; 1; 97; 1; 98; 0x80] HpackDecoder.default) =
    Err (compression_error "indexed field with index 0").
Proof.
  split; [|vm_compute; reflexivity].
  exact (proj1 (@hpack_decode_contract host64_debug host64_debug_ok
    [0x40; 1; 97; 1; 98; 0x80] HpackDecoder.default
    ltac:(repeat constructor; done) table_ok_default)).
Defined.

(** Inserting an entry keeps exactly the longest run of newest entries, the
    new one first, whose total size fits the table's limit (an entry larger than
    the table empties it), and the table's size is their total. *)
Theorem hpack_insert_evicts n v d :
  table_ok d ->
  exists d', HpackDecoder.insert n v d = (d', Ok tt) /\
    HpackDecoder.size d' = table_size (HpackDecoder.dynamic d') /\
    HpackDecoder.max_size d' = HpackDecoder.max_size d /\
    forall p, p `prefix_of` (n, v) :: HpackDecoder.dynamic d ->
      p `prefix_of` HpackDecoder.dynamic d' <-> table_size p <= HpackDecoder.max_size d.
Proof.
  intros Hd. eexists. split; [by apply insert_run|]. split_and!; [done|done|].
  intros p Hp. cbn [with_table HpackDecoder.dynamic]. split.
  - intros [k Hk]. pose proof (fit_size (HpackDecoder.max_size d)
      ((n, v) :: HpackDecoder.dynamic d) (table_ok_max d Hd)) as Hs.
    rewrite Hk, table_size_app in Hs. pose proof (table_size_nonneg k). lia.
  - intros Hs. by apply fit_longest.
Qed.

Lemma hpack_insert_evicts_witness :
  exists d', HpackDecoder.insert [97] [98] (HpackDecoder.mk [([99], [])] 33 66 4096) = (d', Ok tt) /\
    ~ [([97], [98]); ([99], [])] `prefix_of` HpackDecoder.dynamic d'.
Proof.
  destruct (hpack_insert_evicts [97] [98] (HpackDecoder.mk [([99], [])] 33 66 4096))
    as (d' & H1 & _ & _ & H2).
  - unfold table_ok. simpl. split_and!; try (reflexivity || lia).
    constructor; [split; apply utf8_valid_ascii; repeat constructor; done|constructor].
  - exists d'. split; [exact H1|]. intros Hp.
    apply (H2 [([97], [98]); ([99], [])]) in Hp; [vm_compute in Hp; congruence|by exists []].
Defined.

(** Lowering the protocol limit evicts at once what no longer fits, raising
    it changes nothing else, and the table stays well formed: the discarded
    result of [apply_max_size] is never an error. *)
Theorem hpack_set_protocol_max n d :
  table_ok d -> 0 <= n ->
  let d' := HpackDecoder.set_protocol_max_size n d in
  table_ok d' /\ HpackDecoder.protocol_max d' = n /\
  HpackDecoder.max_size d' = Z.min n (HpackDecoder.max_size d) /\
  HpackDecoder.dynamic d' = fit (Z.min n (HpackDecoder.max_size d)) (HpackDecoder.dynamic d).
Proof.
  intros Hd Hn d'. subst d'. rewrite set_protocol_max_size_run by done.
  split_and!; [|done..]. pose proof (table_ok_max d Hd).
  apply (with_table_ok _ _ (HpackDecoder.mk [] 0 0 n)); [simpl; lia|apply Hd].
Qed.

Lemma hpack_set_protocol_max_witness :
  HpackDecoder.dynamic (HpackDecoder.set_protocol_max_size 0
    (HpackDecoder.mk [([97], [98])] 34 4096 4096)) = [].
Proof.
  destruct (hpack_set_protocol_max 0 (HpackDecoder.mk [([97], [98])] 34 4096 4096))
    as (_ & _ & _ & H).
  - unfold table_ok. simpl. split_and!; try (reflexivity || lia).
    constructor; [split; apply utf8_valid_ascii; repeat constructor; done|constructor].
  - lia.
  - exact H.
Defined.

(** On every target, a prefix integer that fits [usize] and lies less than
    2^42 above the prefix maximum is read back exactly, whatever follows it. *)
Theorem hpack_integer_roundtrip {arch : Arch} {arch_ok : ArchOk arch} p fl v :
  prefix_ok p fl -> codable p v ->
  exists enc, write_integer v p fl ByteWriter.new = Ok enc /\
    reads (fun r => read_integer r p) enc v.
Proof.
  intros Hp Hv. destruct (integer_codec p fl v Hp Hv) as (c & enc & Hw & _ & _ & Hr).
  exists ((fl + c) :: enc). by rewrite Hw.
Qed.

Lemma hpack_integer_roundtrip_witness :
  exists enc, @write_integer wasm32_debug 4294967295 5 0x20 ByteWriter.new = Ok enc /\
    @reads Z (fun r => @read_integer wasm32_debug r 5) enc 4294967295.
Proof.
  apply (@hpack_integer_roundtrip wasm32_debug wasm32_debug_ok).
  - split; [lia|]. split; [unfold is_u8; lia|reflexivity].
  - split; [unfold is_usize; simpl; lia|simpl; lia].
Defined.

(** On wasm32 the reader's 42-bit limit does not protect a 32-bit [usize]:
    the same block, a table size update to 2^35 + 31, is a COMPRESSION_ERROR on
    a 64-bit host, a panic in a checked wasm32 build, and is silently accepted
    as a resize to 39 in a wrapping one. *)
Theorem hpack_integer_wasm32 :
  let block := [0x3f; 0x80; 0x80; 0x80; 0x80; 0x80; 0x01] in
  snd (HpackDecoder.decode (arch := host64_release) block HpackDecoder.default) =
    Err (compression_error "dynamic table size update too large") /\
  snd (HpackDecoder.decode (arch := wasm32_debug) block HpackDecoder.default) = Panic /\
  HpackDecoder.decode (arch := wasm32_release) block HpackDecoder.default =
    (HpackDecoder.mk [] 0 39 4096, Ok []).
Proof. split_and!; vm_compute; reflexivity. Qed.

(** The octets of an entry's strings on the wire, 32 added: the entry size of
    RFC 7541 section 4.1. *)
Definition wire_size (n v : bytes) : Z := zlen n + zlen v + 32.

(** The decoder charges an entry the length of its strings after lossy UTF-8
    decoding, not of the octets received: with a table limit of 68, the entries
    "a: E9" and "b: c" (34 octets each by the RFC, so both fit) leave only the
    second, and the index that the peer may use for the first is rejected. *)
Theorem hpack_lossy_entry_size :
  wire_size [97] [0xe9] + wire_size [98] [99] = 68 /\
  HpackDecoder.decode (arch := host64_release)
    [0x3f; 37; 0x40; 1; 97; 1; 0xe9; 0x40; 1; 98; 1; 99; 0xbf] HpackDecoder.default =
  (HpackDecoder.mk [([98], [99])] 34 68 4096,
   Err (compression_error "invalid HPACK index 63")).
Proof. split; vm_compute; reflexivity. Qed.
