(* ===== verification/Flow.v ===== *)
(** * Flow: the send-side flow-control window

    Models [rust/crates/h2ts-client/src/flow.rs].  A [Waker] is the number of
    the task it wakes; an operation that wakes tasks returns the wakers called,
    in order.  [available] is an [i64]: an update adds less than 2^31, so it
    would take 2^32 of them to leave the range, and the integer is exact. *)

From S2P Require Import Prelude.

Abbreviation waker := nat.

Module SendWindow.

Record t := mk {
  available : Z;
  wakers : list waker;
  closed : bool;
}.

Definition new (initial : Z) : t := mk initial [] false.
Definition value (w : t) : Z := available w.

(** [self.wakers.drain(..)]: the wakers are called and forgotten. *)
Definition wake (w : t) : t * list waker := (mk (available w) [] (closed w), wakers w).

Definition update (increment : Z) (w : t) : t * list waker :=
  let w := mk (available w + increment) (wakers w) (closed w) in
  if 0 <? available w then wake w else (w, []).

Definition adjust (delta : Z) (w : t) : t * list waker :=
  let w := mk (available w + delta) (wakers w) (closed w) in
  if 0 <? available w then wake w else (w, []).

Definition consume (n : Z) (w : t) : t := mk (available w - n) (wakers w) (closed w).

Definition is_closed (w : t) : bool := closed w.
Definition is_ready (w : t) : bool := (0 <? available w) || closed w.

Definition register_waker (k : waker) (w : t) : t :=
  mk (available w) (wakers w ++ [k]) (closed w).

Definition close (w : t) : t * list waker := wake (mk (available w) (wakers w) true).

End SendWindow.

(** ** Usage and the waiting contract *)

(** What the connection does with a window.  A task registers only when it has
    seen the window not ready, and consumes only what it has seen available. *)
Inductive window_op :=
  | Update (increment : Z)
  | Adjust (delta : Z)
  | Consume (n : Z)
  | Register (k : waker)
  | Close.

Definition window_step (op : window_op) (w : SendWindow.t) : SendWindow.t * list waker :=
  match op with
  | Update n => SendWindow.update n w
  | Adjust n => SendWindow.adjust n w
  | Consume n => (SendWindow.consume n w, [])
  | Register k => (SendWindow.register_waker k w, [])
  | Close => SendWindow.close w
  end.

Definition op_allowed (op : window_op) (w : SendWindow.t) : Prop :=
  match op with
  | Update n => 0 <= n
  | Adjust _ | Close => True
  | Consume n => 0 <= n <= SendWindow.value w
  | Register _ => SendWindow.is_ready w = false
  end.

(** A run of allowed operations: the final window and the wakers called. *)
Inductive window_run (w : SendWindow.t) : list window_op -> SendWindow.t -> list waker -> Prop :=
  | run_nil : window_run w [] w []
  | run_snoc ops op w1 w2 woken k :
      window_run w ops w1 woken -> op_allowed op w1 -> window_step op w1 = (w2, k) ->
      window_run w (ops ++ [op]) w2 (woken ++ k).

(** Tasks wait only on a window that is not ready. *)
Definition parked_ok (w : SendWindow.t) : Prop :=
  SendWindow.is_ready w = true -> SendWindow.wakers w = [].

(** The wakers registered by the operations. *)
Definition registered (op : window_op) : list waker :=
  match op with Register k => [k] | _ => [] end.

(** The balance of an operation: credit granted, minus credit spent. *)
Definition credit (op : window_op) : Z :=
  match op with
  | Update n | Adjust n => n
  | Consume n => - n
  | Register _ | Close => 0
  end.

Lemma window_step_parked op w :
  op_allowed op w -> parked_ok w -> parked_ok (window_step op w).1.
Proof.
  unfold parked_ok, SendWindow.is_ready. destruct op as [n|n|n|k|]; simpl; intros Ha Hp.
  - unfold SendWindow.update. simpl. destruct (Z.ltb_spec 0 (SendWindow.available w + n)); [done|].
    simpl. intros Hr. apply Hp. rewrite orb_true_iff in *. destruct Hr as [Hr|Hr]; [lia|auto].
  - unfold SendWindow.adjust. simpl. destruct (Z.ltb_spec 0 (SendWindow.available w + n)); [done|].
    simpl. intros Hr. apply Hp. rewrite orb_true_iff in *. destruct Hr as [Hr|Hr]; [lia|auto].
  - unfold SendWindow.value in Ha. intros Hr. apply Hp. rewrite orb_true_iff in *.
    destruct Hr as [Hr|Hr]; [left; lia|auto].
  - unfold SendWindow.is_ready in Ha. intros Hr. congruence.
  - done.
Qed.

(** No waker is lost or called twice: the registered ones, in order, are those
    called so far followed by those still parked. *)
Lemma window_step_wakers op w :
  (window_step op w).2 ++ SendWindow.wakers (window_step op w).1 =
  SendWindow.wakers w ++ registered op.
Proof.
  destruct op as [n|n|n|k|]; simpl; rewrite ?app_nil_r; try done.
  - unfold SendWindow.update. destruct (0 <? _); simpl; by rewrite ?app_nil_r.
  - unfold SendWindow.adjust. destruct (0 <? _); simpl; by rewrite ?app_nil_r.
Qed.

Lemma window_step_available op w :
  SendWindow.value (window_step op w).1 = SendWindow.value w + credit op.
Proof.
  unfold SendWindow.value. destruct op as [n|n|n|k|]; simpl; try lia.
  - unfold SendWindow.update. destruct (0 <? _); simpl; lia.
  - unfold SendWindow.adjust. destruct (0 <? _); simpl; lia.
Qed.

(** ** Theorems *)

(** No lost wakeup: in any run of a window that starts with nobody waiting,
    tasks are parked only while the window is not ready (no capacity, not
    closed), the wakers called so far and those parked are the registered ones,
    in order, and the capacity is the initial one plus what was granted minus
    what was consumed. *)
Theorem window_no_lost_wakeup initial ops w woken :
  window_run (SendWindow.new initial) ops w woken ->
  parked_ok w /\
  woken ++ SendWindow.wakers w = concat (registered <$> ops) /\
  SendWindow.value w = initial + foldr Z.add 0 (credit <$> ops).
Proof.
  induction 1 as [|ops op w1 w2 woken k _ (Hp & Hw & Hv) Ha Hs].
  - split_and!; [done|done|simpl; unfold SendWindow.value; simpl; lia].
  - pose proof (window_step_parked op w1 Ha Hp) as Hp2.
    pose proof (window_step_wakers op w1) as Hw2. pose proof (window_step_available op w1) as Hv2.
    rewrite Hs in Hp2, Hw2, Hv2. simpl in *. split_and!; [done| |].
    + rewrite fmap_app, concat_app, <- Hw, <- !app_assoc, Hw2. simpl. by rewrite app_nil_r.
    + rewrite Hv2, Hv, fmap_app, foldr_app. simpl.
      assert (forall z l, foldr Z.add z l = z + foldr Z.add 0 l) as Hf
        by (intros z l; induction l; simpl; lia).
      rewrite (Hf (credit op + 0)). lia.
Qed.

Lemma window_no_lost_wakeup_witness :
  exists w, window_run (SendWindow.new 0) [Register 7; Update 5; Consume 5; Register 9] w [7%nat] /\
    SendWindow.wakers w = [9%nat] /\ parked_ok w.
Proof.
  assert (window_run (SendWindow.new 0) [Register 7; Update 5; Consume 5; Register 9]
    (SendWindow.mk 0 [9%nat] false) [7%nat]) as Hrun.
  { apply (run_snoc _ [Register 7; Update 5; Consume 5] (Register 9)
      (SendWindow.mk 0 [] false) _ [7%nat] []); [|reflexivity|reflexivity].
    apply (run_snoc _ [Register 7; Update 5] (Consume 5)
      (SendWindow.mk 5 [] false) _ [7%nat] []); [|simpl; unfold SendWindow.value; simpl; lia|reflexivity].
    apply (run_snoc _ [Register 7] (Update 5)
      (SendWindow.mk 0 [7%nat] false) _ [] [7%nat]); [|simpl; lia|reflexivity].
    apply (run_snoc _ [] (Register 7) (SendWindow.new 0) _ [] []);
      [constructor|reflexivity|reflexivity]. }
  eexists. split; [exact Hrun|]. split; [reflexivity|].
  exact (proj1 (window_no_lost_wakeup _ _ _ _ Hrun)).
Defined.
