(* ===== verification/Stream.v ===== *)
(** * Stream: the state of one request/response exchange

    Models the per-stream part of
    [rust/crates/h2ts-client/src/connection.rs]: [RecvState], the pure part of
    [ResponseBody::poll_next], [collect_headers] and [StreamState].  What a
    stream shares with the [Response] through [Rc] cells and a oneshot channel
    is the record [Cells], which the connection stores by stream id and which
    outlives the [StreamState].  Operations return the wakers they call.  The
    theorems are in StreamFacts.v. *)

From S2P Require Import Prelude Errors Bytes Hpack Flow.

(** ** The receive buffer *)

Record RecvState := mkRecv {
  queue : list bytes;
  buffered : Z;
  ended : bool;
  error : option H2Error.t;
  recv_waker : option waker;
}.

Definition default_recv : RecvState := mkRecv [] 0 false None None.

(** [recv.waker.take()], then [wake]. *)
Definition take_waker (r : RecvState) : RecvState * list waker :=
  (mkRecv (queue r) (buffered r) (ended r) (error r) None, option_list (recv_waker r)).

(** The outcomes of [poll_next]. *)
Inductive body_poll :=
  | BodyChunk (chunk : bytes)
  | BodyError (e : H2Error.t)
  | BodyEnd
  | BodyPending.

(** [ResponseBody::poll_next] up to the replenishing of the windows, which the
    connection does for the bytes of a [BodyChunk]. *)
Definition recv_poll (k : waker) (r : RecvState) : RecvState * body_poll :=
  match queue r with
  | chunk :: q =>
      (mkRecv q (buffered r - zlen chunk) (ended r) (error r) (recv_waker r), BodyChunk chunk)
  | [] =>
      match error r with
      | Some e => (mkRecv [] (buffered r) (ended r) None (recv_waker r), BodyError e)
      | None =>
          if ended r then (r, BodyEnd)
          else (mkRecv [] (buffered r) (ended r) None (Some k), BodyPending)
      end
  end.

(** ** Response heads *)

Record Head := mkHead {
  status : Z;
  headers : gmap bytes bytes;
  raw : list Header;
}.

(** The digits of [u16::from_str]: checked multiplication and addition. *)
Fixpoint parse_digits (acc : Z) (s : bytes) : option Z :=
  match s with
  | [] => Some acc
  | b :: s =>
      if (48 <=? b) && (b <=? 57) then
        let acc := acc * 10 + (b - 48) in
        if 65535 <? acc then None else parse_digits acc s
      else None
  end.

(** [str::parse::<u16>]: an optional [+], then at least one digit. *)
Definition parse_u16 (s : bytes) : option Z :=
  match s with
  | [] => None
  | [43] => None
  | 43 :: s => parse_digits 0 s
  | s => parse_digits 0 s
  end.

(** [name.starts_with(':')] *)
Definition is_pseudo (n : bytes) : bool :=
  match n with b :: _ => b =? 58 | [] => false end.

Definition separator (n : bytes) : bytes :=
  if bool_decide (n = str "cookie") then str "; " else str ", ".

(** One turn of the loop over the fields. *)
Definition collect_one (h : Header) (acc : Z * gmap bytes bytes) : Z * gmap bytes bytes :=
  let '(st, hs) := acc in
  if bool_decide (name h = str ":status") then (default 0 (parse_u16 (value h)), hs)
  else if is_pseudo (name h) then (st, hs)
  else match hs !! name h with
       | Some existing => (st, <[name h := existing ++ separator (name h) ++ value h]> hs)
       | None => (st, <[name h := value h]> hs)
       end.

Definition collect_headers (fields : list Header) : Head :=
  let '(st, hs) := foldl (fun acc h => collect_one h acc) (0, ∅) fields in
  mkHead st hs fields.

(** ** The stream *)

(** The oneshot channel of the response head. *)
Inductive head_cell :=
  | HeadPending
  | HeadSent (r : H2Error.t + Head)
  | HeadCanceled.

(** The cells shared with the [Response] and the pending [request]. *)
Record Cells := mkCells {
  recv : RecvState;
  trailers : option (gmap bytes bytes);
  head : head_cell;
}.

Definition default_cells : Cells := mkCells default_recv None HeadPending.

Module StreamState.

(** [head_tx] holds the sender or not. *)
Record t := mk {
  id : Z;
  send_window : SendWindow.t;
  head_tx : bool;
  got_head : bool;
  local_closed : bool;
  remote_closed : bool;
}.

Definition new (id initial_send_window : Z) : t :=
  mk id (SendWindow.new initial_send_window) false false false false.

(** [if let Some(tx) = self.head_tx.take() { let _ = tx.send(r); }], after
    [got_head] was set. *)
Definition send_head (r : H2Error.t + Head) (s : t) (c : Cells) : t * Cells :=
  (mk (id s) (send_window s) false true (local_closed s) (remote_closed s),
   if head_tx s then mkCells (recv c) (trailers c) (HeadSent r) else c).

Definition with_recv (r : RecvState) (c : Cells) : Cells := mkCells r (trailers c) (head c).

Definition end_body (c : Cells) : Cells * list waker :=
  let r := recv c in
  if negb (ended r) then
    let r := mkRecv (queue r) (buffered r) true (error r) (recv_waker r) in
    let '(r, woken) := take_waker r in
    (with_recv r c, woken)
  else (c, []).

Definition receive_headers (fields : list Header) (end_stream : bool) (s : t) (c : Cells)
    : t * Cells * list waker :=
  let finish (s : t) (c : Cells) :=
    if end_stream then let '(c, woken) := end_body c in (s, c, woken) else (s, c, []) in
  if negb (got_head s) then
    let hd := collect_headers fields in
    if (100 <=? status hd) && (status hd <? 200) then (s, c, [])
    else let '(s, c) := send_head (inr hd) s c in finish s c
  else
    finish s (mkCells (recv c) (Some (headers (collect_headers fields))) (head c)).

Definition receive_data (data : bytes) (end_stream : bool) (c : Cells) : Cells * list waker :=
  let r := recv c in
  let r :=
    if negb (bool_decide (data = [])) && bool_decide (error r = None) && negb (ended r) then
      mkRecv (queue r ++ [data]) (buffered r + zlen data) (ended r) (error r) (recv_waker r)
    else r in
  let r := if end_stream then mkRecv (queue r) (buffered r) true (error r) (recv_waker r) else r in
  let '(r, woken) := take_waker r in
  (with_recv r c, woken).

Definition fail (err : H2Error.t) (s : t) (c : Cells) : t * Cells * list waker :=
  let '(win, woken1) := SendWindow.close (send_window s) in
  let s := mk (id s) win (head_tx s) (got_head s) (local_closed s) (remote_closed s) in
  let '(s, c) := if negb (got_head s) then send_head (inl err) s c else (s, c) in
  let r := recv c in
  let err' := match error r with None => Some err | Some e => Some e end in
  let '(r, woken2) := take_waker (mkRecv (queue r) (buffered r) true err' (recv_waker r)) in
  (s, with_recv r c, woken1 ++ woken2).

Definition receive_reset (error_code : Z) (s : t) (c : Cells) : t * Cells * list waker :=
  let code := default ErrorCode.ProtocolError (ErrorCode.from_value error_code) in
  fail (H2Error.stream code ("stream " +:+ pretty (id s) +:+ " reset by peer") (id s)) s c.

(** Dropping a [StreamState] drops its head sender: a receiver still waiting is
    canceled. *)
Definition drop (s : t) (c : Cells) : Cells :=
  if head_tx s then mkCells (recv c) (trailers c) HeadCanceled else c.

End StreamState.
