(* ===== verification/StreamFacts.v ===== *)
(** * StreamFacts: response bodies and heads are delivered faithfully

    A body is specified by the events of its stream: [accepted], the chunks up to
    the first terminating event, and [terminator], whether that event was a
    failure. *)

From S2P Require Import Prelude Errors Bytes Hpack Flow Stream.

(** ** Runs of a stream's body *)

Inductive body_op :=
  | OpData (data : bytes) (end_stream : bool)
  | OpReset (error_code : Z)
  | OpFail (err : H2Error.t)
  | OpEnd
  | OpPoll (k : waker).

Definition body_step (op : body_op) (s : StreamState.t) (c : Cells)
    : StreamState.t * Cells * list body_poll :=
  match op with
  | OpData d es => (s, (StreamState.receive_data d es c).1, [])
  | OpReset code => ((StreamState.receive_reset code s c).1, [])
  | OpFail err => ((StreamState.fail err s c).1, [])
  | OpEnd => (s, (StreamState.end_body c).1, [])
  | OpPoll k =>
      let '(r, o) := recv_poll k (recv c) in (s, StreamState.with_recv r c, [o])
  end.

Fixpoint body_run (ops : list body_op) (s : StreamState.t) (c : Cells)
    : StreamState.t * Cells * list body_poll :=
  match ops with
  | [] => (s, c, [])
  | op :: ops =>
      let '(s, c, o) := body_step op s c in
      let '(s, c, os) := body_run ops s c in
      (s, c, o ++ os)
  end.

(** The chunks the stream received before it ended. *)
Fixpoint accepted (ops : list body_op) : list bytes :=
  match ops with
  | [] => []
  | OpData d es :: ops =>
      (if bool_decide (d = []) then [] else [d]) ++ (if es then [] else accepted ops)
  | OpPoll _ :: ops => accepted ops
  | _ => []
  end.

(** How it ended, if it did: [Some true] is a reset or a failure. *)
Fixpoint terminator (ops : list body_op) : option bool :=
  match ops with
  | [] => None
  | OpData _ es :: ops => if es then Some false else terminator ops
  | OpPoll _ :: ops => terminator ops
  | OpEnd :: _ => Some false
  | OpReset _ :: _ | OpFail _ :: _ => Some true
  end.

Definition chunks (os : list body_poll) : list bytes :=
  os ≫= (fun o => match o with BodyChunk c => [c] | _ => [] end).

Definition has_error (os : list body_poll) : Prop := exists e, BodyError e ∈ os.

Fixpoint total (l : list bytes) : Z := match l with [] => 0 | c :: l => zlen c + total l end.

Lemma total_app l1 l2 : total (l1 ++ l2) = total l1 + total l2.
Proof. induction l1; simpl; lia. Qed.

Lemma body_run_app ops1 ops2 s c :
  body_run (ops1 ++ ops2) s c =
  let '(s, c, o1) := body_run ops1 s c in
  let '(s, c, o2) := body_run ops2 s c in (s, c, o1 ++ o2).
Proof.
  revert s c. induction ops1 as [|op ops1 IH]; intros s c; simpl.
  - by destruct (body_run ops2 s c) as [[? ?] ?].
  - destruct (body_step op s c) as [[s1 c1] o1]. rewrite IH.
    destruct (body_run ops1 s1 c1) as [[s2 c2] o2].
    destruct (body_run ops2 s2 c2) as [[s3 c3] o3]. by rewrite app_assoc.
Qed.

Lemma accepted_snoc ops op :
  accepted (ops ++ [op]) = accepted ops ++ if terminator ops then [] else accepted [op].
Proof.
  induction ops as [|o ops IH]; [done|]. destruct o as [d [] | | | |k]; simpl.
  all: rewrite ?app_nil_r; try done.
  by rewrite IH, app_assoc.
Qed.

Lemma terminator_snoc ops op :
  terminator (ops ++ [op]) = match terminator ops with Some b => Some b | None => terminator [op] end.
Proof. induction ops as [|o ops IH]; [done|]. by destruct o as [d [] | | | |k]. Qed.

Lemma chunks_app o1 o2 : chunks (o1 ++ o2) = chunks o1 ++ chunks o2.
Proof. apply bind_app. Qed.

(** What the buffer holds after the events [ops], [os] having been delivered. *)
Record body_inv (ops : list body_op) (os : list body_poll) (r : RecvState) : Prop := {
  inv_chunks : chunks os ++ queue r = accepted ops;
  inv_buffered : buffered r = total (queue r);
  inv_ended : ended r = bool_decide (is_Some (terminator ops));
  inv_failed : terminator ops = Some true -> error r <> None \/ has_error os;
  inv_open : terminator ops = None -> error r = None;
  inv_waker : recv_waker r <> None -> queue r = [] /\ error r = None /\ ended r = false;
}.

Lemma has_error_app os o : has_error os -> has_error (os ++ o).
Proof. intros [e He]. exists e. apply elem_of_app. by left. Qed.

(** The buffer after a failure, whatever the stream's state. *)
Lemma fail_recv err s c :
  recv (StreamState.fail err s c).1.2 =
  mkRecv (queue (recv c)) (buffered (recv c)) true
    (Some (default err (error (recv c)))) None.
Proof.
  unfold StreamState.fail, take_waker. destruct (SendWindow.close _) as [win k].
  simpl. destruct (StreamState.got_head s); simpl; [by destruct (error (recv c))|].
  destruct (StreamState.head_tx s); simpl; by destruct (error (recv c)).
Qed.

Lemma data_recv_ended d es c :
  ended (recv c) = true ->
  recv (StreamState.receive_data d es c).1 =
  mkRecv (queue (recv c)) (buffered (recv c)) true (error (recv c)) None.
Proof.
  intros He. unfold StreamState.receive_data, take_waker. rewrite He, andb_false_r.
  by destruct es; simpl; rewrite ?He.
Qed.

Lemma data_recv_open d es c :
  ended (recv c) = false -> error (recv c) = None ->
  recv (StreamState.receive_data d es c).1 =
  mkRecv (queue (recv c) ++ (if bool_decide (d = []) then [] else [d]))
    (buffered (recv c) + zlen d) es None None.
Proof.
  intros He Hr. unfold StreamState.receive_data, take_waker.
  rewrite He, Hr, (bool_decide_true (None = None)), !andb_true_r by done.
  destruct (decide (d = [])) as [->|Hd].
  - destruct es; simpl; by rewrite ?He, ?Hr, app_nil_r, Z.add_0_r.
  - rewrite bool_decide_false by done. by destruct es; simpl; rewrite ?He, ?Hr.
Qed.

Lemma end_recv c :
  recv (StreamState.end_body c).1 =
  if ended (recv c) then recv c
  else mkRecv (queue (recv c)) (buffered (recv c)) true (error (recv c)) None.
Proof. unfold StreamState.end_body, take_waker. by destruct (ended (recv c)). Qed.

(** After the first terminating event, a further one changes only the error. *)
Lemma inv_after b op ops os q n e :
  terminator ops = Some b -> body_inv ops os (mkRecv q n true e None) ->
  body_inv (ops ++ [op]) os (mkRecv q n true e None).
Proof.
  intros Ht [H1 H2 H3 H4 H5 H6]. simpl in *.
  constructor; simpl; rewrite ?accepted_snoc, ?terminator_snoc, ?Ht, ?app_nil_r in *; auto.
Qed.

Lemma inv_no_waker ops os r :
  body_inv ops os r ->
  body_inv ops os (mkRecv (queue r) (buffered r) (ended r) (error r) None).
Proof. intros [H1 H2 H3 H4 H5 H6]. by constructor. Qed.

Lemma fail_inv op ops os r e :
  accepted [op] = [] -> terminator [op] = Some true -> body_inv ops os r ->
  body_inv (ops ++ [op]) os (mkRecv (queue r) (buffered r) true (Some e) None).
Proof.
  intros Ha Ho [H1 H2 H3 H4 H5 H6].
  constructor; simpl; rewrite ?accepted_snoc, ?terminator_snoc, ?Ha, ?Ho.
  - rewrite H1. destruct (terminator ops); by rewrite app_nil_r.
  - done.
  - by destruct (terminator ops).
  - by left.
  - by destruct (terminator ops).
  - done.
Qed.

Lemma end_inv ops os r :
  body_inv ops os r ->
  body_inv (ops ++ [OpEnd]) os
    (if ended r then r else mkRecv (queue r) (buffered r) true (error r) None).
Proof.
  intros Hinv. pose proof Hinv as [H1 H2 H3 H4 H5 H6].
  destruct (terminator ops) as [b|] eqn:Ht; simpl in H3; rewrite H3.
  - destruct (recv_waker r) as [k|] eqn:Hk; [destruct H6 as (_ & _ & H6); congruence|].
    destruct r as [q n en e w]. simpl in *. subst. by eapply inv_after.
  - constructor; simpl; rewrite ?accepted_snoc, ?terminator_snoc, ?Ht; simpl; auto; try done.
    by rewrite app_nil_r.
Qed.

Lemma data_inv d es ops os c :
  body_inv ops os (recv c) ->
  body_inv (ops ++ [OpData d es]) os (recv (StreamState.receive_data d es c).1).
Proof.
  intros Hinv. pose proof Hinv as [H1 H2 H3 H4 H5 H6].
  destruct (terminator ops) as [b|] eqn:Ht; simpl in H3.
  - rewrite data_recv_ended by done. eapply inv_after; [done|].
    rewrite <- H3. by apply inv_no_waker.
  - rewrite data_recv_open by auto.
    constructor; simpl; rewrite ?accepted_snoc, ?terminator_snoc, ?Ht; simpl.
    + rewrite app_assoc, H1. by destruct es; rewrite app_nil_r.
    + rewrite total_app, H2. destruct (decide (d = [])) as [->|Hd].
      * rewrite bool_decide_true by done. unfold zlen. simpl. lia.
      * rewrite bool_decide_false by done. simpl. lia.
    + by destruct es.
    + by destruct es.
    + done.
    + done.
Qed.

Lemma poll_inv k ops os r r' o :
  recv_poll k r = (r', o) -> body_inv ops os r ->
  body_inv (ops ++ [OpPoll k]) (os ++ [o]) r'.
Proof.
  intros Hp [H1 H2 H3 H4 H5 H6]. unfold recv_poll in Hp.
  assert (accepted (ops ++ [OpPoll k]) = accepted ops) as Ha
    by (rewrite accepted_snoc; destruct (terminator ops); by rewrite app_nil_r).
  assert (terminator (ops ++ [OpPoll k]) = terminator ops) as Ht
    by (rewrite terminator_snoc; by destruct (terminator ops)).
  destruct (queue r) as [|ch q] eqn:Hq; [destruct (error r) as [e|] eqn:He;
    [|destruct (ended r) eqn:Hn]|]; injection Hp as <- <-;
    constructor; simpl; rewrite ?Ha, ?Ht, ?chunks_app; simpl; rewrite ?app_nil_r in *; auto.
  - intros Htr. right. exists e. apply elem_of_app. right. by left.
  - intros Hw. destruct (H6 Hw) as (_ & ? & _). congruence.
  - by rewrite Hq, app_nil_r.
  - by rewrite Hq.
  - congruence.
  - intros Htr. destruct (H4 Htr); [congruence|]. right. by apply has_error_app.
  - intros Hw. destruct (H6 Hw) as (_ & _ & ?). congruence.
  - intros Htr. rewrite Htr in H3. simpl in H3. congruence.
  - by rewrite <- app_assoc.
  - simpl in H2. lia.
  - intros Htr. destruct (H4 Htr); [by left|]. right. by apply has_error_app.
  - intros Hw. by destruct (H6 Hw) as (? & _).
Qed.

Lemma body_step_inv op ops os s c :
  body_inv ops os (recv c) ->
  body_inv (ops ++ [op]) (os ++ (body_step op s c).2) (recv (body_step op s c).1.2).
Proof.
  intros Hinv. destruct op as [d es|code|err| |k]; simpl; rewrite ?app_nil_r.
  - by apply data_inv.
  - unfold StreamState.receive_reset. rewrite fail_recv. by apply fail_inv.
  - rewrite fail_recv. by apply fail_inv.
  - rewrite end_recv. by apply end_inv.
  - destruct (recv_poll k (recv c)) as [r o] eqn:Hp. by eapply poll_inv.
Qed.

Lemma body_inv_init : body_inv [] [] default_recv.
Proof. by constructor. Qed.

Lemma body_run_inv ops s c s' c' os :
  recv c = default_recv -> body_run ops s c = (s', c', os) -> body_inv ops os (recv c').
Proof.
  intros Hc. revert s' c' os. induction ops as [|op ops IH] using rev_ind; intros s' c' os Hrun.
  - injection Hrun as <- <- <-. rewrite Hc. apply body_inv_init.
  - rewrite body_run_app in Hrun. destruct (body_run ops s c) as [[s1 c1] o1] eqn:H1.
    simpl in Hrun. pose proof (body_step_inv op ops o1 s1 c1 (IH _ _ _ eq_refl)) as Hs.
    destruct (body_step op s1 c1) as [[s2 c2] o2]. simpl in *.
    injection Hrun as <- <- <-. by rewrite app_nil_r.
Qed.

(** ** Header fields *)

Definition values_of (n : bytes) (fields : list Header) : list bytes :=
  value <$> filter (fun h => name h = n) fields.

(** A field value joined to those before it. *)
Definition join_value (sep : bytes) (acc : option bytes) (v : bytes) : option bytes :=
  Some (match acc with None => v | Some a => a ++ sep ++ v end).

Lemma values_of_cons n h fields :
  values_of n (h :: fields) =
  if bool_decide (name h = n) then value h :: values_of n fields else values_of n fields.
Proof.
  unfold values_of. rewrite filter_cons. destruct (decide (name h = n)) as [Hn|Hn].
  - by rewrite bool_decide_true.
  - by rewrite bool_decide_false.
Qed.

Lemma collect_fold_headers n fields st hs :
  (foldl (fun acc h => collect_one h acc) (st, hs) fields).2 !! n =
  if is_pseudo n then hs !! n
  else foldl (join_value (separator n)) (hs !! n) (values_of n fields).
Proof.
  revert st hs. induction fields as [|h fields IH]; intros st hs; cbn [foldl].
  { by destruct (is_pseudo n). }
  rewrite values_of_cons. unfold collect_one at 2.
  destruct (decide (name h = str ":status")) as [Hst|Hst].
  { rewrite (bool_decide_true (name h = str ":status")) by done. rewrite IH.
    destruct (is_pseudo n) eqn:Hp; [done|]. rewrite bool_decide_false; [done|].
    intros Hn. rewrite <- Hn, Hst in Hp. done. }
  rewrite (bool_decide_false (name h = str ":status")) by done.
  destruct (is_pseudo (name h)) eqn:Hps.
  { rewrite IH. destruct (is_pseudo n) eqn:Hp; [done|]. rewrite bool_decide_false; [done|].
    intros <-. congruence. }
  destruct (decide (name h = n)) as [<-|Hn].
  - rewrite bool_decide_true by done. rewrite Hps. cbn [foldl].
    destruct (hs !! name h) as [e|] eqn:He; rewrite IH, Hps, lookup_insert_eq; done.
  - rewrite bool_decide_false by done.
    destruct (hs !! name h) as [e|] eqn:He; rewrite IH, lookup_insert_ne; done.
Qed.

Lemma parse_digits_range acc s v : 0 <= acc <= 65535 -> parse_digits acc s = Some v -> 0 <= v <= 65535.
Proof.
  revert acc. induction s as [|b s IH]; intros acc Ha H; simpl in H; [by injection H as <-|].
  destruct ((48 <=? b) && (b <=? 57)) eqn:Hb; [|done].
  destruct (Z.ltb_spec 65535 (acc * 10 + (b - 48))); [done|]. apply (IH (acc * 10 + (b - 48))); [lia|done].
Qed.

Lemma parse_u16_range s : 0 <= default 0 (parse_u16 s) <= 65535.
Proof.
  destruct (parse_u16 s) as [v|] eqn:H; simpl; [|lia]. unfold parse_u16 in H.
  destruct s as [|b s]; [done|].
  assert (exists s', parse_digits 0 s' = Some v) as [s' Hs'].
  { repeat match type of H with context [match ?x with _ => _ end] => destruct x; try done end;
      by eexists. }
  apply (parse_digits_range 0 s'); [lia|done].
Qed.

Lemma collect_fold_status fields st hs :
  (foldl (fun acc h => collect_one h acc) (st, hs) fields).1 =
  match last (values_of (str ":status") fields) with
  | Some v => default 0 (parse_u16 v)
  | None => st
  end.
Proof.
  revert st hs. induction fields as [|h fields IH]; intros st hs; cbn [foldl]; [done|].
  rewrite values_of_cons. unfold collect_one at 2.
  destruct (bool_decide (name h = str ":status")).
  - rewrite IH. rewrite last_cons. by destruct (last (values_of _ fields)).
  - destruct (is_pseudo (name h)); [apply IH|]. destruct (hs !! name h); apply IH.
Qed.

(** ** The head and the trailers *)

Definition interim (fields : list Header) : bool :=
  (100 <=? status (collect_headers fields)) && (status (collect_headers fields) <? 200).

(** The first block that is not interim, and the blocks after it. *)
Fixpoint final_head (blocks : list (list Header)) : option (list Header * list (list Header)) :=
  match blocks with
  | [] => None
  | f :: blocks => if interim f then final_head blocks else Some (f, blocks)
  end.

Fixpoint receive_blocks (blocks : list (list Header)) (s : StreamState.t) (c : Cells)
    : StreamState.t * Cells :=
  match blocks with
  | [] => (s, c)
  | f :: blocks =>
      let '(s, c, _) := StreamState.receive_headers f false s c in receive_blocks blocks s c
  end.

Lemma receive_trailers blocks s c :
  StreamState.got_head s = true ->
  let '(_, c') := receive_blocks blocks s c in
  head c' = head c /\
  trailers c' = match last blocks with
                | Some f => Some (headers (collect_headers f))
                | None => trailers c
                end.
Proof.
  revert c. induction blocks as [|f blocks IH]; intros c Hs; [done|].
  cbn [receive_blocks]. unfold StreamState.receive_headers. rewrite Hs. simpl.
  specialize (IH (mkCells (recv c) (Some (headers (collect_headers f))) (head c)) Hs).
  destruct (receive_blocks blocks s _) as [s' c']. simpl in *. rewrite last_cons.
  destruct IH as [-> ->]. by destruct (last blocks).
Qed.

(** ** Theorems *)

(** A response body delivers exactly the chunks the stream received before
    it ended, in order and each once, whatever the interleaving of frames and
    polls; the buffered count is exact; a reader parks only when there is nothing
    to deliver (no lost wakeup); and a clean end is reported only after every
    chunk, and, when the stream ended by a reset or a failure, only after that
    error: a truncated body never looks complete. *)
Theorem body_faithful ops s s' c' os :
  body_run ops s default_cells = (s', c', os) ->
  chunks os ++ queue (recv c') = accepted ops /\
  buffered (recv c') = total (queue (recv c')) /\
  (recv_waker (recv c') <> None ->
     queue (recv c') = [] /\ error (recv c') = None /\ ended (recv c') = false) /\
  forall k, (recv_poll k (recv c')).2 = BodyEnd ->
    chunks os = accepted ops /\ terminator ops <> None /\
    (terminator ops = Some true -> has_error os).
Proof.
  intros Hrun. destruct (body_run_inv ops s default_cells s' c' os eq_refl Hrun) as [H1 H2 H3 H4 H5 H6].
  split_and!; [done|done|done|]. intros k Hp. unfold recv_poll in Hp.
  destruct (queue (recv c')) eqn:Hq; [|done]. destruct (error (recv c')) eqn:He; [done|].
  destruct (ended (recv c')) eqn:Hn; [|done]. rewrite app_nil_r in H1. split_and!; [done| |].
  - intros Ht. by rewrite Ht in H3.
  - intros Ht. by destruct (H4 Ht).
Qed.

Lemma body_faithful_witness :
  let '(_, c, os) := body_run [OpPoll 1; OpData (str "ab") false; OpPoll 2; OpReset 8; OpPoll 3]
    (StreamState.new 1 65535) default_cells in
  os = [BodyPending; BodyChunk (str "ab");
        BodyError (H2Error.stream ErrorCode.Cancel "stream 1 reset by peer" 1)] /\
  (forall k, (recv_poll k (recv c)).2 = BodyEnd -> has_error os).
Proof.
  destruct (body_run [OpPoll 1; OpData (str "ab") false; OpPoll 2; OpReset 8; OpPoll 3]
    (StreamState.new 1 65535) default_cells) as [[s c] os] eqn:Hrun.
  pose proof (body_faithful _ _ _ _ _ Hrun) as (_ & _ & _ & H).
  split; [vm_compute in Hrun; injection Hrun as _ _ <-; vm_compute; reflexivity|].
  intros k Hk. destruct (H k Hk) as (_ & _ & He). apply He. reflexivity.
Defined.

(** [collect_headers] keeps every regular field, repeated ones joined in
    order ("; " for cookie, ", " otherwise), drops pseudo-headers, and takes the
    status from the last ":status" field, 0 when it is not a [u16]. *)
Theorem collect_headers_spec fields n :
  headers (collect_headers fields) !! n =
    (if is_pseudo n then None
     else foldl (join_value (separator n)) None (values_of n fields)) /\
  status (collect_headers fields) =
    default 0 (last (values_of (str ":status") fields) ≫= parse_u16) /\
  0 <= status (collect_headers fields) <= 65535 /\ raw (collect_headers fields) = fields.
Proof.
  pose proof (collect_fold_headers n fields 0 ∅) as H1.
  pose proof (collect_fold_status fields 0 ∅) as H2.
  unfold collect_headers. destruct (foldl _ (0, ∅) fields) as [st hs]. simpl in *.
  rewrite lookup_empty in H1. subst st. destruct (last (values_of (str ":status") fields)); simpl.
  - split_and!; [by rewrite H1|done| | |done]; by apply parse_u16_range.
  - split_and!; [by rewrite H1|done|lia|lia|done].
Qed.

(** A request resolves with the first header block that is not an interim
    1xx response, exactly once; interim blocks before it change nothing, and of
    the blocks after it the last one is the trailers. *)
Theorem final_head_and_trailers blocks id win :
  let s := StreamState.mk id (SendWindow.new win) true false false false in
  let '(s', c') := receive_blocks blocks s default_cells in
  match final_head blocks with
  | None => s' = s /\ c' = default_cells
  | Some (f, rest) =>
      head c' = HeadSent (inr (collect_headers f)) /\
      trailers c' = (f ← last rest; Some (headers (collect_headers f)))
  end.
Proof.
  intros s. induction blocks as [|f blocks IH]; [done|].
  cbn [receive_blocks final_head]. unfold StreamState.receive_headers. cbn [StreamState.got_head s negb].
  fold (interim f). destruct (interim f); [exact IH|].
  unfold StreamState.send_head. cbn [StreamState.head_tx s].
  pose proof (receive_trailers blocks
    (StreamState.mk id (SendWindow.new win) false true false false)
    (mkCells default_recv None (HeadSent (inr (collect_headers f)))) eq_refl) as H.
  exact H.
Qed.

(** A stream whose response is complete (END_STREAM received) but whose
    upload is still open is failed by a RST_STREAM all the same, NO_ERROR
    included: a reader of the complete body gets its chunk, then an error instead
    of the end (RFC 7540 section 8.1 forbids discarding such a response). *)
Theorem reset_after_complete_body data code s :
  data <> [] ->
  let '(_, _, os) := body_run [OpData data true; OpReset code; OpPoll 0; OpPoll 0]
    s default_cells in
  exists e, os = [BodyChunk data; BodyError e].
Proof.
  intros Hd. cbn [body_run body_step]. unfold StreamState.receive_reset.
  set (e := H2Error.stream _ _ _). set (c1 := (StreamState.receive_data data true default_cells).1).
  assert (recv c1 = mkRecv [data] (zlen data) true None None) as Hc1.
  { unfold c1. rewrite data_recv_open by done. by rewrite bool_decide_false. }
  pose proof (fail_recv e s c1) as Hf. rewrite Hc1 in Hf.
  destruct (StreamState.fail e s c1) as [[s2 c2] k]. cbn in Hf. cbn -[recv_poll].
  rewrite Hf. exists e. reflexivity.
Qed.

Lemma reset_after_complete_body_witness :
  let '(_, _, os) := body_run [OpData (str "done") true; OpReset 0; OpPoll 0; OpPoll 0]
    (StreamState.new 1 65535) default_cells in
  exists e, os = [BodyChunk (str "done"); BodyError e].
Proof.
  apply (reset_after_complete_body (str "done") 0 (StreamState.new 1 65535)).
  vm_compute. discriminate.
Defined.
