(* ===== verification/Connection.v ===== *)
(** * Connection: the HTTP/2 connection engine

    Models the connection part of
    [rust/crates/h2ts-client/src/connection.rs]: [ConnState] and its methods,
    the turns of [H2Connection::request] and [ping], [close], the body pump, the
    parts of [ResponseBody] that touch the connection, [connect] and the steps
    of [drive].

    Besides the fields of the Rust struct, [ConnState] here holds what the code
    reaches through [Rc] cells and channels: the cells of each stream, by stream
    id (ids are never reused), the items queued on [out_tx], the pumps sent to
    [task_tx], and the log of wakers called and oneshot waiters resolved.  An
    item of [sent] keeps the frame it was serialized from, as a ghost: no
    operation reads it.  Where the code iterates over a [HashMap] the model uses
    the order of [map_to_list]; the code promises none.  Clock readings are
    integers.  The theorems are in ConnectionFacts.v and FlowSafety.v. *)

From S2P Require Import Prelude Errors Bytes Utf8 Frames Hpack Flow Stream.

Definition CONNECTION_PREFACE : bytes :=
  str "PRI * HTTP/2.0" ++ [13; 10; 13; 10] ++ str "SM" ++ [13; 10; 13; 10].
Definition SPEC_INITIAL_WINDOW : Z := 65535.
Definition MAX_HEADER_BLOCK_SIZE : Z := Z.shiftl 1 20.
Definition FORBIDDEN_HEADERS : list bytes :=
  [str "connection"; str "host"; str "keep-alive"; str "proxy-connection";
   str "transfer-encoding"; str "upgrade"].

(** ** Data *)

(** A request body; a stream is the list of chunks it will produce. *)
Inductive RequestBody :=
  | BodyEmpty
  | BodyBytes (b : bytes)
  | BodyStream (l : list bytes).

Definition body_is_empty (b : RequestBody) : bool :=
  match b with
  | BodyEmpty => true
  | BodyBytes b => bool_decide (b = [])
  | BodyStream _ => false
  end.

Record RequestInit := mkInit {
  method : option bytes;
  path : option bytes;
  authority : option bytes;
  scheme : option bytes;
  init_headers : list (bytes * bytes);
  init_body : RequestBody;
}.

Record ConnectOptions := mkOptions {
  opt_header_table_size : option Z;
  opt_enable_push : option bool;
  opt_initial_window_size : option Z;
  opt_max_frame_size : option Z;
  opt_connection_window_size : option Z;
}.

Definition default_options : ConnectOptions := mkOptions None None None None None.

(** [RemoteSettings] *)
Module Remote.
Record t := mk {
  initial_window_size : Z;
  max_frame_size : Z;
  header_table_size : Z;
  enable_push : bool;
  max_concurrent_streams : Z;
}.
Definition default : t := mk SPEC_INITIAL_WINDOW DEFAULT_MAX_FRAME_SIZE 4096 true 4294967295.
End Remote.

Inductive HeaderBlockKind := Response | Push.

Record PendingHeaderBlock := mkPending {
  pb_stream_id : Z;
  pb_kind : HeaderBlockKind;
  pb_end_stream : bool;
  pb_promised_stream_id : option Z;
  pb_fragments : list bytes;
  pb_size : Z;
}.

(** The waiter of a PING, by number, and the time it was sent. *)
Record PingWaiter := mkPing {
  resolve : nat;
  sent_at : Z;
}.

Record OutItem := mkOut {
  out_bytes : bytes;
  out_frame : option Frame.t;
}.

(** What tasks outside the connection observe. *)
Inductive event :=
  | Woken (k : waker)
  | SlotFreed (k : nat)
  | PingResolved (k : nat) (rtt : Z)
  | PingFailed (k : nat) (e : H2Error.t)
  | PingCanceled (k : nat).

Record ConnState := mkConn {
  out_tx : bool;
  decoder : HpackDecoder.t;
  frame_decoder : FrameDecoder.t;
  streams : gmap Z StreamState.t;
  next_stream_id : Z;
  conn_send_window : SendWindow.t;
  remote : Remote.t;
  pending_header_block : option PendingHeaderBlock;
  pings : gmap bytes PingWaiter;
  ping_counter : Z;
  slot_waiters : list nat;
  closed : bool;
  close_error : option H2Error.t;
  goaway_received : bool;
  highest_promised : Z;
  cells : gmap Z Cells;  (* the cells shared with requests, responses and bodies *)
  sent : list OutItem;  (* every item queued on [out_tx], oldest first *)
  tasks : list (Z * RequestBody);  (* the pumps registered on [task_tx] *)
  events : list event;  (* wakers called and waiters resolved, oldest first *)
}.

Definition set_out_tx (v : bool) (w : ConnState) : ConnState :=
  mkConn v (decoder w) (frame_decoder w) (streams w) (next_stream_id w) (conn_send_window w)
    (remote w) (pending_header_block w) (pings w) (ping_counter w) (slot_waiters w) (closed w)
    (close_error w) (goaway_received w) (highest_promised w) (cells w) (sent w) (tasks w)
    (events w).
Definition set_decoder (v : HpackDecoder.t) (w : ConnState) : ConnState :=
  mkConn (out_tx w) v (frame_decoder w) (streams w) (next_stream_id w) (conn_send_window w)
    (remote w) (pending_header_block w) (pings w) (ping_counter w) (slot_waiters w) (closed w)
    (close_error w) (goaway_received w) (highest_promised w) (cells w) (sent w) (tasks w)
    (events w).
Definition set_frame_decoder (v : FrameDecoder.t) (w : ConnState) : ConnState :=
  mkConn (out_tx w) (decoder w) v (streams w) (next_stream_id w) (conn_send_window w)
    (remote w) (pending_header_block w) (pings w) (ping_counter w) (slot_waiters w) (closed w)
    (close_error w) (goaway_received w) (highest_promised w) (cells w) (sent w) (tasks w)
    (events w).
Definition set_streams (v : gmap Z StreamState.t) (w : ConnState) : ConnState :=
  mkConn (out_tx w) (decoder w) (frame_decoder w) v (next_stream_id w) (conn_send_window w)
    (remote w) (pending_header_block w) (pings w) (ping_counter w) (slot_waiters w) (closed w)
    (close_error w) (goaway_received w) (highest_promised w) (cells w) (sent w) (tasks w)
    (events w).
Definition set_next_stream_id (v : Z) (w : ConnState) : ConnState :=
  mkConn (out_tx w) (decoder w) (frame_decoder w) (streams w) v (conn_send_window w)
    (remote w) (pending_header_block w) (pings w) (ping_counter w) (slot_waiters w) (closed w)
    (close_error w) (goaway_received w) (highest_promised w) (cells w) (sent w) (tasks w)
    (events w).
Definition set_conn_send_window (v : SendWindow.t) (w : ConnState) : ConnState :=
  mkConn (out_tx w) (decoder w) (frame_decoder w) (streams w) (next_stream_id w) v (remote w)
    (pending_header_block w) (pings w) (ping_counter w) (slot_waiters w) (closed w)
    (close_error w) (goaway_received w) (highest_promised w) (cells w) (sent w) (tasks w)
    (events w).
Definition set_remote (v : Remote.t) (w : ConnState) : ConnState :=
  mkConn (out_tx w) (decoder w) (frame_decoder w) (streams w) (next_stream_id w)
    (conn_send_window w) v (pending_header_block w) (pings w) (ping_counter w)
    (slot_waiters w) (closed w) (close_error w) (goaway_received w) (highest_promised w)
    (cells w) (sent w) (tasks w) (events w).
Definition set_pending_header_block (v : option PendingHeaderBlock) (w : ConnState) : ConnState :=
  mkConn (out_tx w) (decoder w) (frame_decoder w) (streams w) (next_stream_id w)
    (conn_send_window w) (remote w) v (pings w) (ping_counter w) (slot_waiters w) (closed w)
    (close_error w) (goaway_received w) (highest_promised w) (cells w) (sent w) (tasks w)
    (events w).
Definition set_pings (v : gmap bytes PingWaiter) (w : ConnState) : ConnState :=
  mkConn (out_tx w) (decoder w) (frame_decoder w) (streams w) (next_stream_id w)
    (conn_send_window w) (remote w) (pending_header_block w) v (ping_counter w)
    (slot_waiters w) (closed w) (close_error w) (goaway_received w) (highest_promised w)
    (cells w) (sent w) (tasks w) (events w).
Definition set_ping_counter (v : Z) (w : ConnState) : ConnState :=
  mkConn (out_tx w) (decoder w) (frame_decoder w) (streams w) (next_stream_id w)
    (conn_send_window w) (remote w) (pending_header_block w) (pings w) v (slot_waiters w)
    (closed w) (close_error w) (goaway_received w) (highest_promised w) (cells w) (sent w)
    (tasks w) (events w).
Definition set_slot_waiters (v : list nat) (w : ConnState) : ConnState :=
  mkConn (out_tx w) (decoder w) (frame_decoder w) (streams w) (next_stream_id w)
    (conn_send_window w) (remote w) (pending_header_block w) (pings w) (ping_counter w) v
    (closed w) (close_error w) (goaway_received w) (highest_promised w) (cells w) (sent w)
    (tasks w) (events w).
Definition set_closed (v : bool) (w : ConnState) : ConnState :=
  mkConn (out_tx w) (decoder w) (frame_decoder w) (streams w) (next_stream_id w)
    (conn_send_window w) (remote w) (pending_header_block w) (pings w) (ping_counter w)
    (slot_waiters w) v (close_error w) (goaway_received w) (highest_promised w) (cells w)
    (sent w) (tasks w) (events w).
Definition set_close_error (v : option H2Error.t) (w : ConnState) : ConnState :=
  mkConn (out_tx w) (decoder w) (frame_decoder w) (streams w) (next_stream_id w)
    (conn_send_window w) (remote w) (pending_header_block w) (pings w) (ping_counter w)
    (slot_waiters w) (closed w) v (goaway_received w) (highest_promised w) (cells w) (sent w)
    (tasks w) (events w).
Definition set_goaway_received (v : bool) (w : ConnState) : ConnState :=
  mkConn (out_tx w) (decoder w) (frame_decoder w) (streams w) (next_stream_id w)
    (conn_send_window w) (remote w) (pending_header_block w) (pings w) (ping_counter w)
    (slot_waiters w) (closed w) (close_error w) v (highest_promised w) (cells w) (sent w)
    (tasks w) (events w).
Definition set_highest_promised (v : Z) (w : ConnState) : ConnState :=
  mkConn (out_tx w) (decoder w) (frame_decoder w) (streams w) (next_stream_id w)
    (conn_send_window w) (remote w) (pending_header_block w) (pings w) (ping_counter w)
    (slot_waiters w) (closed w) (close_error w) (goaway_received w) v (cells w) (sent w)
    (tasks w) (events w).
Definition set_cells (v : gmap Z Cells) (w : ConnState) : ConnState :=
  mkConn (out_tx w) (decoder w) (frame_decoder w) (streams w) (next_stream_id w)
    (conn_send_window w) (remote w) (pending_header_block w) (pings w) (ping_counter w)
    (slot_waiters w) (closed w) (close_error w) (goaway_received w) (highest_promised w) v
    (sent w) (tasks w) (events w).
Definition set_sent (v : list OutItem) (w : ConnState) : ConnState :=
  mkConn (out_tx w) (decoder w) (frame_decoder w) (streams w) (next_stream_id w)
    (conn_send_window w) (remote w) (pending_header_block w) (pings w) (ping_counter w)
    (slot_waiters w) (closed w) (close_error w) (goaway_received w) (highest_promised w)
    (cells w) v (tasks w) (events w).
Definition set_tasks (v : list (Z * RequestBody)) (w : ConnState) : ConnState :=
  mkConn (out_tx w) (decoder w) (frame_decoder w) (streams w) (next_stream_id w)
    (conn_send_window w) (remote w) (pending_header_block w) (pings w) (ping_counter w)
    (slot_waiters w) (closed w) (close_error w) (goaway_received w) (highest_promised w)
    (cells w) (sent w) v (events w).
Definition set_events (v : list event) (w : ConnState) : ConnState :=
  mkConn (out_tx w) (decoder w) (frame_decoder w) (streams w) (next_stream_id w)
    (conn_send_window w) (remote w) (pending_header_block w) (pings w) (ping_counter w)
    (slot_waiters w) (closed w) (close_error w) (goaway_received w) (highest_promised w)
    (cells w) (sent w) (tasks w) v.

(** ** Methods of [ConnState] *)

Abbreviation M A := (ST ConnState H2Error.t A).

Section connection.
Context {arch : Arch}.

(** [str::to_uppercase] of the standard library. *)
Variable to_uppercase : bytes -> bytes.

Definition emit (l : list event) : M unit := st_modify (fun w => set_events (events w ++ l) w).
Definition wake_all (l : list waker) : M unit := emit (Woken <$> l).

Definition write_raw (b : bytes) (origin : option Frame.t) : M unit :=
  st_modify (fun w =>
    if negb (closed w) then
      if out_tx w then set_sent (sent w ++ [mkOut b origin]) w else w
    else w).

Definition send_frame (frame : Frame.t) : M unit :=
  b ← st_lift (serialize_frame frame);
  write_raw b (Some frame).

(** [if let Some(s) = self.streams.get_mut(&id) { .. }]: run a stream method in
    place. *)
Definition on_stream (id : Z) (f : StreamState.t -> Cells -> StreamState.t * Cells * list waker)
    : M unit :=
  w ← st_get;
  match streams w !! id with
  | Some s =>
      let '(s, c, woken) := f s (default default_cells (cells w !! id)) in
      _ ← st_put (set_cells (<[id := c]> (cells w)) (set_streams (<[id := s]> (streams w)) w));
      wake_all woken
  | None => mret tt
  end.

(** [if let Some(mut s) = self.streams.remove(&id) { .. }]: run a stream method
    on the stream taken out of the map, which is then dropped. *)
Definition take_stream (id : Z) (f : StreamState.t -> Cells -> StreamState.t * Cells * list waker)
    : M unit :=
  w ← st_get;
  match streams w !! id with
  | Some s =>
      let '(s, c, woken) := f s (default default_cells (cells w !! id)) in
      _ ← st_put (set_cells (<[id := StreamState.drop s c]> (cells w))
                    (set_streams (delete id (streams w)) w));
      wake_all woken
  | None => mret tt
  end.

Definition set_remote_closed (s : StreamState.t) : StreamState.t :=
  StreamState.mk (StreamState.id s) (StreamState.send_window s) (StreamState.head_tx s)
    (StreamState.got_head s) (StreamState.local_closed s) true.
Definition set_local_closed (s : StreamState.t) : StreamState.t :=
  StreamState.mk (StreamState.id s) (StreamState.send_window s) (StreamState.head_tx s)
    (StreamState.got_head s) true (StreamState.remote_closed s).
Definition set_send_window (win : SendWindow.t) (s : StreamState.t) : StreamState.t :=
  StreamState.mk (StreamState.id s) win (StreamState.head_tx s) (StreamState.got_head s)
    (StreamState.local_closed s) (StreamState.remote_closed s).

Definition guard_header_block_size : M unit :=
  w ← st_get;
  match pending_header_block w with
  | Some pb =>
      if MAX_HEADER_BLOCK_SIZE <? pb_size pb then
        st_throw (H2Error.new ErrorCode.EnhanceYourCalm "header block exceeds the maximum size")
      else mret tt
  | None => mret tt
  end.

(** [self.slot_waiters.drain(..)]: every parked request is woken. *)
Definition wake_slot_waiters : M unit :=
  w ← st_get;
  _ ← st_put (set_slot_waiters [] w);
  emit (SlotFreed <$> slot_waiters w).

Definition retire_if_fully_closed (id : Z) : M unit :=
  w ← st_get;
  let fully_closed :=
    match streams w !! id with
    | Some s => StreamState.local_closed s && StreamState.remote_closed s
    | None => false
    end in
  if fully_closed then
    _ ← take_stream id (fun s c => (s, c, []));
    wake_slot_waiters
  else mret tt.

Definition reset_stream (id : Z) (code : ErrorCode.t) : M unit :=
  _ ← send_frame (Frame.RstStream id (ErrorCode.value code));
  _ ← take_stream id
        (StreamState.fail (H2Error.stream code ("stream " +:+ pretty id +:+ " reset") id));
  wake_slot_waiters.

Definition replenish_recv_window (stream_id n : Z) : M unit :=
  w ← st_get;
  if closed w || (n =? 0) then mret tt
  else
    let inc := as_u32 n in
    _ ← (if bool_decide (is_Some (streams w !! stream_id)) then
           send_frame (Frame.WindowUpdate stream_id inc)
         else mret tt);
    send_frame (Frame.WindowUpdate 0 inc).

Definition stream_ids (w : ConnState) : list Z := (map_to_list (streams w)).*1.

Definition active_streams (w : ConnState) : Z :=
  zlen (filter (fun id => id mod 2 = 1) (stream_ids w)).

Definition can_open_stream (w : ConnState) : bool :=
  active_streams w <? Remote.max_concurrent_streams (remote w).

Definition destroy (err : H2Error.t) : M unit :=
  w ← st_get;
  if closed w then mret tt
  else
    let '(win, woken) := SendWindow.close (conn_send_window w) in
    let ids := stream_ids w in
    _ ← st_put (set_conn_send_window win (set_close_error (Some err) (set_closed true w)));
    _ ← wake_all woken;
    _ ← st_iter (fun id => take_stream id (StreamState.fail err)) ids;
    w ← st_get;
    _ ← st_put (set_pings ∅ w);
    _ ← emit ((fun p => PingFailed (resolve p.2) err) <$> map_to_list (pings w));
    _ ← wake_slot_waiters;
    st_modify (set_out_tx false).

Definition connection_error (err : H2Error.t) : M unit :=
  w ← st_get;
  _ ← send_frame (Frame.Goaway (highest_promised w) (ErrorCode.value (H2Error.code err)) []);
  destroy err.

Definition apply_remote_settings (s : Settings) : M unit :=
  _ ← (match initial_window_size s with
       | Some iw =>
           if 0x7fffffff <? iw then
             st_throw (H2Error.new ErrorCode.FlowControlError
               "SETTINGS_INITIAL_WINDOW_SIZE exceeds 2^31-1")
           else
             w ← st_get;
             let r := remote w in
             let delta := iw - Remote.initial_window_size r in
             _ ← st_put (set_remote (Remote.mk iw (Remote.max_frame_size r)
                   (Remote.header_table_size r) (Remote.enable_push r)
                   (Remote.max_concurrent_streams r)) w);
             st_iter (fun id => on_stream id (fun st c =>
               let '(win, woken) := SendWindow.adjust delta (StreamState.send_window st) in
               (set_send_window win st, c, woken))) (stream_ids w)
       | None => mret tt
       end);
  _ ← (match max_frame_size s with
       | Some mfs =>
           if negb ((16384 <=? mfs) && (mfs <=? 16777215)) then
             st_throw (H2Error.new ErrorCode.ProtocolError
               "SETTINGS_MAX_FRAME_SIZE out of range")
           else
             st_modify (fun w => let r := remote w in
               set_remote (Remote.mk (Remote.initial_window_size r) mfs
                 (Remote.header_table_size r) (Remote.enable_push r)
                 (Remote.max_concurrent_streams r)) w)
       | None => mret tt
       end);
  _ ← (match header_table_size s with
       | Some hts =>
           st_modify (fun w => let r := remote w in
             set_remote (Remote.mk (Remote.initial_window_size r) (Remote.max_frame_size r) hts
               (Remote.enable_push r) (Remote.max_concurrent_streams r)) w)
       | None => mret tt
       end);
  _ ← (match enable_push s with
       | Some ep =>
           st_modify (fun w => let r := remote w in
             set_remote (Remote.mk (Remote.initial_window_size r) (Remote.max_frame_size r)
               (Remote.header_table_size r) ep (Remote.max_concurrent_streams r)) w)
       | None => mret tt
       end);
  match max_concurrent_streams s with
  | Some mcs =>
      _ ← st_modify (fun w => let r := remote w in
            set_remote (Remote.mk (Remote.initial_window_size r) (Remote.max_frame_size r)
              (Remote.header_table_size r) (Remote.enable_push r) mcs) w);
      wake_slot_waiters
  | None => mret tt
  end.

(** The loop of [send_headers] over the rest of an oversized block; every turn
    sends at least a byte when [max] is positive. *)
Fixpoint send_continuations (fuel : nat) (id : Z) (max : nat) (block : bytes) (offset : nat)
    : M unit :=
  match fuel with
  | O => st_lift OutOfFuel
  | S fuel =>
      if (offset <? length block)%nat then
        let next := Nat.min (offset + max) (length block) in
        fragment ← st_lift (expect (slice offset next block));
        _ ← send_frame (Frame.Continuation id fragment (length block <=? next)%nat);
        send_continuations fuel id max block next
      else mret tt
  end.

Definition send_headers (id : Z) (block : bytes) (end_stream : bool) : M unit :=
  w ← st_get;
  let max := Remote.max_frame_size (remote w) in
  if zlen block <=? max then
    send_frame (Frame.Headers id block end_stream true None)
  else
    first ← st_lift (expect (slice 0 (Z.to_nat max) block));
    _ ← send_frame (Frame.Headers id first end_stream false None);
    send_continuations (S (length block)) id (Z.to_nat max) block (Z.to_nat max).

Definition complete_header_block : M unit :=
  w ← st_get;
  pb ← st_lift (expect (pending_header_block w));
  _ ← st_put (set_pending_header_block None w);
  let block := match pb_fragments pb with [f] => f | l => concat l end in
  w ← st_get;
  let '(d, r) := HpackDecoder.decode block (decoder w) in
  _ ← st_put (set_decoder d w);
  fields ← st_lift r;
  match pb_kind pb with
  | Response =>
      _ ← on_stream (pb_stream_id pb) (fun s c =>
            let '(s, c, woken) := StreamState.receive_headers fields (pb_end_stream pb) s c in
            (if pb_end_stream pb then set_remote_closed s else s, c, woken));
      if pb_end_stream pb then retire_if_fully_closed (pb_stream_id pb) else mret tt
  | Push =>
      let promised := default 0 (pb_promised_stream_id pb) in
      _ ← st_modify (fun w =>
            if highest_promised w <? promised then set_highest_promised promised w else w);
      send_frame (Frame.RstStream promised (ErrorCode.value ErrorCode.RefusedStream))
  end.

(** A HEADERS or PUSH_PROMISE frame opens a header block. *)
Definition open_header_block (pb : PendingHeaderBlock) (end_headers : bool) : M unit :=
  _ ← st_modify (set_pending_header_block (Some pb));
  _ ← guard_header_block_size;
  if end_headers then complete_header_block else mret tt.

Definition is_continuation (frame : Frame.t) : bool :=
  match frame with Frame.Continuation _ _ _ => true | _ => false end.

(** The arm of [dispatch] for GOAWAY: streams the peer will not process are failed. *)
Definition receive_goaway (last_stream_id error_code : Z) : M unit :=
  _ ← st_modify (set_goaway_received true);
  w ← st_get;
  let code := default ErrorCode.NoError (ErrorCode.from_value error_code) in
  let err := H2Error.new code "peer sent GOAWAY" in
  let doomed := filter (fun id => last_stream_id < id) (stream_ids w) in
  _ ← st_iter (fun id => take_stream id (StreamState.fail err)) doomed;
  _ ← wake_slot_waiters;
  if negb (error_code =? 0) then destroy err else mret tt.

(** [dispatch]; [now] is the clock reading a PING acknowledgement takes. *)
Definition dispatch (now : Z) (frame : Frame.t) : M unit :=
  w ← st_get;
  if bool_decide (is_Some (pending_header_block w)) && negb (is_continuation frame) then
    st_throw (H2Error.new ErrorCode.ProtocolError "expected CONTINUATION frame")
  else
  match frame with
  | Frame.Settings ack settings =>
      if (ack : bool) then mret tt
      else
        _ ← apply_remote_settings settings;
        send_frame (Frame.Settings true default_settings)
  | Frame.Headers stream_id fragment end_stream end_headers _ =>
      open_header_block
        (mkPending stream_id Response end_stream None [fragment] (zlen fragment)) end_headers
  | Frame.Continuation stream_id fragment end_headers =>
      _ ← (match pending_header_block w with
           | Some pb =>
               if pb_stream_id pb =? stream_id then
                 st_put (set_pending_header_block
                   (Some (mkPending (pb_stream_id pb) (pb_kind pb) (pb_end_stream pb)
                     (pb_promised_stream_id pb) (pb_fragments pb ++ [fragment])
                     (pb_size pb + zlen fragment))) w)
               else st_throw (H2Error.new ErrorCode.ProtocolError "unexpected CONTINUATION")
           | None => st_throw (H2Error.new ErrorCode.ProtocolError "unexpected CONTINUATION")
           end);
      _ ← guard_header_block_size;
      if end_headers then complete_header_block else mret tt
  | Frame.PushPromise stream_id promised_stream_id fragment end_headers =>
      open_header_block
        (mkPending stream_id Push false (Some promised_stream_id) [fragment] (zlen fragment))
        end_headers
  | Frame.Data stream_id data end_stream =>
      _ ← (if bool_decide (is_Some (streams w !! stream_id)) then
             on_stream stream_id (fun s c =>
               let '(c, woken) := StreamState.receive_data data end_stream c in
               (if end_stream then set_remote_closed s else s, c, woken))
           else if negb (bool_decide (data = [])) then
             send_frame (Frame.WindowUpdate 0 (as_u32 (zlen data)))
           else mret tt);
      if end_stream then retire_if_fully_closed stream_id else mret tt
  | Frame.RstStream stream_id error_code =>
      take_stream stream_id (StreamState.receive_reset error_code)
  | Frame.WindowUpdate stream_id increment =>
      if increment =? 0 then
        if stream_id =? 0 then
          st_throw (H2Error.new ErrorCode.ProtocolError "zero WINDOW_UPDATE")
        else reset_stream stream_id ErrorCode.ProtocolError
      else if stream_id =? 0 then
        let '(win, woken) := SendWindow.update increment (conn_send_window w) in
        _ ← st_put (set_conn_send_window win w);
        wake_all woken
      else
        on_stream stream_id (fun s c =>
          let '(win, woken) := SendWindow.update increment (StreamState.send_window s) in
          (set_send_window win s, c, woken))
  | Frame.Ping ack opaque_data =>
      if (ack : bool) then
        match pings w !! opaque_data with
        | Some p =>
            _ ← st_put (set_pings (delete opaque_data (pings w)) w);
            emit [PingResolved (resolve p) (now - sent_at p)]
        | None => mret tt
        end
      else send_frame (Frame.Ping true opaque_data)
  | Frame.Goaway last_stream_id error_code _ => receive_goaway last_stream_id error_code
  | Frame.Priority _ _ => mret tt
  end.

(** [for frame in frames]: stop at the first error. *)
Fixpoint dispatch_all (now : Z) (frames : list Frame.t) : M unit :=
  match frames with
  | [] => mret tt
  | frame :: frames => _ ← dispatch now frame; dispatch_all now frames
  end.

Definition on_bytes (now : Z) (chunk : bytes) : M unit :=
  st_catch
    (w ← st_get;
     let '(fd, r) := FrameDecoder.push chunk (frame_decoder w) in
     _ ← st_put (set_frame_decoder fd w);
     frames ← st_lift r;
     dispatch_all now frames)
    connection_error.

(** ** Requests *)

Definition header_name_allowed (n : bytes) : bool :=
  negb (is_pseudo n) && negb (bool_decide (n ∈ FORBIDDEN_HEADERS)).

(** One turn of the loop over the caller's headers. *)
Definition request_header (h : bytes * bytes) : list Header :=
  let n := to_ascii_lowercase h.1 in
  if negb (header_name_allowed n) then []
  else if bool_decide (n = str "authorization") || bool_decide (n = str "cookie") then
    [never_indexed n h.2]
  else [header n h.2].

Definition build_request_headers (init : RequestInit) : list Header :=
  let m := to_uppercase (default (str "GET") (method init)) in
  [header (str ":method") m; header (str ":scheme") (default (str "http") (scheme init))] ++
  match authority init with Some a => [header (str ":authority") a] | None => [] end ++
  [header (str ":path") (default (str "/") (path init))] ++
  (init_headers init ≫= request_header).

Definition closed_error (w : ConnState) : H2Error.t :=
  default (H2Error.new ErrorCode.InternalError "connection closed") (close_error w).

(** The checks a request makes before it may open a stream. *)
Definition check_open : M unit :=
  w ← st_get;
  if closed w then st_throw (closed_error w)
  else if goaway_received w then
    st_throw (H2Error.new ErrorCode.RefusedStream "connection is going away")
  else mret tt.

(** A turn of the waiting loop: [true] when a slot is free, [false] when the
    request was parked as waiter [k]. *)
Definition request_wait (k : nat) : M bool :=
  _ ← check_open;
  w ← st_get;
  if can_open_stream w then mret true
  else
    _ ← st_put (set_slot_waiters (slot_waiters w ++ [k]) w);
    mret false.

(** [a + b] on [u32]. *)
Definition u32_add (a b : Z) : result Z :=
  if a + b <? 4294967296 then Ok (a + b)
  else if overflow_checks then Panic else Ok (as_u32 (a + b)).

(** The synchronous part: reserve an id, record the stream, send HEADERS and
    register the body's pump. *)
Definition request_open (init : RequestInit) : M Z :=
  let has_body := negb (body_is_empty (init_body init)) in
  _ ← check_open;
  w ← st_get;
  let id := next_stream_id w in
  next ← st_lift (u32_add id 2);
  _ ← st_put (set_next_stream_id next w);
  let s := StreamState.new id (Remote.initial_window_size (remote w)) in
  let s := StreamState.mk id (StreamState.send_window s) true false (negb has_body) false in
  _ ← st_modify (fun w => set_cells (<[id := default_cells]> (cells w))
                            (set_streams (<[id := s]> (streams w)) w));
  block ← st_lift (HpackEncoder.encode (build_request_headers init));
  _ ← send_headers id block (negb has_body);
  _ ← (if has_body then st_modify (fun w => set_tasks (tasks w ++ [(id, init_body init)]) w)
       else mret tt);
  mret id.

(** A turn of [request] from the waiting loop on: [None] when parked. *)
Definition request_turn (k : nat) (init : RequestInit) : M (option Z) :=
  free ← request_wait k;
  if (free : bool) then id ← request_open init; mret (Some id) else mret None.

Inductive poll (A : Type) :=
  | Ready (a : A)
  | Pending.
Arguments Ready {A} a.
Arguments Pending {A}.

(** [head_rx.await]. *)
Definition request_head (id : Z) : M (poll Head) :=
  w ← st_get;
  match head (default default_cells (cells w !! id)) with
  | HeadPending => mret Pending
  | HeadSent (inr hd) => mret (Ready hd)
  | HeadSent (inl e) => st_throw e
  | HeadCanceled => st_throw (closed_error w)
  end.

Definition ping (k : nat) (now : Z) : M unit :=
  w ← st_get;
  if closed w then st_throw (closed_error w)
  else
    let counter := as_u32 (ping_counter w + 1) in
    let opaque := [0; 0; 0; 0] ++ u32_to_be_bytes counter in
    _ ← st_put (set_pings (<[opaque := mkPing k now]> (pings w)) (set_ping_counter counter w));
    _ ← emit (match pings w !! opaque with Some p => [PingCanceled (resolve p)] | None => [] end);
    send_frame (Frame.Ping false opaque).

Definition close : M unit :=
  w ← st_get;
  if closed w then mret tt
  else
    _ ← send_frame (Frame.Goaway (highest_promised w) 0 []);
    destroy (H2Error.new ErrorCode.NoError "connection closed by client").

(** ** The body pump *)

(** One turn of the [while] of [pump_chunk], for the task [k]: wait for both
    windows, then send what they allow.  [Ready None]: torn down; [Ready (Some
    n)]: the new offset. *)
Definition pump_turn (k : waker) (id : Z) (chunk : bytes) (offset : nat) : M (poll (option nat)) :=
  w ← st_get;
  match streams w !! id with
  | None => mret (Ready None)
  | Some s =>
      if closed w then mret (Ready None)
      else
        let conn_ready := SendWindow.is_ready (conn_send_window w) in
        let stream_ready := SendWindow.is_ready (StreamState.send_window s) in
        if negb (conn_ready && stream_ready) then
          let w := if negb conn_ready then
              set_conn_send_window (SendWindow.register_waker k (conn_send_window w)) w else w in
          let w := if negb stream_ready then
              set_streams (<[id := set_send_window
                (SendWindow.register_waker k (StreamState.send_window s)) s]> (streams w)) w
              else w in
          _ ← st_put w;
          mret Pending
        else if SendWindow.is_closed (StreamState.send_window s) then mret (Ready None)
        else
          let conn_w := SendWindow.value (conn_send_window w) in
          let stream_w := SendWindow.value (StreamState.send_window s) in
          let remaining := zlen chunk - Z.of_nat offset in
          let grant := Z.min (Z.min (Z.min remaining conn_w) stream_w)
                         (Remote.max_frame_size (remote w)) in
          if grant <=? 0 then mret (Ready (Some offset))
          else
            _ ← st_put (set_streams (<[id := set_send_window
                    (SendWindow.consume grant (StreamState.send_window s)) s]> (streams w))
                  (set_conn_send_window (SendWindow.consume grant (conn_send_window w)) w));
            let next := (offset + Z.to_nat grant)%nat in
            data ← st_lift (expect (slice offset next chunk));
            _ ← send_frame (Frame.Data id data false);
            mret (Ready (Some next))
  end.

(** [pump_chunk] from [offset]: [inl offset] when it waits for a window. *)
Fixpoint pump_chunk (fuel : nat) (k : waker) (id : Z) (chunk : bytes) (offset : nat)
    : M (nat + bool) :=
  match fuel with
  | O => st_lift OutOfFuel
  | S fuel =>
      if (offset <? length chunk)%nat then
        turn ← pump_turn k id chunk offset;
        match turn with
        | Pending => mret (inl offset)
        | Ready None => mret (inr false)
        | Ready (Some next) => pump_chunk fuel k id chunk next
        end
      else mret (inr true)
  end.

(** The end of [pump_body]: half-close a stream that is still live. *)
Definition pump_finish (id : Z) : M unit :=
  w ← st_get;
  if bool_decide (is_Some (streams w !! id)) then
    _ ← send_frame (Frame.Data id [] true);
    _ ← on_stream id (fun s c => (set_local_closed s, c, []));
    retire_if_fully_closed id
  else mret tt.

(** Where a [pump_body] stands: about to take the next chunk of the body, or in
    [pump_chunk] on [chunk] at [offset]; [rest] is what the body will still
    produce. *)
Inductive pump_state :=
  | PumpNext (rest : list bytes)
  | PumpChunk (chunk : bytes) (offset : nat) (rest : list bytes).

Definition body_chunks (body : RequestBody) : list bytes :=
  match body with
  | BodyEmpty => []
  | BodyBytes b => [b]
  | BodyStream l => l
  end.

(** [pump_chunk] inside [pump_body]: [None] when the stream or connection was
    torn down. *)
Definition pump_in (k : waker) (id : Z) (chunk : bytes) (offset : nat) (rest : list bytes)
    : M (option pump_state) :=
  r ← pump_chunk (S (length chunk)) k id chunk offset;
  mret (match r with
        | inl offset => Some (PumpChunk chunk offset rest)
        | inr true => Some (PumpNext rest)
        | inr false => None
        end).

(** A turn of [pump_body], up to its next await or the next turn of its loop:
    [None] when it has returned. *)
Definition pump_body (k : waker) (id : Z) (p : pump_state) : M (option pump_state) :=
  match p with
  | PumpNext [] => _ ← pump_finish id; mret None
  | PumpNext (chunk :: rest) =>
      if bool_decide (chunk = []) then mret (Some (PumpNext rest))
      else pump_in k id chunk 0 rest
  | PumpChunk chunk offset rest => pump_in k id chunk offset rest
  end.

(** ** The response body's calls into the connection *)

Definition set_recv (id : Z) (r : RecvState) : M unit :=
  st_modify (fun w =>
    let c := default default_cells (cells w !! id) in
    set_cells (<[id := StreamState.with_recv r c]> (cells w)) w).

(** [ResponseBody::poll_next] while the connection is alive. *)
Definition body_poll_next (id : Z) (k : waker) : M body_poll :=
  w ← st_get;
  let '(r, o) := recv_poll k (recv (default default_cells (cells w !! id))) in
  _ ← set_recv id r;
  _ ← (match o with
       | BodyChunk chunk =>
           if zlen chunk =? 0 then mret tt else replenish_recv_window id (zlen chunk)
       | _ => mret tt
       end);
  mret o.

(** [Drop for ResponseBody]. *)
Definition body_drop (id : Z) : M unit :=
  w ← st_get;
  let r := recv (default default_cells (cells w !! id)) in
  let remaining := buffered r in
  let still_open := negb (ended r) in
  _ ← (if 0 <? remaining then replenish_recv_window id remaining else mret tt);
  if still_open then reset_stream id ErrorCode.Cancel else mret tt.

(** ** Connecting *)

Definition new_state (options : ConnectOptions) : ConnState :=
  mkConn true (HpackDecoder.new (default 4096 (opt_header_table_size options)))
    (FrameDecoder.new (default DEFAULT_MAX_FRAME_SIZE (opt_max_frame_size options)))
    ∅ 1 (SendWindow.new SPEC_INITIAL_WINDOW) Remote.default None ∅ 0 [] false None false 0
    ∅ [] [] [].

(** What [connect] queues at once: preface, SETTINGS, connection window. *)
Definition connect_writes (options : ConnectOptions) : M unit :=
  let local_max_frame_size := default DEFAULT_MAX_FRAME_SIZE (opt_max_frame_size options) in
  let local_initial_window := default (1024 * 1024) (opt_initial_window_size options) in
  let conn_recv_window := default (64 * 1024 * 1024) (opt_connection_window_size options) in
  let table_size := default 4096 (opt_header_table_size options) in
  let push := default true (opt_enable_push options) in
  _ ← write_raw CONNECTION_PREFACE None;
  _ ← send_frame (Frame.Settings false (mkSettings (Some (as_u32 table_size)) (Some push) None
        (Some local_initial_window) (Some (as_u32 local_max_frame_size)) None));
  let grow := conn_recv_window - SPEC_INITIAL_WINDOW in
  if 0 <? grow then send_frame (Frame.WindowUpdate 0 (as_u32 grow)) else mret tt.

Definition connect (options : ConnectOptions) : ConnState :=
  fst (connect_writes options (new_state options)).

(** ** The driver's steps *)

(** A chunk from the transport; the loop goes on while the connection is open. *)
Definition read_chunk (now : Z) (chunk : bytes) : M unit :=
  if negb (bool_decide (chunk = [])) then on_bytes now chunk else mret tt.

Definition read_end : M unit :=
  destroy (H2Error.new ErrorCode.NoError "transport closed by peer").

Definition write_failed : M unit :=
  destroy (H2Error.new ErrorCode.InternalError "transport write failed").

End connection.

Arguments Ready {A} a.
Arguments Pending {A}.
