(* ===== verification/ConnectionFacts.v ===== *)
(** * ConnectionFacts: reasoning about the connection's methods

    [ensures R m]: whatever [m] returns, it relates the state before and after by
    [R].  The relation [quiet] is that of the methods that neither touch flow
    control nor send body bytes; most of the engine is quiet, and the hint
    database [quiet] proves it method by method. *)

From S2P Require Import Prelude Errors Bytes Utf8 Frames FramesFacts Hpack Flow Stream Connection.

(** ** Methods as relations *)

Definition ensures_at {S E A} (R : S -> S -> Prop) (m : ST S E A) (s : S) : Prop := R s (fst (m s)).
Definition ensures {S E A} (R : S -> S -> Prop) (m : ST S E A) : Prop := forall s, ensures_at R m s.

Section ensures.
Context {S E : Type} (R : S -> S -> Prop) `{!PreOrder R}.

Lemma ensures_ret {A} (a : A) : ensures (E:=E) R (mret a).
Proof using PreOrder0. intros s. change (R s s). reflexivity. Qed.
Lemma ensures_lift {A} (o : outcome E A) : ensures R (st_lift o).
Proof using PreOrder0. intros s. change (R s s). reflexivity. Qed.
Lemma ensures_throw {A} (e : E) : ensures (A:=A) R (st_throw e).
Proof using PreOrder0. intros s. change (R s s). reflexivity. Qed.
Lemma ensures_panic {A} : ensures (E:=E) (A:=A) R st_panic.
Proof using PreOrder0. intros s. change (R s s). reflexivity. Qed.
Lemma ensures_get : ensures (E:=E) R st_get.
Proof using PreOrder0. intros s. change (R s s). reflexivity. Qed.
Lemma ensures_modify (f : S -> S) : (forall s, R s (f s)) -> ensures (E:=E) R (st_modify f).
Proof using Type. intros H s. apply H. Qed.

Lemma ensures_at_bind {A B} (m : ST S E A) (f : A -> ST S E B) s :
  ensures_at R m s -> (forall a s', m s = (s', Ok a) -> ensures_at R (f a) s') ->
  ensures_at R (m ≫= f) s.
Proof using PreOrder0.
  unfold ensures_at. intros Hm Hf. rewrite st_bind_run.
  destruct (m s) as [s' [a|e| |]]; simpl in *; try done.
  etransitivity; [exact Hm|]. by apply Hf.
Qed.

Lemma ensures_bind {A B} (m : ST S E A) (f : A -> ST S E B) :
  ensures R m -> (forall a, ensures R (f a)) -> ensures R (m ≫= f).
Proof using PreOrder0. intros Hm Hf s. apply ensures_at_bind; [apply Hm|]. intros. apply Hf. Qed.

(** Reading the state first: the rest may use that it is the current one. *)
Lemma ensures_get_bind {B} (f : S -> ST S E B) :
  (forall s, ensures_at R (f s) s) -> ensures R (st_get ≫= f).
Proof using Type. intros Hf s. apply Hf. Qed.

Lemma ensures_at_put_bind {B} (f : unit -> ST S E B) s s' :
  R s s' -> ensures R (f tt) -> ensures_at R (st_put s' ≫= f) s.
Proof using PreOrder0. intros Hs Hf. unfold ensures_at. rewrite st_put_bind. etransitivity; [done|apply Hf]. Qed.

Lemma ensures_at_lift_bind {A B} (o : outcome E A) (f : A -> ST S E B) s :
  (forall a, o = Ok a -> ensures_at R (f a) s) -> ensures_at R (st_lift o ≫= f) s.
Proof using PreOrder0.
  intros Hf. unfold ensures_at. rewrite st_lift_bind.
  destruct o as [a|e| |]; [by apply Hf|change (R s s); reflexivity..].
Qed.

Lemma ensures_at_of {A} (m : ST S E A) s : ensures R m -> ensures_at R m s.
Proof using Type. auto. Qed.

Lemma ensures_iter {A} (f : A -> ST S E unit) l : (forall x, ensures R (f x)) -> ensures R (st_iter f l).
Proof using PreOrder0.
  intros Hf. induction l as [|x l IH]; simpl; [apply ensures_ret|].
  apply ensures_bind; [apply Hf|]. intros _. exact IH.
Qed.

Lemma ensures_catch {A} (m : ST S E A) h :
  ensures R m -> (forall e, ensures R (h e)) -> ensures R (st_catch m h).
Proof using PreOrder0.
  intros Hm Hh s. unfold ensures_at, st_catch. pose proof (Hm s) as H. unfold ensures_at in H.
  destruct (m s) as [s' [a|e| |]]; simpl in *; try done. etransitivity; [done|apply Hh].
Qed.
End ensures.

(** Preserving an invariant, as a relation. *)
Definition keeps {S} (I : S -> Prop) (s s' : S) : Prop := I s -> I s'.

#[export] Instance keeps_preorder {S} (I : S -> Prop) : PreOrder (keeps I).
Proof. split; unfold keeps; [intros s; auto|intros a b c; auto]. Qed.

(** ** Body bytes sent *)

(** The length of the DATA payloads on stream [id] ([None]: on any stream). *)
Definition data_len (id : option Z) (f : option Frame.t) : Z :=
  match f with
  | Some (Frame.Data i d _) =>
      match id with Some id => if i =? id then zlen d else 0 | None => zlen d end
  | _ => 0
  end.

Fixpoint data_sum (id : option Z) (l : list OutItem) : Z :=
  match l with [] => 0 | o :: l => data_len id (out_frame o) + data_sum id l end.

Definition data_sent (id : option Z) (w : ConnState) : Z := data_sum id (sent w).

Lemma data_sum_app id l1 l2 : data_sum id (l1 ++ l2) = data_sum id l1 + data_sum id l2.
Proof. induction l1; simpl; lia. Qed.

(** A frame without body bytes. *)
Definition no_data (f : Frame.t) : Prop := forall id, data_len id (Some f) = 0.

(** ** Quiet methods *)

(** Flow control is as it was: the windows of the connection and of the streams
    that remain, the peer's settings, the next stream id and the body bytes sent;
    streams may only go away. *)
Record quiet (w w' : ConnState) : Prop := {
  quiet_conn : SendWindow.value (conn_send_window w') = SendWindow.value (conn_send_window w);
  quiet_remote : remote w' = remote w;
  quiet_next : next_stream_id w' = next_stream_id w;
  quiet_data : forall id, data_sent id w' = data_sent id w;
  quiet_frames : frame_decoder w' = frame_decoder w;
  quiet_streams : forall id s', streams w' !! id = Some s' ->
    exists s, streams w !! id = Some s /\
      SendWindow.value (StreamState.send_window s') = SendWindow.value (StreamState.send_window s);
}.

#[export] Instance quiet_preorder : PreOrder quiet.
Proof.
  split.
  - intros w. constructor; try done. intros id s H. eauto.
  - intros w1 w2 w3 [A1 B1 C1 D1 E1 F1] [A2 B2 C2 D2 E2 F2].
    constructor; [congruence..| | |].
    + intros id. by rewrite D2.
    + congruence.
    + intros id s3 H3. destruct (F2 id s3 H3) as (s2 & H2 & V2).
      destruct (F1 id s2 H2) as (s1 & H1 & V1). exists s1. split; [done|congruence].
Qed.

(** A change to the other fields only. *)
Lemma quiet_same w w' :
  SendWindow.value (conn_send_window w') = SendWindow.value (conn_send_window w) ->
  remote w' = remote w -> next_stream_id w' = next_stream_id w -> sent w' = sent w ->
  frame_decoder w' = frame_decoder w -> streams w' = streams w -> quiet w w'.
Proof.
  intros A B C D E F. constructor; try done.
  - intros id. unfold data_sent. by rewrite D.
  - intros id s H. rewrite F in H. eauto.
Qed.

Create HintDb quiet.
Ltac quiet_same := apply quiet_same; reflexivity.
#[export] Hint Extern 1 (quiet _ _) => quiet_same : quiet.
#[export] Hint Extern 1 (ensures _ (mret _)) => apply ensures_ret; exact _ : quiet.
#[export] Hint Extern 1 (ensures _ (st_lift _)) => apply ensures_lift; exact _ : quiet.
#[export] Hint Extern 1 (ensures _ (st_throw _)) => apply ensures_throw; exact _ : quiet.
#[export] Hint Extern 1 (ensures _ st_panic) => apply ensures_panic; exact _ : quiet.
#[export] Hint Extern 1 (ensures _ st_get) => apply ensures_get; exact _ : quiet.

(** Compose binds, for any relation; a state is used at the point it is read. *)
Ltac ensures_step :=
  match goal with
  | |- ensures ?R (st_get ≫= _) => apply ensures_get_bind; intros ?
  | |- ensures ?R (_ ≫= _) => apply ensures_bind; [exact _| |intros ?]
  | |- ensures_at ?R (st_put _ ≫= _) _ => apply ensures_at_put_bind; [exact _| |]
  | |- ensures_at ?R (st_lift _ ≫= _) _ => apply ensures_at_lift_bind; [exact _|intros ? ?]
  | |- ensures_at ?R (st_get ≫= ?f) ?s => change (ensures_at R (f s) s)
  | |- ensures_at ?R (_ ≫= _) _ =>
      apply ensures_at_bind; [exact _| |intros ? ? _; apply ensures_at_of]
  | |- ensures_at ?R (st_put _) _ => unfold ensures_at; simpl
  | |- ensures_at ?R (if ?b then _ else _) _ => destruct b eqn:?
  | |- ensures_at ?R (match ?x with _ => _ end) _ => destruct x eqn:?
  | |- ensures_at ?R _ _ => apply ensures_at_of
  | |- ensures ?R (st_iter _ _) => apply ensures_iter; [exact _|intros ?]
  | |- ensures ?R (if ?b then _ else _) => destruct b
  | |- ensures ?R (match ?x with _ => _ end) => destruct x eqn:?
  end.

Section quiet_methods.
Context {arch : Arch}.

Lemma emit_quiet l : ensures quiet (emit l).
Proof using Type. apply ensures_modify. intros w. quiet_same. Qed.
Lemma wake_all_quiet l : ensures quiet (wake_all l).
Proof using Type. apply emit_quiet. Qed.
Hint Resolve emit_quiet wake_all_quiet : quiet.

Lemma write_raw_quiet b o : (forall id, data_len id o = 0) -> ensures quiet (write_raw b o).
Proof using Type.
  intros Ho. apply ensures_modify. intros w. destruct (closed w); [reflexivity|].
  simpl. destruct (out_tx w); [|reflexivity].
  constructor; try done.
  - intros id. unfold data_sent. simpl. rewrite data_sum_app. simpl. rewrite Ho. lia.
  - intros id s H. eauto.
Qed.

Lemma send_frame_quiet f : no_data f -> ensures quiet (send_frame f).
Proof using Type.
  intros Hf. unfold send_frame. apply ensures_bind; [exact _|auto with quiet|].
  intros b. by apply write_raw_quiet.
Qed.

(** Stream methods that keep the value of the stream's window. *)
Definition keeps_window (f : StreamState.t -> Cells -> StreamState.t * Cells * list waker) : Prop :=
  forall s c, SendWindow.value (StreamState.send_window (f s c).1.1) =
              SendWindow.value (StreamState.send_window s).

Lemma on_stream_quiet id f : keeps_window f -> ensures quiet (on_stream id f).
Proof using Type.
  intros Hf. unfold on_stream. apply ensures_get_bind. intros w.
  destruct (streams w !! id) as [s|] eqn:Hs; [|apply ensures_at_of; auto with quiet].
  specialize (Hf s (default default_cells (cells w !! id))).
  destruct (f s _) as [[s1 c1] k] eqn:Hfs. simpl in Hf.
  apply ensures_at_put_bind; [exact _| |apply wake_all_quiet].
  constructor; try done. simpl. intros i s' Hi. destruct (decide (i = id)) as [->|].
  - rewrite lookup_insert_eq in Hi. injection Hi as <-. eauto.
  - rewrite lookup_insert_ne in Hi by done. eauto.
Qed.

Lemma take_stream_quiet id f : ensures quiet (take_stream id f).
Proof using Type.
  unfold take_stream. apply ensures_get_bind. intros w.
  destruct (streams w !! id) as [s|] eqn:Hs; [|apply ensures_at_of; auto with quiet].
  destruct (f s _) as [[s1 c1] k].
  apply ensures_at_put_bind; [exact _| |apply wake_all_quiet].
  constructor; try done. simpl. intros i s' Hi. apply lookup_delete_Some in Hi as [_ Hi]. eauto.
Qed.
Hint Resolve on_stream_quiet take_stream_quiet send_frame_quiet : quiet.
Hint Extern 1 (no_data _) => (intros ?; reflexivity) : quiet.
Hint Extern 1 (keeps_window _) => (intros ? ?; reflexivity) : quiet.

Ltac quiet_auto := repeat ensures_step; try quiet_same; auto with quiet.

Lemma wake_slot_waiters_quiet : ensures quiet wake_slot_waiters.
Proof using Type. unfold wake_slot_waiters. quiet_auto. Qed.
Hint Resolve wake_slot_waiters_quiet : quiet.

Lemma retire_quiet id : ensures quiet (retire_if_fully_closed id).
Proof using Type. unfold retire_if_fully_closed. quiet_auto. Qed.
Hint Resolve retire_quiet : quiet.

Lemma reset_stream_quiet id c : ensures quiet (reset_stream id c).
Proof using Type. unfold reset_stream. quiet_auto. Qed.
Hint Resolve reset_stream_quiet : quiet.

Lemma replenish_quiet id n : ensures quiet (replenish_recv_window id n).
Proof using Type. unfold replenish_recv_window. quiet_auto. Qed.
Hint Resolve replenish_quiet : quiet.

Lemma destroy_quiet e : ensures quiet (destroy e).
Proof using Type.
  unfold destroy. quiet_auto.
  - injection Heqp as <- <-. quiet_same.
  - apply ensures_modify. intros w. quiet_same.
Qed.
Hint Resolve destroy_quiet : quiet.

Lemma connection_error_quiet e : ensures quiet (connection_error e).
Proof using Type. unfold connection_error. quiet_auto. Qed.
Hint Resolve connection_error_quiet : quiet.

Lemma guard_quiet : ensures quiet guard_header_block_size.
Proof using Type. unfold guard_header_block_size. quiet_auto. Qed.
Hint Resolve guard_quiet : quiet.

Lemma receive_headers_window fields es s c :
  StreamState.send_window (StreamState.receive_headers fields es s c).1.1 =
  StreamState.send_window s.
Proof using Type.
  unfold StreamState.receive_headers, StreamState.send_head.
  destruct (negb _); [destruct (_ && _)|]; try done;
    destruct es; try done; by destruct (StreamState.end_body _).
Qed.

Lemma receive_headers_keeps fields es (b : bool) :
  keeps_window (fun s c =>
    let '(s, c, woken) := StreamState.receive_headers fields es s c in
    (if b then set_remote_closed s else s, c, woken)).
Proof using Type.
  intros s c. pose proof (receive_headers_window fields es s c) as H.
  destruct (StreamState.receive_headers fields es s c) as [[s' c'] k]. simpl in *.
  destruct b; simpl; by rewrite H.
Qed.

Lemma receive_data_keeps d es (b : bool) :
  keeps_window (fun s c =>
    let '(c, woken) := StreamState.receive_data d es c in
    (if b then set_remote_closed s else s, c, woken)).
Proof using Type. intros s c. destruct (StreamState.receive_data d es c). by destruct b. Qed.
Hint Resolve receive_headers_keeps receive_data_keeps : quiet.

Lemma complete_quiet : ensures quiet complete_header_block.
Proof using Type.
  unfold complete_header_block. quiet_auto.
  apply ensures_modify. intros w. destruct (_ <? _); quiet_same.
Qed.
Hint Resolve complete_quiet : quiet.

Lemma open_header_block_quiet pb eh : ensures quiet (open_header_block pb eh).
Proof using Type.
  unfold open_header_block. quiet_auto. apply ensures_modify. intros w. quiet_same.
Qed.
Hint Resolve open_header_block_quiet : quiet.

Lemma set_recv_quiet id r : ensures quiet (set_recv id r).
Proof using Type. apply ensures_modify. intros w. quiet_same. Qed.
Hint Resolve set_recv_quiet : quiet.

Lemma ping_quiet k now : ensures quiet (ping k now).
Proof using Type. unfold ping. quiet_auto. Qed.

Lemma close_quiet : ensures quiet close.
Proof using Type. unfold close. quiet_auto. Qed.

Lemma body_poll_quiet id k : ensures quiet (body_poll_next id k).
Proof using Type. unfold body_poll_next. quiet_auto. Qed.

Lemma body_drop_quiet id : ensures quiet (body_drop id).
Proof using Type. unfold body_drop. quiet_auto. Qed.

Lemma end_stream_data_quiet id : no_data (Frame.Data id [] true).
Proof using Type. intros [i|]; simpl; [by destruct (_ =? _)|done]. Qed.
Hint Resolve end_stream_data_quiet : quiet.

Lemma pump_finish_quiet id : ensures quiet (pump_finish id).
Proof using Type. unfold pump_finish. quiet_auto. Qed.

Lemma check_open_quiet : ensures quiet check_open.
Proof using Type. unfold check_open. quiet_auto. Qed.
Hint Resolve check_open_quiet : quiet.

Lemma request_wait_quiet k : ensures quiet (request_wait k).
Proof using Type. unfold request_wait. quiet_auto. Qed.
Hint Resolve request_wait_quiet : quiet.

Lemma send_continuations_quiet fuel id max block off :
  ensures quiet (send_continuations fuel id max block off).
Proof using Type.
  revert off. induction fuel as [|fuel IH]; intros off; cbn [send_continuations]; quiet_auto.
Qed.
Hint Resolve send_continuations_quiet : quiet.

Lemma send_headers_quiet id block es : ensures quiet (send_headers id block es).
Proof using Type. unfold send_headers. quiet_auto. Qed.
Hint Resolve send_headers_quiet : quiet.
End quiet_methods.

#[export] Hint Resolve @emit_quiet @wake_all_quiet @on_stream_quiet @take_stream_quiet
  @send_frame_quiet @wake_slot_waiters_quiet @retire_quiet @reset_stream_quiet @replenish_quiet
  @destroy_quiet @connection_error_quiet @guard_quiet @complete_quiet @open_header_block_quiet
  @receive_headers_keeps @receive_data_keeps @set_recv_quiet @ping_quiet @close_quiet
  @body_poll_quiet @body_drop_quiet @pump_finish_quiet @check_open_quiet @request_wait_quiet
  @send_headers_quiet : quiet.
#[export] Hint Extern 1 (no_data _) => (intros ?; reflexivity) : quiet.
#[export] Hint Extern 1 (keeps_window _) => (intros ? ?; reflexivity) : quiet.
Ltac quiet_auto := repeat ensures_step; try quiet_same; auto with quiet.
