(* ===== verification/FlowSafety.v ===== *)
(** * FlowSafety: the client never sends more than it was granted

    [run] is the connection as a labelled transition system: any interleaving of
    the driver's steps, requests, pump turns and body reads, from [connect] on,
    with the list of frames received.  The invariant [accounts] bounds the body
    bytes sent, on the connection and on each stream, by the credit received; that
    no frame exceeds the credit left when it is sent is in Ledger.v. *)

From S2P Require Import Prelude Errors Bytes Utf8 Frames FramesFacts Hpack Flow Stream Connection.
From S2P Require Import ConnectionFacts.

Section accounting.
Context {arch : Arch}.

(** ** Accounting *)

(** The credit a frame grants: to the connection ([None]) or to a stream. *)
Definition grant (id : option Z) (f : Frame.t) : Z :=
  match f with
  | Frame.WindowUpdate sid inc =>
      if sid =? default 0 id then inc else 0
  | _ => 0
  end.

Fixpoint granted (id : option Z) (fs : list Frame.t) : Z :=
  match fs with [] => 0 | f :: fs => grant id f + granted id fs end.

Lemma granted_app id l1 l2 : granted id (l1 ++ l2) = granted id l1 + granted id l2.
Proof using Type. induction l1; simpl; lia. Qed.

Lemma grant_nonneg id f : frame_ok f -> 0 <= grant id f.
Proof using Type.
  destruct f as [| | | | | | | |sid inc|]; simpl; try lia. unfold is_u31.
  destruct (_ =? _); lia.
Qed.

Lemma granted_nonneg id fs : Forall frame_ok fs -> 0 <= granted id fs.
Proof using Type.
  induction 1 as [|f fs Hf _ IH]; simpl; [lia|]. pose proof (grant_nonneg id f Hf). lia.
Qed.

Record accounts (fs : list Frame.t) (w : ConnState) : Prop := {
  acc_frames : Forall frame_ok fs;
  acc_decoder : decoder_ok (frame_decoder w) /\ bytes_ok (FrameDecoder.pending (frame_decoder w));
  acc_nonneg : 0 <= SendWindow.value (conn_send_window w);
  acc_conn : data_sent None w + SendWindow.value (conn_send_window w) <=
    SPEC_INITIAL_WINDOW + granted None fs;
  acc_stream id s : streams w !! id = Some s -> id < next_stream_id w /\
    data_sent (Some id) w + SendWindow.value (StreamState.send_window s) <=
      Remote.initial_window_size (remote w) + granted (Some id) fs;
  acc_fresh id : next_stream_id w <= id -> data_sent (Some id) w = 0;
}.

Lemma accounts_quiet fs w w' : quiet w w' -> accounts fs w -> accounts fs w'.
Proof using Type.
  intros [Q1 Q2 Q3 Q4 Q5 Q6] [A1 A2 A3 A4 A5 A6]. constructor.
  - done.
  - by rewrite Q5.
  - lia.
  - rewrite Q1, Q4. lia.
  - intros id s' Hs'. destruct (Q6 id s' Hs') as (s & Hs & Hv).
    rewrite Q2, Q3, Q4, Hv. by apply A5.
  - intros id Hid. rewrite Q4. apply A6. lia.
Qed.

(** More credit never hurts. *)
Lemma accounts_more fs f w : frame_ok f -> accounts fs w -> accounts (fs ++ [f]) w.
Proof using Type.
  intros Hf [A1 A2 A3 A4 A5 A6].
  assert (forall id, granted id fs <= granted id (fs ++ [f])) as Hg.
  { intros id. rewrite granted_app. simpl. pose proof (grant_nonneg id f Hf). lia. }
  constructor; try done.
  - apply Forall_app. by repeat constructor.
  - specialize (Hg None). lia.
  - intros id s Hs. destruct (A5 id s Hs). specialize (Hg (Some id)). lia.
Qed.

Lemma accounts_more_all fs fs' w : Forall frame_ok fs' -> accounts fs w -> accounts (fs ++ fs') w.
Proof using Type.
  intros Hfs'. revert fs. induction Hfs' as [|f fs' Hf _ IH]; intros fs Hw.
  - by rewrite app_nil_r.
  - change (f :: fs') with ([f] ++ fs'). rewrite app_assoc. by apply IH, accounts_more.
Qed.

Lemma accounts_at {A} fs w (m : M A) : ensures_at quiet m w -> accounts fs w -> accounts fs (fst (m w)).
Proof using Type. intros Hm. by apply accounts_quiet. Qed.

(** ** Credit received *)

(** A window operation on a stream in place: its value changes by [n]. *)
Definition moves_window (n : Z)
    (f : StreamState.t -> Cells -> StreamState.t * Cells * list waker) : Prop :=
  forall s c, SendWindow.value (StreamState.send_window (f s c).1.1) =
              SendWindow.value (StreamState.send_window s) + n.

(** Flow control after streams' windows moved by [n id]. *)
Record moved_windows (n : Z -> Z) (w w' : ConnState) : Prop := {
  mv_conn : SendWindow.value (conn_send_window w') = SendWindow.value (conn_send_window w);
  mv_remote : remote w' = remote w;
  mv_next : next_stream_id w' = next_stream_id w;
  mv_data : sent w' = sent w;
  mv_frames : frame_decoder w' = frame_decoder w;
  mv_streams : forall id s', streams w' !! id = Some s' ->
    exists s, streams w !! id = Some s /\
      SendWindow.value (StreamState.send_window s') =
      SendWindow.value (StreamState.send_window s) + n id;
  mv_dom : dom (streams w') = dom (streams w);
}.

Lemma on_stream_moves id n f w :
  moves_window n f -> moved_windows (fun i => if i =? id then n else 0) w (fst (on_stream id f w)).
Proof using Type.
  intros Hf. unfold on_stream. rewrite st_get_bind.
  destruct (streams w !! id) as [s|] eqn:Hs.
  - specialize (Hf s (default default_cells (cells w !! id))).
    destruct (f s _) as [[s1 c1] k]. simpl in Hf. unfold wake_all, emit. simpl.
    constructor; try done; simpl.
    + intros i s' Hi. destruct (Z.eqb_spec i id) as [->|Hne].
      * rewrite lookup_insert_eq in Hi. injection Hi as <-. eauto.
      * rewrite lookup_insert_ne in Hi by done. exists s'. split; [done|lia].
    + rewrite dom_insert_L. assert (id ∈ dom (streams w)) by (by apply elem_of_dom). set_solver.
  - constructor; try done. intros i s' Hi. change (streams w !! i = Some s') in Hi.
    exists s'. split; [done|]. destruct (Z.eqb_spec i id) as [->|]; [congruence|lia].
Qed.

(** Adjusting every stream of a list of distinct ids. *)
Lemma iter_moves n f ids w :
  moves_window n f -> NoDup ids ->
  moved_windows (fun i => if bool_decide (i ∈ ids) then n else 0) w
    (fst (st_iter (fun id => on_stream id f) ids w)) /\
  snd (st_iter (fun id => on_stream id f) ids w) = Ok tt.
Proof using Type.
  intros Hf. revert w. induction ids as [|id ids IH]; intros w Hnd; cbn [st_iter].
  - split; [|done]. constructor; try done. intros i s' Hi. exists s'. split; [done|]. simpl. lia.
  - apply NoDup_cons in Hnd as [Hni Hnd].
    pose proof (on_stream_moves id n f w Hf) as [A1 A2 A3 A4 A5 A6 A7].
    assert (snd (on_stream id f w) = Ok tt) as Hok.
    { unfold on_stream. rewrite st_get_bind. destruct (streams w !! id); [|done].
      by destruct (f _ _) as [[? ?] ?]. }
    rewrite st_bind_run, Hok. destruct (IH (fst (on_stream id f w)) Hnd) as [[B1 B2 B3 B4 B5 B6 B7] Hok2].
    split; [|done]. constructor; [congruence..| |congruence].
    intros i s' Hi. destruct (B6 i s' Hi) as (s1 & H1 & V1). destruct (A6 i s1 H1) as (s & H & V).
    exists s. split; [done|]. rewrite V1, V. destruct (Z.eqb_spec i id) as [->|Hne].
    + rewrite bool_decide_false by done. rewrite bool_decide_true by by left. lia.
    + rewrite (bool_decide_ext (i ∈ id :: ids) (i ∈ ids)); [lia|].
      rewrite elem_of_cons. naive_solver.
Qed.

Lemma stream_ids_spec w id : id ∈ stream_ids w <-> is_Some (streams w !! id).
Proof using Type.
  unfold stream_ids. rewrite list_elem_of_fmap. split.
  - intros ([i s] & -> & H). apply elem_of_map_to_list in H. by exists s.
  - intros [s H]. exists (id, s). split; [done|]. by apply elem_of_map_to_list.
Qed.

Lemma stream_ids_NoDup w : NoDup (stream_ids w).
Proof using Type. apply NoDup_fst_map_to_list. Qed.

(** A window update on a stream, open or not. *)
Lemma stream_update_accounts fs id inc w :
  is_u31 id -> is_u31 inc -> accounts fs w ->
  accounts (fs ++ [Frame.WindowUpdate id inc]) (fst (on_stream id (fun s c =>
    let '(win, woken) := SendWindow.update inc (StreamState.send_window s) in
    (set_send_window win s, c, woken)) w)).
Proof using Type.
  intros Hid Hinc Hw. pose proof (accounts_more fs (Frame.WindowUpdate id inc) w) as Hm.
  destruct (Hm (conj Hid Hinc) Hw) as [A1 A2 A3 A4 A5 A6]. destruct Hw as [_ _ _ _ W5 _].
  set (f := fun s c => _) in *.
  assert (moves_window inc f) as Hf.
  { intros s c. unfold f, SendWindow.update. by destruct (0 <? _). }
  destruct (on_stream_moves id inc f w Hf) as [B1 B2 B3 B4 B5 B6 B7].
  constructor; unfold data_sent in *; rewrite ?B1, ?B2, ?B3, ?B4, ?B5; try done.
  intros i s' Hi. destruct (B6 i s' Hi) as (s & Hs & Hv). destruct (W5 i s Hs) as [? Hle].
  split; [done|]. rewrite Hv, granted_app. simpl. rewrite (Z.eqb_sym id i).
  unfold is_u31 in Hinc. destruct (i =? id); lia.
Qed.

(** Applying the peer's settings: a changed initial window moves every stream
    along with it. *)
Lemma set_initial_window_accounts fs iw w f :
  moves_window (iw - Remote.initial_window_size (remote w)) f -> accounts fs w ->
  let r := remote w in
  let w1 := set_remote (Remote.mk iw (Remote.max_frame_size r) (Remote.header_table_size r)
    (Remote.enable_push r) (Remote.max_concurrent_streams r)) w in
  accounts fs (fst (st_iter (E := H2Error.t) (fun id => on_stream id f) (stream_ids w) w1)).
Proof using Type.
  intros Hf [A1 A2 A3 A4 A5 A6] r w1.
  destruct (iter_moves _ f (stream_ids w) w1 Hf (stream_ids_NoDup w))
    as [[B1 B2 B3 B4 B5 B6 B7] _].
  constructor; unfold data_sent in *; rewrite ?B1, ?B2, ?B3, ?B4, ?B5; try done.
  intros i s' Hi. destruct (B6 i s' Hi) as (s & Hs & Hv). simpl in Hs.
  destruct (A5 i s Hs) as [? Hle]. split; [done|].
  rewrite bool_decide_true in Hv by (apply stream_ids_spec; eauto). simpl. lia.
Qed.

(** The later settings do not concern the accounts. *)
Lemma accounts_remote fs g w :
  (forall r, Remote.initial_window_size (g r) = Remote.initial_window_size r) ->
  accounts fs w -> accounts fs (set_remote (g (remote w)) w).
Proof using Type.
  intros Hg [A1 A2 A3 A4 A5 A6]. constructor; try done. simpl. intros id s Hs. rewrite Hg. by apply A5.
Qed.

Lemma accounts_bind {A B} fs (m : M A) (k : A -> M B) w :
  accounts fs (fst (m w)) -> (forall a w', accounts fs w' -> accounts fs (fst (k a w'))) ->
  accounts fs (fst ((m ≫= k) w)).
Proof using Type.
  intros Hm Hk. rewrite st_bind_run. destruct (m w) as [w' [a|e| |]]; simpl in *; auto.
Qed.

Lemma modify_remote_accounts fs g w :
  (forall r, Remote.initial_window_size (g r) = Remote.initial_window_size r) ->
  accounts fs w ->
  accounts fs (fst (st_modify (E := H2Error.t) (fun w => set_remote (g (remote w)) w) w)).
Proof using Type. intros Hg Hw. by apply (accounts_remote fs g). Qed.

Lemma apply_settings_accounts fs s w :
  accounts fs w -> accounts fs (fst (apply_remote_settings s w)).
Proof using Type.
  intros Hw. unfold apply_remote_settings. repeat (apply accounts_bind; [|clear w Hw; intros _ w Hw]).
  - destruct (initial_window_size s) as [iw|]; [|done].
    destruct (_ <? iw); [done|]. rewrite st_get_bind, st_put_bind.
    apply set_initial_window_accounts; [|done]. intros st c. unfold SendWindow.adjust.
    by destruct (0 <? _).
  - destruct (max_frame_size s) as [mfs|]; [|done]. destruct (negb _); [done|].
    by apply (modify_remote_accounts fs (fun r => Remote.mk (Remote.initial_window_size r) mfs
      (Remote.header_table_size r) (Remote.enable_push r) (Remote.max_concurrent_streams r))).
  - destruct (header_table_size s) as [h|]; [|done].
    by apply (modify_remote_accounts fs (fun r => Remote.mk (Remote.initial_window_size r)
      (Remote.max_frame_size r) h (Remote.enable_push r) (Remote.max_concurrent_streams r))).
  - destruct (enable_push s) as [ep|]; [|done].
    by apply (modify_remote_accounts fs (fun r => Remote.mk (Remote.initial_window_size r)
      (Remote.max_frame_size r) (Remote.header_table_size r) ep (Remote.max_concurrent_streams r))).
  - destruct (max_concurrent_streams s) as [mcs|]; [|done].
    apply accounts_bind; [|intros _ w' Hw'; apply accounts_at; [apply ensures_at_of; auto with quiet|done]].
    by apply (modify_remote_accounts fs (fun r => Remote.mk (Remote.initial_window_size r)
      (Remote.max_frame_size r) (Remote.header_table_size r) (Remote.enable_push r) mcs)).
Qed.

Lemma conn_update_accounts fs inc w :
  is_u31 inc -> accounts fs w ->
  accounts (fs ++ [Frame.WindowUpdate 0 inc])
    (fst ((let '(win, woken) := SendWindow.update inc (conn_send_window w) in
           _ ← st_put (set_conn_send_window win w); wake_all woken) w)).
Proof using Type.
  intros Hinc Hw.
  assert (is_u31 0) as H0 by (unfold is_u31; lia).
  destruct (accounts_more fs (Frame.WindowUpdate 0 inc) w (conj H0 Hinc) Hw) as [A1 A2 A3 A4 A5 A6].
  destruct Hw as [_ _ _ W4 _ _]. unfold is_u31 in Hinc.
  pose proof (window_step_available (Update inc) (conn_send_window w)) as Hv. simpl in Hv.
  destruct (SendWindow.update inc (conn_send_window w)) as [win woken]. simpl in Hv.
  rewrite st_put_bind. apply accounts_at; [apply ensures_at_of; auto with quiet|].
  constructor; try done; simpl; [lia|].
  rewrite Hv, granted_app. simpl. unfold data_sent in *. simpl. lia.
Qed.

(** Taking in one frame. *)
Lemma dispatch_accounts now fs f w :
  frame_ok f -> accounts fs w -> accounts (fs ++ [f]) (fst (dispatch now f w)).
Proof using Type.
  intros Hf Hw. pose proof (accounts_more fs f w Hf Hw) as Hm.
  assert (forall m : M unit, ensures_at quiet m w -> accounts (fs ++ [f]) (fst (m w))) as Hq
    by (intros m Hq; by eapply accounts_at).
  unfold dispatch, receive_goaway. rewrite st_get_bind.
  destruct (_ && _); [apply Hq; quiet_auto|].
  destruct f as [id d es|id frag es eh p|id p|id code|ack st|id pid frag eh|ack d|last code dbg|
    id inc|id frag eh].
  - apply Hq. quiet_auto.
  - apply Hq. quiet_auto.
  - done.
  - apply Hq. quiet_auto.
  - destruct ack; [done|]. apply accounts_bind; [by apply apply_settings_accounts|].
    intros _ w' Hw'. apply accounts_at; [|done]. apply ensures_at_of. auto with quiet.
  - apply Hq. quiet_auto.
  - apply Hq. quiet_auto.
  - apply Hq. quiet_auto. apply ensures_modify. intros w'. quiet_same.
  - destruct Hf as [Hid Hinc]. destruct (inc =? 0).
    + apply Hq. quiet_auto.
    + destruct (Z.eqb_spec id 0) as [->|Hne]; [by apply conn_update_accounts|].
      by apply stream_update_accounts.
  - apply Hq. quiet_auto.
Qed.

Lemma dispatch_all_accounts now fs fs' w :
  Forall frame_ok fs' -> accounts fs w ->
  accounts (fs ++ fs') (fst (dispatch_all now fs' w)).
Proof using Type.
  intros Hfs'. revert fs w. induction Hfs' as [|f fs' Hf Hfs' IH]; intros fs w Hw.
  - by rewrite app_nil_r.
  - cbn [dispatch_all]. rewrite st_bind_run. pose proof (dispatch_accounts now fs f w Hf Hw) as Hd.
    change (f :: fs') with ([f] ++ fs'). rewrite app_assoc.
    destruct (dispatch now f w) as [w' [[]|e| |]]; simpl in *;
      [by apply IH|by apply accounts_more_all..].
Qed.

(** The frame decoder after any chunk. *)
Lemma push_keeps c d :
  decoder_ok d -> bytes_ok (FrameDecoder.pending d) -> bytes_ok c ->
  decoder_ok (fst (FrameDecoder.push c d)) /\
  bytes_ok (FrameDecoder.pending (fst (FrameDecoder.push c d))) /\
  match snd (FrameDecoder.push c d) with
  | Ok fs => Forall frame_ok fs
  | Err _ => True
  | Panic | OutOfFuel => False
  end.
Proof using Type.
  intros Hd Hp Hc. rewrite push_deframe by done.
  assert (bytes_ok (FrameDecoder.pending d ++ c)) as Hpc by (by apply bytes_ok_app).
  pose proof (deframe_returns (FrameDecoder.max_frame_size d) _ Hpc) as Hret.
  destruct (deframe _ _) as [[fs rest]| | |] eqn:Hdf; simpl in *; try done.
  - destruct (deframe_rest _ _ _ _ Hpc Hdf) as [Hrest [n ->]].
    split_and!; [done|by apply bytes_ok_drop|].
    eapply Forall_impl; [by eapply deframe_frames_ok|]. by intros f [? _].
  - split_and!; [done|constructor|done].
Qed.

Definition frames_in (chunk : bytes) (w : ConnState) : list Frame.t :=
  match snd (FrameDecoder.push chunk (frame_decoder w)) with Ok fs => fs | _ => [] end.

Lemma on_bytes_accounts now chunk fs w :
  bytes_ok chunk -> accounts fs w ->
  accounts (fs ++ frames_in chunk w) (fst (on_bytes now chunk w)).
Proof using Type.
  intros Hc Hw. unfold on_bytes, st_catch, frames_in. rewrite st_get_bind.
  destruct Hw as [A1 [A2 A2'] A3 A4 A5 A6].
  destruct (push_keeps chunk (frame_decoder w) A2 A2' Hc) as (Hd & Hp & Hfs).
  destruct (FrameDecoder.push chunk (frame_decoder w)) as [fd r]. simpl in *.
  rewrite st_put_bind, st_lift_bind.
  assert (accounts fs (set_frame_decoder fd w)) as Hw1 by (by constructor).
  destruct r as [frames|e| |]; [|rewrite app_nil_r|done|done].
  - pose proof (dispatch_all_accounts now fs frames _ Hfs Hw1) as H.
    destruct (dispatch_all now frames _) as [w' [[]|e| |]]; simpl in *; try done.
    apply accounts_at; [apply ensures_at_of; auto with quiet|done].
  - apply accounts_at; [apply ensures_at_of; auto with quiet|done].
Qed.

(** ** Streams opened and bytes sent *)

Lemma check_open_state w : fst (check_open w) = w.
Proof using Type.
  unfold check_open. rewrite st_get_bind. by destruct (closed w), (goaway_received w).
Qed.

(** A new stream has sent nothing and may send the peer's initial window. *)
Lemma open_stream_accounts fs w s :
  SendWindow.value (StreamState.send_window s) = Remote.initial_window_size (remote w) ->
  accounts fs w ->
  let w1 := set_next_stream_id (next_stream_id w + 2) w in
  accounts fs (set_cells (<[next_stream_id w := default_cells]> (cells w1))
    (set_streams (<[next_stream_id w := s]> (streams w1)) w1)).
Proof using Type.
  intros Hs [A1 A2 A3 A4 A5 A6] w1. constructor; try done; simpl.
  - intros id s' Hid. destruct (decide (id = next_stream_id w)) as [->|Hne].
    + rewrite lookup_insert_eq in Hid. injection Hid as <-. split; [lia|].
      unfold data_sent in *. simpl. rewrite A6 by lia.
      pose proof (granted_nonneg (Some (next_stream_id w)) fs A1). lia.
    + rewrite lookup_insert_ne in Hid by done. destruct (A5 id s' Hid). split; [lia|done].
  - intros id Hid. apply A6. lia.
Qed.

Lemma request_open_accounts up init fs w :
  next_stream_id w + 2 < 4294967296 -> accounts fs w ->
  accounts fs (fst (request_open up init w)).
Proof using Type.
  intros Hid Hw. unfold request_open. rewrite st_bind_run, check_open_state.
  destruct (snd (check_open w)); [|done..].
  rewrite st_get_bind. unfold u32_add.
  destruct (Z.ltb_spec (next_stream_id w + 2) 4294967296); [|lia].
  rewrite st_lift_Ok, st_put_bind, st_modify_bind.
  apply accounts_at; [|by apply open_stream_accounts].
  apply ensures_at_of. quiet_auto. apply ensures_modify. intros w'. quiet_same.
Qed.

Lemma request_turn_accounts up k init fs w :
  next_stream_id w + 2 < 4294967296 -> accounts fs w ->
  accounts fs (fst (request_turn up k init w)).
Proof using Type.
  intros Hid Hw. unfold request_turn. rewrite st_bind_run.
  assert (ensures_at quiet (request_wait k) w) as Hq by (apply ensures_at_of; auto with quiet).
  pose proof (accounts_at fs w _ Hq Hw) as Hw1. pose proof (quiet_next _ _ Hq) as Hn.
  destruct (request_wait k w) as [w1 [[]|e| |]]; simpl in *; try done.
  rewrite st_bind_run.
  pose proof (request_open_accounts up init fs w1 ltac:(lia) Hw1) as Hw2.
  by destruct (request_open up init w1) as [w2 [n|e| |]].
Qed.

(** Spending credit: both windows pay for the bytes of one DATA frame. *)
Lemma send_data_accounts fs w id s n data :
  streams w !! id = Some s -> 0 <= n <= SendWindow.value (conn_send_window w) ->
  zlen data = n -> accounts fs w ->
  accounts fs (fst (send_frame (Frame.Data id data false)
    (set_streams (<[id := set_send_window
        (SendWindow.consume n (StreamState.send_window s)) s]> (streams w))
      (set_conn_send_window (SendWindow.consume n (conn_send_window w)) w)))).
Proof using Type.
  intros Hs Hn Hlen [A1 A2 A3 A4 A5 A6]. unfold SendWindow.value in *.
  set (w1 := set_streams _ _).
  assert (forall l, data_sum None l <= data_sum None (sent w) + n ->
    (forall i, data_sum (Some i) l <= data_sum (Some i) (sent w) + if i =? id then n else 0) ->
    (forall i, next_stream_id w <= i -> data_sum (Some i) l = 0) ->
    accounts fs (set_sent l w1)) as Hl.
  { intros l L1 L2 L3. unfold data_sent in *.
    constructor; unfold SendWindow.value, data_sent; try done; simpl; [lia|lia|].
    intros i s' Hi. specialize (L2 i). destruct (decide (i = id)) as [->|Hne].
    - rewrite Z.eqb_refl in L2. rewrite lookup_insert_eq in Hi. injection Hi as <-. destruct (A5 id s Hs). simpl. lia.
    - rewrite (proj2 (Z.eqb_neq i id) Hne) in L2.
      rewrite lookup_insert_ne in Hi by done. destruct (A5 i s' Hi). lia. }
  destruct (A5 id s Hs) as [Hid _].
  assert (accounts fs w1) as Hw1.
  { apply (Hl (sent w)); [lia| |done]. intros i. destruct (i =? id); lia. }
  unfold send_frame. rewrite st_bind_run. simpl.
  destruct (closed w); [exact Hw1|]. simpl. destruct (out_tx w); [|exact Hw1].
  apply Hl.
  - rewrite data_sum_app. simpl. lia.
  - intros i. rewrite data_sum_app. simpl. rewrite (Z.eqb_sym id i). destruct (i =? id); lia.
  - intros i Hi. rewrite data_sum_app. simpl. unfold data_sent in A6. rewrite A6 by done.
    destruct (Z.eqb_spec id i); lia.
Qed.

Lemma set_wakers_quiet k id s w (b1 b2 : bool) :
  streams w !! id = Some s ->
  let w1 := if b1 then
    set_conn_send_window (SendWindow.register_waker k (conn_send_window w)) w else w in
  let w2 := if b2 then
    set_streams (<[id := set_send_window
      (SendWindow.register_waker k (StreamState.send_window s)) s]> (streams w1)) w1 else w1 in
  quiet w w2.
Proof using Type.
  intros Hs w1 w2.
  assert (quiet w w1) as Hq by (destruct b1; simpl; [quiet_same|reflexivity]).
  etransitivity; [exact Hq|]. unfold w2. destruct b2; [|reflexivity].
  constructor; try done. simpl. intros i s' Hi. destruct (decide (i = id)) as [->|].
  - rewrite lookup_insert_eq in Hi. injection Hi as <-. exists s.
    split; [by unfold w1; destruct b1|done].
  - rewrite lookup_insert_ne in Hi by done. eauto.
Qed.

Lemma pump_turn_accounts k id chunk offset fs w :
  accounts fs w -> accounts fs (fst (pump_turn k id chunk offset w)).
Proof using Type.
  intros Hw. unfold pump_turn. rewrite st_get_bind.
  destruct (streams w !! id) as [s|] eqn:Hs; [|done]. destruct (closed w) eqn:Hcl; [done|].
  destruct (negb _).
  { rewrite st_put_bind. eapply accounts_quiet; [|exact Hw]. by apply set_wakers_quiet. }
  destruct (SendWindow.is_closed _); [done|].
  set (n := Z.min (Z.min (Z.min _ _) _) _). destruct (Z.leb_spec n 0) as [|Hn]; [done|].
  assert (n <= zlen chunk - Z.of_nat offset /\ n <= SendWindow.value (conn_send_window w))
    as [Hrem Hcw] by (unfold n; lia).
  clearbody n. unfold zlen in Hrem. rewrite st_put_bind, st_lift_bind.
  rewrite slice_ok by lia. cbn [expect]. rewrite st_bind_run.
  set (data := take _ _).
  assert (zlen data = n) as Hlen.
  { unfold data, zlen. rewrite length_take, length_drop. lia. }
  pose proof (send_data_accounts fs w id s n data Hs ltac:(lia) Hlen Hw) as H1.
  by destruct (send_frame _ _) as [w' [?|e| |]].
Qed.
End accounting.


(** ** Runs of the connection *)

Inductive conn_op :=
  | OpRead (now : Z) (chunk : bytes)
  | OpReadEnd
  | OpWriteFailed
  | OpRequest (k : nat) (init : RequestInit)
  | OpPing (k : nat) (now : Z)
  | OpClose
  | OpPump (k : waker) (id : Z) (chunk : bytes) (offset : nat)
  | OpPumpFinish (id : Z)
  | OpBodyPoll (id : Z) (k : waker)
  | OpBodyDrop (id : Z).

Section run.
Context {arch : Arch}.
Variable to_uppercase : bytes -> bytes.

(** The state after an operation, whatever it returned. *)
Definition apply_op (op : conn_op) (w : ConnState) : ConnState :=
  match op with
  | OpRead now chunk => fst (read_chunk now chunk w)
  | OpReadEnd => fst (read_end w)
  | OpWriteFailed => fst (write_failed w)
  | OpRequest k init => fst (request_turn to_uppercase k init w)
  | OpPing k now => fst (ping k now w)
  | OpClose => fst (close w)
  | OpPump k id chunk offset => fst (pump_turn k id chunk offset w)
  | OpPumpFinish id => fst (pump_finish id w)
  | OpBodyPoll id k => fst (body_poll_next id k w)
  | OpBodyDrop id => fst (body_drop id w)
  end.

(** The frames an operation takes in. *)
Definition frames_of (op : conn_op) (w : ConnState) : list Frame.t :=
  match op with
  | OpRead _ chunk => if negb (bool_decide (chunk = [])) then frames_in chunk w else []
  | _ => []
  end.

(** The transport delivers bytes, and stream ids do not wrap around (2^31
    requests on one connection). *)
Definition op_ok (op : conn_op) (w : ConnState) : Prop :=
  match op with
  | OpRead _ chunk => bytes_ok chunk
  | OpRequest _ _ => next_stream_id w + 2 < 4294967296
  | _ => True
  end.

Inductive run (options : ConnectOptions) : list Frame.t -> ConnState -> Prop :=
  | run_connect : run options [] (connect options)
  | run_step fs w op :
      run options fs w -> op_ok op w -> run options (fs ++ frames_of op w) (apply_op op w).


Lemma apply_op_accounts op fs w :
  op_ok op w -> accounts fs w -> accounts (fs ++ frames_of op w) (apply_op op w).
Proof using Type.
  intros Hop Hw. destruct op as [now c| | |k init|k now| |k id c o|id|id k|id]; simpl;
    rewrite ?app_nil_r.
  - unfold read_chunk. destruct (negb _); [by apply on_bytes_accounts|by rewrite app_nil_r].
  - apply accounts_at; [apply ensures_at_of; unfold read_end; auto with quiet|done].
  - apply accounts_at; [apply ensures_at_of; unfold write_failed; auto with quiet|done].
  - by apply request_turn_accounts.
  - apply accounts_at; [apply ensures_at_of; auto with quiet|done].
  - apply accounts_at; [apply ensures_at_of; auto with quiet|done].
  - by apply pump_turn_accounts.
  - apply accounts_at; [apply ensures_at_of; auto with quiet|done].
  - apply accounts_at; [apply ensures_at_of; auto with quiet|done].
  - apply accounts_at; [apply ensures_at_of; auto with quiet|done].
Qed.

Lemma connect_accounts options : accounts [] (connect options).
Proof using Type.
  unfold connect. apply (accounts_quiet [] (new_state options)).
  - change (ensures_at quiet (connect_writes options) (new_state options)).
    unfold connect_writes. apply ensures_at_of. apply ensures_bind; [exact _| |intros _; quiet_auto].
    by apply write_raw_quiet.
  - constructor; simpl; try done. by split; [|constructor].
Qed.

Lemma run_accounts options fs w : run options fs w -> accounts fs w.
Proof using Type.
  induction 1 as [|fs w op Hrun IH Hop]; [apply connect_accounts|by apply apply_op_accounts].
Qed.
End run.

(** ** Theorems *)

(** In sum, for every interleaving of single operations: the body bytes sent on the
    connection never exceed the initial 65535 plus the connection credit received, what
    is left of it is never negative, and on each open stream the bytes sent plus the
    window left never exceed the peer's current initial window plus the credit received
    for that stream.  That each frame fits what is left is Ledger.v's. *)
Theorem sent_within_granted {arch : Arch} up options fs w :
  run up options fs w ->
  data_sent None w <= 65535 + granted None fs /\
  0 <= SendWindow.value (conn_send_window w) /\
  forall id s, streams w !! id = Some s ->
    data_sent (Some id) w + SendWindow.value (StreamState.send_window s) <=
      Remote.initial_window_size (remote w) + granted (Some id) fs.
Proof.
  intros Hrun. destruct (run_accounts up options fs w Hrun) as [_ _ A3 A4 A5 _].
  unfold SPEC_INITIAL_WINDOW in A4. split_and!; [lia|done|]. intros id s Hs.
  by destruct (A5 id s Hs).
Qed.

(** A request with a five-byte body, a connection WINDOW_UPDATE, a pump turn. *)
Definition sample_request : RequestInit :=
  mkInit (Some (str "POST")) (Some (str "/")) None None [] (BodyBytes (str "hello")).

Definition sample_ops : list conn_op :=
  [OpRequest 0 sample_request; OpRead 0 [0; 0; 4; 8; 0; 0; 0; 0; 0; 0; 0; 0; 9];
   OpPump 7 1 (str "hello") 0].

Lemma sent_within_granted_witness :
  exists w, run (arch := host64_debug) id default_options [Frame.WindowUpdate 0 9] w /\
    data_sent None w = 5 /\ SendWindow.value (conn_send_window w) = 65539 /\
    data_sent None w <= 65535 + granted None [Frame.WindowUpdate 0 9].
Proof.
  assert (run (arch := host64_debug) id default_options [Frame.WindowUpdate 0 9]
    (fold_left (fun w op => apply_op (arch := host64_debug) id op w) sample_ops
      (connect (arch := host64_debug) default_options))) as Hrun.
  { set (w0 := connect _).
    assert (run (arch := host64_debug) id default_options [] w0) as H0 by constructor.
    pose proof (run_step id default_options _ w0 (OpRequest 0 sample_request) H0
      ltac:(vm_compute; reflexivity)) as H1.
    pose proof (run_step id default_options _ _ (OpRead 0 [0; 0; 4; 8; 0; 0; 0; 0; 0; 0; 0; 0; 9]) H1
      ltac:(repeat constructor; done)) as H2.
    pose proof (run_step id default_options _ _ (OpPump 7 1 (str "hello") 0) H2 I) as H3.
    exact H3. }
  eexists. split; [exact Hrun|]. split; [vm_compute; reflexivity|].
  split; [vm_compute; reflexivity|].
  exact (proj1 (sent_within_granted id default_options _ _ Hrun)).
Defined.
