(* ===== verification/Lifecycle.v ===== *)
(** * Lifecycle: teardown, and what stays true while the connection lives

    [destroy_run] computes the state after [destroy] and whom it wakes; [silent] says that a closed
    connection stays closed and queues nothing more; [conn_ok] is the invariant
    of every reachable state. *)

From S2P Require Import Prelude Errors Bytes Utf8 Frames FramesFacts Hpack Flow Stream.
From S2P Require Import StreamFacts Connection ConnectionFacts FlowSafety.

(** ** Taking streams out of the map *)

Section take.
Context {arch : Arch}.

Definition without (ids : list Z) (m : gmap Z StreamState.t) : gmap Z StreamState.t :=
  filter (fun x => x.1 ∉ ids) m.

Lemma without_lookup ids m id :
  without ids m !! id = if bool_decide (id ∈ ids) then None else m !! id.
Proof using Type.
  unfold without. destruct (decide (id ∈ ids)).
  - rewrite bool_decide_true by done. apply map_lookup_filter_None_2. right. naive_solver.
  - rewrite bool_decide_false by done. destruct (m !! id) as [s|] eqn:Hs.
    + by apply map_lookup_filter_Some_2.
    + apply map_lookup_filter_None_2. by left.
Qed.

Lemma without_cons id ids m : without ids (delete id m) = without (id :: ids) m.
Proof using Type.
  apply map_eq. intros i. rewrite !without_lookup. destruct (decide (i = id)) as [->|Hne].
  - rewrite lookup_delete_eq. rewrite (bool_decide_true (id ∈ id :: ids)) by by left.
    by destruct (bool_decide _).
  - rewrite lookup_delete_ne by done. rewrite (bool_decide_ext (i ∈ id :: ids) (i ∈ ids)); [done|].
    rewrite elem_of_cons. naive_solver.
Qed.

(** The cells a failed stream leaves behind. *)
Definition taken (f : StreamState.t -> Cells -> StreamState.t * Cells * list waker)
    (s : StreamState.t) (c : Cells) : Cells :=
  let '(s, c, _) := f s c in StreamState.drop s c.

(** [fail] wakes who waits for the stream's window or for its body. *)
Lemma fail_wakes e s c :
  (StreamState.fail e s c).2 =
    SendWindow.wakers (StreamState.send_window s) ++ option_list (recv_waker (recv c)).
Proof using Type.
  unfold StreamState.fail, SendWindow.close, SendWindow.wake, StreamState.send_head, take_waker. simpl.
  destruct (negb _); simpl; [|done]. by destruct (StreamState.head_tx s).
Qed.

Lemma take_stream_run id f w :
  exists cs ev, take_stream id f w =
      (set_events (events w ++ ev) (set_cells cs (set_streams (delete id (streams w)) w)), Ok tt) /\
    (forall i, i <> id -> cs !! i = cells w !! i) /\
    (forall s, streams w !! id = Some s ->
       cs !! id = Some (taken f s (default default_cells (cells w !! id)))) /\
    (streams w !! id = None -> cs = cells w) /\
    (forall s k, streams w !! id = Some s ->
       k ∈ (f s (default default_cells (cells w !! id))).2 -> Woken k ∈ ev).
Proof using Type.
  unfold take_stream, taken. rewrite st_get_bind. destruct (streams w !! id) as [s|] eqn:Hs.
  - destruct (f s _) as [[s1 c1] k] eqn:Hf. rewrite st_put_bind.
    eexists (<[id := StreamState.drop s1 c1]> (cells w)), (Woken <$> k).
    split; [reflexivity|]. split_and!.
    + intros i Hi. by rewrite lookup_insert_ne.
    + intros s' [= <-]. by rewrite lookup_insert_eq, Hf.
    + done.
    + intros s' k' [= <-] Hk. rewrite Hf in Hk. apply list_elem_of_fmap. by exists k'.
  - exists (cells w), []. split; [|done]. rewrite app_nil_r, delete_id by done. by destruct w.
Qed.

Lemma iter_take f ids w :
  NoDup ids ->
  exists cs ev, st_iter (fun id => take_stream id f) ids w =
      (set_events (events w ++ ev) (set_cells cs (set_streams (without ids (streams w)) w)), Ok tt) /\
    (forall i, i ∉ ids -> cs !! i = cells w !! i) /\
    (forall i s, i ∈ ids -> streams w !! i = Some s ->
       cs !! i = Some (taken f s (default default_cells (cells w !! i))) /\
       forall k, k ∈ (f s (default default_cells (cells w !! i))).2 -> Woken k ∈ ev).
Proof using Type.
  revert w. induction ids as [|id ids IH]; intros w Hnd; cbn [st_iter].
  - exists (cells w), []. rewrite app_nil_r. split_and!; [|done|set_solver].
    assert (without [] (streams w) = streams w) as ->.
    { apply map_eq. intros i. rewrite without_lookup. by rewrite bool_decide_false by set_solver. }
    by destruct w.
  - apply NoDup_cons in Hnd as [Hni Hnd].
    destruct (take_stream_run id f w) as (cs1 & ev1 & H1 & Hc1 & Hs1 & Hn1 & Hw1).
    rewrite (st_bind_Ok _ _ _ _ _ H1). set (w1 := set_events _ _).
    destruct (IH w1 Hnd) as (cs & ev & H2 & Hc2 & Hs2). exists cs, (ev1 ++ ev).
    rewrite H2. change (streams w1) with (delete id (streams w)) in *.
    rewrite without_cons, app_assoc. split_and!; [reflexivity| |].
    + intros i Hi. apply not_elem_of_cons in Hi as [Hne Hi]. rewrite Hc2 by done. simpl. by apply Hc1.
    + intros i s Hi Hs. destruct (decide (i = id)) as [->|Hne].
      * rewrite Hc2 by done. split; [by apply Hs1|]. intros k Hk. apply elem_of_app. left. by eapply Hw1.
      * apply elem_of_cons in Hi as [Hi|Hi]; [done|].
        destruct (Hs2 i s Hi) as [H3 H4]; simpl in *; [by rewrite lookup_delete_ne|].
        rewrite Hc1 in H3, H4 by done. split; [done|]. intros k Hk. apply elem_of_app. right. by apply H4.
Qed.

Lemma without_all w : without (stream_ids w) (streams w) = ∅.
Proof using Type.
  apply map_eq. intros i. rewrite without_lookup, lookup_empty.
  destruct (streams w !! i) as [s|] eqn:Hs; [|by destruct (bool_decide _)].
  rewrite bool_decide_true; [done|]. apply stream_ids_spec. eauto.
Qed.

(** ** [destroy] *)

(** The state [destroy] leaves: every stream out, every waiter resolved. *)
Definition destroyed (e : H2Error.t) (cs : gmap Z Cells) (ev : list event) (w : ConnState)
    : ConnState :=
  set_out_tx false (set_events (events w ++ ev) (set_slot_waiters [] (set_pings ∅
    (set_cells cs (set_streams ∅ (set_conn_send_window (fst (SendWindow.close (conn_send_window w)))
      (set_close_error (Some e) (set_closed true w)))))))).

Lemma destroy_run e w :
  closed w = false ->
  exists cs ev, destroy e w = (destroyed e cs ev w, Ok tt) /\
    (forall i, streams w !! i = None -> cs !! i = cells w !! i) /\
    (forall i s, streams w !! i = Some s ->
       cs !! i = Some (taken (StreamState.fail e) s (default default_cells (cells w !! i)))) /\
    (forall i s k, streams w !! i = Some s ->
       k ∈ SendWindow.wakers (StreamState.send_window s) \/
       recv_waker (recv (default default_cells (cells w !! i))) = Some k -> Woken k ∈ ev) /\
    (forall k, k ∈ slot_waiters w -> SlotFreed k ∈ ev) /\
    (forall x p, pings w !! x = Some p -> PingFailed (resolve p) e ∈ ev) /\
    (forall k, k ∈ SendWindow.wakers (conn_send_window w) -> Woken k ∈ ev).
Proof using Type.
  intros Hcl. unfold destroy. rewrite st_get_bind, Hcl.
  destruct (SendWindow.close (conn_send_window w)) as [win woken] eqn:Hw.
  unfold SendWindow.close, SendWindow.wake in Hw. simpl in Hw. injection Hw as <- <-.
  rewrite st_put_bind. unfold wake_all, emit. rewrite st_modify_bind. cbv beta.
  set (w1 := set_events _ _).
  destruct (iter_take (StreamState.fail e) (stream_ids w) w1 (stream_ids_NoDup w))
    as (cs & ev & H1 & Hc & Hs).
  rewrite (st_bind_Ok _ _ _ _ _ H1). set (w2 := set_events _ _).
  rewrite st_get_bind, st_put_bind, st_modify_bind. unfold wake_slot_waiters.
  rewrite st_bind_run, st_get_bind, st_put_bind. cbv beta. unfold emit.
  exists cs, ((Woken <$> SendWindow.wakers (conn_send_window w)) ++ ev ++
    ((fun p => PingFailed (resolve p.2) e) <$> map_to_list (pings w)) ++
    (SlotFreed <$> slot_waiters w)).
  split_and!.
  - unfold st_modify, destroyed. simpl. unfold w2, w1. simpl.
    rewrite without_all. by rewrite !app_assoc.
  - intros i Hi. apply Hc. intros Hin. apply stream_ids_spec in Hin as [? Hin]. congruence.
  - intros i s Hi. apply (Hs i s); [apply stream_ids_spec; eauto|done].
  - intros i s k Hi Hk. rewrite !elem_of_app. right. left.
    apply (Hs i s); [apply stream_ids_spec; eauto|done|]. change (cells w1) with (cells w).
    rewrite fail_wakes, elem_of_app. destruct Hk as [Hk|Hk]; [by left|right]. rewrite Hk. by left.
  - intros k Hk. rewrite !elem_of_app. right. right. right. apply list_elem_of_fmap. eauto.
  - intros x p Hp. rewrite !elem_of_app. right. right. left. apply list_elem_of_fmap.
    exists (x, p). split; [done|]. by apply elem_of_map_to_list.
  - intros k Hk. rewrite !elem_of_app. left. apply list_elem_of_fmap.
    eauto.
Qed.
End take.

(** ** A closed connection is silent *)

Definition silent (w w' : ConnState) : Prop :=
  closed w = true -> closed w' = true /\ sent w' = sent w.

#[export] Instance silent_preorder : PreOrder silent.
Proof.
  split; unfold silent.
  - done.
  - intros w1 w2 w3 H12 H23 H1. destruct (H12 H1) as [H2 E2]. destruct (H23 H2) as [H3 E3].
    split; [done|congruence].
Qed.

Create HintDb silent.
#[export] Hint Extern 1 (silent _ _) => (intros ?; split; [assumption|reflexivity]) : silent.
#[export] Hint Extern 1 (ensures _ (mret _)) => apply ensures_ret; exact _ : silent.
#[export] Hint Extern 1 (ensures _ (st_lift _)) => apply ensures_lift; exact _ : silent.
#[export] Hint Extern 1 (ensures _ (st_throw _)) => apply ensures_throw; exact _ : silent.
#[export] Hint Extern 1 (ensures _ st_panic) => apply ensures_panic; exact _ : silent.
#[export] Hint Extern 1 (ensures _ st_get) => apply ensures_get; exact _ : silent.
#[export] Hint Extern 1 (ensures _ (st_modify _)) => (apply ensures_modify; intros ?) : silent.

Section silent_methods.
Context {arch : Arch}.

Ltac silent_auto := repeat ensures_step; auto with silent.

Lemma emit_silent l : ensures silent (emit l).
Proof using Type. apply ensures_modify. intros w. auto with silent. Qed.
Hint Resolve emit_silent : silent.

Lemma wake_all_silent l : ensures silent (wake_all l).
Proof using Type. apply emit_silent. Qed.

Lemma write_raw_silent b o : ensures silent (write_raw b o).
Proof using Type. apply ensures_modify. intros w Hc. by rewrite Hc. Qed.
Hint Resolve wake_all_silent write_raw_silent : silent.

Lemma send_frame_silent f : ensures silent (send_frame f).
Proof using Type. unfold send_frame. silent_auto. Qed.
Hint Resolve send_frame_silent : silent.

Lemma on_stream_silent id f : ensures silent (on_stream id f).
Proof using Type. unfold on_stream. silent_auto. Qed.
Lemma take_stream_silent id f : ensures silent (take_stream id f).
Proof using Type. unfold take_stream. silent_auto. Qed.
Lemma wake_slot_waiters_silent : ensures silent wake_slot_waiters.
Proof using Type. unfold wake_slot_waiters. silent_auto. Qed.
Hint Resolve on_stream_silent take_stream_silent wake_slot_waiters_silent : silent.

Lemma retire_silent id : ensures silent (retire_if_fully_closed id).
Proof using Type. unfold retire_if_fully_closed. silent_auto. Qed.
Lemma reset_stream_silent id c : ensures silent (reset_stream id c).
Proof using Type. unfold reset_stream. silent_auto. Qed.
Lemma replenish_silent id n : ensures silent (replenish_recv_window id n).
Proof using Type. unfold replenish_recv_window. silent_auto. Qed.
Lemma guard_silent : ensures silent guard_header_block_size.
Proof using Type. unfold guard_header_block_size. silent_auto. Qed.
Hint Resolve retire_silent reset_stream_silent replenish_silent guard_silent : silent.

Lemma destroy_silent e : ensures silent (destroy e).
Proof using Type.
  intros w Hc. unfold destroy. rewrite st_get_bind, Hc. by split.
Qed.
Hint Resolve destroy_silent : silent.

Lemma connection_error_silent e : ensures silent (connection_error e).
Proof using Type. unfold connection_error. silent_auto. Qed.
Hint Resolve connection_error_silent : silent.

Lemma complete_silent : ensures silent complete_header_block.
Proof using Type.
  unfold complete_header_block. silent_auto.
  apply ensures_modify. intros w. destruct (highest_promised w <? _); auto with silent.
Qed.
Hint Resolve complete_silent : silent.

Lemma open_header_block_silent pb eh : ensures silent (open_header_block pb eh).
Proof using Type. unfold open_header_block. silent_auto. Qed.

Lemma apply_settings_silent s : ensures silent (apply_remote_settings s).
Proof using Type. unfold apply_remote_settings. silent_auto. Qed.
Hint Resolve open_header_block_silent apply_settings_silent : silent.

Lemma dispatch_silent now f : ensures silent (dispatch now f).
Proof using Type. unfold dispatch, receive_goaway. silent_auto. Qed.
Hint Resolve dispatch_silent : silent.

Lemma dispatch_all_silent now fs : ensures silent (dispatch_all now fs).
Proof using Type. induction fs; cbn [dispatch_all]; silent_auto. Qed.
Hint Resolve dispatch_all_silent : silent.

Lemma on_bytes_silent now c : ensures silent (on_bytes now c).
Proof using Type.
  unfold on_bytes. apply ensures_catch; [exact _| |auto with silent]. silent_auto.
Qed.

Lemma check_open_silent : ensures silent check_open.
Proof using Type. unfold check_open. silent_auto. Qed.
Hint Resolve on_bytes_silent check_open_silent : silent.

Lemma send_continuations_silent fuel id max block off :
  ensures silent (send_continuations fuel id max block off).
Proof using Type.
  revert off. induction fuel as [|fuel IH]; intros off; cbn [send_continuations]; silent_auto.
Qed.
Hint Resolve send_continuations_silent : silent.

Lemma send_headers_silent id block es : ensures silent (send_headers id block es).
Proof using Type. unfold send_headers. silent_auto. Qed.
Hint Resolve send_headers_silent : silent.

Lemma pump_turn_silent k id c o : ensures silent (pump_turn k id c o).
Proof using Type.
  intros w Hc. unfold pump_turn. rewrite st_get_bind, Hc. by destruct (streams w !! id).
Qed.

Lemma apply_op_silent up op w : silent w (apply_op up op w).
Proof using Type.
  destruct op as [now c| | |k init|k now| |k id c o|id|id k|id]; simpl.
  - apply ensures_at_of. unfold read_chunk. silent_auto.
  - apply destroy_silent.
  - apply destroy_silent.
  - apply ensures_at_of. unfold request_turn, request_wait, request_open, u32_add. silent_auto.
  - apply ensures_at_of. unfold ping. silent_auto.
  - apply ensures_at_of. unfold close. silent_auto.
  - apply pump_turn_silent.
  - apply ensures_at_of. unfold pump_finish. silent_auto.
  - apply ensures_at_of. unfold body_poll_next, set_recv. silent_auto.
  - apply ensures_at_of. unfold body_drop. silent_auto.
Qed.
End silent_methods.

(** ** The invariant of the connection *)

(** An open stream's window is open, and its head is either awaited, with the
    sender still in place, or delivered: a head that is not informational. *)
Definition stream_ok (s : StreamState.t) (c : Cells) : Prop :=
  SendWindow.closed (StreamState.send_window s) = false /\
  (StreamState.got_head s = false -> StreamState.head_tx s = true /\ head c = HeadPending) /\
  (StreamState.got_head s = true -> StreamState.head_tx s = false /\
     exists hd, head c = HeadSent (inr hd) /\ ~ (100 <= status hd < 200)).

Record conn_ok (w : ConnState) : Prop := {
  ok_max : 16384 <= Remote.max_frame_size (remote w) <= 16777215;
  ok_closed : closed w = true ->
    streams w = ∅ /\ pings w = ∅ /\ slot_waiters w = [] /\ out_tx w = false /\
    is_Some (close_error w);
  ok_open : closed w = false ->
    out_tx w = true /\ close_error w = None /\ SendWindow.closed (conn_send_window w) = false;
  ok_streams id s : streams w !! id = Some s ->
    stream_ok s (default default_cells (cells w !! id));
}.

Abbreviation keeps_ok := (keeps conn_ok).

(** A change to the fields the invariant does not mention. *)
Lemma ok_same w w' :
  remote w' = remote w -> closed w' = closed w -> streams w' = streams w ->
  pings w' = pings w -> slot_waiters w' = slot_waiters w -> out_tx w' = out_tx w ->
  close_error w' = close_error w -> cells w' = cells w ->
  SendWindow.closed (conn_send_window w') = SendWindow.closed (conn_send_window w) ->
  keeps_ok w w'.
Proof.
  intros E1 E2 E3 E4 E5 E6 E7 E8 E9 [O1 O2 O3 O4].
  constructor; rewrite ?E1, ?E2, ?E3, ?E4, ?E5, ?E6, ?E7, ?E8, ?E9; auto.
Qed.

(** A closed connection has no stream. *)
Lemma ok_stream_open w id s : conn_ok w -> streams w !! id = Some s -> closed w = false.
Proof.
  intros [_ O2 _ _] Hs. destruct (closed w) eqn:Hc; [|done].
  destruct (O2 eq_refl) as (He & _). rewrite He in Hs. by rewrite lookup_empty in Hs.
Qed.

(** Replacing the state and the cells of an open stream. *)
Lemma ok_set_stream w id s s' c' :
  streams w !! id = Some s -> stream_ok s' c' ->
  keeps_ok w (set_cells (<[id := c']> (cells w)) (set_streams (<[id := s']> (streams w)) w)).
Proof.
  intros Hs Hok Hw. pose proof (ok_stream_open w id s Hw Hs) as Hc. destruct Hw as [O1 O2 O3 O4].
  constructor; simpl; [done|congruence|done|]. intros i si Hi.
  destruct (decide (i = id)) as [->|Hne].
  - rewrite lookup_insert_eq in Hi. injection Hi as <-. by rewrite lookup_insert_eq.
  - rewrite lookup_insert_ne in Hi by done. rewrite lookup_insert_ne by done. auto.
Qed.

Lemma ok_del_stream w id c' :
  keeps_ok w (set_cells (<[id := c']> (cells w)) (set_streams (delete id (streams w)) w)).
Proof.
  intros [O1 O2 O3 O4]. constructor; simpl; [done| |done|].
  - intros Hc. destruct (O2 Hc) as (-> & ? & ? & ? & ?). by rewrite delete_empty.
  - intros i si Hi. apply lookup_delete_Some in Hi as [Hne Hi].
    rewrite lookup_insert_ne by done. auto.
Qed.

(** Cells whose head is as it was. *)
Lemma ok_set_cell w id c' :
  head c' = head (default default_cells (cells w !! id)) ->
  keeps_ok w (set_cells (<[id := c']> (cells w)) w).
Proof.
  intros Hh [O1 O2 O3 O4]. constructor; simpl; [done..|]. intros i si Hi.
  destruct (decide (i = id)) as [->|Hne]; [|rewrite lookup_insert_ne by done; auto].
  rewrite lookup_insert_eq. simpl. unfold stream_ok. rewrite Hh. by apply O4.
Qed.

Create HintDb ok.
#[export] Hint Extern 1 (keeps conn_ok _ _) => (apply ok_same; reflexivity) : ok.
#[export] Hint Extern 1 (ensures _ (mret _)) => apply ensures_ret; exact _ : ok.
#[export] Hint Extern 1 (ensures _ (st_lift _)) => apply ensures_lift; exact _ : ok.
#[export] Hint Extern 1 (ensures _ (st_throw _)) => apply ensures_throw; exact _ : ok.
#[export] Hint Extern 1 (ensures _ st_panic) => apply ensures_panic; exact _ : ok.
#[export] Hint Extern 1 (ensures _ st_get) => apply ensures_get; exact _ : ok.
#[export] Hint Extern 1 (ensures _ (st_modify _)) => (apply ensures_modify; intros ?) : ok.

Ltac ok_auto := repeat ensures_step; auto with ok.

(** The stream methods the connection runs in place. *)
Definition stream_method_ok (f : StreamState.t -> Cells -> StreamState.t * Cells * list waker)
    : Prop := forall s c, stream_ok s c -> stream_ok (f s c).1.1 (f s c).1.2.

Section ok_methods.
Context {arch : Arch}.

Lemma emit_ok l : ensures keeps_ok (emit l).
Proof using Type. apply ensures_modify. intros w. auto with ok. Qed.
Hint Resolve emit_ok : ok.
Lemma wake_all_ok l : ensures keeps_ok (wake_all l).
Proof using Type. apply emit_ok. Qed.

Lemma write_raw_ok b o : ensures keeps_ok (write_raw b o).
Proof using Type.
  apply ensures_modify. intros w. destruct (negb (closed w)), (out_tx w) eqn:Ho;
    auto with ok; try (intros H; exact H).
Qed.
Hint Resolve wake_all_ok write_raw_ok : ok.

Lemma send_frame_ok f : ensures keeps_ok (send_frame f).
Proof using Type. unfold send_frame. ok_auto. Qed.
Hint Resolve send_frame_ok : ok.

Lemma on_stream_ok id f : stream_method_ok f -> ensures keeps_ok (on_stream id f).
Proof using Type.
  intros Hf. unfold on_stream. apply ensures_get_bind. intros w.
  destruct (streams w !! id) as [s|] eqn:Hs; [|apply ensures_at_of; auto with ok].
  specialize (Hf s (default default_cells (cells w !! id))).
  destruct (f s _) as [[s1 c1] k]. apply ensures_at_put_bind; [exact _| |auto with ok].
  intros Hw. apply (ok_set_stream w id s s1 c1 Hs); [|done]. apply Hf. by apply Hw.
Qed.

Lemma take_stream_ok id f : ensures keeps_ok (take_stream id f).
Proof using Type.
  unfold take_stream. apply ensures_get_bind. intros w.
  destruct (streams w !! id) as [s|] eqn:Hs; [|apply ensures_at_of; auto with ok].
  destruct (f s _) as [[s1 c1] k]. apply ensures_at_put_bind; [exact _| |auto with ok].
  apply ok_del_stream.
Qed.
Hint Resolve on_stream_ok take_stream_ok : ok.

Lemma wake_slot_waiters_ok : ensures keeps_ok wake_slot_waiters.
Proof using Type.
  unfold wake_slot_waiters. apply ensures_get_bind. intros w.
  apply ensures_at_put_bind; [exact _| |auto with ok].
  intros [O1 O2 O3 O4]. constructor; simpl; auto. intros Hc. by destruct (O2 Hc) as (? & ? & _ & ?).
Qed.
Hint Resolve wake_slot_waiters_ok : ok.

Lemma retire_ok id : ensures keeps_ok (retire_if_fully_closed id).
Proof using Type. unfold retire_if_fully_closed. ok_auto. Qed.
Lemma reset_stream_ok id c : ensures keeps_ok (reset_stream id c).
Proof using Type. unfold reset_stream. ok_auto. Qed.
Lemma replenish_ok id n : ensures keeps_ok (replenish_recv_window id n).
Proof using Type. unfold replenish_recv_window. ok_auto. Qed.
Lemma guard_ok : ensures keeps_ok guard_header_block_size.
Proof using Type. unfold guard_header_block_size. ok_auto. Qed.
Hint Resolve retire_ok reset_stream_ok replenish_ok guard_ok : ok.

Lemma destroy_ok e : ensures keeps_ok (destroy e).
Proof using Type.
  intros w Hw. destruct (closed w) eqn:Hc.
  { unfold destroy. by rewrite st_get_bind, Hc. }
  destruct (destroy_run e w Hc) as (cs & ev & -> & _). destruct Hw as [O1 O2 O3 O4].
  constructor; simpl; [done|by eauto|done|]. intros id s Hs. by rewrite lookup_empty in Hs.
Qed.
Hint Resolve destroy_ok : ok.

Lemma connection_error_ok e : ensures keeps_ok (connection_error e).
Proof using Type. unfold connection_error. ok_auto. Qed.
Hint Resolve connection_error_ok : ok.

Lemma end_body_head c : head (StreamState.end_body c).1 = head c.
Proof using Type. unfold StreamState.end_body. by destruct (negb _). Qed.

Lemma receive_headers_ok fields es (b : bool) :
  stream_method_ok (fun s c =>
    let '(s, c, woken) := StreamState.receive_headers fields es s c in
    (if b then set_remote_closed s else s, c, woken)).
Proof using Type.
  intros s c (H1 & H2 & H3).
  assert (stream_ok (StreamState.receive_headers fields es s c).1.1
    (StreamState.receive_headers fields es s c).1.2) as Hr.
  { unfold StreamState.receive_headers, StreamState.send_head, stream_ok.
    destruct (StreamState.got_head s) eqn:Hg; simpl.
    - pose proof (end_body_head
        (mkCells (recv c) (Some (headers (collect_headers fields))) (head c))) as He.
      destruct es; [destruct (StreamState.end_body _) as [c' k]; simpl in *; rewrite He|];
        split_and!; simpl; auto; congruence.
    - destruct (_ && _) eqn:Hi; [simpl; split_and!; intros; auto; congruence|].
      destruct (H2 eq_refl) as [-> _].
      pose proof (end_body_head (mkCells (recv c) (trailers c) (HeadSent (inr (collect_headers fields))))) as He.
      assert (exists hd, HeadSent (inr (collect_headers fields)) = HeadSent (inr hd) /\ ~ (100 <= status hd < 200)) as Hd
        by (eexists; split; [done|lia]).
      destruct es; [destruct (StreamState.end_body _) as [c' k]; simpl in *; rewrite He|]; simpl; by split_and!. }
  destruct (StreamState.receive_headers fields es s c) as [[s' c'] k]. simpl in *.
  by destruct b.
Qed.

Lemma receive_data_ok d es (b : bool) :
  stream_method_ok (fun s c =>
    let '(c, woken) := StreamState.receive_data d es c in
    (if b then set_remote_closed s else s, c, woken)).
Proof using Type.
  intros s c H. unfold StreamState.receive_data. destruct (take_waker _) as [r k]. simpl.
  by destruct b.
Qed.

Lemma window_method_ok (g : SendWindow.t -> SendWindow.t * list waker) :
  (forall win, SendWindow.closed (g win).1 = SendWindow.closed win) ->
  stream_method_ok (fun s c =>
    let '(win, woken) := g (StreamState.send_window s) in (set_send_window win s, c, woken)).
Proof using Type.
  intros Hg s c (H1 & H2 & H3). specialize (Hg (StreamState.send_window s)).
  destruct (g _) as [win k]. simpl in *. unfold stream_ok. simpl. rewrite Hg. by split_and!.
Qed.

Lemma update_closed n win : SendWindow.closed (SendWindow.update n win).1 = SendWindow.closed win.
Proof using Type. unfold SendWindow.update. by destruct (0 <? _). Qed.
Lemma adjust_closed n win : SendWindow.closed (SendWindow.adjust n win).1 = SendWindow.closed win.
Proof using Type. unfold SendWindow.adjust. by destruct (0 <? _). Qed.

Lemma local_closed_ok : stream_method_ok (fun s c => (set_local_closed s, c, [])).
Proof using Type. by intros s c H. Qed.
Hint Resolve receive_headers_ok receive_data_ok window_method_ok update_closed adjust_closed
  local_closed_ok : ok.

Lemma complete_ok : ensures keeps_ok complete_header_block.
Proof using Type.
  unfold complete_header_block. ok_auto.
  apply ensures_modify. intros w. destruct (highest_promised w <? _); auto with ok.
Qed.
Hint Resolve complete_ok : ok.

Lemma open_header_block_ok pb eh : ensures keeps_ok (open_header_block pb eh).
Proof using Type. unfold open_header_block. ok_auto. Qed.
Hint Resolve open_header_block_ok : ok.

Lemma set_remote_ok r w :
  16384 <= Remote.max_frame_size r <= 16777215 -> keeps_ok w (set_remote r w).
Proof using Type. intros Hr [O1 O2 O3 O4]. by constructor. Qed.

Lemma modify_remote_ok (g : Remote.t -> Remote.t) :
  (forall r, Remote.max_frame_size (g r) = Remote.max_frame_size r) ->
  ensures keeps_ok (st_modify (E := H2Error.t) (fun w => set_remote (g (remote w)) w)).
Proof using Type.
  intros Hg. apply ensures_modify. intros w Hw. apply set_remote_ok; [|done].
  rewrite Hg. by apply Hw.
Qed.

Lemma apply_settings_ok s : ensures keeps_ok (apply_remote_settings s).
Proof using Type.
  unfold apply_remote_settings. repeat (apply ensures_bind; [exact _| |intros _]).
  - destruct (initial_window_size s) as [iw|]; [|auto with ok]. destruct (_ <? iw); [auto with ok|].
    apply ensures_get_bind. intros w. apply ensures_at_put_bind; [exact _| |].
    + intros Hw. apply set_remote_ok; [by apply Hw|done].
    + apply ensures_iter; [exact _|]. intros id. apply on_stream_ok.
      apply window_method_ok. intros win. apply adjust_closed.
  - destruct (max_frame_size s) as [mfs|]; [|auto with ok].
    destruct (negb _) eqn:Hm; [auto with ok|]. apply ensures_modify. intros w Hw.
    apply set_remote_ok; [simpl; lia|done].
  - destruct (header_table_size s) as [h|]; [|auto with ok].
    apply (modify_remote_ok (fun r => Remote.mk (Remote.initial_window_size r)
      (Remote.max_frame_size r) h (Remote.enable_push r) (Remote.max_concurrent_streams r))). done.
  - destruct (enable_push s) as [ep|]; [|auto with ok].
    apply (modify_remote_ok (fun r => Remote.mk (Remote.initial_window_size r)
      (Remote.max_frame_size r) (Remote.header_table_size r) ep
      (Remote.max_concurrent_streams r))). done.
  - destruct (max_concurrent_streams s) as [mcs|]; [|auto with ok].
    apply ensures_bind; [exact _| |auto with ok].
    apply (modify_remote_ok (fun r => Remote.mk (Remote.initial_window_size r)
      (Remote.max_frame_size r) (Remote.header_table_size r) (Remote.enable_push r) mcs)). done.
Qed.
Hint Resolve apply_settings_ok : ok.

Lemma set_conn_window_ok win w :
  SendWindow.closed win = SendWindow.closed (conn_send_window w) ->
  keeps_ok w (set_conn_send_window win w).
Proof using Type. intros Hwin. by apply ok_same. Qed.

Lemma set_pings_delete_ok x w : keeps_ok w (set_pings (delete x (pings w)) w).
Proof using Type.
  intros [O1 O2 O3 O4]. constructor; simpl; auto. intros Hc.
  destruct (O2 Hc) as (? & -> & ? & ? & ?). by rewrite delete_empty.
Qed.
Hint Resolve set_pings_delete_ok : ok.

Lemma dispatch_ok now f : ensures keeps_ok (dispatch now f).
Proof using Type.
  unfold dispatch, receive_goaway. apply ensures_get_bind. intros w.
  destruct (_ && _); [apply ensures_at_of; auto with ok|].
  destruct f as [id d es|id frag es eh p|id p|id code|ack st|id pid frag eh|ack d|last code dbg|
    id inc|id frag eh]; try (ok_auto; fail).
  destruct (inc =? 0); [ok_auto|]. destruct (id =? 0).
  - pose proof (update_closed inc (conn_send_window w)) as Hu.
    destruct (SendWindow.update inc (conn_send_window w)) as [win k].
    apply ensures_at_put_bind; [exact _| |auto with ok]. by apply set_conn_window_ok.
  - apply ensures_at_of, on_stream_ok, window_method_ok. intros win. apply update_closed.
Qed.
Hint Resolve dispatch_ok : ok.

Lemma dispatch_all_ok now fs : ensures keeps_ok (dispatch_all now fs).
Proof using Type. induction fs; cbn [dispatch_all]; ok_auto. Qed.
Hint Resolve dispatch_all_ok : ok.

Lemma on_bytes_ok now c : ensures keeps_ok (on_bytes now c).
Proof using Type. unfold on_bytes. apply ensures_catch; [exact _| |auto with ok]. ok_auto. Qed.
Hint Resolve on_bytes_ok : ok.

Lemma send_continuations_ok fuel id max block off :
  ensures keeps_ok (send_continuations fuel id max block off).
Proof using Type.
  revert off. induction fuel as [|fuel IH]; intros off; cbn [send_continuations]; ok_auto.
Qed.
Hint Resolve send_continuations_ok : ok.

Lemma send_headers_ok id block es : ensures keeps_ok (send_headers id block es).
Proof using Type. unfold send_headers. ok_auto. Qed.
Hint Resolve send_headers_ok : ok.

(** [check_open] changes nothing, and passes only on a live connection. *)
Lemma check_open_run w :
  check_open w = (w, Ok tt) /\ closed w = false /\ goaway_received w = false \/
  exists e, check_open w = (w, Err e).
Proof using Type.
  unfold check_open. rewrite st_get_bind.
  destruct (closed w); [right; by eexists|]. destruct (goaway_received w); [right; by eexists|].
  by left.
Qed.

Lemma request_wait_run k w :
  request_wait k w =
    if closed w then (w, Err (closed_error w))
    else if goaway_received w then
      (w, Err (H2Error.new ErrorCode.RefusedStream "connection is going away"))
    else if can_open_stream w then (w, Ok true)
    else (set_slot_waiters (slot_waiters w ++ [k]) w, Ok false).
Proof using Type.
  unfold request_wait, check_open. rewrite st_bind_run, st_get_bind.
  destruct (closed w); [done|]. destruct (goaway_received w); [done|].
  simpl. rewrite st_get_bind. by destruct (can_open_stream w).
Qed.

(** A live connection may gain a parked request, a PING, a stream. *)
Lemma ok_add_waiter k w : closed w = false -> keeps_ok w (set_slot_waiters (slot_waiters w ++ [k]) w).
Proof using Type. intros Hc [O1 O2 O3 O4]. constructor; simpl; auto. congruence. Qed.

Lemma ok_add_ping x p c w :
  closed w = false -> keeps_ok w (set_pings (<[x := p]> (pings w)) (set_ping_counter c w)).
Proof using Type. intros Hc [O1 O2 O3 O4]. constructor; simpl; auto. congruence. Qed.

Lemma ok_add_stream id next s w :
  closed w = false -> stream_ok s default_cells ->
  let w1 := set_next_stream_id next w in
  keeps_ok w (set_cells (<[id := default_cells]> (cells w1))
    (set_streams (<[id := s]> (streams w1)) w1)).
Proof using Type.
  intros Hc Hs w1 [O1 O2 O3 O4]. constructor; simpl; [done|congruence|done|].
  intros i si Hi. destruct (decide (i = id)) as [->|Hne].
  - rewrite lookup_insert_eq in Hi. injection Hi as <-. by rewrite lookup_insert_eq.
  - rewrite lookup_insert_ne in Hi by done. rewrite lookup_insert_ne by done. auto.
Qed.

Lemma request_open_ok up init w : closed w = false -> ensures_at keeps_ok (request_open up init) w.
Proof using Type.
  intros Hc. unfold request_open. apply ensures_at_bind; [exact _| |].
  { apply ensures_at_of. unfold check_open. ok_auto. }
  intros [] w' Hw'. assert (w' = w) as -> by (pose proof (check_open_state w) as H; by rewrite Hw' in H).
  change (ensures_at keeps_ok (st_get ≫= ?f) w) with (ensures_at keeps_ok (f w) w).
  apply ensures_at_lift_bind; [exact _|]. intros next _.
  unfold ensures_at. rewrite st_put_bind, st_modify_bind.
  match goal with |- keeps_ok w (fst (?m ?a)) =>
    assert (keeps_ok w a) as Hadd; [|etransitivity; [exact Hadd|]; change (ensures_at keeps_ok m a)]
  end.
  - apply (ok_add_stream (next_stream_id w) next); [done|]. unfold stream_ok. simpl. by split_and!.
  - apply ensures_at_of. ok_auto.
Qed.

Lemma request_turn_ok up k init : ensures keeps_ok (request_turn up k init).
Proof using Type.
  intros w. unfold ensures_at, request_turn. rewrite st_bind_run, request_wait_run.
  destruct (closed w) eqn:Hc; [by intros H|]. destruct (goaway_received w); [by intros H|].
  destruct (can_open_stream w); simpl; [|by apply ok_add_waiter].
  rewrite st_bind_run. pose proof (request_open_ok up init w Hc) as H. unfold ensures_at in H.
  by destruct (request_open up init w) as [w' [i|e| |]].
Qed.

Lemma ping_ok k now : ensures keeps_ok (ping k now).
Proof using Type.
  unfold ping. apply ensures_get_bind. intros w.
  destruct (closed w) eqn:Hc; [apply ensures_at_of; auto with ok|].
  apply ensures_at_put_bind; [exact _|by apply ok_add_ping|]. ok_auto.
Qed.

Lemma pump_turn_ok k id chunk offset : ensures keeps_ok (pump_turn k id chunk offset).
Proof using Type.
  unfold pump_turn. apply ensures_get_bind. intros w.
  destruct (streams w !! id) as [s|] eqn:Hs; [|apply ensures_at_of; auto with ok].
  assert (forall win w1, streams w1 !! id = Some s -> cells w1 = cells w ->
    SendWindow.closed win = SendWindow.closed (StreamState.send_window s) ->
    conn_ok w1 -> conn_ok (set_streams (<[id := set_send_window win s]> (streams w1)) w1)) as Hset.
  { intros win w1 H1 Hcells Hwin Hok.
    pose proof (ok_streams _ Hok id s H1) as (S1 & S2 & S3).
    pose proof (ok_stream_open _ _ _ Hok H1) as Hc. destruct Hok as [O1 O2 O3 O4].
    constructor; simpl; [done|congruence|done|]. intros i si Hi.
    destruct (decide (i = id)) as [->|Hne].
    - rewrite lookup_insert_eq in Hi. injection Hi as <-. unfold stream_ok. simpl.
      rewrite Hwin. by split_and!.
    - rewrite lookup_insert_ne in Hi by done. auto. }
  destruct (closed w); [apply ensures_at_of; auto with ok|].
  destruct (negb (_ && _)).
  { apply ensures_at_put_bind; [exact _| |auto with ok]. intros Hw.
    assert (forall (b : bool), let w1 := if b then set_conn_send_window
      (SendWindow.register_waker k (conn_send_window w)) w else w in
      conn_ok w1 /\ streams w1 = streams w /\ cells w1 = cells w) as Hw1.
    { intros []; [|done]. split; [by apply set_conn_window_ok|done]. }
    destruct (Hw1 (negb (SendWindow.is_ready (conn_send_window w)))) as (Hok1 & Hs1 & Hc1).
    destruct (negb (SendWindow.is_ready (StreamState.send_window s))); [|exact Hok1].
    apply Hset; [by rewrite Hs1|exact Hc1|done|exact Hok1]. }
  destruct (SendWindow.is_closed _); [apply ensures_at_of; auto with ok|].
  destruct (_ <=? 0); [apply ensures_at_of; auto with ok|].
  apply ensures_at_put_bind; [exact _| |ok_auto].
  intros Hw. apply (Hset _ (set_conn_send_window _ w)); [done|done|done|].
  by apply set_conn_window_ok.
Qed.

Lemma set_recv_ok id r : ensures keeps_ok (set_recv id r).
Proof using Type. apply ensures_modify. intros w. by apply ok_set_cell. Qed.
Hint Resolve set_recv_ok : ok.

Lemma apply_op_ok up op w : conn_ok w -> conn_ok (apply_op up op w).
Proof using Type.
  change (keeps_ok w (apply_op up op w)).
  destruct op as [now c| | |k init|k now| |k id c o|id|id k|id]; simpl.
  - apply ensures_at_of. unfold read_chunk. ok_auto.
  - apply destroy_ok.
  - apply destroy_ok.
  - apply request_turn_ok.
  - apply ping_ok.
  - apply ensures_at_of. unfold close. ok_auto.
  - apply pump_turn_ok.
  - apply ensures_at_of. unfold pump_finish. ok_auto.
  - apply ensures_at_of. unfold body_poll_next. ok_auto.
  - apply ensures_at_of. unfold body_drop. ok_auto.
Qed.

Lemma connect_ok options : conn_ok (connect options).
Proof using Type.
  unfold connect. assert (conn_ok (new_state options)) as H.
  { constructor; simpl; try done. }
  revert H. change (ensures_at keeps_ok (connect_writes options) (new_state options)).
  apply ensures_at_of. unfold connect_writes. ok_auto.
Qed.

Lemma run_ok up options fs w : run up options fs w -> conn_ok w.
Proof using Type.
  induction 1 as [|fs w op Hrun IH Hop]; [apply connect_ok|by apply apply_op_ok].
Qed.
End ok_methods.

(** What a failed stream leaves in its cells. *)
Lemma taken_fail e s c :
  stream_ok s c ->
  recv (taken (StreamState.fail e) s c) =
    mkRecv (queue (recv c)) (buffered (recv c)) true (Some (default e (error (recv c)))) None /\
  head (taken (StreamState.fail e) s c) =
    (if StreamState.got_head s then head c else HeadSent (inl e)).
Proof.
  intros (Hw & Hp & Hd). unfold taken.
  pose proof (fail_recv e s c) as Hr. unfold StreamState.fail, StreamState.send_head in *.
  destruct (SendWindow.close _) as [win k]. simpl in *.
  destruct (StreamState.got_head s) eqn:Hg; simpl in *.
  - unfold StreamState.drop. simpl. by rewrite (proj1 (Hd eq_refl)).
  - destruct (Hp eq_refl) as [Ht Hh]. rewrite Ht in *. simpl in *. unfold StreamState.drop. simpl. by split.
Qed.

Lemma send_goaway_run {arch : Arch} last code w :
  closed w = false -> out_tx w = true ->
  exists b, serialize_frame (Frame.Goaway last code []) = Ok b /\
    send_frame (Frame.Goaway last code []) w =
      (set_sent (sent w ++ [mkOut b (Some (Frame.Goaway last code []))]) w, Ok tt).
Proof.
  intros Hc Ho. eexists. split; [reflexivity|]. unfold send_frame, write_raw, st_modify.
  rewrite st_bind_run. simpl. by rewrite Hc, Ho.
Qed.

(** ** Theorems *)

(** C3: The invariant of every reachable connection: once closed it has no
    stream, no PING, no parked request and no outbound sink left, and a reason;
    while open its sink and its window are open, and every stream has an open window
    and either still owes its caller a response head, the sender in place and nothing
    sent, or has put a head in the channel that is not informational; the peer's
    frame size is always in the legal range. *)
Theorem connection_invariant {arch : Arch} up options fs w :
  run up options fs w -> conn_ok w.
Proof. apply run_ok. Qed.

Lemma connection_invariant_witness :
  conn_ok (apply_op (arch := host64_debug) id (OpRequest 0 sample_request)
    (connect (arch := host64_debug) default_options)).
Proof.
  apply (connection_invariant (arch := host64_debug) id default_options
    ([] ++ frames_of (OpRequest 0 sample_request) (connect (arch := host64_debug) default_options))).
  apply run_step; [constructor|vm_compute; reflexivity].
Defined.

(** A closed connection stays closed and puts nothing more on the wire,
    whatever the driver, pumps, readers or callers still do. *)
Theorem closed_is_final {arch : Arch} up op w :
  closed w = true -> closed (apply_op up op w) = true /\ sent (apply_op up op w) = sent w.
Proof. apply apply_op_silent. Qed.

Lemma closed_is_final_witness :
  let w := fst (close (arch := host64_debug) (connect (arch := host64_debug) default_options)) in
  closed w = true /\
  sent (apply_op (arch := host64_debug) id (OpPing 3 0) w) = sent w.
Proof.
  assert (closed (fst (close (arch := host64_debug) (connect (arch := host64_debug) default_options)))
    = true) as Hc by (vm_compute; reflexivity).
  split; [exact Hc|]. exact (proj2 (closed_is_final id (OpPing 3 0) _ Hc)).
Defined.

(** C5: Tearing down an open connection with [e] leaves nobody waiting: every
    stream is out of the map, its request, if still waiting, has received [e] as
    its head, its body ends after the buffered chunks with an error ([e] unless
    one was recorded), every PING has failed with [e], and every parked request,
    every reader of a body and every pump parked on the window of its stream or on
    that of the connection has been woken. *)
Theorem destroy_resolves_all e w :
  conn_ok w -> closed w = false ->
  exists w' ev, destroy e w = (w', Ok tt) /\ closed w' = true /\ close_error w' = Some e /\
    streams w' = ∅ /\ sent w' = sent w /\ events w' = events w ++ ev /\
    (forall id s, streams w !! id = Some s ->
       let c := default default_cells (cells w !! id) in
       exists c', cells w' !! id = Some c' /\
         head c' = (if StreamState.got_head s then head c else HeadSent (inl e)) /\
         recv c' = mkRecv (queue (recv c)) (buffered (recv c)) true
                     (Some (default e (error (recv c)))) None /\
         (forall k, recv_waker (recv c) = Some k -> Woken k ∈ ev) /\
         (forall k, k ∈ SendWindow.wakers (StreamState.send_window s) -> Woken k ∈ ev)) /\
    (forall k, k ∈ slot_waiters w -> SlotFreed k ∈ ev) /\
    (forall x p, pings w !! x = Some p -> PingFailed (resolve p) e ∈ ev) /\
    (forall k, k ∈ SendWindow.wakers (conn_send_window w) -> Woken k ∈ ev).
Proof.
  intros Hok Hc. destruct (destroy_run e w Hc) as (cs & ev & H & _ & Hs & Hw & H1 & H2 & H3).
  exists (destroyed e cs ev w), ev. split_and!; try done. intros id s Hid c.
  eexists. split; [by apply Hs|].
  destruct (taken_fail e s _ (ok_streams _ Hok id s Hid)) as [Hr Hh]. rewrite Hr, Hh.
  split_and!; try done; intros k Hk; eapply Hw; eauto.
Qed.

Lemma destroy_resolves_all_witness :
  let w := apply_op (arch := host64_debug) id (OpRequest 0 sample_request)
    (connect (arch := host64_debug) default_options) in
  let e := H2Error.new ErrorCode.NoError "transport closed by peer" in
  exists w' c', destroy e w = (w', Ok tt) /\ cells w' !! 1 = Some c' /\ head c' = HeadSent (inl e).
Proof.
  intros w e.
  assert (conn_ok w) as Hok by (apply apply_op_ok, connect_ok).
  assert (closed w = false) as Hc by (vm_compute; reflexivity).
  destruct (streams w !! 1) as [s|] eqn:Hs; [|vm_compute in Hs; discriminate Hs].
  destruct (destroy_resolves_all e w Hok Hc) as (w' & ev & H & _ & _ & _ & _ & _ & Hst & _).
  destruct (Hst 1 s Hs) as (c' & Hc' & Hh & _). exists w', c'.
  split; [exact H|]. split; [exact Hc'|]. rewrite Hh.
  vm_compute in Hs. injection Hs as <-. reflexivity.
Defined.

(** A connection error on an open connection queues a GOAWAY with the
    error's code and the highest promised stream as its last frame, and tears the
    connection down with that error. *)
Theorem connection_error_goaway {arch : Arch} e w :
  conn_ok w -> closed w = false ->
  exists w' b, connection_error e w = (w', Ok tt) /\ closed w' = true /\
    close_error w' = Some e /\
    serialize_frame (Frame.Goaway (highest_promised w) (ErrorCode.value (H2Error.code e)) []) = Ok b /\
    sent w' = sent w ++
      [mkOut b (Some (Frame.Goaway (highest_promised w) (ErrorCode.value (H2Error.code e)) []))].
Proof.
  intros Hok Hc. unfold connection_error. rewrite st_get_bind.
  destruct (send_goaway_run (highest_promised w) (ErrorCode.value (H2Error.code e)) w Hc)
    as (b & Hb & Hs); [by apply Hok|].
  rewrite (st_bind_Ok _ _ _ _ _ Hs). set (w1 := set_sent _ w).
  destruct (destroy_run e w1) as (cs & ev & H & _); [done|].
  exists (destroyed e cs ev w1), b. by rewrite H.
Qed.

Lemma connection_error_goaway_witness :
  let w := connect (arch := host64_debug) default_options in
  exists w', connection_error (arch := host64_debug)
      (H2Error.new ErrorCode.FrameSizeError "PING must be 8 bytes") w = (w', Ok tt) /\
    out_frame <$> last (sent w') = Some (Some (Frame.Goaway 0 6 [])).
Proof.
  intros w.
  destruct (connection_error_goaway (arch := host64_debug)
    (H2Error.new ErrorCode.FrameSizeError "PING must be 8 bytes") w)
    as (w' & b & H & _ & _ & _ & Hs); [apply connect_ok|vm_compute; reflexivity|].
  exists w'. split; [exact H|]. rewrite Hs, last_snoc. reflexivity.
Defined.

(** A RST_STREAM from the peer frees a stream's slot but wakes no parked
    request: with the peer's limit at one stream, a request parked behind an open
    one is still parked, and not notified, after that one is reset, although a
    slot is free. *)
Theorem reset_wakes_no_waiter :
  let w0 := fst (dispatch (arch := host64_debug) 0
    (Frame.Settings false (mkSettings None None (Some 1) None None None))
    (connect (arch := host64_debug) default_options)) in
  let w1 := apply_op (arch := host64_debug) id (OpRequest 0 sample_request) w0 in
  let w2 := apply_op (arch := host64_debug) id (OpRequest 1 sample_request) w1 in
  let w3 := fst (dispatch (arch := host64_debug) 0 (Frame.RstStream 1 8) w2) in
  slot_waiters w2 = [1%nat] /\ can_open_stream w2 = false /\
  slot_waiters w3 = [1%nat] /\ can_open_stream w3 = true /\ closed w3 = false /\
  SlotFreed 1 ∉ events w3.
Proof.
  intros w0 w1 w2 w3. split; [vm_compute; reflexivity|]. split; [vm_compute; reflexivity|].
  split; [vm_compute; reflexivity|]. split; [vm_compute; reflexivity|].
  split; [vm_compute; reflexivity|]. intros H. apply list_elem_of_In in H.
  vm_compute in H. by repeat destruct H as [H|H].
Qed.
