(* ===== verification/Sending.v ===== *)
(** * Sending: what requests and uploads put on the wire

    Header blocks are cut into HEADERS and CONTINUATION frames that reassemble to
    the block; a request's frames decode to its fields; a body pump sends its
    chunk in order, in DATA frames within the peer's frame size. *)

From S2P Require Import Prelude Errors Bytes Utf8 Frames FramesFacts Huffman HuffmanFacts Hpack.
From S2P Require Import HpackFacts HpackTable HpackTheorems Flow Stream Connection.
From S2P Require Import ConnectionFacts FlowSafety Lifecycle.

(** The items queued for frames. *)
Definition queued {arch : Arch} (item : OutItem) (f : Frame.t) : Prop :=
  out_frame item = Some f /\ serialize_frame f = Ok (out_bytes item).

Section sending.
Context {arch : Arch}.

(** Frames whose serialization cannot fail: those without a priority. *)
Definition plain (f : Frame.t) : Prop :=
  match f with
  | Frame.Headers _ _ _ _ p => p = None
  | Frame.Priority _ _ => False
  | _ => True
  end.

Lemma serialize_plain f : plain f -> exists b, serialize_frame f = Ok b.
Proof using Type. destruct f; simpl; intros Hp; subst; try done; by eexists. Qed.

Lemma send_frame_run f w :
  plain f -> closed w = false -> out_tx w = true ->
  exists item, queued item f /\ send_frame f w = (set_sent (sent w ++ [item]) w, Ok tt).
Proof using Type.
  intros Hf Hc Ho. destruct (serialize_plain f Hf) as [b Hb]. exists (mkOut b (Some f)).
  split; [done|]. unfold send_frame, write_raw, st_modify. rewrite Hb, st_lift_Ok.
  by rewrite Hc, Ho.
Qed.

(** ** Header blocks *)

(** The CONTINUATION frames of the fragments, the last with END_HEADERS. *)
Fixpoint continuations (id : Z) (frags : list bytes) : list Frame.t :=
  match frags with
  | [] => []
  | [f] => [Frame.Continuation id f true]
  | f :: frags => Frame.Continuation id f false :: continuations id frags
  end.

Definition header_frames (id : Z) (es : bool) (frags : list bytes) : list Frame.t :=
  match frags with
  | [] => []
  | f :: rest =>
      Frame.Headers id f es (bool_decide (rest = [])) None :: continuations id rest
  end.

Lemma set_sent_sent l1 l2 w : set_sent l2 (set_sent l1 w) = set_sent l2 w.
Proof using Type. done. Qed.

Lemma send_continuations_run fuel id max block offset w :
  closed w = false -> out_tx w = true -> (0 < max)%nat -> (offset < length block)%nat ->
  (length block - offset < fuel)%nat ->
  exists frags items,
    send_continuations fuel id max block offset w = (set_sent (sent w ++ items) w, Ok tt) /\
    Forall2 queued items (continuations id frags) /\ frags <> [] /\
    concat frags = drop offset block /\ Forall (fun f => (length f <= max)%nat) frags.
Proof using Type.
  revert offset w. induction fuel as [|fuel IH]; intros offset w Hc Ho Hmax Hoff Hf; [lia|].
  cbn [send_continuations]. destruct (Nat.ltb_spec offset (length block)); [|lia].
  set (next := Nat.min (offset + max) (length block)).
  rewrite slice_ok by lia. cbn [expect]. rewrite st_lift_Ok.
  set (frag := take (next - offset) (drop offset block)).
  assert (length frag <= max)%nat as Hfl by (unfold frag; rewrite length_take; lia).
  destruct (send_frame_run (Frame.Continuation id frag (length block <=? next)%nat) w I Hc Ho)
    as (item & Hq & Hsend).
  rewrite (st_bind_Ok _ _ _ _ _ Hsend).
  destruct (Nat.leb_spec (length block) next) as [Hend|Hmore].
  - exists [frag], [item]. split_and!.
    + destruct fuel as [|fuel]; [lia|]. cbn [send_continuations].
      by destruct (Nat.ltb_spec next (length block)); [lia|].
    + by constructor.
    + done.
    + simpl. rewrite app_nil_r. unfold frag. apply take_ge. rewrite length_drop. lia.
    + by constructor.
  - destruct (IH next (set_sent (sent w ++ [item]) w)) as (frags & items & Hrun & Hqs & Hne & Hcat & Hlen);
      [done|done|done|done|lia|].
    exists (frag :: frags), (item :: items). split_and!.
    + rewrite Hrun. simpl. rewrite set_sent_sent. by rewrite <- app_assoc.
    + destruct frags as [|f2 frags]; [done|]. by constructor.
    + done.
    + simpl. rewrite Hcat. unfold frag. replace next with (offset + (next - offset))%nat at 2 by lia.
      rewrite <- drop_drop. apply take_drop.
    + by constructor.
Qed.

Lemma send_headers_run id block es w :
  closed w = false -> out_tx w = true -> 1 <= Remote.max_frame_size (remote w) ->
  exists frags items,
    send_headers id block es w = (set_sent (sent w ++ items) w, Ok tt) /\
    Forall2 queued items (header_frames id es frags) /\ frags <> [] /\ concat frags = block /\
    Forall (fun f => zlen f <= Remote.max_frame_size (remote w)) frags.
Proof using Type.
  intros Hc Ho Hmax. unfold send_headers. rewrite st_get_bind.
  set (max := Remote.max_frame_size (remote w)) in *.
  destruct (Z.leb_spec (zlen block) max) as [Hle|Hgt].
  - destruct (send_frame_run (Frame.Headers id block es true None) w eq_refl Hc Ho)
      as (item & Hq & Hsend).
    exists [block], [item]. rewrite Hsend. split_and!; [done|by constructor|done| |by constructor].
    simpl. by rewrite app_nil_r.
  - unfold zlen in Hgt. rewrite slice_ok by lia. cbn [expect]. rewrite st_lift_Ok, Nat.sub_0_r, drop_0.
    set (first := take (Z.to_nat max) block).
    destruct (send_frame_run (Frame.Headers id first es false None) w eq_refl Hc Ho)
      as (item & Hq & Hsend).
    rewrite (st_bind_Ok _ _ _ _ _ Hsend).
    destruct (send_continuations_run (S (length block)) id (Z.to_nat max) block (Z.to_nat max)
      (set_sent (sent w ++ [item]) w)) as (frags & items & Hrun & Hqs & Hne & Hcat & Hlen);
      [done|done|lia|lia|lia|].
    exists (first :: frags), (item :: items). split_and!.
    + rewrite Hrun. simpl. rewrite set_sent_sent. by rewrite <- app_assoc.
    + simpl. rewrite bool_decide_false by done. by constructor.
    + done.
    + simpl. rewrite Hcat. apply take_drop.
    + constructor; [unfold first, zlen; rewrite length_take; lia|].
      eapply Forall_impl; [exact Hlen|]. intros f Hfl. unfold zlen. simpl in Hfl. lia.
Qed.

(** ** Opening a stream *)

Lemma active_insert id s w :
  streams w !! id = None -> id mod 2 = 1 ->
  active_streams (set_streams (<[id := s]> (streams w)) w) = active_streams w + 1.
Proof using Type.
  intros Hn Hodd. unfold active_streams, stream_ids, zlen. simpl.
  rewrite (map_to_list_insert _ id s Hn). simpl.
  rewrite filter_cons_True by done. cbn [length].
  rewrite Nat2Z.inj_succ. reflexivity.
Qed.

(** The new stream of a request. *)
Definition opened_stream (id : Z) (init : RequestInit) (w : ConnState) : StreamState.t :=
  StreamState.mk id (SendWindow.new (Remote.initial_window_size (remote w))) true false
    (body_is_empty (init_body init)) false.

(** The state just before its HEADERS are sent. *)
Definition reserved (init : RequestInit) (w : ConnState) : ConnState :=
  let id := next_stream_id w in
  set_cells (<[id := default_cells]> (cells w)) (set_streams
    (<[id := opened_stream id init w]> (streams w)) (set_next_stream_id (id + 2) w)).

Lemma request_open_run `{!ArchOk arch} up init w :
  conn_ok w -> closed w = false -> goaway_received w = false ->
  next_stream_id w + 2 < 4294967296 ->
  Forall header_ok (build_request_headers up init) ->
  exists block frags items,
    HpackEncoder.encode (build_request_headers up init) = Ok block /\
    concat frags = block /\ frags <> [] /\
    Forall (fun f => zlen f <= Remote.max_frame_size (remote w)) frags /\
    Forall2 queued items
      (header_frames (next_stream_id w) (body_is_empty (init_body init)) frags) /\
    request_open up init w =
      (set_tasks (tasks w ++ if body_is_empty (init_body init) then []
                             else [(next_stream_id w, init_body init)])
         (set_sent (sent w ++ items) (reserved init w)), Ok (next_stream_id w)).
Proof using Type.
  intros Hok Hc Hg Hid Hh.
  destruct (headers_codec _ Hh) as (block & Hw & _ & _ & _).
  assert (HpackEncoder.encode (build_request_headers up init) = Ok block) as Henc
    by (unfold HpackEncoder.encode; by rewrite Hw).
  pose proof (ok_max _ Hok) as Hmax. destruct (ok_open _ Hok Hc) as (Ho & _).
  destruct (send_headers_run (next_stream_id w) block (body_is_empty (init_body init))
    (reserved init w)) as (frags & items & Hsend & Hq & Hne & Hcat & Hlen);
    [done|done|simpl; lia|].
  exists block, frags, items. split_and!; [done..|].
  unfold request_open. rewrite st_bind_run.
  assert (check_open w = (w, Ok tt)) as ->.
  { unfold check_open. by rewrite st_get_bind, Hc, Hg. }
  cbn [fst snd]. rewrite st_get_bind. unfold u32_add.
  destruct (Z.ltb_spec (next_stream_id w + 2) 4294967296); [|lia].
  rewrite st_lift_Ok, st_put_bind, st_modify_bind, Henc, st_lift_Ok, negb_involutive.
  match goal with |- (send_headers ?i ?b ?e ≫= _) ?w1 = _ => change w1 with (reserved init w) end.
  rewrite (st_bind_Ok _ _ _ _ _ Hsend).
  destruct (body_is_empty (init_body init)); simpl; [|done].
  unfold mret, ST_ret. by rewrite app_nil_r.
Qed.

(** ** The body pump *)

(** A stream of a live connection, with what its windows allow. *)
Definition allowance (w : ConnState) (s : StreamState.t) : Z :=
  Z.min (SendWindow.value (conn_send_window w)) (SendWindow.value (StreamState.send_window s)).

(** The state after [n] bytes of stream [id] were paid for. *)
Definition paid (id n : Z) (s : StreamState.t) (w : ConnState) : ConnState :=
  set_streams (<[id := set_send_window (SendWindow.consume n (StreamState.send_window s)) s]>
      (streams w))
    (set_conn_send_window (SendWindow.consume n (conn_send_window w)) w).

Lemma ready_available win :
  SendWindow.closed win = false -> SendWindow.is_ready win = (0 <? SendWindow.value win).
Proof using Type. intros Hc. unfold SendWindow.is_ready. by rewrite Hc, orb_false_r. Qed.

Lemma pump_turn_sends k id chunk offset s w :
  conn_ok w -> streams w !! id = Some s -> (offset < length chunk)%nat -> 0 < allowance w s ->
  let n := Z.min (Z.min (zlen chunk - Z.of_nat offset) (allowance w s))
             (Remote.max_frame_size (remote w)) in
  0 < n /\
  exists item,
    queued item (Frame.Data id (take (Z.to_nat n) (drop offset chunk)) false) /\
    pump_turn k id chunk offset w =
      (set_sent (sent w ++ [item]) (paid id n s w), Ok (Ready (Some (offset + Z.to_nat n)%nat))).
Proof using Type.
  intros Hok Hs Hoff Ha n. pose proof (ok_max _ Hok) as Hmax.
  pose proof (ok_stream_open _ _ _ Hok Hs) as Hc. destruct (ok_open _ Hok Hc) as (Ho & _ & Hcw).
  destruct (ok_streams _ Hok id s Hs) as (Hsw & _).
  assert (0 < n) as Hn by (unfold n, zlen; lia). split; [done|].
  unfold allowance in *. unfold pump_turn. rewrite st_get_bind, Hs, Hc.
  rewrite !ready_available by done.
  destruct (Z.ltb_spec 0 (SendWindow.value (conn_send_window w))); [|lia].
  destruct (Z.ltb_spec 0 (SendWindow.value (StreamState.send_window s))); [|lia].
  cbn [negb andb]. unfold SendWindow.is_closed. rewrite Hsw.
  replace (Z.min (Z.min (Z.min (zlen chunk - Z.of_nat offset)
    (SendWindow.value (conn_send_window w))) (SendWindow.value (StreamState.send_window s)))
    (Remote.max_frame_size (remote w))) with n by (unfold n; lia).
  destruct (Z.leb_spec n 0); [lia|]. assert (n <= zlen chunk - Z.of_nat offset) as Hrem
    by (unfold n; lia). clearbody n. unfold zlen in Hrem.
  rewrite st_put_bind, slice_ok by lia. cbn [expect]. rewrite st_lift_Ok.
  replace (offset + Z.to_nat n - offset)%nat with (Z.to_nat n) by lia.
  set (data := take _ _). fold (paid id n s w).
  destruct (send_frame_run (Frame.Data id data false) (paid id n s w) I Hc Ho)
    as (item & Hq & Hsend).
  exists item. split; [done|]. by rewrite (st_bind_Ok _ _ _ _ _ Hsend).
Qed.

(** A pump that may not send parks on the windows that are not ready. *)
Lemma pump_turn_parks k id chunk offset s w :
  conn_ok w -> streams w !! id = Some s -> allowance w s <= 0 ->
  exists w', pump_turn k id chunk offset w = (w', Ok Pending) /\ sent w' = sent w /\
    (k ∈ SendWindow.wakers (conn_send_window w') \/
     exists s', streams w' !! id = Some s' /\ k ∈ SendWindow.wakers (StreamState.send_window s')).
Proof using Type.
  intros Hok Hs Ha. pose proof (ok_stream_open _ _ _ Hok Hs) as Hc.
  destruct (ok_open _ Hok Hc) as (Ho & _ & Hcw). destruct (ok_streams _ Hok id s Hs) as (Hsw & _).
  unfold allowance in Ha. unfold pump_turn. rewrite st_get_bind, Hs, Hc.
  rewrite !ready_available by done.
  destruct (Z.ltb_spec 0 (SendWindow.value (conn_send_window w))) as [Hcv|Hcv];
    destruct (Z.ltb_spec 0 (SendWindow.value (StreamState.send_window s))) as [Hsv|Hsv];
    [lia|..]; cbn [negb andb]; rewrite st_put_bind; eexists; (split; [reflexivity|]);
    (split; [reflexivity|]).
  - right. eexists. split; [by simpl; rewrite lookup_insert_eq|]. simpl. set_solver.
  - left. simpl. set_solver.
  - left. simpl. set_solver.
Qed.

(** The task waits on one of the two windows. *)
Definition parked_on (k : waker) (id : Z) (w : ConnState) : Prop :=
  k ∈ SendWindow.wakers (conn_send_window w) \/
  exists s, streams w !! id = Some s /\ k ∈ SendWindow.wakers (StreamState.send_window s).

(** What a pump has sent of a chunk between two offsets. *)
Record uploaded (id : Z) (chunk : bytes) (offset offset' : nat) (w w' : ConnState) : Prop := {
  up_range : (offset <= offset' <= length chunk)%nat;
  up_frames : exists items pieces,
    sent w' = sent w ++ items /\
    Forall2 queued items ((fun d => Frame.Data id d false) <$> pieces) /\
    concat pieces = take (offset' - offset) (drop offset chunk) /\
    Forall (fun d => 0 < zlen d <= Remote.max_frame_size (remote w)) pieces;
}.

Lemma uploaded_refl id chunk offset w w' :
  (offset <= length chunk)%nat -> sent w' = sent w -> uploaded id chunk offset offset w w'.
Proof using Type.
  intros Ho Hs. constructor; [lia|]. exists [], []. rewrite Hs, app_nil_r, Nat.sub_diag.
  by split_and!; [|constructor|rewrite take_0|constructor].
Qed.

Lemma uploaded_step id chunk o1 o2 o3 w1 w2 w3 item d :
  (o1 <= o2)%nat -> sent w2 = sent w1 ++ [item] -> remote w2 = remote w1 ->
  queued item (Frame.Data id d false) -> d = take (o2 - o1) (drop o1 chunk) ->
  0 < zlen d <= Remote.max_frame_size (remote w1) ->
  uploaded id chunk o2 o3 w2 w3 -> uploaded id chunk o1 o3 w1 w3.
Proof using Type.
  intros Ho Hs Hr Hq Hd Hlen [Hrange (items & pieces & H1 & H2 & H3 & H4)].
  constructor; [lia|]. exists (item :: items), (d :: pieces). split_and!.
  - by rewrite H1, Hs, <- app_assoc.
  - rewrite fmap_cons. by constructor.
  - cbn [concat]. rewrite H3, Hd.
    replace (o3 - o1)%nat with ((o2 - o1) + (o3 - o2))%nat by lia.
    rewrite <- take_take_drop, drop_drop. by replace (o1 + (o2 - o1))%nat with o2 by lia.
  - constructor; [done|]. by rewrite Hr in H4.
Qed.

Lemma pump_chunk_run fuel k id chunk offset s w :
  conn_ok w -> streams w !! id = Some s -> (offset <= length chunk)%nat ->
  (length chunk - offset < fuel)%nat ->
  exists w' offset', uploaded id chunk offset offset' w w' /\
    (pump_chunk fuel k id chunk offset w = (w', Ok (inr true)) /\ offset' = length chunk \/
     pump_chunk fuel k id chunk offset w = (w', Ok (inl offset')) /\
       (offset' < length chunk)%nat /\ parked_on k id w').
Proof using Type.
  revert offset s w. induction fuel as [|fuel IH]; intros offset s w Hok Hs Hoff Hf; [lia|].
  cbn [pump_chunk]. destruct (Nat.ltb_spec offset (length chunk)) as [Hlt|Hge].
  2:{ exists w, offset. split; [by apply uploaded_refl|]. left. split; [done|lia]. }
  destruct (Z.ltb_spec 0 (allowance w s)) as [Ha|Ha].
  - destruct (pump_turn_sends k id chunk offset s w Hok Hs Hlt Ha) as (Hn & item & Hq & Hrun).
    pose proof (ok_max _ Hok) as Hmax. pose proof (pump_turn_ok k id chunk offset w Hok) as Hok1.
    rewrite Hrun in Hok1. cbn [fst] in Hok1.
    set (n := Z.min _ _) in *. assert (n <= zlen chunk - Z.of_nat offset /\
      n <= Remote.max_frame_size (remote w)) as [Hn1 Hn2] by (unfold n; lia).
    clearbody n. unfold zlen in Hn1. rewrite (st_bind_Ok _ _ _ _ _ Hrun).
    set (w1 := set_sent _ _) in *.
    destruct (IH (offset + Z.to_nat n)%nat
      (set_send_window (SendWindow.consume n (StreamState.send_window s)) s) w1)
      as (w' & offset' & Hup & Hres); [done|by simpl; rewrite lookup_insert_eq|lia|lia|].
    exists w', offset'. split; [|exact Hres].
    apply (uploaded_step id chunk offset (offset + Z.to_nat n) offset' w w1 w' item
      (take (Z.to_nat n) (drop offset chunk))); try done; [lia| |].
    + by replace (offset + Z.to_nat n - offset)%nat with (Z.to_nat n) by lia.
    + unfold zlen. rewrite length_take, length_drop. lia.
  - destruct (pump_turn_parks k id chunk offset s w Hok Hs Ha) as (w' & Hrun & Hsent & Hp).
    rewrite (st_bind_Ok _ _ _ _ _ Hrun). exists w', offset.
    split; [by apply uploaded_refl|]. by right.
Qed.
End sending.

(** ** Theorems *)

(** A header block of any size is sent as one HEADERS frame followed by
    CONTINUATION frames, contiguous, each within the peer's frame size; exactly
    the last has END_HEADERS, END_STREAM is on the HEADERS frame, and the
    fragments put together are the block. *)
Theorem send_headers_fragments {arch : Arch} id block es w :
  conn_ok w -> closed w = false ->
  exists frags items,
    send_headers id block es w = (set_sent (sent w ++ items) w, Ok tt) /\
    Forall2 queued items (header_frames id es frags) /\ frags <> [] /\ concat frags = block /\
    Forall (fun f => zlen f <= Remote.max_frame_size (remote w)) frags.
Proof.
  intros Hok Hc. pose proof (ok_max _ Hok). destruct (ok_open _ Hok Hc).
  apply send_headers_run; [done|done|lia].
Qed.

Lemma send_headers_fragments_witness :
  exists frags items,
    send_headers (arch := host64_debug) 1 (replicate (Z.to_nat 20000) 7) true
      (connect (arch := host64_debug) default_options) =
    (set_sent (sent (connect (arch := host64_debug) default_options) ++ items)
       (connect (arch := host64_debug) default_options), Ok tt) /\
    concat frags = replicate (Z.to_nat 20000) 7 /\ frags <> [].
Proof.
  destruct (send_headers_fragments (arch := host64_debug) 1 (replicate (Z.to_nat 20000) 7) true
    (connect (arch := host64_debug) default_options)) as (frags & items & H1 & _ & H3 & H4 & _).
  - apply connect_ok.
  - vm_compute. reflexivity.
  - exists frags, items. split; [exact H1|]. split; [exact H4|exact H3].
Defined.

(** C36: Opening a request on a live connection takes the next stream id, records
    the stream with the peer's initial window, half-closed at once when there is
    no body, and queues HEADERS and CONTINUATION frames on that id whose block any
    HPACK decoder reads as the request's fields, in order, without changing its
    table. *)
Theorem request_on_the_wire {arch : Arch} {arch_ok : ArchOk arch} up init w d :
  conn_ok w -> closed w = false -> goaway_received w = false ->
  next_stream_id w + 2 < 4294967296 ->
  Forall header_ok (build_request_headers up init) ->
  exists w' frags items,
    request_open up init w = (w', Ok (next_stream_id w)) /\
    next_stream_id w' = next_stream_id w + 2 /\
    streams w' = <[next_stream_id w := opened_stream (next_stream_id w) init w]> (streams w) /\
    sent w' = sent w ++ items /\
    Forall2 queued items
      (header_frames (next_stream_id w) (body_is_empty (init_body init)) frags) /\
    HpackDecoder.decode (concat frags) d = (d, Ok (normal <$> build_request_headers up init)).
Proof.
  intros Hok Hc Hg Hid Hh.
  destruct (request_open_run up init w Hok Hc Hg Hid Hh)
    as (block & frags & items & Henc & Hcat & _ & _ & Hq & Hrun).
  destruct (headers_codec _ Hh) as (enc & Hw & _ & Hlen & Hdec).
  unfold HpackEncoder.encode in Henc. rewrite Hw in Henc. injection Henc as Henc.
  change (enc = block) in Henc.
  exists (fst (request_open up init w)), frags, items. rewrite Hrun. split_and!; try done.
  rewrite Hcat, <- Henc. unfold HpackDecoder.decode.
  by rewrite Hdec by (done || lia || apply wf_new).
Qed.

Lemma request_on_the_wire_witness :
  let w := connect (arch := host64_debug) default_options in
  exists w' frags,
    request_open (arch := host64_debug) id sample_request w = (w', Ok 1) /\
    HpackDecoder.decode (arch := host64_debug) (concat frags) HpackDecoder.default =
      (HpackDecoder.default, Ok [header (str ":method") (str "POST");
         header (str ":scheme") (str "http"); header (str ":path") (str "/")]).
Proof.
  intros w.
  destruct (@request_on_the_wire host64_debug host64_debug_ok id sample_request w
    HpackDecoder.default) as (w' & frags & items & H1 & _ & _ & _ & _ & H2).
  - apply connect_ok.
  - vm_compute. reflexivity.
  - vm_compute. reflexivity.
  - vm_compute. reflexivity.
  - apply ascii_headers_ok. vm_compute. reflexivity.
  - exists w', frags. split; [exact H1|exact H2].
Defined.

(** The peer's SETTINGS_MAX_CONCURRENT_STREAMS is respected: a turn of a
    request on a live connection opens a stream only when the open streams stay
    within the limit, and otherwise parks, sending nothing and opening nothing. *)
Theorem request_respects_limit {arch : Arch} {arch_ok : ArchOk arch} up k init w :
  conn_ok w -> closed w = false -> goaway_received w = false ->
  next_stream_id w + 2 < 4294967296 -> next_stream_id w mod 2 = 1 ->
  streams w !! next_stream_id w = None ->
  Forall header_ok (build_request_headers up init) ->
  exists w',
    (request_turn up k init w = (w', Ok (Some (next_stream_id w))) /\
       active_streams w' = active_streams w + 1 /\
       active_streams w' <= Remote.max_concurrent_streams (remote w')) \/
    (request_turn up k init w = (w', Ok None) /\
       w' = set_slot_waiters (slot_waiters w ++ [k]) w /\
       Remote.max_concurrent_streams (remote w) <= active_streams w).
Proof.
  intros Hok Hc Hg Hid Hodd Hfresh Hh. unfold request_turn.
  pose proof (request_wait_run k w) as Hwait. rewrite Hc, Hg in Hwait.
  unfold can_open_stream in Hwait.
  destruct (Z.ltb_spec (active_streams w) (Remote.max_concurrent_streams (remote w))) as [Hlt|Hge].
  - destruct (request_open_run up init w Hok Hc Hg Hid Hh)
      as (block & frags & items & _ & _ & _ & _ & _ & Hrun).
    exists (fst (request_open up init w)). left.
    rewrite (st_bind_Ok _ _ _ _ _ Hwait), (st_bind_Ok _ _ _ _ _ Hrun), Hrun. cbn [fst].
    pose proof (active_insert (next_stream_id w) (opened_stream (next_stream_id w) init w) w
      Hfresh Hodd) as Ha.
    change (active_streams (set_tasks ?t ?x)) with (active_streams x).
    change (active_streams (set_sent ?t ?x)) with (active_streams x).
    split; [done|].
    assert (active_streams (reserved init w) = active_streams w + 1) as Hr by exact Ha.
    split; [exact Hr|]. rewrite Hr. simpl. lia.
  - eexists. right. rewrite (st_bind_Ok _ _ _ _ _ Hwait). split; [reflexivity|]. split; [done|lia].
Qed.

Lemma request_respects_limit_witness :
  exists w', request_turn (arch := host64_debug) id 5 sample_request
      (connect (arch := host64_debug) default_options) = (w', Ok (Some 1)) /\
    active_streams w' = 1.
Proof.
  destruct (@request_respects_limit host64_debug host64_debug_ok id 5 sample_request
    (connect (arch := host64_debug) default_options)) as (w' & [(H1 & H2 & _)|(_ & _ & H)]).
  - apply connect_ok.
  - vm_compute. reflexivity.
  - vm_compute. reflexivity.
  - vm_compute. reflexivity.
  - vm_compute. reflexivity.
  - vm_compute. reflexivity.
  - apply ascii_headers_ok. vm_compute. reflexivity.
  - exists w'. split; [exact H1|]. rewrite H2. vm_compute. reflexivity.
  - exfalso. vm_compute in H. apply H. reflexivity.
Defined.

(** A body pump always comes back: with fuel for one turn per byte, it has
    sent the bytes of its chunk in order, from its offset to the one it reports,
    in nonempty DATA frames within the peer's frame size, and it is either done
    with the chunk or parked on a window that has no capacity. *)
Theorem pump_chunk_sends {arch : Arch} k id chunk offset s w :
  conn_ok w -> streams w !! id = Some s -> (offset <= length chunk)%nat ->
  exists w' offset', uploaded id chunk offset offset' w w' /\
    (pump_chunk (S (length chunk)) k id chunk offset w = (w', Ok (inr true)) /\
       offset' = length chunk \/
     pump_chunk (S (length chunk)) k id chunk offset w = (w', Ok (inl offset')) /\
       (offset' < length chunk)%nat /\ parked_on k id w').
Proof. intros Hok Hs Ho. apply (pump_chunk_run _ k id chunk offset s); [done..|lia]. Qed.

Lemma pump_chunk_sends_witness :
  let w := apply_op (arch := host64_debug) id (OpRequest 0 sample_request)
    (connect (arch := host64_debug) default_options) in
  exists w' offset', uploaded (arch := host64_debug) 1 (str "hello") 0 offset' w w' /\
    offset' = 5%nat.
Proof.
  intros w. destruct (streams w !! 1) as [s|] eqn:Hs; [|vm_compute in Hs; discriminate Hs].
  destruct (pump_chunk_sends (arch := host64_debug) 7 1 (str "hello") 0 s w)
    as (w' & offset' & Hup & [[_ H]|[H _]]).
  - apply apply_op_ok, connect_ok.
  - exact Hs.
  - simpl. lia.
  - exists w', offset'. split; [exact Hup|exact H].
  - vm_compute in H. discriminate H.
Defined.
