(* ===== verification/Totality.v ===== *)
(** * Totality: no input from the peer breaks the client

    [calm]: a method that always comes back with a value or an error.  The
    inbound state ([input_ok]) is the frame decoder, the header block being
    assembled and the HPACK decoder; whatever bytes arrive, handling them returns,
    keeps that state well formed and the header block bounded.  Violations.v has the
    theorem. *)

From S2P Require Import Prelude Errors Bytes Utf8 Frames FramesFacts Huffman HuffmanFacts Hpack.
From S2P Require Import HpackTable Flow Stream StreamFacts Connection ConnectionFacts FlowSafety.
From S2P Require Import Lifecycle Sending.

(** ** Methods that always return *)

Definition calm {A} (m : M A) : Prop := forall w, returns (snd (m w)).

Lemma calm_bind {A B} (m : M A) (f : A -> M B) : calm m -> (forall a, calm (f a)) -> calm (m ≫= f).
Proof.
  intros Hm Hf w. rewrite st_bind_run. specialize (Hm w).
  destruct (m w) as [w' [a|e| |]]; simpl in *; try done. apply Hf.
Qed.

Lemma calm_get_bind {B} (f : ConnState -> M B) :
  (forall w, returns (snd (f w w))) -> calm (st_get ≫= f).
Proof. intros Hf w. apply Hf. Qed.

Lemma calm_iter {A} (f : A -> M unit) l : (forall x, calm (f x)) -> calm (st_iter f l).
Proof.
  intros Hf. induction l as [|x l IH]; cbn [st_iter]; [by intros w|].
  apply calm_bind; [apply Hf|]. intros _. exact IH.
Qed.

Create HintDb calm.
#[export] Hint Extern 1 (calm (mret _)) => (intros ?; exact I) : calm.
#[export] Hint Extern 1 (calm (st_throw _)) => (intros ?; exact I) : calm.
#[export] Hint Extern 1 (calm st_get) => (intros ?; exact I) : calm.
#[export] Hint Extern 1 (calm (st_put _)) => (intros ?; exact I) : calm.
#[export] Hint Extern 1 (calm (st_modify _)) => (intros ?; exact I) : calm.
#[export] Hint Extern 1 (plain _) => exact I : calm.

Ltac calm_step :=
  match goal with
  | |- calm (_ ≫= _) => apply calm_bind; [|intros ?]
  | |- calm (st_iter _ _) => apply calm_iter; intros ?
  | |- calm (if ?b then _ else _) => destruct b
  | |- calm (match ?x with _ => _ end) => destruct x eqn:?
  end.
Ltac calm_auto := repeat calm_step; auto with calm.

(** The inbound state is as it was. *)
Definition inbound_same (w w' : ConnState) : Prop :=
  frame_decoder w' = frame_decoder w /\ pending_header_block w' = pending_header_block w /\
  decoder w' = decoder w.

#[export] Instance inbound_same_preorder : PreOrder inbound_same.
Proof.
  split; unfold inbound_same; [done|]. intros a b c (?&?&?) (?&?&?). split_and!; congruence.
Qed.

Create HintDb inbound.
#[export] Hint Extern 1 (inbound_same _ _) => (split_and!; reflexivity) : inbound.
#[export] Hint Extern 1 (ensures _ (mret _)) => apply ensures_ret; exact _ : inbound.
#[export] Hint Extern 1 (ensures _ (st_lift _)) => apply ensures_lift; exact _ : inbound.
#[export] Hint Extern 1 (ensures _ (st_throw _)) => apply ensures_throw; exact _ : inbound.
#[export] Hint Extern 1 (ensures _ st_get) => apply ensures_get; exact _ : inbound.
#[export] Hint Extern 1 (ensures _ (st_modify _)) => (apply ensures_modify; intros ?) : inbound.
Ltac inbound_auto := repeat ensures_step; auto with inbound.

Section calm_methods.
Context {arch : Arch}.

Lemma emit_calm l : calm (emit l).
Proof using Type. by intros w. Qed.
Lemma emit_inbound l : ensures inbound_same (emit l).
Proof using Type. apply ensures_modify. intros w. auto with inbound. Qed.
Lemma wake_all_calm l : calm (wake_all l).
Proof using Type. by intros w. Qed.
Lemma wake_all_inbound l : ensures inbound_same (wake_all l).
Proof using Type. apply emit_inbound. Qed.
Lemma write_raw_inbound b o : ensures inbound_same (write_raw b o).
Proof using Type.
  apply ensures_modify. intros w. destruct (negb (closed w)), (out_tx w); auto with inbound.
Qed.
Hint Resolve emit_calm wake_all_calm : calm.
Hint Resolve emit_inbound wake_all_inbound write_raw_inbound : inbound.

Lemma send_frame_calm f : plain f -> calm (send_frame f).
Proof using Type.
  intros Hf w. unfold send_frame. destruct (serialize_plain f Hf) as [b Hb].
  by rewrite Hb, st_lift_Ok.
Qed.
Lemma send_frame_inbound f : ensures inbound_same (send_frame f).
Proof using Type. unfold send_frame. inbound_auto. Qed.
Hint Resolve send_frame_calm : calm.
Hint Resolve send_frame_inbound : inbound.

Lemma on_stream_calm id f : calm (on_stream id f).
Proof using Type. unfold on_stream. calm_auto. Qed.
Lemma on_stream_inbound id f : ensures inbound_same (on_stream id f).
Proof using Type. unfold on_stream. inbound_auto. Qed.
Lemma take_stream_calm id f : calm (take_stream id f).
Proof using Type. unfold take_stream. calm_auto. Qed.
Lemma take_stream_inbound id f : ensures inbound_same (take_stream id f).
Proof using Type. unfold take_stream. inbound_auto. Qed.
Lemma wake_slot_waiters_calm : calm wake_slot_waiters.
Proof using Type. unfold wake_slot_waiters. calm_auto. Qed.
Lemma wake_slot_waiters_inbound : ensures inbound_same wake_slot_waiters.
Proof using Type. unfold wake_slot_waiters. inbound_auto. Qed.
Hint Resolve on_stream_calm take_stream_calm wake_slot_waiters_calm : calm.
Hint Resolve on_stream_inbound take_stream_inbound wake_slot_waiters_inbound : inbound.

Lemma retire_calm id : calm (retire_if_fully_closed id).
Proof using Type. unfold retire_if_fully_closed. calm_auto. Qed.
Lemma retire_inbound id : ensures inbound_same (retire_if_fully_closed id).
Proof using Type. unfold retire_if_fully_closed. inbound_auto. Qed.
Lemma reset_stream_calm id c : calm (reset_stream id c).
Proof using Type. unfold reset_stream. calm_auto. Qed.
Lemma reset_stream_inbound id c : ensures inbound_same (reset_stream id c).
Proof using Type. unfold reset_stream. inbound_auto. Qed.
Lemma guard_calm : calm guard_header_block_size.
Proof using Type. unfold guard_header_block_size. calm_auto. Qed.
Hint Resolve retire_calm reset_stream_calm guard_calm : calm.
Hint Resolve retire_inbound reset_stream_inbound : inbound.

Lemma destroy_calm e : calm (destroy e).
Proof using Type. unfold destroy. calm_auto. Qed.
Lemma destroy_inbound e : ensures inbound_same (destroy e).
Proof using Type.
  intros w. unfold ensures_at. destruct (closed w) eqn:Hc.
  { unfold destroy. rewrite st_get_bind, Hc. reflexivity. }
  destruct (destroy_run e w Hc) as (cs & ev & -> & _). by split_and!.
Qed.
Hint Resolve destroy_calm : calm.
Hint Resolve destroy_inbound : inbound.

Lemma connection_error_calm e : calm (connection_error e).
Proof using Type. unfold connection_error. calm_auto. Qed.
Lemma connection_error_inbound e : ensures inbound_same (connection_error e).
Proof using Type. unfold connection_error. inbound_auto. Qed.

Lemma apply_settings_calm s : calm (apply_remote_settings s).
Proof using Type. unfold apply_remote_settings. calm_auto. Qed.
Lemma apply_settings_inbound s : ensures inbound_same (apply_remote_settings s).
Proof using Type. unfold apply_remote_settings. inbound_auto. Qed.
End calm_methods.

#[export] Hint Resolve @emit_calm @wake_all_calm @send_frame_calm @on_stream_calm @take_stream_calm
  @wake_slot_waiters_calm @retire_calm @reset_stream_calm @guard_calm @destroy_calm
  @connection_error_calm @apply_settings_calm : calm.
#[export] Hint Resolve @emit_inbound @wake_all_inbound @write_raw_inbound @send_frame_inbound
  @on_stream_inbound @take_stream_inbound @wake_slot_waiters_inbound @retire_inbound
  @reset_stream_inbound @destroy_inbound @connection_error_inbound @apply_settings_inbound
  : inbound.

(** ** The inbound state *)

Record input_ok (w : ConnState) : Prop := {
  in_table : table_ok (decoder w);
  in_frames : decoder_ok (frame_decoder w) /\ bytes_ok (FrameDecoder.pending (frame_decoder w));
  in_pending pb : pending_header_block w = Some pb ->
    Forall bytes_ok (pb_fragments pb) /\ pb_size pb = total (pb_fragments pb);
}.

(** The header block being assembled is within the limit. *)
Definition bounded (w : ConnState) : Prop :=
  forall pb, pending_header_block w = Some pb -> pb_size pb <= MAX_HEADER_BLOCK_SIZE.

Lemma input_same w w' : inbound_same w w' -> input_ok w -> input_ok w'.
Proof. intros (E1 & E2 & E3) [I1 I2 I3]. constructor; rewrite ?E1, ?E2, ?E3; done. Qed.

Lemma bounded_same w w' : inbound_same w w' -> bounded w -> bounded w'.
Proof. intros (_ & E2 & _) H pb. rewrite E2. apply H. Qed.

(** What taking in a frame must do: return, keep the inbound state, and, when it
    succeeds, keep the header block bounded. *)
Definition came_in (r : ConnState * result unit) (w : ConnState) : Prop :=
  returns (snd r) /\ input_ok (fst r) /\ (bounded w -> snd r = Ok tt -> bounded (fst r)).
Definition takes_in (m : M unit) (w : ConnState) : Prop := came_in (m w) w.

Lemma came_in_from r w w1 : (bounded w -> bounded w1) -> came_in r w1 -> came_in r w.
Proof. intros Hb (H1 & H2 & H3). split_and!; auto. Qed.

Lemma takes_in_same m w :
  calm m -> ensures inbound_same m -> input_ok w -> takes_in m w.
Proof.
  intros Hc Hs Hi. split_and!; [apply Hc|apply (input_same w); [apply Hs|done]|].
  intros Hb _. apply (bounded_same w); [apply Hs|done].
Qed.

Section takes_in.
Context {arch : Arch} {arch_ok : ArchOk arch}.

Lemma complete_takes_in w w0 pb :
  ints_ok -> input_ok w -> pending_header_block w = Some pb -> came_in (complete_header_block w) w0.
Proof using arch_ok.
  intros Hint [I1 I2 I3] Hpb. destruct (I3 pb Hpb) as [Hfr _].
  unfold complete_header_block. rewrite st_get_bind, Hpb. cbn [expect].
  rewrite st_lift_Ok, st_put_bind. cbv zeta. rewrite st_get_bind.
  set (block := match pb_fragments pb with [f] => f | l => concat l end).
  assert (bytes_ok block) as Hblock.
  { unfold block. destruct (pb_fragments pb) as [|f [|g l]]; [constructor|by inversion Hfr|].
    by apply Forall_concat. }
  cbn [decoder set_pending_header_block].
  pose proof (decode_post block (decoder w) Hblock I1) as [Ht Hp].
  destruct (HpackDecoder.decode block (decoder w)) as [d r]. cbn [fst snd] in Ht, Hp.
  rewrite st_put_bind, st_lift_bind. set (w1 := set_decoder d _).
  assert (input_ok w1 /\ bounded w1) as [Hi1 Hb1].
  { split; [constructor; simpl; done|by intros ? ?]. }
  destruct r as [fields|e| |]; [|by split_and!|by destruct (Hp Hint)|done].
  assert (forall m : M unit, calm m -> ensures inbound_same m -> takes_in m w1) as Hsame
    by (intros m Hm Hs; by apply takes_in_same).
  apply (came_in_from _ w0 w1); [done|]. apply Hsame.
  - destruct (pb_kind pb); calm_auto.
  - destruct (pb_kind pb); inbound_auto.
    apply ensures_modify. intros x. destruct (highest_promised x <? _); auto with inbound.
Qed.

(** The end of the handling of a header block fragment. *)
Lemma fragment_takes_in (eh : bool) w w0 pb :
  ints_ok -> input_ok w -> pending_header_block w = Some pb ->
  came_in ((_ ← guard_header_block_size; if eh then complete_header_block else mret tt) w) w0.
Proof using arch_ok.
  intros Hint Hi Hpb. unfold guard_header_block_size.
  rewrite st_bind_run, st_get_bind, Hpb.
  destruct (Z.ltb_spec MAX_HEADER_BLOCK_SIZE (pb_size pb)); cbn; [by split_and!|].
  destruct eh; [by eapply complete_takes_in|]. split_and!; [done|done|].
  intros _ _ pb' Hpb'. simpl in Hpb'. rewrite Hpb in Hpb'. by injection Hpb' as <-.
Qed.

Lemma open_takes_in pb (eh : bool) w :
  ints_ok -> input_ok w -> Forall bytes_ok (pb_fragments pb) ->
  pb_size pb = total (pb_fragments pb) -> takes_in (open_header_block pb eh) w.
Proof using arch_ok.
  intros Hint [I1 I2 I3] Hf Hs. unfold takes_in, open_header_block. rewrite st_modify_bind.
  apply (fragment_takes_in eh _ _ pb Hint); [|done].
  constructor; [done|done|]. intros pb' [= <-]. done.
Qed.

Lemma dispatch_takes_in now f w :
  ints_ok -> frame_ok f -> input_ok w -> takes_in (dispatch now f) w.
Proof using arch_ok.
  intros Hint Hf Hi. unfold takes_in, dispatch, receive_goaway. rewrite st_get_bind.
  destruct (_ && _); [by split_and!|].
  assert (forall m : M unit, calm m -> ensures inbound_same m -> takes_in m w) as Hsame
    by (intros m Hm Hs; by apply takes_in_same).
  assert (forall w' (m : M unit), inbound_same w w' -> calm m -> ensures inbound_same m ->
    takes_in (_ ← st_put w'; m) w) as Hput.
  { intros w' m Hw' Hm Hs. unfold takes_in. rewrite st_put_bind. apply (came_in_from _ w w').
    - by apply bounded_same.
    - apply takes_in_same; [done|done|]. by apply (input_same w). }
  destruct f as [id d es|id frag es eh p|id p|id code|ack st|id pid frag eh|ack d|last code dbg|
    id inc|id frag eh].
  - apply Hsame; [calm_auto|inbound_auto].
  - destruct Hf as (_ & Hfrag & _). apply open_takes_in; [done|done|by repeat constructor|].
    simpl. lia.
  - by apply Hsame; [calm_auto|inbound_auto].
  - apply Hsame; [calm_auto|inbound_auto].
  - apply Hsame; destruct ack; [calm_auto|calm_auto|inbound_auto|inbound_auto].
  - destruct Hf as (_ & _ & Hfrag). apply open_takes_in; [done|done|by repeat constructor|].
    simpl. lia.
  - destruct ack; [|apply Hsame; [calm_auto|inbound_auto]].
    destruct (pings w !! d) as [x|]; [|apply Hsame; [calm_auto|inbound_auto]].
    apply Hput; [auto with inbound|calm_auto|inbound_auto].
  - apply Hput; [auto with inbound|calm_auto|inbound_auto].
  - destruct (inc =? 0); [apply Hsame; [calm_auto|inbound_auto]|].
    destruct (id =? 0); [|apply Hsame; [calm_auto|inbound_auto]].
    destruct (SendWindow.update inc (conn_send_window w)) as [win k].
    apply Hput; [auto with inbound|calm_auto|inbound_auto].
  - destruct Hf as [_ Hfrag]. destruct (pending_header_block w) as [pb|] eqn:Hpb; [|by split_and!].
    destruct (pb_stream_id pb =? id); [|by split_and!].
    destruct Hi as [I1 I2 I3]. destruct (I3 pb Hpb) as [Hfr Hsz].
    rewrite st_put_bind. set (w1 := set_pending_header_block _ w).
    eapply fragment_takes_in; [done| |reflexivity].
    constructor; [done|done|]. intros pb' [= <-]. simpl. split.
    + apply Forall_app. by repeat constructor.
    + rewrite total_app. simpl. lia.
Qed.
End takes_in.

(** ** Handling bytes *)

Lemma connection_error_Ok {arch : Arch} e w : snd (connection_error e w) = Ok tt.
Proof.
  unfold connection_error. rewrite st_get_bind.
  assert (forall w, snd (destroy e w) = Ok tt) as Hd.
  { intros w1. destruct (closed w1) eqn:Hc.
    - unfold destroy. by rewrite st_get_bind, Hc.
    - by destruct (destroy_run e w1 Hc) as (cs & ev & -> & _). }
  unfold send_frame. rewrite st_bind_run. simpl. apply Hd.
Qed.

Lemma destroy_closes e w : closed (fst (destroy e w)) = true.
Proof.
  destruct (closed w) eqn:Hc.
  - unfold destroy. by rewrite st_get_bind, Hc.
  - by destruct (destroy_run e w Hc) as (cs & ev & -> & _).
Qed.

Lemma connection_error_closes {arch : Arch} e w : closed (fst (connection_error e w)) = true.
Proof.
  unfold connection_error. rewrite st_get_bind. unfold send_frame. rewrite st_bind_run. simpl.
  apply destroy_closes.
Qed.

(** The inbound state of a connection: bounded while it is open. *)
Definition inbound_ok (w : ConnState) : Prop :=
  input_ok w /\ (closed w = false -> bounded w).

Section on_bytes.
Context {arch : Arch} {arch_ok : ArchOk arch}.

Lemma dispatch_all_takes_in now fs w :
  ints_ok -> Forall frame_ok fs -> input_ok w -> takes_in (dispatch_all now fs) w.
Proof using arch_ok.
  intros Hint Hfs. revert w. induction Hfs as [|f fs Hf _ IH]; intros w Hi; [by split_and!|].
  cbn [dispatch_all]. unfold takes_in. rewrite st_bind_run.
  destruct (dispatch_takes_in now f w Hint Hf Hi) as (H1 & H2 & H3).
  destruct (dispatch now f w) as [w' [[]|e| |]]; simpl in *; [|by split_and!|done|done].
  apply (came_in_from _ w w'); [auto|]. by apply IH.
Qed.

Lemma on_bytes_inbound now chunk w :
  ints_ok -> bytes_ok chunk -> inbound_ok w ->
  snd (on_bytes now chunk w) = Ok tt /\ inbound_ok (fst (on_bytes now chunk w)).
Proof using arch_ok.
  intros Hint Hc [[I1 [I2 I2'] I3] Hb].
  assert (closed w = true -> closed (fst (on_bytes now chunk w)) = true) as Hcl
    by (intros H; by apply (on_bytes_silent now chunk w)).
  unfold on_bytes, st_catch in *. rewrite st_get_bind in *.
  destruct (push_keeps chunk (frame_decoder w) I2 I2' Hc) as (Hd & Hp & Hfs).
  destruct (FrameDecoder.push chunk (frame_decoder w)) as [fd r]. simpl in Hd, Hp, Hfs.
  rewrite st_put_bind, st_lift_bind in *. set (w1 := set_frame_decoder fd w) in *.
  assert (input_ok w1) as Hi1 by (by constructor).
  assert (forall e w2, input_ok w2 ->
    snd (connection_error e w2) = Ok tt /\ inbound_ok (fst (connection_error e w2))) as Herr.
  { intros e w2 Hi2. split; [apply connection_error_Ok|]. split.
    - apply (input_same w2); [apply connection_error_inbound|done].
    - rewrite connection_error_closes. done. }
  destruct r as [frames|e| |]; [|by apply Herr|done|done].
  destruct (dispatch_all_takes_in now frames w1 Hint Hfs Hi1) as (H1 & H2 & H3).
  destruct (dispatch_all now frames w1) as [w2 [[]|e| |]]; simpl in *; [|by apply Herr|done|done].
  split; [done|]. split; [done|]. simpl. intros H. apply H3; [|done].
  apply Hb. destruct (closed w); [|done]. rewrite Hcl in H; done.
Qed.

(** ** The other operations leave the inbound state alone *)

Lemma inbound_ok_same w w' :
  inbound_same w w' -> (closed w = true -> closed w' = true) -> inbound_ok w -> inbound_ok w'.
Proof using Type.
  intros Hs Hc [Hi Hb]. split; [by apply (input_same w)|]. intros H.
  apply (bounded_same w); [done|]. apply Hb. destruct (closed w); [|done].
  by rewrite Hc in H.
Qed.

Lemma replenish_inbound id n : ensures inbound_same (replenish_recv_window id n).
Proof using Type. unfold replenish_recv_window. inbound_auto. Qed.
Lemma check_open_inbound : ensures inbound_same check_open.
Proof using Type. unfold check_open. inbound_auto. Qed.
Lemma send_continuations_inbound fuel id max block off :
  ensures inbound_same (send_continuations fuel id max block off).
Proof using Type.
  revert off. induction fuel as [|fuel IH]; intros off; cbn [send_continuations]; inbound_auto.
Qed.
Hint Resolve replenish_inbound check_open_inbound send_continuations_inbound : inbound.
Lemma send_headers_inbound id block es : ensures inbound_same (send_headers id block es).
Proof using Type. unfold send_headers. inbound_auto. Qed.
Hint Resolve send_headers_inbound : inbound.

Lemma pump_turn_inbound k id c o : ensures inbound_same (pump_turn k id c o).
Proof using Type.
  unfold pump_turn. apply ensures_get_bind. intros w.
  destruct (streams w !! id) as [s|]; [|apply ensures_at_of; auto with inbound].
  destruct (closed w); [apply ensures_at_of; auto with inbound|].
  destruct (negb (_ && _)).
  { apply ensures_at_put_bind; [exact _| |auto with inbound].
    destruct (negb _), (negb _); by split_and!. }
  destruct (SendWindow.is_closed _); [apply ensures_at_of; auto with inbound|].
  destruct (_ <=? 0); [apply ensures_at_of; auto with inbound|].
  apply ensures_at_put_bind; [exact _|by split_and!|inbound_auto].
Qed.

Lemma request_turn_inbound up k init : ensures inbound_same (request_turn up k init).
Proof using Type. unfold request_turn, request_wait, request_open, u32_add. inbound_auto. Qed.
Lemma body_poll_inbound id k : ensures inbound_same (body_poll_next id k).
Proof using Type. unfold body_poll_next, set_recv. inbound_auto. Qed.
Hint Resolve request_turn_inbound body_poll_inbound pump_turn_inbound : inbound.

Lemma apply_op_inbound up op w :
  ints_ok -> op_ok op w -> inbound_ok w -> inbound_ok (apply_op up op w).
Proof using arch_ok.
  intros Hint Hop Hw.
  assert (forall now chunk, op = OpRead now chunk -> inbound_ok (apply_op up op w)) as Hread.
  { intros now c ->. simpl in *. unfold read_chunk.
    destruct (negb _); [|done]. by apply on_bytes_inbound. }
  destruct op as [now c| | |k init|k now| |k id c o|id|id k|id]; [by eapply Hread|..].
  all: match goal with |- inbound_ok (apply_op _ ?op _) =>
    apply (inbound_ok_same w); [|intros H; by apply (apply_op_silent up op w)|done] end; simpl.
  - apply destroy_inbound.
  - apply destroy_inbound.
  - apply request_turn_inbound.
  - apply ensures_at_of. unfold ping. inbound_auto.
  - apply ensures_at_of. unfold close. inbound_auto.
  - apply pump_turn_inbound.
  - apply ensures_at_of. unfold pump_finish. inbound_auto.
  - apply ensures_at_of. auto with inbound.
  - apply ensures_at_of. unfold body_drop. inbound_auto.
Qed.
End on_bytes.

(** ** Every reachable state *)

Lemma connect_inbound {arch : Arch} options :
  0 <= default 4096 (opt_header_table_size options) -> inbound_ok (connect options).
Proof.
  intros Hopt. unfold connect. apply (inbound_ok_same (new_state options)).
  - change (ensures_at inbound_same (connect_writes options) (new_state options)).
    apply ensures_at_of. unfold connect_writes. inbound_auto.
  - done.
  - split; [|by intros _ pb]. constructor; simpl; [|by split; [|constructor]|done].
    unfold table_ok. simpl. split_and!; [done|lia|lia|constructor].
Qed.

Lemma run_within {arch : Arch} {arch_ok : ArchOk arch} up options fs w :
  ints_ok -> 0 <= default 4096 (opt_header_table_size options) -> run up options fs w -> inbound_ok w.
Proof.
  intros Hint Hopt. induction 1 as [|fs w op Hrun IH Hop]; [by apply connect_inbound|].
  by apply apply_op_inbound.
Qed.
