(* ===== verification/Violations.v ===== *)
(** * Violations: which frames the client answers with a connection error

    [violates] lists, frame by frame, the breaches of the protocol that [dispatch] of
    [rust/crates/h2ts-client/src/connection.rs] answers with a connection error, and the
    code of each.  The theorem adds to Totality.v that these, and only these, tear the
    connection down with a GOAWAY of that code. *)

From S2P Require Import Prelude Errors Bytes Utf8 Frames FramesFacts Huffman HuffmanFacts Hpack.
From S2P Require Import HpackTable Flow Stream StreamFacts Connection ConnectionFacts FlowSafety.
From S2P Require Import Lifecycle Sending Totality.

(** ** The breaches *)

(** A header block is a HEADERS or PUSH_PROMISE and its CONTINUATIONs, with nothing in
    between. *)
Definition in_order (w : ConnState) (f : Frame.t) : Prop :=
  match pending_header_block w, f with
  | None, Frame.Continuation _ _ _ => False
  | None, _ => True
  | Some pb, Frame.Continuation id _ _ => pb_stream_id pb = id
  | Some _, _ => False
  end.

(** The header block with the fragment of [f], and whether that ends it. *)
Definition assembled (w : ConnState) (f : Frame.t) : option (bytes * bool) :=
  match f with
  | Frame.Headers _ fragment _ eh _ | Frame.PushPromise _ _ fragment eh => Some (fragment, eh)
  | Frame.Continuation _ fragment eh =>
      match pending_header_block w with
      | Some pb => Some (concat (pb_fragments pb) ++ fragment, eh)
      | None => None
      end
  | _ => None
  end.

Section violations.
Context {arch : Arch}.

Inductive violates (w : ConnState) : Frame.t -> ErrorCode.t -> Prop :=
  | out_of_order f : ~ in_order w f -> violates w f ErrorCode.ProtocolError
  | too_long f block eh :
      in_order w f -> assembled w f = Some (block, eh) -> 1048576 < zlen block ->
      violates w f ErrorCode.EnhanceYourCalm
  | garbled f block e :
      in_order w f -> assembled w f = Some (block, true) -> zlen block <= 1048576 ->
      snd (HpackDecoder.decode block (decoder w)) = Err e ->
      violates w f ErrorCode.CompressionError
  | window_too_large s iw :
      pending_header_block w = None -> initial_window_size s = Some iw -> 2147483647 < iw ->
      violates w (Frame.Settings false s) ErrorCode.FlowControlError
  | frame_size_out_of_range s size :
      pending_header_block w = None -> max_frame_size s = Some size -> ~ 16384 <= size <= 16777215 ->
      (forall iw, initial_window_size s = Some iw -> iw <= 2147483647) ->
      violates w (Frame.Settings false s) ErrorCode.ProtocolError
  | zero_increment :
      pending_header_block w = None -> violates w (Frame.WindowUpdate 0 0) ErrorCode.ProtocolError.

(** ** Methods that do not fail *)

Definition fine {A} (m : M A) : Prop := forall w, exists a, snd (m w) = Ok a.

Lemma fine_bind {A B} (m : M A) (f : A -> M B) : fine m -> (forall a, fine (f a)) -> fine (m ≫= f).
Proof using Type.
  intros Hm Hf w. rewrite st_bind_run. destruct (Hm w) as [a Ha].
  destruct (m w) as [w' r]. simpl in Ha. rewrite Ha. apply Hf.
Qed.

Lemma fine_iter {A} (f : A -> M unit) l : (forall x, fine (f x)) -> fine (st_iter f l).
Proof using Type.
  intros Hf. induction l as [|x l IH]; cbn [st_iter]; [intros w; by eexists|].
  apply fine_bind; [apply Hf|]. intros _. exact IH.
Qed.

Lemma send_frame_fine f : plain f -> fine (send_frame f).
Proof using Type.
  intros Hf w. unfold send_frame. destruct (serialize_plain f Hf) as [b ->]. rewrite st_lift_Ok. by eexists.
Qed.
End violations.

Create HintDb fine.
#[export] Hint Extern 1 (fine (mret _)) => (intros ?; eexists; reflexivity) : fine.
#[export] Hint Extern 1 (fine st_get) => (intros ?; eexists; reflexivity) : fine.
#[export] Hint Extern 1 (fine (st_put _)) => (intros ?; eexists; reflexivity) : fine.
#[export] Hint Extern 1 (fine (st_modify _)) => (intros ?; eexists; reflexivity) : fine.
#[export] Hint Extern 1 (plain _) => exact I : fine.
#[export] Hint Resolve send_frame_fine : fine.

Ltac fine_step :=
  match goal with
  | |- fine (_ ≫= _) => apply fine_bind; [|intros ?]
  | |- fine (st_iter _ _) => apply fine_iter; intros ?
  | |- fine (if ?b then _ else _) => destruct b
  | |- fine (match ?x with _ => _ end) => destruct x eqn:?
  end.
Ltac fine_auto := repeat fine_step; auto with fine.

Section fine_methods.
Context {arch : Arch}.

Lemma on_stream_fine id f : fine (on_stream id f).
Proof using Type. unfold on_stream, wake_all, emit. fine_auto. Qed.
Lemma take_stream_fine id f : fine (take_stream id f).
Proof using Type. unfold take_stream, wake_all, emit. fine_auto. Qed.
Lemma wake_slot_waiters_fine : fine wake_slot_waiters.
Proof using Type. unfold wake_slot_waiters, emit. fine_auto. Qed.
Hint Resolve on_stream_fine take_stream_fine wake_slot_waiters_fine : fine.
Lemma retire_fine id : fine (retire_if_fully_closed id).
Proof using Type. unfold retire_if_fully_closed. fine_auto. Qed.
Lemma reset_stream_fine id c : fine (reset_stream id c).
Proof using Type. unfold reset_stream. fine_auto. Qed.
Lemma destroy_fine e : fine (destroy e).
Proof using Type. unfold destroy, wake_all, emit. fine_auto. Qed.
End fine_methods.

#[export] Hint Resolve @on_stream_fine @take_stream_fine @wake_slot_waiters_fine @retire_fine
  @reset_stream_fine @destroy_fine : fine.

(** ** What [dispatch] makes of them *)

(** What a GOAWAY is made of is as it was. *)
Definition unsaid (w w' : ConnState) : Prop :=
  closed w' = closed w /\ sent w' = sent w /\ highest_promised w' = highest_promised w.

#[export] Instance unsaid_preorder : PreOrder unsaid.
Proof. split; unfold unsaid; [done|]. intros a b c (?&?&?) (?&?&?). split_and!; congruence. Qed.

Section verdicts.
Context {arch : Arch} {arch_ok : ArchOk arch}.

Lemma fine_ok {A} (m : M A) w w' e : fine m -> m w <> (w', Err e).
Proof using Type. intros Hm E. destruct (Hm w) as [a Ha]. by rewrite E in Ha. Qed.

Lemma bind_fails {A B} (m : M A) (f : A -> M B) w w' e :
  (m ≫= f) w = (w', Err e) ->
  m w = (w', Err e) \/ exists a w1, m w = (w1, Ok a) /\ f a w1 = (w', Err e).
Proof using Type.
  rewrite st_bind_run. destruct (m w) as [w1 [a|e'| |]]; simpl; [|intros [= <- <-]; by left|done|done].
  intros H. right. by exists a, w1.
Qed.

Lemma total_concat (l : list bytes) : total l = zlen (concat l).
Proof using Type. induction l as [|x l IH]; [done|]. simpl. rewrite zlen_app. lia. Qed.

(** A header block frame: [w1] has the fragment in. *)
Record fragment_in (w : ConnState) (f : Frame.t) (block : bytes) (eh : bool) (w1 : ConnState) : Prop := {
  fr_order : in_order w f;
  fr_block : assembled w f = Some (block, eh);
  fr_same : unsaid w w1;
  fr_decoder : decoder w1 = decoder w;
  fr_pending : exists pb, pending_header_block w1 = Some pb /\ concat (pb_fragments pb) = block /\
    pb_size pb = zlen block;
}.

Definition fragment_turn (eh : bool) : M unit :=
  _ ← guard_header_block_size; if eh then complete_header_block else mret tt.

Lemma fragment_run w f block eh w1 :
  fragment_in w f block eh w1 -> table_ok (decoder w) -> bytes_ok block ->
  match fragment_turn eh w1 with
  | (w', Err e) => violates w f (H2Error.code e) /\ unsaid w w'
  | (_, Ok _) => zlen block <= 1048576 /\
      (eh = true -> exists fields, snd (HpackDecoder.decode block (decoder w)) = Ok fields)
  | _ => True
  end.
Proof using arch_ok.
  intros [Ho Ha Hu Hd (pb & Hpb & Hcat & Hsz)] Ht Hb. unfold fragment_turn, guard_header_block_size.
  rewrite st_bind_run, st_get_bind, Hpb, Hsz. change MAX_HEADER_BLOCK_SIZE with 1048576.
  destruct (Z.ltb_spec 1048576 (zlen block)) as [Hlt|Hle]; cbn [mret ST_ret fst snd st_throw].
  { split; [by eapply too_long|done]. }
  destruct eh; [|by split].
  unfold complete_header_block. rewrite st_get_bind, Hpb. cbn [expect].
  rewrite st_lift_Ok, st_put_bind. cbv zeta. rewrite st_get_bind.
  cbn [decoder set_pending_header_block]. set (whole := match pb_fragments pb with [f] => f | l => concat l end).
  assert (whole = block) as ->.
  { rewrite <- Hcat. unfold whole. destruct (pb_fragments pb) as [|x [|y l]]; [done| |done]. cbn. by rewrite app_nil_r. }
  rewrite Hd.
  pose proof (decode_post block (decoder w) Hb Ht) as [_ Hp].
  destruct (HpackDecoder.decode block (decoder w)) as [d r] eqn:Er. cbn [fst snd] in *.
  rewrite st_put_bind, st_lift_bind. destruct r as [fields|e| |]; try done.
  - match goal with |- context [?m (set_decoder d ?x)] =>
      assert (fine m) as Hm by (destruct (pb_kind pb); fine_auto); destruct (Hm (set_decoder d x)) as [a Em];
      destruct (m (set_decoder d x)) as [w2 r] end.
    simpl in Em. subst r. split; [done|]. by exists fields.
  - destruct Hp as [Hcode _]. split; [|exact Hu]. rewrite Hcode. eapply garbled; try done. by rewrite Er.
Qed.

(** The frames that carry a fragment, when they come in order. *)
Lemma dispatch_fragment now f block eh w :
  in_order w f -> assembled w f = Some (block, eh) -> frame_ok f -> input_ok w ->
  exists w1, fragment_in w f block eh w1 /\ bytes_ok block /\ dispatch now f w = fragment_turn eh w1.
Proof using Type.
  intros Ho Ha Hf [_ _ I3].
  destruct f as [|id frag es eh' p| | | |id pid frag eh'| | | |id frag eh']; try done; cbn [assembled] in Ha.
  - injection Ha as -> ->. unfold in_order in Ho. destruct (pending_header_block w) eqn:Hp; [done|].
    unfold dispatch, open_header_block. rewrite st_get_bind, Hp. cbn [bool_decide is_Some andb].
    rewrite bool_decide_false by (intros [? [=]]). cbn [andb]. rewrite st_modify_bind.
    eexists. split; [|split; [by destruct Hf as (_ & ? & _)|reflexivity]].
    split; try done; [unfold in_order; by rewrite Hp|]. eexists. split; [reflexivity|]. cbn. by rewrite app_nil_r.
  - injection Ha as -> ->. unfold in_order in Ho. destruct (pending_header_block w) eqn:Hp; [done|].
    unfold dispatch, open_header_block. rewrite st_get_bind, Hp.
    rewrite bool_decide_false by (intros [? [=]]). cbn [andb]. rewrite st_modify_bind.
    eexists. split; [|split; [by destruct Hf as (_ & _ & ?)|reflexivity]].
    split; try done; [unfold in_order; by rewrite Hp|]. eexists. split; [reflexivity|]. cbn. by rewrite app_nil_r.
  - pose proof Ho as Ho'. unfold in_order in Ho. destruct (pending_header_block w) as [pb|] eqn:Hp; [|done].
    destruct (I3 pb eq_refl) as [Hfr Hsz].
    injection Ha as <- ->. unfold dispatch. rewrite st_get_bind, Hp. cbn [is_continuation negb]. rewrite andb_false_r.
    rewrite Ho, Z.eqb_refl, st_put_bind. destruct Hf as [_ Hfrag].
    eexists. split; [|split; [|reflexivity]].
    + split; try done; [unfold assembled; by rewrite Hp|]. eexists. split; [reflexivity|]. cbn. rewrite concat_app. cbn.
      rewrite app_nil_r. split; [done|]. rewrite zlen_app, Hsz, total_concat. done.
    + apply bytes_ok_app. split; [by apply Forall_concat|done].
Qed.

Lemma dispatch_disordered now f w :
  ~ in_order w f -> exists e, dispatch now f w = (w, Err e) /\ H2Error.code e = ErrorCode.ProtocolError.
Proof using Type.
  unfold in_order, dispatch. intros Ho. rewrite st_get_bind. destruct (pending_header_block w) as [pb|] eqn:Hp.
  - rewrite bool_decide_true by eauto. destruct f; cbn [is_continuation negb andb]; try by eexists.
    rewrite st_bind_run. destruct (Z.eqb_spec (pb_stream_id pb) stream_id); [done|by eexists].
  - destruct f; try done. rewrite bool_decide_false by (intros [? [=]]). cbn [andb]. rewrite st_bind_run. by eexists.
Qed.

Lemma on_stream_unsaid id f : ensures unsaid (on_stream id f).
Proof using Type.
  unfold on_stream, wake_all, emit. apply ensures_get_bind. intros w. destruct (streams w !! id); [|done].
  destruct (f _ _) as [[s c] k]. apply ensures_at_put_bind; [exact _|by split_and!|]. apply ensures_modify. intros w'. by split_and!.
Qed.

(** A SETTINGS frame that fails, and one that breaks the protocol. *)
Lemma settings_fails s w w' e :
  pending_header_block w = None ->
  (_ ← apply_remote_settings s; send_frame (Frame.Settings true default_settings)) w = (w', Err e) ->
  violates w (Frame.Settings false s) (H2Error.code e) /\ unsaid w w'.
Proof using Type.
  intros Hp H. apply bind_fails in H as [H|(a & w1 & _ & H)]; [|by apply fine_ok in H; auto with fine].
  unfold apply_remote_settings in H.
  assert (forall m : M unit, m w = (w', Err e) -> fine m -> False) as Hfine by (intros m E Hm; by apply (fine_ok m w w' e)).
  apply bind_fails in H as [H|(a & w1 & E1 & H)].
  { destruct (initial_window_size s) as [iw|] eqn:Hi; [|done].
    destruct (Z.ltb_spec 0x7fffffff iw) as [Hlt|Hle].
    - injection H as <- <-. split; [by eapply window_too_large|done].
    - exfalso. eapply Hfine; [exact H|]. fine_auto. }
  assert (unsaid w w1 /\ forall iw, initial_window_size s = Some iw -> iw <= 2147483647) as [Hu Hiw].
  { destruct (initial_window_size s) as [iw|]; [|by injection E1 as <- _].
    destruct (Z.ltb_spec 0x7fffffff iw) as [Hlt|Hle]; [done|]. split; [|intros iw' [= <-]; lia].
    match type of E1 with ?m w = _ => assert (ensures unsaid m) as Hm end.
    { apply ensures_get_bind. intros w0. apply ensures_at_put_bind; [exact _|by split_and!|].
      apply ensures_iter; [exact _|]. intros id. apply on_stream_unsaid. }
    specialize (Hm w). unfold ensures_at in Hm. by rewrite E1 in Hm. }
  apply bind_fails in H as [H|(a2 & w2 & E2 & H)].
  - destruct (max_frame_size s) as [n|] eqn:Hn; [|done].
    destruct ((16384 <=? n) && (n <=? 16777215)) eqn:Hr; cbn [negb] in H; [done|].
    injection H as <- <-. split; [|exact Hu]. eapply frame_size_out_of_range; try done. lia.
  - exfalso. clear E2. match type of H with ?m w2 = _ => apply (fine_ok m w2 w' e); [|exact H] end. fine_auto.
Qed.

Lemma settings_breached s c w :
  violates w (Frame.Settings false s) c -> pending_header_block w = None ->
  snd ((_ ← apply_remote_settings s; send_frame (Frame.Settings true default_settings)) w) <> Ok tt.
Proof using Type.
  intros Hv Hp. unfold apply_remote_settings.
  inversion Hv as [f Hf|f b eh _ Hb _|f b e _ Hb _ _|s' iw _ Hiw Hlt|s' n _ Hn Hr Hiw|]; subst; try done.
  - unfold in_order in Hf. by rewrite Hp in Hf.
  - rewrite Hiw. destruct (Z.ltb_spec 0x7fffffff iw); [|lia]. by rewrite !st_bind_run.
  - rewrite Hn. replace (negb _) with true by lia. rewrite st_bind_run.
    match goal with |- context [snd ((?m ≫= ?k) w)] => assert (fine m) as Hm end.
    { destruct (initial_window_size s) as [iw|]; [|fine_auto]. specialize (Hiw iw eq_refl).
      destruct (Z.ltb_spec 0x7fffffff iw); [lia|]. fine_auto. }
    rewrite st_bind_run. destruct (Hm w) as [a ->]. by rewrite st_bind_run.
Qed.

Lemma in_order_dec w f : in_order w f \/ ~ in_order w f.
Proof using Type.
  unfold in_order. destruct (pending_header_block w) as [pb|], f; try tauto.
  destruct (Z.eq_dec (pb_stream_id pb) stream_id); tauto.
Qed.

(** A frame that carries no fragment, in order, comes between header blocks. *)
Lemma in_order_between w f : in_order w f -> assembled w f = None -> pending_header_block w = None.
Proof using Type. unfold in_order, assembled. intros Ho Ha. destruct (pending_header_block w), f; done. Qed.

(** Only breaches fail. *)
Lemma dispatch_fails now f w w' e :
  frame_ok f -> input_ok w -> dispatch now f w = (w', Err e) ->
  violates w f (H2Error.code e) /\ unsaid w w'.
Proof using arch_ok.
  intros Hf Hi H. destruct (in_order_dec w f) as [Ho|Ho].
  2: { destruct (dispatch_disordered now f w Ho) as (e' & E & Hc). rewrite E in H. injection H as <- <-.
    rewrite Hc. split; [by constructor|done]. }
  destruct (assembled w f) as [[block eh]|] eqn:Ha.
  { destruct (dispatch_fragment now f block eh w Ho Ha Hf Hi) as (w1 & Hfr & Hb & E). rewrite E in H.
    pose proof (fragment_run w f block eh w1 Hfr (in_table _ Hi) Hb) as Hr. by rewrite H in Hr. }
  pose proof (in_order_between w f Ho Ha) as Hp.
  assert (forall m : M unit, m w = (w', Err e) -> fine m -> False) as Hfine by (intros m E Hm; by apply (fine_ok m w w' e)).
  unfold dispatch, receive_goaway in H. rewrite st_get_bind, Hp in H.
  rewrite bool_decide_false in H by (intros [? [=]]). cbn [andb] in H.
  destruct f as [id d es|id frag es eh p|id p|id code|ack st|id pid frag eh|ack d|last code dbg|id inc|id frag eh]; try done.
  - exfalso. eapply Hfine; [exact H|]. fine_auto.
  - exfalso. eapply Hfine; [exact H|]. fine_auto.
  - destruct ack; [done|]. by apply settings_fails.
  - exfalso. eapply Hfine; [exact H|]. unfold emit. fine_auto.
  - exfalso. eapply Hfine; [exact H|]. fine_auto.
  - destruct (Z.eqb_spec inc 0) as [->|].
    + destruct (Z.eqb_spec id 0) as [->|].
      * injection H as <- <-. split; [by constructor|done].
      * exfalso. eapply Hfine; [exact H|]. auto with fine.
    + exfalso. eapply Hfine; [exact H|]. unfold wake_all, emit. fine_auto.
  - unfold in_order in Ho. by rewrite Hp in Ho.
Qed.

(** Every breach fails. *)
Lemma dispatch_breached now f w c :
  frame_ok f -> input_ok w -> violates w f c -> snd (dispatch now f w) <> Ok tt.
Proof using arch_ok.
  intros Hf Hi Hv. destruct (in_order_dec w f) as [Ho|Ho].
  2: { destruct (dispatch_disordered now f w Ho) as (e' & E & Hc). by rewrite E. }
  destruct (assembled w f) as [[block eh]|] eqn:Ha.
  { destruct (dispatch_fragment now f block eh w Ho Ha Hf Hi) as (w1 & Hfr & Hb & E). rewrite E.
    pose proof (fragment_run w f block eh w1 Hfr (in_table _ Hi) Hb) as Hr.
    destruct (fragment_turn eh w1) as [w2 [[]|e| |]]; try done. destruct Hr as [Hle Hdec].
    destruct Hv as [f Hf'|f b' eh' _ Hb' Hlt|f b' e _ Hb' _ He|s iw _ _ _|s n _ _ _ _|_]; try done;
      rewrite Ha in Hb'; injection Hb' as E1 E2; subst; [lia|]. destruct (Hdec eq_refl) as [fields Hd]. congruence. }
  pose proof (in_order_between w f Ho Ha) as Hp.
  assert (forall s, f = Frame.Settings false s -> snd (dispatch now f w) <> Ok tt) as Hset.
  { intros s ->. unfold dispatch. rewrite st_get_bind, Hp. rewrite bool_decide_false by (intros [? [=]]).
    cbn [andb]. by eapply settings_breached. }
  destruct Hv as [f Hf'|f b' eh' _ Hb' Hlt|f b' e _ Hb' _ He|s iw _ Hiw Hlt|s n _ Hn Hr Hiw|_];
    try congruence; try (by eapply Hset).
  unfold dispatch. rewrite st_get_bind, Hp. rewrite bool_decide_false by (intros [? [=]]). done.
Qed.

(** ** Tearing down *)

(** [w'] is [w] torn down with [e], the last thing queued being a GOAWAY with its code. *)
Definition torn_down (e : H2Error.t) (w w' : ConnState) : Prop :=
  let goaway := Frame.Goaway (highest_promised w) (ErrorCode.value (H2Error.code e)) [] in
  closed w' = true /\ close_error w' = Some e /\ streams w' = ∅ /\
  exists b, serialize_frame goaway = Ok b /\ sent w' = sent w ++ [mkOut b (Some goaway)].

Lemma connection_error_tears e w w2 :
  conn_ok w2 -> closed w = false -> unsaid w w2 -> torn_down e w (fst (connection_error e w2)).
Proof using Type.
  intros Hok Hc (U1 & U2 & U3). rewrite <- U1 in Hc.
  pose proof (connection_error_ok e w2 Hok) as Hok'.
  destruct (connection_error_goaway e w2 Hok Hc) as (w' & b & E & H1 & H2 & H3 & H4). unfold ensures_at in Hok'.
  rewrite E in *. cbn [fst] in *. rewrite U2, U3 in *. split; [done|]. split; [done|].
  split; [by apply (ok_closed _ Hok' H1)|]. by exists b.
Qed.

(** The rest of a chunk, from its first failure. *)
Lemma dispatch_all_app now fs1 fs2 w :
  dispatch_all now (fs1 ++ fs2) w = (_ ← dispatch_all now fs1; dispatch_all now fs2) w.
Proof using Type.
  revert w. induction fs1 as [|f fs1 IH]; intros w; [done|]. cbn [app dispatch_all].
  rewrite !st_bind_run. destruct (dispatch now f w) as [w1 [[]|e| |]]; simpl; try done.
  by rewrite IH, st_bind_run.
Qed.

Lemma dispatch_all_fails now fs w w' e :
  dispatch_all now fs w = (w', Err e) ->
  exists fs1 f fs2 w1, fs = fs1 ++ f :: fs2 /\ dispatch_all now fs1 w = (w1, Ok tt) /\ dispatch now f w1 = (w', Err e).
Proof using Type.
  revert w. induction fs as [|f fs IH]; intros w; [done|]. cbn [dispatch_all]. intros H.
  apply bind_fails in H as [H|([] & w1 & E & H)]; [by exists [], f, fs, w|].
  destruct (IH w1 H) as (fs1 & g & fs2 & w2 & -> & H1 & H2). exists (f :: fs1), g, fs2, w2.
  split; [done|]. split; [|done]. cbn [dispatch_all]. by rewrite (st_bind_Ok _ _ _ _ _ E).
Qed.

Lemma violates_fun w f c1 c2 : violates w f c1 -> violates w f c2 -> c1 = c2.
Proof using Type.
  intros H1 H2.
  assert (forall s, pending_header_block w = None -> in_order w (Frame.Settings false s)) as Hs
    by (intros s Hp; unfold in_order; by rewrite Hp).
  destruct H1; inversion H2; subst; try congruence; try done; exfalso; try by eauto.
  all: match goal with
       | H1 : assembled ?x _ = Some (?b1, _), H2 : assembled ?x _ = Some (?b2, _) |- _ =>
           assert (b1 = b2) by congruence; subst; lia
       | H : forall iw, _ -> iw <= 2147483647, Hi : initial_window_size _ = Some _ |- _ => specialize (H _ Hi); lia
       end.
Qed.
End verdicts.

(** ** Theorem *)

(** C4: The peer cannot break the client by what it sends, where [usize] has 50 bits or
    more or its arithmetic wraps (see [hpack_integer_wasm32] for the rest).  In every
    reachable state, whatever bytes a chunk holds, handling it returns normally: nothing
    panics or loops, and while the connection stays open the header block under
    assembly is within its 1 MiB limit.  Bytes that are no frames tear an open connection
    down with the decoder's error; so does the first frame that [violates] the protocol, with
    the error code of the violation; a GOAWAY with that code is the last thing queued.
    When no frame of the chunk does, all of them are handled. *)
Theorem peer_input_safe {arch : Arch} {arch_ok : ArchOk arch} up options fs w now chunk :
  50 <= usize_bits \/ overflow_checks = false ->
  0 <= default 4096 (opt_header_table_size options) ->
  run up options fs w -> bytes_ok chunk ->
  let w' := fst (on_bytes now chunk w) in
  snd (on_bytes now chunk w) = Ok tt /\
  (closed w' = false -> forall pb, pending_header_block w' = Some pb ->
     pb_size pb = zlen (concat (pb_fragments pb)) /\ pb_size pb <= 1048576) /\
  (closed w = false ->
     match FrameDecoder.push chunk (frame_decoder w) with
     | (_, Err e) => torn_down e w w'
     | (fd, Ok frames) =>
         let handled fs1 w1 := dispatch_all now fs1 (set_frame_decoder fd w) = (w1, Ok tt) in
         (forall fs1 f fs2 w1 c, frames = fs1 ++ f :: fs2 -> handled fs1 w1 -> closed w1 = false ->
            violates w1 f c -> exists e, H2Error.code e = c /\ torn_down e w1 w') /\
         ((forall fs1 f fs2 w1 c, frames = fs1 ++ f :: fs2 -> handled fs1 w1 -> ~ violates w1 f c) ->
            handled frames w')
     | _ => False
     end).
Proof.
  intros Hint Hopt Hrun Hc w'.
  pose proof (run_within up options fs w Hint Hopt Hrun) as Hw.
  destruct (on_bytes_inbound now chunk w Hint Hc Hw) as [Hr [Hi Hb]].
  split; [exact Hr|]. split.
  { intros Hopen pb Hpb. destruct (in_pending _ Hi pb Hpb) as [_ Hsz]. split; [|by apply (Hb Hopen)].
    by rewrite Hsz, total_concat. }
  intros Hopen. pose proof (run_ok up options fs w Hrun) as Hok. destruct Hw as [[I1 [I2 I2'] I3] _].
  destruct (push_keeps chunk (frame_decoder w) I2 I2' Hc) as (Hd & Hp & Hfs).
  subst w'. unfold on_bytes, st_catch. rewrite st_get_bind.
  destruct (FrameDecoder.push chunk (frame_decoder w)) as [fd r]. cbn [fst snd] in Hd, Hp, Hfs.
  rewrite st_put_bind, st_lift_bind. set (w0 := set_frame_decoder fd w).
  assert (input_ok w0) as Hi0 by (by constructor). assert (conn_ok w0) as Hok0 by (by apply (ok_same w)).
  destruct r as [frames|e| |]; try done; [|by apply connection_error_tears].
  assert (forall fs1 f fs2 w1, frames = fs1 ++ f :: fs2 -> dispatch_all now fs1 w0 = (w1, Ok tt) ->
    input_ok w1 /\ conn_ok w1 /\ frame_ok f) as Hpre.
  { intros fs1 f fs2 w1 -> E. apply Forall_app in Hfs as [Hfs1 Hfs2].
    destruct (dispatch_all_takes_in now fs1 w0 Hint Hfs1 Hi0) as (_ & H2 & _).
    pose proof (dispatch_all_ok now fs1 w0 Hok0) as H3. rewrite E in *. by inversion Hfs2. }
  split.
  - intros fs1 f fs2 w1 c E H1 Ho1 Hv. destruct (Hpre fs1 f fs2 w1 E H1) as (Hi1 & Hok1 & Hf).
    pose proof (dispatch_breached now f w1 c Hf Hi1 Hv) as Hn.
    destruct (dispatch_takes_in now f w1 Hint Hf Hi1) as (Hret & _ & _).
    pose proof (dispatch_ok now f w1 Hok1) as Hok2. unfold ensures_at in Hok2.
    destruct (dispatch now f w1) as [w2 [[]|e| |]] eqn:Ed; try done.
    destruct (dispatch_fails now f w1 w2 e Hf Hi1 Ed) as [Hve Hu].
    rewrite E, dispatch_all_app. fold w0. rewrite (st_bind_Ok _ _ _ _ _ H1). cbn [dispatch_all].
    rewrite (st_bind_Err _ _ _ _ _ Ed). exists e. split; [by eapply violates_fun|]. by apply connection_error_tears.
  - intros Hno. destruct (dispatch_all_takes_in now frames w0 Hint Hfs Hi0) as (Hret & _ & _).
    destruct (dispatch_all now frames w0) as [w2 [[]|e| |]] eqn:Ed; try done.
    destruct (dispatch_all_fails now frames w0 w2 e Ed) as (fs1 & f & fs2 & w1 & E & H1 & H2).
    destruct (Hpre fs1 f fs2 w1 E H1) as (Hi1 & _ & Hf).
    destruct (dispatch_fails now f w1 w2 e Hf Hi1 H2) as [Hve _]. exfalso. by apply (Hno fs1 f fs2 w1 (H2Error.code e) E H1).
Qed.

(** An oversized frame length; a CONTINUATION out of nowhere behind a PING; an unfinished
    header block. *)
Lemma peer_input_safe_witness :
  let w := connect (arch := host64_debug) default_options in
  let stray := [0; 0; 8; 6; 0; 0; 0; 0; 0; 1; 2; 3; 4; 5; 6; 7; 8] ++ [0; 0; 1; 9; 4; 0; 0; 0; 1; 136] in
  (exists e, torn_down (arch := host64_debug) e w
     (fst (on_bytes (arch := host64_debug) 0 [255; 255; 255; 0; 0; 0; 0; 0; 1] w))) /\
  (exists e w1, H2Error.code e = ErrorCode.ProtocolError /\
     torn_down (arch := host64_debug) e w1 (fst (on_bytes (arch := host64_debug) 0 stray w))) /\
  snd (on_bytes (arch := host64_debug) 0 [0; 0; 1; 1; 0; 0; 0; 0; 1; 136] w) = Ok tt.
Proof.
  intros w stray.
  assert (closed w = false) as Hw by (vm_compute; reflexivity).
  assert (forall chunk, forallb (fun b => (0 <=? b) && (b <? 256)) chunk = true -> bytes_ok chunk) as Hb.
  { intros chunk Hb. rewrite forallb_forall in Hb. apply Forall_forall. intros b Hin%list_elem_of_In%Hb. unfold is_u8. lia. }
  assert (50 <= @usize_bits host64_debug) as Hbits by (vm_compute; discriminate).
  assert (0 <= default 4096 (opt_header_table_size default_options)) as Htab by (vm_compute; discriminate).
  pose proof (fun chunk Hc => peer_input_safe (arch := host64_debug) id default_options [] w 0 chunk
    (or_introl Hbits) Htab (run_connect id default_options) (Hb chunk Hc)) as H.
  split; [|split].
  - destruct (H [255; 255; 255; 0; 0; 0; 0; 0; 1] eq_refl) as (_ & _ & Ht).
    specialize (Ht Hw). eexists.
    revert Ht. vm_compute (FrameDecoder.push _ _). exact (fun x => x).
  - destruct (H stray eq_refl) as (_ & _ & Ht).
    specialize (Ht Hw).
    set (fr := FrameDecoder.push stray (frame_decoder w)) in Ht.
    assert (exists fd, fr = (fd, Ok [Frame.Ping false [1; 2; 3; 4; 5; 6; 7; 8]; Frame.Continuation 1 [136] true])) as [fd E]
      by (eexists; vm_compute; reflexivity). rewrite E in Ht. destruct Ht as [Ht _].
    destruct (Ht [Frame.Ping false [1; 2; 3; 4; 5; 6; 7; 8]] (Frame.Continuation 1 [136] true) []
      (fst (dispatch_all (arch := host64_debug) 0 [Frame.Ping false [1; 2; 3; 4; 5; 6; 7; 8]] (set_frame_decoder fd w)))
      ErrorCode.ProtocolError) as (e & He & Htd); [reflexivity|reflexivity|reflexivity| |].
    + apply out_of_order. exact (fun x => x).
    + exists e. eexists. split; [exact He|exact Htd].
  - exact (proj1 (H [0; 0; 1; 1; 0; 0; 0; 0; 1; 136] eq_refl)).
Defined.
