(* ===== verification/Wire.v ===== *)
(** * Wire: what each operation may put on the wire

    [signals]: an operation that queues only control frames (SETTINGS,
    RST_STREAM, PING, GOAWAY, WINDOW_UPDATE), opens no stream, registers no pump and
    forgets the streams it resets.  Everything but requests and body pumps does just
    that. *)

From S2P Require Import Prelude Errors Bytes Utf8 Frames FramesFacts Hpack Flow Stream Connection.
From S2P Require Import ConnectionFacts FlowSafety Lifecycle Sending Totality.

(** The frames queued so far, oldest first. *)
Definition frames_out (w : ConnState) : list Frame.t := omap out_frame (sent w).

Definition signal (f : Frame.t) : Prop :=
  match f with
  | Frame.Settings _ _ | Frame.RstStream _ _ | Frame.Ping _ _ | Frame.Goaway _ _ _
  | Frame.WindowUpdate _ _ => True
  | _ => False
  end.

(** The code of the RST_STREAM that answers a PUSH_PROMISE, and nothing else. *)
Definition REFUSED : Z := ErrorCode.value ErrorCode.RefusedStream.

(** A stream reset by one of [fs], refusals aside, is gone. *)
Definition resets_gone (fs : list Frame.t) (w : ConnState) : Prop :=
  forall id code, Frame.RstStream id code ∈ fs -> code <> REFUSED -> streams w !! id = None.

Record signals (w w' : ConnState) : Prop := {
  sig_sent : exists fs, frames_out w' = frames_out w ++ fs /\ Forall signal fs /\ resets_gone fs w';
  sig_next : next_stream_id w' = next_stream_id w;
  sig_tasks : tasks w' = tasks w;
  sig_streams : dom (streams w') ⊆ dom (streams w);
}.

#[export] Instance signals_preorder : PreOrder signals.
Proof.
  split.
  - intros w. constructor; [|done..]. exists []. split; [by rewrite app_nil_r|]. split; [constructor|].
    by intros id code ?%elem_of_nil.
  - intros w1 w2 w3 [(l1 & E1 & F1 & G1) A1 B1 C1] [(l2 & E2 & F2 & G2) A2 B2 C2].
    constructor; [|congruence..|set_solver]. exists (l1 ++ l2).
    rewrite E2, E1, app_assoc. split; [done|]. split; [by apply Forall_app|].
    intros id code [H|H]%elem_of_app Hc; [|by eapply G2]. specialize (G1 id code H Hc).
    apply not_elem_of_dom in G1. apply not_elem_of_dom. set_solver.
Qed.

(** A change to the other fields only. *)
Lemma signals_same w w' :
  sent w' = sent w -> next_stream_id w' = next_stream_id w -> tasks w' = tasks w ->
  dom (streams w') ⊆ dom (streams w) -> signals w w'.
Proof.
  intros A B C D. constructor; [|done..]. exists []. unfold frames_out. rewrite A, app_nil_r.
  split; [done|]. split; [constructor|]. by intros id code ?%elem_of_nil.
Qed.

(** A control frame that resets no stream of the client. *)
Definition control (f : Frame.t) : Prop :=
  match f with Frame.RstStream _ code => code = REFUSED | f => signal f end.

Create HintDb signals.
Ltac signals_same := apply signals_same; reflexivity.
#[export] Hint Extern 1 (signals _ _) => signals_same : signals.
#[export] Hint Extern 1 (control _) => first [exact I|reflexivity] : signals.
#[export] Hint Extern 1 (ensures _ (mret _)) => apply ensures_ret; exact _ : signals.
#[export] Hint Extern 1 (ensures _ (st_lift _)) => apply ensures_lift; exact _ : signals.
#[export] Hint Extern 1 (ensures _ (st_throw _)) => apply ensures_throw; exact _ : signals.
#[export] Hint Extern 1 (ensures _ st_panic) => apply ensures_panic; exact _ : signals.
#[export] Hint Extern 1 (ensures _ st_get) => apply ensures_get; exact _ : signals.
#[export] Hint Extern 1 (ensures _ (st_modify _)) => (apply ensures_modify; intros ?) : signals.
Ltac signals_auto := repeat ensures_step; auto with signals.

Section signals_methods.
Context {arch : Arch}.

Lemma emit_signals l : ensures signals (emit l).
Proof using Type. apply ensures_modify. intros w. auto with signals. Qed.
Lemma wake_all_signals l : ensures signals (wake_all l).
Proof using Type. apply emit_signals. Qed.
Hint Resolve emit_signals wake_all_signals : signals.

Lemma send_frame_signals f : control f -> ensures signals (send_frame f).
Proof using Type.
  intros Hf.
  assert (signal f /\ forall id code, f = Frame.RstStream id code -> code = REFUSED) as [Hs Hr]
    by (destruct f; try done; split; [done|]; by intros ? ? [= _ <-]).
  unfold send_frame. apply ensures_bind; [exact _|auto with signals|intros b].
  apply ensures_modify. intros w. destruct (closed w); [reflexivity|].
  simpl. destruct (out_tx w); [|reflexivity]. constructor; try done.
  exists [f]. unfold frames_out. simpl. rewrite omap_app. simpl. split; [done|]. split; [by constructor|].
  intros id code H%list_elem_of_singleton Hc. by destruct Hc; apply (Hr id).
Qed.
Hint Resolve send_frame_signals : signals.

Lemma on_stream_signals id f : ensures signals (on_stream id f).
Proof using Type.
  unfold on_stream. apply ensures_get_bind. intros w.
  destruct (streams w !! id) as [s|] eqn:Hs; [|apply ensures_at_of; auto with signals].
  destruct (f s _) as [[s1 c1] k]. apply ensures_at_put_bind; [exact _| |auto with signals].
  apply signals_same; try done. simpl. rewrite dom_insert_L.
  assert (id ∈ dom (streams w)) by (apply elem_of_dom; eauto). set_solver.
Qed.

Lemma take_stream_signals id f : ensures signals (take_stream id f).
Proof using Type.
  unfold take_stream. apply ensures_get_bind. intros w.
  destruct (streams w !! id) as [s|]; [|apply ensures_at_of; auto with signals].
  destruct (f s _) as [[s1 c1] k]. apply ensures_at_put_bind; [exact _| |auto with signals].
  apply signals_same; try done. simpl. rewrite dom_delete_L. set_solver.
Qed.

Lemma wake_slot_waiters_signals : ensures signals wake_slot_waiters.
Proof using Type. unfold wake_slot_waiters. signals_auto. Qed.
Hint Resolve on_stream_signals take_stream_signals wake_slot_waiters_signals : signals.

Lemma retire_signals id : ensures signals (retire_if_fully_closed id).
Proof using Type. unfold retire_if_fully_closed. signals_auto. Qed.

(** [reset_stream] forgets the stream it resets. *)
Lemma reset_stream_signals id c : ensures signals (reset_stream id c).
Proof using Type.
  intros w. unfold ensures_at, reset_stream. set (rst := Frame.RstStream id (ErrorCode.value c)).
  assert (exists w1 fs, send_frame rst w = (w1, Ok tt) /\ frames_out w1 = frames_out w ++ fs /\
    (fs = [] \/ fs = [rst]) /\ next_stream_id w1 = next_stream_id w /\ tasks w1 = tasks w /\
    streams w1 = streams w) as (w1 & fs & E1 & F1 & F2 & N1 & T1 & S1).
  { unfold send_frame, write_raw, st_modify. destruct (serialize_plain rst I) as [b ->].
    rewrite st_lift_Ok. destruct (negb (closed w)); [|exists w, []; rewrite app_nil_r; split_and!; auto].
    destruct (out_tx w); [|exists w, []; rewrite app_nil_r; split_and!; auto].
    eexists _, [rst]. split; [reflexivity|]. unfold frames_out. cbn [sent set_sent]. rewrite omap_app. split_and!; auto. }
  rewrite (st_bind_Ok _ _ _ _ _ E1).
  set (fl := StreamState.fail _). destruct (take_stream_run id fl w1) as (cs & ev & E2 & _).
  pose proof (take_stream_signals id fl w1) as Hs2. unfold ensures_at in Hs2.
  rewrite (st_bind_Ok _ _ _ _ _ E2). rewrite E2 in Hs2. cbn [fst] in Hs2. set (w2 := set_events _ _) in *.
  assert (streams w2 !! id = None) as Hgone by apply lookup_delete_eq.
  etransitivity; [|apply wake_slot_waiters_signals].
  destruct Hs2 as [(l & L1 & L2 & L3) N2 T2 D2]. constructor; [|congruence..|by rewrite <- S1].
  exists (fs ++ l). rewrite L1, F1, app_assoc. split; [done|]. split.
  - apply Forall_app. split; [destruct F2 as [->| ->]; by repeat constructor|done].
  - intros i code [H|H]%elem_of_app Hc; [|by eapply L3].
    destruct F2 as [->| ->]; [by apply elem_of_nil in H|]. apply list_elem_of_singleton in H. by injection H as -> _.
Qed.
Lemma replenish_signals id n : ensures signals (replenish_recv_window id n).
Proof using Type. unfold replenish_recv_window. signals_auto. Qed.
Lemma guard_signals : ensures signals guard_header_block_size.
Proof using Type. unfold guard_header_block_size. signals_auto. Qed.
Lemma destroy_signals e : ensures signals (destroy e).
Proof using Type. unfold destroy. signals_auto. Qed.
Hint Resolve retire_signals reset_stream_signals replenish_signals guard_signals destroy_signals
  : signals.

Lemma connection_error_signals e : ensures signals (connection_error e).
Proof using Type. unfold connection_error. signals_auto. Qed.
Lemma apply_settings_signals s : ensures signals (apply_remote_settings s).
Proof using Type. unfold apply_remote_settings. signals_auto. Qed.
Lemma complete_signals : ensures signals complete_header_block.
Proof using Type.
  unfold complete_header_block. signals_auto.
  apply ensures_modify. intros w. destruct (highest_promised w <? _); auto with signals.
Qed.
Hint Resolve connection_error_signals apply_settings_signals complete_signals : signals.

Lemma open_header_block_signals pb eh : ensures signals (open_header_block pb eh).
Proof using Type. unfold open_header_block. signals_auto. Qed.
Hint Resolve open_header_block_signals : signals.

Lemma dispatch_signals now f : ensures signals (dispatch now f).
Proof using Type. unfold dispatch, receive_goaway. signals_auto. Qed.
Lemma dispatch_all_signals now fs : ensures signals (dispatch_all now fs).
Proof using Type. induction fs; cbn [dispatch_all]; signals_auto. apply dispatch_signals. Qed.
Hint Resolve dispatch_all_signals : signals.

Lemma on_bytes_signals now c : ensures signals (on_bytes now c).
Proof using Type. unfold on_bytes. apply ensures_catch; [exact _| |auto with signals]. signals_auto. Qed.
Hint Resolve on_bytes_signals : signals.

Lemma set_recv_signals id r : ensures signals (set_recv id r).
Proof using Type. apply ensures_modify. intros w. auto with signals. Qed.
Hint Resolve set_recv_signals : signals.
End signals_methods.

(** The operations that are neither requests nor turns of a pump. *)
Definition plain_op (op : conn_op) : Prop :=
  match op with OpRequest _ _ | OpPump _ _ _ _ | OpPumpFinish _ => False | _ => True end.

Lemma plain_op_signals {arch : Arch} up op w : plain_op op -> signals w (apply_op up op w).
Proof.
  destruct op as [now c| | |k init|k now| |k id c o|id|id k|id]; simpl; try done; intros _;
    apply ensures_at_of.
  - unfold read_chunk. destruct (negb _); [apply on_bytes_signals|auto with signals].
  - apply destroy_signals.
  - apply destroy_signals.
  - unfold ping. repeat ensures_step; auto using emit_signals, send_frame_signals with signals.
  - unfold close. repeat ensures_step; auto using send_frame_signals, destroy_signals with signals.
  - unfold body_poll_next.
    repeat ensures_step; auto using set_recv_signals, replenish_signals with signals.
  - unfold body_drop.
    repeat ensures_step; auto using replenish_signals, reset_stream_signals with signals.
Qed.

(** ** Requests on the wire *)

Section requests.
Context {arch : Arch}.

Lemma frames_out_queued items fs :
  Forall2 queued items fs -> omap out_frame items = fs.
Proof using Type.
  induction 1 as [|i f items fs [Hi _] _ IH]; [done|]. cbn [omap list_omap]. rewrite Hi. by f_equal.
Qed.

(** A request queues nothing, or the header frames of one block on the next stream
    id, and with a body it then registers the pump; no other stream is opened. *)
Definition requested (init : RequestInit) (w w' : ConnState) : Prop :=
  let id := next_stream_id w in
  dom (streams w') ⊆ {[id]} ∪ dom (streams w) /\
  ((frames_out w' = frames_out w /\ tasks w' = tasks w /\
     (next_stream_id w' = id \/ next_stream_id w' = id + 2)) \/
   exists frags,
     frags <> [] /\ next_stream_id w' = id + 2 /\
     frames_out w' = frames_out w ++ header_frames id (body_is_empty (init_body init)) frags /\
     tasks w' = tasks w ++ (if body_is_empty (init_body init) then [] else [(id, init_body init)])).

Lemma request_open_wire up init w :
  conn_ok w -> next_stream_id w + 2 < 4294967296 ->
  requested init w (fst (request_open up init w)).
Proof using Type.
  intros Hok Hid. unfold requested, request_open. rewrite st_bind_run.
  destruct (check_open_run w) as [(-> & Hc & _)|[e ->]]; cbn [fst snd]; [|split; [set_solver|left; by auto]].
  rewrite st_get_bind. unfold u32_add.
  destruct (Z.ltb_spec (next_stream_id w + 2) 4294967296); [|lia].
  rewrite st_lift_Ok, st_put_bind, st_modify_bind, st_lift_bind.
  destruct (HpackEncoder.encode _) as [block|e| |] eqn:Henc;
    [|split; [cbn; rewrite dom_insert_L; set_solver|left; by auto]..].
  match goal with |- context [(send_headers ?i ?b ?e ≫= _) ?w1] => set (w0 := w1) end.
  destruct (ok_open _ Hok Hc) as (Ho & _). pose proof (ok_max _ Hok) as Hmax.
  destruct (send_headers_run (next_stream_id w) block (negb (negb (body_is_empty (init_body init))))
    w0 Hc Ho) as (frags & items & Hrun & Hq & Hne & _); [simpl; lia|].
  rewrite (st_bind_Ok _ _ _ _ _ Hrun).
  assert (dom (streams w0) ⊆ {[next_stream_id w]} ∪ dom (streams w)) as Hdom
    by (unfold w0; cbn; by rewrite dom_insert_L).
  split; [by destruct (body_is_empty _)|]. right. exists frags.
  pose proof (frames_out_queued items _ Hq) as Hout. rewrite negb_involutive in Hout.
  assert (frames_out (set_sent (sent w0 ++ items) w0) = frames_out w ++
    header_frames (next_stream_id w) (body_is_empty (init_body init)) frags) as Hfr.
  { unfold frames_out. cbn [sent set_sent]. by rewrite omap_app, Hout. }
  destruct (body_is_empty (init_body init)); cbn [negb].
  - split_and!; [exact Hne|reflexivity|exact Hfr|]. by rewrite app_nil_r.
  - split_and!; [exact Hne|reflexivity|exact Hfr|reflexivity].
Qed.

Lemma request_turn_wire up k init w :
  conn_ok w -> next_stream_id w + 2 < 4294967296 ->
  requested init w (fst (request_turn up k init w)).
Proof using Type.
  intros Hok Hid. unfold request_turn. rewrite st_bind_run, request_wait_run.
  assert (forall w', frames_out w' = frames_out w -> tasks w' = tasks w -> streams w' = streams w ->
    next_stream_id w' = next_stream_id w -> requested init w w') as Hsame.
  { intros w' H1 H2 H3 H4. split; [rewrite H3; set_solver|]. left. by auto. }
  destruct (closed w); [by apply Hsame|]. destruct (goaway_received w); [by apply Hsame|].
  destruct (can_open_stream w); [|by apply Hsame]. cbn [fst snd]. rewrite st_bind_run.
  pose proof (request_open_wire up init w Hok Hid) as H.
  by destruct (request_open up init w) as [w' [i|e| |]].
Qed.
End requests.

(** ** Pumps on the wire *)

(** Nothing queued, no stream id taken, no pump registered, no stream opened. *)
Definition mute (w w' : ConnState) : Prop :=
  sent w' = sent w /\ next_stream_id w' = next_stream_id w /\ tasks w' = tasks w /\
  dom (streams w') ⊆ dom (streams w).

#[export] Instance mute_preorder : PreOrder mute.
Proof.
  split; unfold mute; [done|]. intros a b c (?&?&?&?) (?&?&?&?).
  split_and!; [congruence..|set_solver].
Qed.

Create HintDb mute.
#[export] Hint Extern 1 (mute _ _) => (split_and!; reflexivity) : mute.
#[export] Hint Extern 1 (ensures _ (mret _)) => apply ensures_ret; exact _ : mute.
#[export] Hint Extern 1 (ensures _ (st_modify _)) => (apply ensures_modify; intros ?) : mute.

(** No stream id taken, no pump registered, no stream opened. *)
Definition books (w w' : ConnState) : Prop :=
  next_stream_id w' = next_stream_id w /\ tasks w' = tasks w /\ dom (streams w') ⊆ dom (streams w).

#[export] Instance books_preorder : PreOrder books.
Proof.
  split; unfold books; [done|]. intros a b c (?&?&?) (?&?&?). split_and!; [congruence..|set_solver].
Qed.

Section pumps.
Context {arch : Arch}.
Ltac mute_auto := repeat ensures_step; auto with mute.

Lemma emit_mute l : ensures mute (emit l).
Proof using Type. apply ensures_modify. intros w. auto with mute. Qed.
Hint Resolve emit_mute : mute.
Lemma wake_all_mute l : ensures mute (wake_all l).
Proof using Type. apply emit_mute. Qed.
Hint Resolve wake_all_mute : mute.
Lemma on_stream_mute id f : ensures mute (on_stream id f).
Proof using Type.
  unfold on_stream. apply ensures_get_bind. intros w.
  destruct (streams w !! id) as [s|] eqn:Hs; [|apply ensures_at_of; auto with mute].
  destruct (f s _) as [[s1 c1] k]. apply ensures_at_put_bind; [exact _| |auto with mute].
  split_and!; try done. simpl. rewrite dom_insert_lookup_L by done. done.
Qed.
Lemma take_stream_mute id f : ensures mute (take_stream id f).
Proof using Type.
  unfold take_stream. apply ensures_get_bind. intros w.
  destruct (streams w !! id) as [s|]; [|apply ensures_at_of; auto with mute].
  destruct (f s _) as [[s1 c1] k]. apply ensures_at_put_bind; [exact _| |auto with mute].
  split_and!; try done. simpl. rewrite dom_delete_L. set_solver.
Qed.
Hint Resolve on_stream_mute take_stream_mute : mute.
Lemma retire_mute id : ensures mute (retire_if_fully_closed id).
Proof using Type. unfold retire_if_fully_closed, wake_slot_waiters. mute_auto. Qed.
Hint Resolve retire_mute : mute.

Lemma on_stream_Ok id f w : snd (on_stream id f w) = Ok tt.
Proof using Type.
  unfold on_stream. rewrite st_get_bind. destruct (streams w !! id); [|done].
  by destruct (f _ _) as [[s1 c1] k].
Qed.

Lemma retire_Ok id w : snd (retire_if_fully_closed id w) = Ok tt.
Proof using Type.
  unfold retire_if_fully_closed. rewrite st_get_bind.
  destruct (match streams w !! id with Some _ => _ | None => _ end); [|done].
  destruct (take_stream_run id (fun s c => (s, c, [])) w) as (cs & ev & H & _).
  by rewrite (st_bind_Ok _ _ _ _ _ H).
Qed.

(** The end of an upload: an END_STREAM on a live stream, nothing otherwise. *)
Lemma pump_finish_wire id w :
  conn_ok w ->
  exists w', pump_finish id w = (w', Ok tt) /\ books w w' /\
    frames_out w' = frames_out w ++
      (if bool_decide (is_Some (streams w !! id)) then [Frame.Data id [] true] else []).
Proof using Type.
  intros Hok. unfold pump_finish. rewrite st_get_bind. case_bool_decide as Hs.
  2:{ exists w. by rewrite app_nil_r. }
  destruct Hs as [s Hs]. pose proof (ok_stream_open _ _ _ Hok Hs) as Hc.
  destruct (ok_open _ Hok Hc) as (Ho & _).
  destruct (send_frame_run (Frame.Data id [] true) w I Hc Ho) as (item & [Hi _] & Hrun).
  rewrite (st_bind_Ok _ _ _ _ _ Hrun). set (w1 := set_sent _ w).
  pose proof (on_stream_mute id (fun s c => (set_local_closed s, c, [])) w1) as Hm1.
  pose proof (on_stream_Ok id (fun s c => (set_local_closed s, c, [])) w1) as Hr1.
  unfold ensures_at in Hm1. rewrite st_bind_run.
  destruct (on_stream _ _ w1) as [w2 r1]. simpl in Hm1, Hr1. subst r1. cbn [fst snd].
  pose proof (retire_mute id w2) as Hm2. pose proof (retire_Ok id w2) as Hr2.
  unfold ensures_at in Hm2. destruct (retire_if_fully_closed id w2) as [w3 r2].
  simpl in Hm2, Hr2. subst r2. destruct (transitivity Hm1 Hm2) as (M1 & M2 & M3 & M4).
  exists w3. split_and!; [done|done|]. unfold frames_out. rewrite M1. simpl.
  rewrite omap_app. simpl. by rewrite Hi.
Qed.

Lemma pump_turn_books k id chunk offset : ensures books (pump_turn k id chunk offset).
Proof using Type.
  assert (forall f, ensures books (send_frame f)) as Hsend.
  { intros f w. unfold ensures_at, send_frame, write_raw, st_modify. rewrite st_lift_bind.
    destruct (serialize_frame f); try done. simpl. by destruct (closed w), (out_tx w). }
  intros w. unfold ensures_at, pump_turn. rewrite st_get_bind.
  destruct (streams w !! id) as [s|] eqn:Hs; [|done]. destruct (closed w); [done|].
  assert (forall s', dom (<[id := s']> (streams w)) ⊆ dom (streams w)) as Hdom.
  { intros s'. by rewrite dom_insert_lookup_L. }
  destruct (negb (_ && _)); [destruct (negb _), (negb _); by repeat split; try apply Hdom|].
  destruct (SendWindow.is_closed _); [done|]. destruct (_ <=? 0); [done|].
  rewrite st_put_bind, st_lift_bind.
  destruct (expect _) as [d|e| |]; [|by repeat split; try apply Hdom..]. rewrite st_bind_run.
  match goal with |- context [send_frame ?f ?w1] => specialize (Hsend f w1);
    assert (books w w1) as H1 by (repeat split; apply Hdom);
    unfold ensures_at in Hsend; destruct (send_frame f w1) as [w2 r] end.
  by destruct r; (etransitivity; [exact H1|]).
Qed.

Lemma pump_chunk_ensures (R : ConnState -> ConnState -> Prop) `{!PreOrder R} fuel k id chunk offset :
  (forall o, ensures R (pump_turn k id chunk o)) -> ensures R (pump_chunk fuel k id chunk offset).
Proof using Type.
  intros HR. revert offset. induction fuel as [|fuel IH]; intros offset; cbn [pump_chunk].
  { apply ensures_lift. exact _. }
  destruct (offset <? length chunk)%nat; [|apply ensures_ret; exact _].
  apply ensures_bind; [exact _|apply HR|]. intros [[o|]|]; [apply IH|apply ensures_ret; exact _..].
Qed.

(** What a pump queues in one go: pieces of its chunk, in order, as DATA. *)
Record piped (id : Z) (chunk : bytes) (o o' : nat) (w w' : ConnState) : Prop := {
  pip_ok : conn_ok w';
  pip_books : books w w';
  pip_range : (o <= o' <= length chunk)%nat;
  pip_frames : exists pieces,
    frames_out w' = frames_out w ++ ((fun d => Frame.Data id d false) <$> pieces) /\
    concat pieces = take (o' - o) (drop o chunk) /\
    (pieces <> [] -> is_Some (streams w !! id));
}.

Lemma pump_chunk_wire k id chunk o w :
  conn_ok w -> (o <= length chunk)%nat ->
  exists w' r o', pump_chunk (S (length chunk)) k id chunk o w = (w', Ok r) /\
    piped id chunk o o' w w' /\
    match r with
    | inl x => x = o'
    | inr true => o' = length chunk
    | inr false => streams w !! id = None
    end.
Proof using Type.
  intros Hok Ho.
  pose proof (pump_chunk_ensures (keeps conn_ok) (S (length chunk)) k id chunk o
    (fun o => pump_turn_ok k id chunk o) w) as Hkeep.
  pose proof (pump_chunk_ensures books (S (length chunk)) k id chunk o
    (fun o => pump_turn_books k id chunk o) w) as Hbooks.
  unfold ensures_at in Hkeep, Hbooks.
  destruct (streams w !! id) as [s|] eqn:Hs.
  - destruct (pump_chunk_run (S (length chunk)) k id chunk o s w Hok Hs Ho ltac:(lia))
      as (w' & o' & [Hrange (items & pieces & H1 & H2 & H3 & _)] & Hres).
    assert (forall r, pump_chunk (S (length chunk)) k id chunk o w = (w', Ok r) ->
      piped id chunk o o' w w') as Hp.
    { intros r Hr. rewrite Hr in Hkeep, Hbooks. constructor; [by apply Hkeep|done|done|].
      exists pieces. split; [|by split; [|intros _; eexists]]. unfold frames_out. rewrite H1, omap_app.
      f_equal. by apply frames_out_queued. }
    destruct Hres as [[Hr Ho']|(Hr & _ & _)]; eexists w', _, o'; split_and!; eauto; done.
  - assert (forall o', o' = o -> piped id chunk o o' w w) as Hp.
    { intros o' ->. constructor; [done|done|lia|]. exists []. by rewrite app_nil_r, Nat.sub_diag. }
    exists w. cbn [pump_chunk]. destruct (Nat.ltb_spec o (length chunk)).
    + exists (inr false), o. unfold pump_turn. rewrite st_bind_run, st_get_bind, Hs. cbn [fst snd].
      by split_and!; [|apply Hp|].
    + exists (inr true), o. split_and!; [done|by apply Hp|lia].
Qed.
End pumps.
