(* ===== verification/Resets.v ===== *)
(** * Resets: which RST_STREAM frames refuse a promise

    Two things make the client send RST_STREAM: [reset_stream], which forgets the
    stream, and the end of a PUSH_PROMISE in [complete_header_block]
    ([rust/crates/h2ts-client/src/connection.rs]), whose REFUSED_STREAM names the id
    the peer promised.  [refuses]: nothing but a promise of the peer is refused.
    [taken_in] is the list of frames an operation acts on: those of the chunk read, up
    to and with the first that is an error. *)

From S2P Require Import Prelude Errors Bytes Utf8 Frames FramesFacts Hpack Flow Stream Connection.
From S2P Require Import ConnectionFacts FlowSafety Wire.

(** ** The frames acted on *)

Section acted.
Context {arch : Arch}.

(** The frames [dispatch_all] acts on: it stops at the first error. *)
Fixpoint acted (now : Z) (fs : list Frame.t) (w : ConnState) : list Frame.t :=
  match fs with
  | [] => []
  | f :: fs =>
      f :: match dispatch now f w with
           | (w, Ok _) => acted now fs w
           | _ => []
           end
  end.

Lemma dispatch_acted now fs w : dispatch_all now (acted now fs w) w = dispatch_all now fs w.
Proof using Type.
  revert w. induction fs as [|f fs IH]; intros w; [done|]. cbn [acted dispatch_all].
  rewrite !st_bind_run. destruct (dispatch now f w) as [w' [a|e| |]]; cbn; [apply IH|done..].
Qed.

Definition taken_in (op : conn_op) (w : ConnState) : list Frame.t :=
  match op with
  | OpRead now chunk =>
      if bool_decide (chunk = []) then []
      else
        let '(fd, r) := FrameDecoder.push chunk (frame_decoder w) in
        match r with Ok fs => acted now fs (set_frame_decoder fd w) | _ => [] end
  | _ => []
  end.
End acted.

(** ** Promises *)

(** The stream ids promised by the frames received. *)
Definition promises (fs : list Frame.t) (id : Z) : Prop :=
  exists on fragment eh, Frame.PushPromise on id fragment eh ∈ fs.

Lemma promises_app fs fs' id : promises fs id -> promises (fs ++ fs') id.
Proof. intros (on & fr & eh & H). exists on, fr, eh. apply elem_of_app. by left. Qed.

(** All that was refused, or will be at the end of the open header block, satisfies [P]. *)
Record refuses (P : Z -> Prop) (w : ConnState) : Prop := {
  rf_sent id : Frame.RstStream id REFUSED ∈ frames_out w -> P id;
  rf_pending pb : pending_header_block w = Some pb -> pb_kind pb = Push ->
    P (default 0 (pb_promised_stream_id pb));
}.

Lemma refuses_more (P Q : Z -> Prop) w : (forall id, P id -> Q id) -> refuses P w -> refuses Q w.
Proof. intros H [A B]. split; eauto. Qed.

Lemma refuses_same P w w' :
  sent w' = sent w -> pending_header_block w' = pending_header_block w -> keeps (refuses P) w w'.
Proof. intros A B [H1 H2]. split; unfold frames_out in *; rewrite ?A, ?B; auto. Qed.

(** A frame that refuses nothing. *)
Definition accepting (f : Frame.t) : Prop :=
  match f with Frame.RstStream _ code => code <> REFUSED | _ => True end.

Create HintDb refuses.
Ltac refuses_same := apply refuses_same; reflexivity.
#[export] Hint Extern 1 (keeps (refuses _) _ _) => refuses_same : refuses.
#[export] Hint Extern 1 (accepting _) => first [exact I|discriminate] : refuses.
#[export] Hint Extern 1 (ensures _ (mret _)) => apply ensures_ret; exact _ : refuses.
#[export] Hint Extern 1 (ensures _ (st_lift _)) => apply ensures_lift; exact _ : refuses.
#[export] Hint Extern 1 (ensures _ (st_throw _)) => apply ensures_throw; exact _ : refuses.
#[export] Hint Extern 1 (ensures _ st_panic) => apply ensures_panic; exact _ : refuses.
#[export] Hint Extern 1 (ensures _ st_get) => apply ensures_get; exact _ : refuses.
#[export] Hint Extern 1 (ensures _ (st_modify _)) => (apply ensures_modify; intros ?) : refuses.
Ltac refuses_auto := repeat ensures_step; auto with refuses.

Section refusals.
Context {arch : Arch} (P : Z -> Prop).
Abbreviation R := (keeps (refuses P)).

Lemma emit_refuses l : ensures R (emit l).
Proof using Type. apply ensures_modify. intros w. refuses_same. Qed.
Lemma wake_all_refuses l : ensures R (wake_all l).
Proof using Type. apply emit_refuses. Qed.
Hint Resolve emit_refuses wake_all_refuses : refuses.

(** A frame queued that may be. *)
Lemma send_refuses f : (forall id, f = Frame.RstStream id REFUSED -> P id) -> ensures R (send_frame f).
Proof using Type.
  intros Hf. unfold send_frame. apply ensures_bind; [exact _|auto with refuses|intros b].
  apply ensures_modify. intros w. destruct (negb (closed w)); [|auto with refuses].
  destruct (out_tx w); [|auto with refuses]. intros [A B]. split; [|done].
  intros id. unfold frames_out. cbn [sent set_sent]. rewrite omap_app. cbn.
  intros [H|H]%elem_of_app; [by apply A|]. apply list_elem_of_singleton in H. by apply Hf.
Qed.

Lemma send_frame_refuses f : accepting f -> ensures R (send_frame f).
Proof using Type. intros Hf. apply send_refuses. by intros id ->. Qed.
Hint Resolve send_frame_refuses : refuses.

Lemma on_stream_refuses id f : ensures R (on_stream id f).
Proof using Type. unfold on_stream. refuses_auto. Qed.
Lemma take_stream_refuses id f : ensures R (take_stream id f).
Proof using Type. unfold take_stream. refuses_auto. Qed.
Lemma wake_slot_waiters_refuses : ensures R wake_slot_waiters.
Proof using Type. unfold wake_slot_waiters. refuses_auto. Qed.
Hint Resolve on_stream_refuses take_stream_refuses wake_slot_waiters_refuses : refuses.

Lemma retire_refuses id : ensures R (retire_if_fully_closed id).
Proof using Type. unfold retire_if_fully_closed. refuses_auto. Qed.
Lemma reset_stream_refuses id c : c <> ErrorCode.RefusedStream -> ensures R (reset_stream id c).
Proof using Type.
  intros Hc. assert (accepting (Frame.RstStream id (ErrorCode.value c))) by by destruct c.
  unfold reset_stream. refuses_auto.
Qed.
Lemma replenish_refuses id n : ensures R (replenish_recv_window id n).
Proof using Type. unfold replenish_recv_window. refuses_auto. Qed.
Lemma guard_refuses : ensures R guard_header_block_size.
Proof using Type. unfold guard_header_block_size. refuses_auto. Qed.
Lemma destroy_refuses e : ensures R (destroy e).
Proof using Type. unfold destroy. refuses_auto. Qed.
Hint Extern 1 (_ <> ErrorCode.RefusedStream) => discriminate : refuses.
Hint Resolve retire_refuses reset_stream_refuses replenish_refuses guard_refuses destroy_refuses
  : refuses.

Lemma connection_error_refuses e : ensures R (connection_error e).
Proof using Type. unfold connection_error. refuses_auto. Qed.
Lemma apply_settings_refuses s : ensures R (apply_remote_settings s).
Proof using Type. unfold apply_remote_settings. refuses_auto. Qed.
Lemma set_recv_refuses id r : ensures R (set_recv id r).
Proof using Type. apply ensures_modify. intros w. refuses_same. Qed.
Hint Resolve connection_error_refuses apply_settings_refuses set_recv_refuses : refuses.

(** The end of a header block refuses the promise it makes, which the block holds. *)
Lemma complete_refuses : ensures R complete_header_block.
Proof using Type.
  intros w Hw. unfold complete_header_block. rewrite st_get_bind.
  destruct (pending_header_block w) as [pb|] eqn:Hpb; [|done]. cbn [expect].
  rewrite st_lift_Ok, st_put_bind. set (w1 := set_pending_header_block None w).
  assert (refuses P w1) as H1 by (by destruct Hw; split).
  pose proof (rf_pending _ _ Hw pb Hpb) as Hkind. clearbody w1. cbv zeta. rewrite st_get_bind.
  destruct (HpackDecoder.decode _ (decoder w1)) as [d r]. rewrite st_put_bind.
  assert (refuses P (set_decoder d w1)) as H2 by (by destruct H1; split).
  revert H2. generalize (set_decoder d w1). clear H1. intros w2.
  match goal with |- refuses P w2 -> refuses P (fst (?m w2)) => change (ensures_at R m w2) end.
  apply ensures_at_of. destruct (pb_kind pb); [refuses_auto|].
  specialize (Hkind eq_refl). repeat ensures_step; auto with refuses.
  - apply ensures_modify. intros w3. destruct (highest_promised w3 <? _); auto with refuses.
  - apply send_refuses. by intros id [= <-].
Qed.
Hint Resolve complete_refuses : refuses.

(** A header block may be opened for a promise that satisfies [P]. *)
Lemma open_header_block_refuses pb eh :
  (pb_kind pb = Push -> P (default 0 (pb_promised_stream_id pb))) -> ensures R (open_header_block pb eh).
Proof using Type.
  intros Hpb. unfold open_header_block. ensures_step; [|refuses_auto].
  apply ensures_modify. intros w [A B]. split; [done|]. by intros ? [= <-].
Qed.

Lemma dispatch_refuses now f : (forall id, promises [f] id -> P id) -> ensures R (dispatch now f).
Proof using Type.
  intros Hf. unfold dispatch, receive_goaway. apply ensures_get_bind. intros w.
  destruct (_ && _); [apply ensures_at_of; auto with refuses|].
  destruct f as [id d es|id frag es eh p|id p|id code|ack st|id pid frag eh|ack d|last code dbg|
    id inc|id frag eh].
  - refuses_auto.
  - by apply ensures_at_of, open_header_block_refuses.
  - refuses_auto.
  - refuses_auto.
  - refuses_auto.
  - apply ensures_at_of, open_header_block_refuses. intros _. apply Hf. exists id, frag, eh. by left.
  - refuses_auto.
  - refuses_auto.
  - refuses_auto.
  - destruct (pending_header_block w) as [pb|] eqn:Hpb; [|refuses_auto].
    destruct (pb_stream_id pb =? id); [|refuses_auto]. intros Hw.
    unfold ensures_at. rewrite st_put_bind.
    match goal with |- refuses P (fst (?m ?a)) => assert (refuses P a) as H1;
      [|revert H1; generalize a; intros a'; change (ensures_at R m a')] end.
    { destruct Hw as [A B]. split; [done|]. intros ? [= <-]. by apply (B pb). }
    apply ensures_at_of. refuses_auto.
Qed.

Lemma dispatch_all_refuses now fs : (forall id, promises fs id -> P id) -> ensures R (dispatch_all now fs).
Proof using Type.
  induction fs as [|f fs IH]; intros H; cbn [dispatch_all]; [auto with refuses|].
  apply ensures_bind; [exact _| |intros _].
  - apply dispatch_refuses. intros id (on & fr & eh & Hin). apply list_elem_of_singleton in Hin as <-.
    apply H. exists on, fr, eh. by left.
  - apply IH. intros id (on & fr & eh & Hin). apply H. exists on, fr, eh. by right.
Qed.

Lemma send_continuations_refuses fuel id max block offset :
  ensures R (send_continuations fuel id max block offset).
Proof using Type.
  revert offset. induction fuel as [|fuel IH]; intros offset; cbn [send_continuations]; refuses_auto.
Qed.
Hint Resolve send_continuations_refuses : refuses.
Lemma send_headers_refuses id block es : ensures R (send_headers id block es).
Proof using Type. unfold send_headers. refuses_auto. Qed.
Lemma check_open_refuses : ensures R check_open.
Proof using Type. unfold check_open. refuses_auto. Qed.
Hint Resolve send_headers_refuses check_open_refuses : refuses.
Lemma request_turn_refuses up k init : ensures R (request_turn up k init).
Proof using Type. unfold request_turn, request_wait, request_open. refuses_auto. Qed.

Lemma pump_turn_refuses k id chunk offset : ensures R (pump_turn k id chunk offset).
Proof using Type.
  unfold pump_turn. refuses_auto; by do 2 case_match; auto with refuses.
Qed.
Lemma pump_finish_refuses id : ensures R (pump_finish id).
Proof using Type. unfold pump_finish. refuses_auto. Qed.
Hint Resolve request_turn_refuses pump_turn_refuses pump_finish_refuses : refuses.

Lemma pump_body_refuses k id p : ensures R (pump_body k id p).
Proof using Type.
  assert (forall chunk offset rest, ensures R (pump_in k id chunk offset rest)) as Hin.
  { intros chunk offset rest. unfold pump_in. apply ensures_bind; [exact _| |auto with refuses].
    apply pump_chunk_ensures; [exact _|auto with refuses]. }
  unfold pump_body. destruct p as [[|chunk rest]|chunk offset rest]; [|case_bool_decide|]; refuses_auto.
Qed.

Lemma apply_op_refuses up op w :
  (forall id, promises (taken_in op w) id -> P id) -> keeps (refuses P) w (apply_op up op w).
Proof using Type.
  intros H. destruct op as [now c| | |k init|k now| |k id c o|id|id k|id]; cbn [apply_op taken_in] in *.
  - unfold read_chunk. destruct (bool_decide (c = [])); [done|]. cbn [negb].
    unfold on_bytes, st_catch. rewrite st_get_bind.
    destruct (FrameDecoder.push c (frame_decoder w)) as [fd r]. rewrite st_put_bind, st_lift_bind.
    set (w1 := set_frame_decoder fd w) in *.
    assert (R w w1) as H1 by refuses_same. etransitivity; [exact H1|].
    destruct r as [fs|e| |]; [|apply connection_error_refuses|done..].
    pose proof (dispatch_all_refuses now _ H w1) as Hd. unfold ensures_at in Hd.
    rewrite dispatch_acted in Hd.
    destruct (dispatch_all now fs w1) as [w2 [[]|e| |]]; cbn [fst] in *; [done| |done..].
    etransitivity; [exact Hd|]. apply connection_error_refuses.
  - apply destroy_refuses.
  - apply destroy_refuses.
  - apply request_turn_refuses.
  - apply (ensures_at_of R). unfold ping. refuses_auto.
  - apply (ensures_at_of R). unfold close. refuses_auto.
  - apply pump_turn_refuses.
  - apply pump_finish_refuses.
  - apply (ensures_at_of R). unfold body_poll_next. refuses_auto.
  - apply (ensures_at_of R). unfold body_drop. refuses_auto.
Qed.
End refusals.

Lemma connect_refuses {arch : Arch} options P : refuses P (connect options).
Proof.
  split; [|by unfold connect, connect_writes; destruct (0 <? _)].
  intros id. unfold connect, connect_writes. destruct (0 <? _); cbn; set_solver.
Qed.
