(* ===== verification/Posted.v ===== *)
(** * Posted: what is queued can be read back

    Every item the connection queues after the preface is the serialization of one
    frame that a decoder reads back ([posts], followed through all the methods).  The
    serializer clears the reserved bit of stream ids and increments ([masked]). *)

From S2P Require Import Prelude Errors Bytes Utf8 Frames FramesFacts Hpack HpackFacts HpackTheorems Flow.
From S2P Require Import Stream Connection ConnectionFacts FlowSafety Lifecycle Sending Totality Wire.

(** ** Frames as they are read back *)

Notation low z := (Z.land z 2147483647).

Definition masked (f : Frame.t) : Frame.t :=
  match f with
  | Frame.Data i d es => Frame.Data (low i) d es
  | Frame.Headers i frag es eh p => Frame.Headers (low i) frag es eh p
  | Frame.Priority i p => Frame.Priority (low i) p
  | Frame.RstStream i code => Frame.RstStream (low i) code
  | Frame.Settings ack s => Frame.Settings ack s
  | Frame.PushPromise i promised frag eh => Frame.PushPromise (low i) (low promised) frag eh
  | Frame.Ping ack d => Frame.Ping ack d
  | Frame.Goaway last code debug => Frame.Goaway (low last) code debug
  | Frame.WindowUpdate i inc => Frame.WindowUpdate (low i) (low inc)
  | Frame.Continuation i frag eh => Frame.Continuation (low i) frag eh
  end.

Lemma low_low z : low (low z) = low z.
Proof. by rewrite land_31_id by apply land_31_range. Qed.

Lemma serialize_masked {arch : Arch} f : serialize_frame (masked f) = serialize_frame f.
Proof.
  destruct f; cbn [masked]; try done; unfold serialize_frame, frame_header;
    cbn [encode_body]; unfold encode_goaway, encode_window_update; try destruct priority; cbn;
    rewrite ?low_low; try done; by destruct (write_priority _ _) as [?| | |]; cbn; rewrite ?low_low.
Qed.

(** The largest payload a frame can announce. *)
Definition MAX_PAYLOAD : Z := 16777215.

(** A frame that is read back, but for the reserved bits. *)
Definition wireable (f : Frame.t) : Prop := sendable MAX_PAYLOAD (masked f).

(** What is queued: the frame and its bytes. *)
Definition post {arch : Arch} (item : OutItem) (f : Frame.t) : Prop := queued item f /\ wireable f.

Definition sends {arch : Arch} (w w' : ConnState) : Prop :=
  exists items fs, sent w' = sent w ++ items /\ Forall2 post items fs.

#[export] Instance sends_preorder {arch : Arch} : PreOrder sends.
Proof.
  split; [intros w; exists [], []; by rewrite app_nil_r|].
  intros w1 w2 w3 (i1 & f1 & E1 & H1) (i2 & f2 & E2 & H2). exists (i1 ++ i2), (f1 ++ f2).
  rewrite E2, E1, app_assoc. split; [done|by apply Forall2_app].
Qed.

(** The method queues such items, and leaves the frame decoder alone. *)
Definition posts {arch : Arch} (w w' : ConnState) : Prop := sends w w' /\ frame_decoder w' = frame_decoder w.

#[export] Instance posts_preorder {arch : Arch} : PreOrder posts.
Proof.
  split; [by intros w|]. intros w1 w2 w3 [H1 E1] [H2 E2]. split; [by transitivity w2|congruence].
Qed.

Lemma posts_same {arch : Arch} w w' : sent w' = sent w -> frame_decoder w' = frame_decoder w -> posts w w'.
Proof. intros E1 E2. split; [|done]. exists [], []. by rewrite E1, app_nil_r. Qed.

Create HintDb posts.
#[export] Hint Extern 1 (posts _ _) => apply posts_same; reflexivity : posts.
#[export] Hint Extern 1 (ensures _ (mret _)) => apply ensures_ret; exact _ : posts.
#[export] Hint Extern 1 (ensures _ (st_lift _)) => apply ensures_lift; exact _ : posts.
#[export] Hint Extern 1 (ensures _ (st_throw _)) => apply ensures_throw; exact _ : posts.
#[export] Hint Extern 1 (ensures _ st_panic) => apply ensures_panic; exact _ : posts.
#[export] Hint Extern 1 (ensures _ st_get) => apply ensures_get; exact _ : posts.
#[export] Hint Extern 2 (ensures _ (st_modify _)) => (apply ensures_modify; intros ?) : posts.
Ltac posts_auto := repeat ensures_step; auto with posts.

(** *** The frames a client sends *)

Lemma wireable_rst i code : is_u32 code -> wireable (Frame.RstStream i code).
Proof. intros H. split; [|by cbn]. split; [apply land_31_range|done]. Qed.

Lemma wireable_window i inc : wireable (Frame.WindowUpdate i inc).
Proof. split; [|by cbn]. split; apply land_31_range. Qed.

Lemma wireable_goaway last code : is_u32 code -> wireable (Frame.Goaway last code []).
Proof. intros H. split; [|by cbn]. split_and!; [apply land_31_range|done|constructor]. Qed.

Lemma wireable_ping ack d : length d = 8%nat -> bytes_ok d -> wireable (Frame.Ping ack d).
Proof. intros H1 H2. split; [by split|by cbn]. Qed.

Lemma wireable_ack : wireable (Frame.Settings true default_settings).
Proof. split; [|by cbn]. by split. Qed.

Lemma wireable_data i d es : bytes_ok d -> zlen d <= MAX_PAYLOAD -> wireable (Frame.Data i d es).
Proof. intros H1 H2. split; [|unfold MAX_PAYLOAD in *; cbn; lia]. split; [apply land_31_range|done]. Qed.

Lemma wireable_headers i d es eh : bytes_ok d -> zlen d <= MAX_PAYLOAD -> wireable (Frame.Headers i d es eh None).
Proof. intros H1 H2. split; [|unfold MAX_PAYLOAD in *; cbn; lia]. by split_and!; [apply land_31_range| |]. Qed.

Lemma wireable_continuation i d eh : bytes_ok d -> zlen d <= MAX_PAYLOAD -> wireable (Frame.Continuation i d eh).
Proof. intros H1 H2. split; [|unfold MAX_PAYLOAD in *; cbn; lia]. split; [apply land_31_range|done]. Qed.

Lemma value_u32 c : is_u32 (ErrorCode.value c).
Proof. by destruct c. Qed.
#[export] Hint Resolve wireable_window wireable_ack value_u32 wireable_rst wireable_goaway wireable_ping : posts.

Section methods.
Context {arch : Arch}.

Lemma emit_posts l : ensures posts (emit l).
Proof using Type. apply ensures_modify. intros w. auto with posts. Qed.
Lemma wake_all_posts l : ensures posts (wake_all l).
Proof using Type. apply emit_posts. Qed.
Hint Resolve emit_posts wake_all_posts : posts.

Lemma send_frame_posts f : wireable f -> ensures posts (send_frame f).
Proof using Type.
  intros Hf w. unfold ensures_at, send_frame. rewrite st_lift_bind.
  destruct (serialize_frame f) as [b|e| |] eqn:E; [|reflexivity..].
  unfold write_raw, st_modify. cbn. destruct (closed w), (out_tx w); cbn; auto with posts.
  split; [|done]. exists [mkOut b (Some f)], [f]. split; [done|]. constructor; [by split|constructor].
Qed.
Hint Resolve send_frame_posts : posts.

Lemma on_stream_posts i f : ensures posts (on_stream i f).
Proof using Type. unfold on_stream. posts_auto. Qed.
Lemma take_stream_posts i f : ensures posts (take_stream i f).
Proof using Type. unfold take_stream. posts_auto. Qed.
Lemma wake_slot_waiters_posts : ensures posts wake_slot_waiters.
Proof using Type. unfold wake_slot_waiters. posts_auto. Qed.
Hint Resolve on_stream_posts take_stream_posts wake_slot_waiters_posts : posts.

Lemma retire_posts i : ensures posts (retire_if_fully_closed i).
Proof using Type. unfold retire_if_fully_closed. posts_auto. Qed.
Lemma reset_stream_posts i c : ensures posts (reset_stream i c).
Proof using Type. unfold reset_stream. posts_auto. Qed.
Lemma replenish_posts i n : ensures posts (replenish_recv_window i n).
Proof using Type. unfold replenish_recv_window. posts_auto. Qed.
Lemma guard_posts : ensures posts guard_header_block_size.
Proof using Type. unfold guard_header_block_size. posts_auto. Qed.
Lemma destroy_posts e : ensures posts (destroy e).
Proof using Type. unfold destroy. posts_auto. Qed.
Hint Resolve retire_posts reset_stream_posts replenish_posts guard_posts destroy_posts : posts.

Lemma connection_error_posts e : ensures posts (connection_error e).
Proof using Type. unfold connection_error. posts_auto. Qed.
Lemma apply_settings_posts s : ensures posts (apply_remote_settings s).
Proof using Type. unfold apply_remote_settings. posts_auto. Qed.
Lemma complete_posts : ensures posts complete_header_block.
Proof using Type.
  unfold complete_header_block. posts_auto.
  apply ensures_modify. intros w. destruct (highest_promised w <? _); auto with posts.
Qed.
Hint Resolve connection_error_posts apply_settings_posts complete_posts : posts.
Lemma open_header_block_posts pb eh : ensures posts (open_header_block pb eh).
Proof using Type. unfold open_header_block. posts_auto. Qed.
Hint Resolve open_header_block_posts : posts.

Lemma dispatch_posts now f : frame_ok f -> ensures posts (dispatch now f).
Proof using Type. intros Hf. unfold dispatch, receive_goaway. posts_auto; cbn in Hf; destruct_and?; auto with posts. Qed.
Lemma dispatch_all_posts now fs : Forall frame_ok fs -> ensures posts (dispatch_all now fs).
Proof using Type.
  induction 1 as [|f fs Hf _ IH]; cbn [dispatch_all]; [auto with posts|].
  apply ensures_bind; [exact _|by apply dispatch_posts|done].
Qed.
End methods.

#[export] Hint Resolve @emit_posts @wake_all_posts @send_frame_posts @on_stream_posts @take_stream_posts
  @wake_slot_waiters_posts @retire_posts @reset_stream_posts @replenish_posts @guard_posts @destroy_posts
  @connection_error_posts @apply_settings_posts : posts.

(** ** Operations *)

(** Strings are UTF-8 and bodies are bytes. *)
Definition request_ok (up : bytes -> bytes) (init : RequestInit) : Prop :=
  Forall header_ok (build_request_headers up init) /\ Forall bytes_ok (body_chunks (init_body init)).

Definition post_ok (up : bytes -> bytes) (op : conn_op) : Prop :=
  match op with
  | OpRequest _ init => request_ok up init
  | OpPump _ _ chunk _ => bytes_ok chunk
  | _ => True
  end.

Section operations.
Context {arch : Arch} {arch_ok : ArchOk arch}.

(** The frame decoder after an operation. *)
Definition decoder_after (op : conn_op) (w : ConnState) : FrameDecoder.t :=
  match op with
  | OpRead _ chunk =>
      if negb (bool_decide (chunk = [])) then fst (FrameDecoder.push chunk (frame_decoder w)) else frame_decoder w
  | _ => frame_decoder w
  end.

Lemma on_bytes_posts now chunk w :
  decoder_ok (frame_decoder w) -> bytes_ok (FrameDecoder.pending (frame_decoder w)) -> bytes_ok chunk ->
  posts (set_frame_decoder (fst (FrameDecoder.push chunk (frame_decoder w))) w) (fst (on_bytes now chunk w)).
Proof using Type.
  intros Hd Hp Hc. unfold on_bytes, st_catch. rewrite st_get_bind.
  destruct (push_keeps chunk (frame_decoder w) Hd Hp Hc) as (_ & _ & Hfs).
  destruct (FrameDecoder.push chunk (frame_decoder w)) as [fd r]. cbn [fst snd] in *.
  rewrite st_put_bind, st_lift_bind. set (w1 := set_frame_decoder fd w).
  destruct r as [frames|e| |]; [|apply connection_error_posts|done|done].
  pose proof (dispatch_all_posts now frames Hfs w1) as H2. unfold ensures_at in H2.
  destruct (dispatch_all now frames w1) as [w2 [[]|e| |]]; cbn [fst] in H2 |- *;
    try done. etransitivity; [exact H2|apply connection_error_posts].
Qed.

Lemma header_frames_wireable i es frags :
  Forall bytes_ok frags -> Forall (fun f => zlen f <= MAX_PAYLOAD) frags ->
  Forall wireable (header_frames i es frags).
Proof using Type.
  intros H1 H2. destruct frags as [|f frags]; [constructor|].
  apply Forall_cons in H1 as [Hf H1]. apply Forall_cons in H2 as [Hl H2].
  constructor; [by apply wireable_headers|]. clear f Hf Hl.
  induction frags as [|f frags IH]; [constructor|].
  apply Forall_cons in H1 as [Hf H1]. apply Forall_cons in H2 as [Hl H2].
  cbn [continuations]. destruct frags; constructor; auto using wireable_continuation.
Qed.

Lemma bytes_ok_concat l : bytes_ok (concat l) -> Forall bytes_ok l.
Proof using Type.
  induction l as [|x l IH]; [constructor|]. cbn. intros [H1 H2]%bytes_ok_app. constructor; auto.
Qed.

Lemma posts_items w items fs : Forall2 queued items fs -> Forall wireable fs -> posts w (set_sent (sent w ++ items) w).
Proof using Type.
  intros H1 H2. split; [|done]. exists items, fs. split; [done|]. revert H2. induction H1; intros H2; [constructor|].
  apply Forall_cons in H2 as [? ?]. constructor; [by split|auto].
Qed.

Lemma request_open_posts up init w :
  conn_ok w -> request_ok up init -> posts w (fst (request_open up init w)).
Proof using arch_ok.
  intros Hok [Hh _]. unfold request_open. rewrite st_bind_run.
  destruct (check_open_run w) as [(-> & Hc & _)|[e ->]]; cbn [fst snd]; [|reflexivity].
  rewrite st_get_bind, st_lift_bind.
  destruct (u32_add (next_stream_id w) 2) as [next|e| |]; [|reflexivity..].
  rewrite st_put_bind, st_modify_bind, st_lift_bind.
  destruct (headers_codec _ Hh) as (enc & Hw & Hbok & _). unfold HpackEncoder.encode. rewrite Hw.
  unfold ByteWriter.into_vec, ByteWriter.new. cbn [app mbind outcome_bind mret outcome_ret].
  match goal with |- context [(send_headers ?i ?b ?e ≫= _) ?w1] => set (w0 := w1) end.
  destruct (ok_open _ Hok Hc) as (Ho & _). pose proof (ok_max _ Hok) as Hmax.
  destruct (send_headers_run (next_stream_id w) enc (negb (negb (body_is_empty (init_body init))))
    w0 Hc Ho) as (frags & items & Hrun & Hq & _ & Hcat & Hlen); [simpl; lia|].
  rewrite (st_bind_Ok _ _ _ _ _ Hrun).
  assert (posts w (set_sent (sent w0 ++ items) w0)) as H.
  { apply (transitivity (y := w0)); [by apply posts_same|]. apply (posts_items w0 items _ Hq).
    apply header_frames_wireable; [apply bytes_ok_concat; by rewrite Hcat|].
    eapply Forall_impl; [exact Hlen|]. cbn. unfold MAX_PAYLOAD. intros f ?. change (remote w0) with (remote w) in *. lia. }
  clear Hrun. destruct (body_is_empty (init_body init)); cbn [negb]; [exact H|].
  etransitivity; [exact H|by apply posts_same].
Qed.

Lemma request_turn_posts up k init w :
  conn_ok w -> request_ok up init -> posts w (fst (request_turn up k init w)).
Proof using arch_ok.
  intros Hok Hr. unfold request_turn. rewrite st_bind_run, request_wait_run.
  destruct (closed w), (goaway_received w); try reflexivity.
  destruct (can_open_stream w); [|by apply posts_same]. cbn [fst snd]. rewrite st_bind_run.
  pose proof (request_open_posts up init w Hok Hr) as H. by destruct (request_open up init w) as [w' [i|e| |]].
Qed.

Lemma pump_turn_posts k i chunk offset w :
  conn_ok w -> bytes_ok chunk -> posts w (fst (pump_turn k i chunk offset w)).
Proof using Type.
  intros Hok Hb. unfold pump_turn. rewrite st_get_bind.
  destruct (streams w !! i) as [s|]; [|reflexivity]. destruct (closed w); [reflexivity|].
  destruct (negb (_ && _)); [by destruct (negb _), (negb _); apply posts_same|].
  destruct (SendWindow.is_closed _); [reflexivity|]. cbv zeta.
  match goal with |- context [if ?g <=? 0 then _ else _] => set (n := g) end.
  destruct (Z.leb_spec n 0); [reflexivity|]. rewrite st_put_bind, st_lift_bind. unfold slice.
  case_decide; cbn [expect]; [|by apply posts_same]. set (data := take _ _).
  match goal with |- context [(_ ≫= _) ?w1] => set (w0 := w1) end.
  pose proof (ok_max _ Hok) as Hmax.
  assert (wireable (Frame.Data i data false)) as Hd.
  { apply wireable_data; [by apply bytes_ok_take, bytes_ok_drop|].
    unfold data, MAX_PAYLOAD, zlen. rewrite length_take. unfold n in *. lia. }
  pose proof (send_frame_posts _ Hd w0) as H1. unfold ensures_at in H1. rewrite st_bind_run.
  apply (transitivity (y := w0)); [by apply posts_same|].
  by destruct (send_frame _ w0) as [w1 [[]|e| |]].
Qed.

Lemma apply_op_posts up op w :
  conn_ok w -> decoder_ok (frame_decoder w) /\ bytes_ok (FrameDecoder.pending (frame_decoder w)) ->
  op_ok op w -> post_ok up op ->
  sends w (apply_op up op w) /\ frame_decoder (apply_op up op w) = decoder_after op w.
Proof using arch_ok.
  intros Hok [Hd Hp] Hop Hpo. destruct op as [now c| | |k init|k now| |k i c o|i|i k|i]; cbn in Hop, Hpo |- *;
    [|change (posts w (apply_op up OpReadEnd w))|change (posts w (apply_op up OpWriteFailed w))
     |change (posts w (apply_op up (OpRequest k init) w))|change (posts w (apply_op up (OpPing k now) w))
     |change (posts w (apply_op up OpClose w))|change (posts w (apply_op up (OpPump k i c o) w))
     |change (posts w (apply_op up (OpPumpFinish i) w))|change (posts w (apply_op up (OpBodyPoll i k) w))
     |change (posts w (apply_op up (OpBodyDrop i) w))]; cbn [apply_op].
  - unfold read_chunk. destruct (negb _); [|by split]. exact (on_bytes_posts now c w Hd Hp Hop).
  - apply destroy_posts.
  - apply destroy_posts.
  - by apply request_turn_posts.
  - apply ensures_at_of. unfold ping. posts_auto. apply send_frame_posts, wireable_ping; [done|].
    apply bytes_ok_app. split; [repeat constructor; done|apply u32_to_be_ok].
  - apply ensures_at_of. unfold close. posts_auto. by apply send_frame_posts, wireable_goaway.
  - by apply pump_turn_posts.
  - apply ensures_at_of. unfold pump_finish. posts_auto. apply send_frame_posts, wireable_data; [constructor|done].
  - apply ensures_at_of. unfold body_poll_next, set_recv. posts_auto.
  - apply ensures_at_of. unfold body_drop. posts_auto.
Qed.
End operations.

(** ** Pumps *)

Definition pump_bytes (p : pump_state) : Prop :=
  match p with
  | PumpNext rest => Forall bytes_ok rest
  | PumpChunk chunk _ rest => bytes_ok chunk /\ Forall bytes_ok rest
  end.

(** With the invariant of the connection, which fixes the peer's frame size. *)
Definition posts_ok {arch : Arch} (w w' : ConnState) : Prop := conn_ok w -> conn_ok w' /\ posts w w'.

#[export] Instance posts_ok_preorder {arch : Arch} : PreOrder posts_ok.
Proof.
  split; unfold posts_ok; [done|]. intros w1 w2 w3 H1 H2 H. destruct (H1 H) as [K1 K2].
  destruct (H2 K1) as [K3 K4]. split; [done|by transitivity w2].
Qed.

Section pump.
Context {arch : Arch} {arch_ok : ArchOk arch}.

Lemma pump_body_posts k i p w :
  pump_bytes p -> conn_ok w ->
  posts w (fst (pump_body k i p w)) /\
  forall p', snd (pump_body k i p w) = Ok (Some p') -> pump_bytes p'.
Proof using arch_ok.
  intros Hp Hok.
  assert (forall chunk offset rest, bytes_ok chunk -> Forall bytes_ok rest ->
    posts w (fst (pump_in k i chunk offset rest w)) /\
    forall p', snd (pump_in k i chunk offset rest w) = Ok (Some p') -> pump_bytes p') as Hin.
  { intros chunk offset rest Hc Hrest. unfold pump_in. rewrite st_bind_run.
    pose proof (pump_chunk_ensures posts_ok (S (length chunk)) k i chunk offset) as H.
    specialize (H (fun o w1 Hw1 => conj (pump_turn_ok k i chunk o w1 Hw1) (pump_turn_posts k i chunk o w1 Hw1 Hc)) w Hok).
    destruct H as [_ H]. destruct (pump_chunk _ k i chunk offset w) as [w1 [[o|[]]|e| |]]; cbn in *;
      split; try done; by intros p' [= <-]. }
  destruct p as [[|chunk rest]|chunk offset rest]; cbn [pump_body pump_bytes] in *.
  - rewrite st_bind_run. destruct (pump_finish i w) as [w1 [[]|e| |]] eqn:E; cbn in *; (split; [|done]).
    all: assert (ensures posts (pump_finish i)) as He
      by (unfold pump_finish; posts_auto; apply send_frame_posts, wireable_data; [constructor|done]).
    all: specialize (He w); unfold ensures_at in He; by rewrite E in He.
  - apply Forall_cons in Hp as [H1 H2]. case_bool_decide; [|by apply Hin].
    split; [reflexivity|]. by intros p' [= <-].
  - destruct Hp. by apply Hin.
Qed.
End pump.

(** ** Reading it back *)

Definition posted {arch : Arch} (w : ConnState) : Prop :=
  exists items fs, sent w = mkOut CONNECTION_PREFACE None :: items /\ Forall2 post items fs.

Lemma posted_step {arch : Arch} w w' : sends w w' -> posted w -> posted w'.
Proof.
  intros (i2 & f2 & E2 & H2) (i1 & f1 & E1 & H1). exists (i1 ++ i2), (f1 ++ f2).
  rewrite E2, E1. split; [done|by apply Forall2_app].
Qed.

(** The options are the integers of their types. *)
Definition options_ok (options : ConnectOptions) : Prop := opt_ok is_u32 (opt_initial_window_size options).

Lemma connect_posted {arch : Arch} options : options_ok options -> posted (connect options).
Proof.
  intros Ho. unfold connect, connect_writes.
  assert (wireable (Frame.Settings false (mkSettings (Some (as_u32 (default 4096 (opt_header_table_size options))))
    (Some (default true (opt_enable_push options))) None
    (Some (default (1024 * 1024) (opt_initial_window_size options)))
    (Some (as_u32 (default DEFAULT_MAX_FRAME_SIZE (opt_max_frame_size options)))) None))) as Hs.
  { split; [|by cbn]. split; [|done]. unfold settings_ok, as_u32, is_u32. cbn.
    unfold options_ok, opt_ok, is_u32 in Ho.
    destruct (opt_initial_window_size options); cbn; split_and!; try done; zlia. }
  set (w0 := new_state options). set (w1 := set_sent [mkOut CONNECTION_PREFACE None] w0).
  match goal with |- posted (fst ((_ ≫= ?k) w0)) =>
    change (posted (fst (k tt w1))) end.
  assert (posted w1) as H1 by (by exists [], []). cbv beta.
  match goal with |- posted (fst (?m w1)) => assert (ensures posts m) as Hm end;
    [|by apply (posted_step w1 _ (proj1 (Hm w1)))].
  apply ensures_bind; [exact _|by apply send_frame_posts|]. intros _. cbv zeta.
  destruct (_ <? _); auto with posts.
Qed.

Lemma deframe_prefix max l x fs r :
  bytes_ok (l ++ x) -> deframe max (l ++ x) = Ok (fs, r) ->
  exists fs1 r1, deframe max l = Ok (fs1, r1) /\ fs1 `prefix_of` fs.
Proof.
  intros [Hl Hx]%bytes_ok_app. rewrite deframe_app by done.
  intros ([fs1 r1] & E & ([fs2 r2] & _ & H)%bind_Ok)%bind_Ok. injection H as <- <-. exists fs1, r1. split; [done|by eexists].
Qed.

Lemma posted_bytes {arch : Arch} items fs :
  Forall2 post items fs ->
  bytes_ok (concat (out_bytes <$> items)) /\
  deframe MAX_PAYLOAD (concat (out_bytes <$> items)) = Ok (masked <$> fs, []).
Proof.
  intros H. assert (Forall (sendable MAX_PAYLOAD) (masked <$> fs)) as Hs.
  { induction H as [|item f items fs [_ Hf] _ IH]; constructor; [exact Hf|exact IH]. }
  destruct (deframe_serialize MAX_PAYLOAD _ Hs) as (bs & Hbs & Hok & Hd).
  assert (concat (out_bytes <$> items) = bs) as ->; [|done]. clear Hs Hok Hd. revert bs Hbs.
  induction H as [|item f items fs [[_ Hi] _] _ IH]; intros bs Hbs; [by injection Hbs|].
  cbn in Hbs. rewrite serialize_masked, Hi in Hbs. cbn in Hbs.
  destruct (serialize_all (masked <$> fs)) as [bs'| | |] eqn:E; try done. injection Hbs as <-. cbn. by rewrite (IH bs').
Qed.

(** Whatever part of the bytes queued has come, the frames read from it, with a
    decoder that takes any length, are a beginning of the frames queued. *)
Lemma posted_read {arch : Arch} w p :
  posted w -> p `prefix_of` concat (out_bytes <$> sent w) ->
  take 24 p `prefix_of` CONNECTION_PREFACE /\
  exists d got, FrameDecoder.push (drop 24 p) (FrameDecoder.new MAX_PAYLOAD) = (d, Ok got) /\
    got `prefix_of` (masked <$> frames_out w) /\
    (p = concat (out_bytes <$> sent w) -> got = masked <$> frames_out w).
Proof.
  intros (items & fs & E & H) [x Hx].
  assert (frames_out w = fs) as ->.
  { unfold frames_out. rewrite E. cbn. apply frames_out_queued.
    eapply Forall2_impl; [exact H|]. by intros ?? [? _]. }
  destruct (posted_bytes items fs H) as [Hok Hd]. rewrite E in *. cbn [fmap list_fmap concat out_bytes] in *.
  set (bs := concat (out_bytes <$> items)) in *. clearbody bs.
  assert (length CONNECTION_PREFACE = 24%nat) as Hlen by reflexivity.
  assert (take 24 p ++ take (24 - length p) x = CONNECTION_PREFACE /\
    drop 24 p ++ drop (24 - length p) x = bs) as [Ht Hdr].
  { rewrite <- take_app, <- drop_app, <- Hx, <- Hlen. by rewrite take_app_length, drop_app_length. }
  split; [by eexists|]. rewrite <- Hdr in Hok, Hd.
  destruct (deframe_prefix _ _ _ _ _ Hok Hd) as (got & r & Hg & Hpre).
  rewrite push_deframe; [|constructor|by apply bytes_ok_app in Hok as [? _]]. cbn [FrameDecoder.new FrameDecoder.pending FrameDecoder.max_frame_size app].
  rewrite Hg. do 2 eexists. split; [reflexivity|]. split; [done|].
  intros Hall. assert (x = []) as ->.
  { apply (app_inv_head p). by rewrite app_nil_r, <- Hx, <- Hall. }
  rewrite drop_nil, app_nil_r in Hd. congruence.
Qed.
