(* ===== verification/System.v ===== *)
(** * System: the connection and its body pumps, run together

    [sys] is a connection with the pumps that its requests registered on the
    driver; [sys_run] lets the driver, requests, readers and pumps take turns in
    any order.  Every [sys_run] is a [run] of FlowSafety.v, so its invariants hold
    here as well.  [sys_log] is the same with the conversation: the frames acted on
    and the frames queued.  [wire_step] is the order in which the client's frames go
    out: what RFC 7540 asks of SETTINGS, stream ids, header blocks and DATA, and that
    a stream that was reset sends no DATA, except by the RST_STREAM that refuses a
    promise.  The theorems say that the client keeps to it, and that an upload puts the
    request's body on the wire; [push_promise_own_stream] is the exception at work. *)

From S2P Require Import Prelude Errors Bytes Utf8 Frames FramesFacts Hpack Flow Stream Connection.
From S2P Require Import ConnectionFacts FlowSafety Lifecycle Sending Wire Resets.

(** ** The system *)

Record sys := mkSys {
  conn : ConnState;
  pumps : gmap Z pump_state;  (* the pumps that have not returned *)
}.

Inductive sys_op :=
  | SysOp (op : conn_op)
  | SysPump (id : Z) (k : waker).

(** [run_tasks]: the pumps newly registered start at the first chunk. *)
Definition start_tasks (l : list (Z * RequestBody)) (m : gmap Z pump_state) : gmap Z pump_state :=
  foldl (fun m t => <[t.1 := PumpNext (body_chunks t.2)]> m) m l.

Section system.
Context {arch : Arch}.
Variable to_uppercase : bytes -> bytes.

Definition sys_step (o : sys_op) (s : sys) : sys :=
  match o with
  | SysOp op =>
      let w := apply_op to_uppercase op (conn s) in
      mkSys w (start_tasks (drop (length (tasks (conn s))) (tasks w)) (pumps s))
  | SysPump id k =>
      match pumps s !! id with
      | Some p =>
          let '(w, r) := pump_body k id p (conn s) in
          mkSys w (match r with
                   | Ok (Some p) => <[id := p]> (pumps s)
                   | _ => delete id (pumps s)
                   end)
      | None => s
      end
  end.

(** Pumps take their turns as tasks, not as operations of their own. *)
Definition sys_op_ok (o : sys_op) (s : sys) : Prop :=
  match o with
  | SysOp op =>
      op_ok op (conn s) /\
      match op with OpPump _ _ _ _ | OpPumpFinish _ => False | _ => True end
  | SysPump _ _ => True
  end.

Inductive sys_run (options : ConnectOptions) : sys -> Prop :=
  | sys_connect : sys_run options (mkSys (connect options) ∅)
  | sys_next s o : sys_run options s -> sys_op_ok o s -> sys_run options (sys_step o s).

(** ** The conversation

    What was heard (the frames acted on) and said (the frames queued), in order.  The
    frames one operation hears are listed before those it says. *)

Inductive frame_event :=
  | Heard (f : Frame.t)
  | Said (f : Frame.t).

Definition heard (es : list frame_event) : list Frame.t :=
  omap (fun e => match e with Heard f => Some f | Said _ => None end) es.

Definition said (es : list frame_event) : list Frame.t :=
  omap (fun e => match e with Said f => Some f | Heard _ => None end) es.

Definition exchange (o : sys_op) (s : sys) : list frame_event :=
  (Heard <$> match o with SysOp op => taken_in op (conn s) | SysPump _ _ => [] end) ++
  (Said <$> drop (length (frames_out (conn s))) (frames_out (conn (sys_step o s)))).

Inductive sys_log (options : ConnectOptions) : list frame_event -> sys -> Prop :=
  | log_connect : sys_log options (Said <$> frames_out (connect options)) (mkSys (connect options) ∅)
  | log_next es s o :
      sys_log options es s -> sys_op_ok o s -> sys_log options (es ++ exchange o s) (sys_step o s).

Lemma heard_app es es' : heard (es ++ es') = heard es ++ heard es'.
Proof using Type. apply omap_app. Qed.
Lemma said_app es es' : said (es ++ es') = said es ++ said es'.
Proof using Type. apply omap_app. Qed.
Lemma heard_heard fs : heard (Heard <$> fs) = fs.
Proof using Type. induction fs as [|f fs IH]; [done|]. cbn. by f_equal. Qed.
Lemma heard_said fs : heard (Said <$> fs) = [].
Proof using Type. induction fs as [|f fs IH]; [done|exact IH]. Qed.
Lemma said_said fs : said (Said <$> fs) = fs.
Proof using Type. induction fs as [|f fs IH]; [done|]. cbn. by f_equal. Qed.
Lemma said_heard fs : said (Heard <$> fs) = [].
Proof using Type. induction fs as [|f fs IH]; [done|exact IH]. Qed.

Lemma sys_log_run options es s : sys_log options es s -> sys_run options s.
Proof using Type. induction 1; by constructor. Qed.

(** Every run has its conversation. *)
Lemma sys_run_log options s : sys_run options s -> exists es, sys_log options es s.
Proof using Type. induction 1 as [|s o _ [es IH] Ho]; eexists; [constructor|by constructor]. Qed.

(** ** The order of frames on the wire *)

(** The header block left open, the last stream opened, the streams whose body
    may be sent, and whether the preface's SETTINGS is out.  A stream is off the
    list once its END_STREAM or an RST_STREAM is out; the RST_STREAM that refuses
    a promised stream concerns none of them. *)
Record wire := mkWire {
  block : option Z;
  last_id : Z;
  uploading : gset Z;
  started : bool;
}.

Definition wire_init : wire := mkWire None 0 ∅ false.

Definition wire_step (f : Frame.t) (s : wire) : option wire :=
  if negb (started s) then
    match f with
    | Frame.Settings false _ => Some (mkWire (block s) (last_id s) (uploading s) true)
    | _ => None
    end
  else
  match block s with
  | Some id =>
      match f with
      | Frame.Continuation i _ eh =>
          if i =? id then
            Some (mkWire (if (eh : bool) then None else Some id) (last_id s) (uploading s) true)
          else None
      | _ => None
      end
  | None =>
      match f with
      | Frame.Headers id _ es eh None =>
          if (last_id s <? id) && (id mod 2 =? 1) then
            Some (mkWire (if (eh : bool) then None else Some id) id
              (if (es : bool) then uploading s else {[id]} ∪ uploading s) true)
          else None
      | Frame.Data id _ es =>
          if bool_decide (id ∈ uploading s) then
            Some (mkWire None (last_id s)
              (if (es : bool) then uploading s ∖ {[id]} else uploading s) true)
          else None
      | Frame.RstStream id code =>
          Some (if code =? REFUSED then s
                else mkWire None (last_id s) (uploading s ∖ {[id]}) true)
      | Frame.Settings _ _ | Frame.Ping _ _ | Frame.Goaway _ _ _ | Frame.WindowUpdate _ _ => Some s
      | _ => None
      end
  end.

Fixpoint wire_run (fs : list Frame.t) (s : wire) : option wire :=
  match fs with
  | [] => Some s
  | f :: fs => s ← wire_step f s; wire_run fs s
  end.

Lemma wire_run_app fs1 fs2 s : wire_run (fs1 ++ fs2) s = (s ← wire_run fs1 s; wire_run fs2 s).
Proof using Type.
  revert s. induction fs1 as [|f fs1 IH]; intros s; [done|]. simpl.
  destruct (wire_step f s); [apply IH|done].
Qed.

(** Between blocks, once started. *)
Definition wire_idle (s : wire) : Prop := block s = None /\ started s = true.

(** Control frames leave the order as it is, but for the streams they reset. *)
Lemma wire_signals fs s : Forall signal fs -> wire_idle s ->
  exists s', wire_run fs s = Some s' /\ wire_idle s' /\ last_id s' = last_id s /\
    uploading s' ⊆ uploading s /\
    forall id, id ∈ uploading s ->
      (forall code, Frame.RstStream id code ∈ fs -> code = REFUSED) -> id ∈ uploading s'.
Proof using Type.
  intros Hfs. revert s. induction Hfs as [|f fs Hf _ IH]; intros s [Hb Hs]; [by exists s|].
  assert (exists s1, wire_step f s = Some s1 /\ wire_idle s1 /\ last_id s1 = last_id s /\
    uploading s1 ⊆ uploading s /\ forall id, id ∈ uploading s ->
      (forall code, f = Frame.RstStream id code -> code = REFUSED) -> id ∈ uploading s1)
    as (s1 & E & Hi & Hl & Hu & Hk).
  { unfold wire_step. rewrite Hs, Hb. destruct f as [| | |i c| | | | | |]; try done; try by exists s.
    destruct (Z.eqb_spec c REFUSED) as [|Hc]; [by exists s|].
    eexists. split; [reflexivity|]. split; [done|]. split; [done|]. split; [cbn; set_solver|].
    cbn. intros id Hid Hr. destruct (decide (i = id)) as [->|]; [|set_solver].
    by specialize (Hr c eq_refl). }
  destruct (IH s1 Hi) as (s' & E' & Hi' & Hl' & Hu' & Hk').
  exists s'. cbn [wire_run]. rewrite E. cbn [mbind option_bind]. split_and!; [done..|congruence|set_solver|].
  intros id Hid Hr. apply Hk'; [apply Hk; [done|]|]; intros code H; apply (Hr code).
  - rewrite H. by left.
  - by right.
Qed.

Lemma wire_continuations id frags s :
  frags <> [] -> block s = Some id -> started s = true ->
  wire_run (continuations id frags) s = Some (mkWire None (last_id s) (uploading s) true).
Proof using Type.
  intros Hne. revert s. induction frags as [|f frags IH]; intros s Hb Hs; [done|].
  destruct frags as [|g frags].
  - cbn. unfold wire_step. by rewrite Hs, Hb, Z.eqb_refl.
  - change (continuations id (f :: g :: frags)) with
      (Frame.Continuation id f false :: continuations id (g :: frags)).
    cbn [wire_run]. unfold wire_step at 1. rewrite Hs, Hb, Z.eqb_refl. simpl mbind.
    by rewrite IH.
Qed.

Lemma wire_headers id es frags s :
  frags <> [] -> wire_idle s -> last_id s < id -> id mod 2 = 1 ->
  wire_run (header_frames id es frags) s =
    Some (mkWire None id (if es then uploading s else {[id]} ∪ uploading s) true).
Proof using Type.
  intros Hne [Hb Hs] Hid Hodd. destruct frags as [|f rest]; [done|].
  cbn [header_frames wire_run]. unfold wire_step at 1. rewrite Hs, Hb, Hodd.
  destruct (Z.ltb_spec (last_id s) id); [|lia]. simpl mbind.
  destruct rest as [|g rest]; [done|].
  apply (wire_continuations id (g :: rest) (mkWire (Some id) id _ true)); done.
Qed.

Lemma wire_data id pieces s :
  wire_idle s -> (pieces <> [] -> id ∈ uploading s) ->
  wire_run ((fun d => Frame.Data id d false) <$> pieces) s = Some s.
Proof using Type.
  intros [Hb Hs] Hid. destruct (decide (pieces = [])) as [->|Hne]; [done|]. specialize (Hid Hne).
  clear Hne. induction pieces as [|d pieces IH]; [done|].
  rewrite fmap_cons. cbn [wire_run]. unfold wire_step at 1. rewrite Hs, Hb.
  rewrite bool_decide_true by done. simpl mbind. rewrite <- Hs at 1.
  destruct s as [b l u st]; simpl in *; subst; exact IH.
Qed.

(** A stream opened earlier and off the list stays off it. *)
Lemma wire_gone fs s s' id :
  wire_run fs s = Some s' -> id <= last_id s -> id ∉ uploading s ->
  forall d es, Frame.Data id d es ∉ fs.
Proof using Type.
  clear to_uppercase. revert s. induction fs as [|f fs IH]; intros s E Hl Hu d es; [apply not_elem_of_nil|].
  cbn [wire_run] in E. apply bind_Some in E as (s1 & E1 & E). rewrite not_elem_of_cons.
  assert (id <= last_id s1 /\ id ∉ uploading s1 /\ forall d es, f <> Frame.Data id d es) as (Hl1 & Hu1 & Hf).
  { unfold wire_step in E1. repeat case_match; simplify_eq; cbn in *;
      rewrite ?andb_true_iff, ?Z.ltb_lt, ?bool_decide_eq_true in *; destruct_and?;
      split_and!; try done; try lia; try set_solver. all: try (intros ? ? [= <- <- <-]; done).
    all: apply not_elem_of_union; split; [apply not_elem_of_singleton; lia|done]. }
  split; [intros E0; by apply (Hf d es)|]. by apply (IH s1 E).
Qed.

Lemma wire_last_id fs s s' id :
  wire_run fs s = Some s' ->
  last_id s <= last_id s' /\
  forall fragment es eh p, Frame.Headers id fragment es eh p ∈ fs -> id <= last_id s'.
Proof using Type.
  clear to_uppercase. revert s. induction fs as [|f fs IH]; intros s E.
  { injection E as <-. split; [lia|]. by intros ? ? ? ? ?%elem_of_nil. }
  cbn [wire_run] in E. apply bind_Some in E as (s1 & E1 & E). destruct (IH s1 E) as [Hl Hin].
  assert (last_id s <= last_id s1 /\ forall fragment es eh p, f = Frame.Headers id fragment es eh p -> id <= last_id s1)
    as [Hl1 Hf].
  { unfold wire_step in E1. repeat case_match; simplify_eq; cbn in *;
      rewrite ?andb_true_iff, ?Z.ltb_lt in *; destruct_and?; split; try lia; try done.
    all: intros ? ? ? ? [=]; subst; cbn; lia. }
  split; [lia|]. intros fr es eh p [H|H]%elem_of_cons; [specialize (Hf fr es eh p (eq_sym H)); lia|by eapply Hin].
Qed.

(** No DATA after an RST_STREAM on an opened stream. *)
Lemma wire_reset_last fs st id code before after :
  wire_run fs wire_init = Some st -> fs = before ++ Frame.RstStream id code :: after ->
  (exists fragment es eh p, Frame.Headers id fragment es eh p ∈ before) -> code <> REFUSED ->
  forall d fin, Frame.Data id d fin ∉ after.
Proof using Type.
  clear to_uppercase. intros E -> (fr & es & eh & p & Hin) Hc. rewrite wire_run_app in E.
  apply bind_Some in E as (s1 & E1 & E). apply bind_Some in E as (s2 & E2 & E).
  destruct (wire_last_id before _ s1 id E1) as [_ Hl]. specialize (Hl fr es eh p Hin).
  assert (s2 = mkWire None (last_id s1) (uploading s1 ∖ {[id]}) true) as ->.
  { unfold wire_step in E2. destruct (started s1); [|done]. destruct (block s1); [done|].
    destruct (Z.eqb_spec code REFUSED); [done|]. by injection E2. }
  apply (wire_gone after _ st id E); cbn; [done|set_solver].
Qed.

(** ** Uploads *)

(** The DATA frames of a stream: payload and END_STREAM. *)
Definition upload_frames (id : Z) (fs : list Frame.t) : list (bytes * bool) :=
  omap (fun f => match f with
                 | Frame.Data i d es => if i =? id then Some (d, es) else None
                 | _ => None
                 end) fs.

Lemma upload_frames_app id l1 l2 :
  upload_frames id (l1 ++ l2) = upload_frames id l1 ++ upload_frames id l2.
Proof using Type. apply omap_app. Qed.

Lemma upload_frames_nil id fs :
  Forall (fun f => match f with Frame.Data _ _ _ => False | _ => True end) fs ->
  upload_frames id fs = [].
Proof using Type.
  induction 1 as [|f fs Hf _ IH]; [done|]. unfold upload_frames in *. cbn [omap list_omap].
  by destruct f.
Qed.

Lemma upload_frames_signals id fs : Forall signal fs -> upload_frames id fs = [].
Proof using Type. intros H. apply upload_frames_nil. eapply Forall_impl; [exact H|]. by intros []. Qed.

Lemma upload_frames_headers id i es frags : upload_frames id (header_frames i es frags) = [].
Proof using Type.
  apply upload_frames_nil. destruct frags as [|f frags]; [constructor|]. constructor; [done|].
  induction frags as [|g frags IH]; [constructor|].
  destruct frags; constructor; (done || constructor).
Qed.

Lemma upload_frames_data id i pieces :
  upload_frames id ((fun d => Frame.Data i d false) <$> pieces) =
    if i =? id then (fun d => (d, false)) <$> pieces else [].
Proof using Type.
  induction pieces as [|d pieces IH]; [by destruct (i =? id)|]. rewrite fmap_cons.
  change (upload_frames id (?f :: ?l)) with (upload_frames id ([f] ++ l)).
  rewrite upload_frames_app, IH. cbn. by destruct (i =? id).
Qed.

(** What a pump has still to send. *)
Definition remaining (p : pump_state) : bytes :=
  match p with
  | PumpNext rest => concat rest
  | PumpChunk chunk offset rest => drop offset chunk ++ concat rest
  end.

Definition pump_wf (p : pump_state) : Prop :=
  match p with PumpNext _ => True | PumpChunk chunk offset _ => (offset <= length chunk)%nat end.

(** What is out of a body, given its pump ([None] when it has returned). *)
Definition upload_state (body : RequestBody) (p : option pump_state) (fr : list (bytes * bool))
    : Prop :=
  exists pieces rest (fin : bool),
    fr = ((fun d => (d, false)) <$> pieces) ++ (if fin then [([], true)] else []) /\
    concat pieces ++ rest = concat (body_chunks body) /\
    (fin = true -> rest = []) /\
    match p with Some p => fin = false /\ rest = remaining p | None => True end.

(** ** The invariant *)

Record sys_ok (s : sys) : Prop := {
  so_conn : conn_ok (conn s);
  so_next : next_stream_id (conn s) mod 2 = 1;
  so_tasks : Forall (fun t => t.1 < next_stream_id (conn s)) (tasks (conn s));
  so_nodup : NoDup (tasks (conn s)).*1;
  so_pumps id p : pumps s !! id = Some p -> pump_wf p /\ id ∈ (tasks (conn s)).*1;
  so_wire : exists st, wire_run (frames_out (conn s)) wire_init = Some st /\ wire_idle st /\
    last_id st < next_stream_id (conn s) /\
    forall id, is_Some (pumps s !! id) -> is_Some (streams (conn s) !! id) -> id ∈ uploading st;
  so_upload id body : (id, body) ∈ tasks (conn s) ->
    upload_state body (pumps s !! id) (upload_frames id (frames_out (conn s)));
  so_none id : id ∉ (tasks (conn s)).*1 -> upload_frames id (frames_out (conn s)) = [];
}.

(** A pump is that of an earlier request. *)
Lemma pump_known s : sys_ok s -> forall id, is_Some (pumps s !! id) -> id < next_stream_id (conn s).
Proof using Type.
  intros Hs id [p Hp]. destruct (so_pumps _ Hs id p Hp) as [_ Hin].
  apply list_elem_of_fmap in Hin as ([i b] & -> & Hin).
  pose proof (so_tasks _ Hs) as Ht. rewrite Forall_forall in Ht. apply (Ht _ Hin).
Qed.

Lemma opened_before id (w w' : ConnState) :
  id < next_stream_id w -> dom (streams w') ⊆ {[next_stream_id w]} ∪ dom (streams w) ->
  is_Some (streams w' !! id) -> is_Some (streams w !! id).
Proof using Type.
  intros Hid Hd H. apply elem_of_dom. apply elem_of_dom in H. apply Hd in H.
  apply elem_of_union in H as [->%elem_of_singleton|H]; [lia|done].
Qed.

(** An operation that sends only control frames. *)
Lemma sys_ok_signals s w' next' :
  sys_ok s -> conn_ok w' -> next_stream_id w' = next' ->
  next' mod 2 = 1 -> next_stream_id (conn s) <= next' ->
  tasks w' = tasks (conn s) ->
  dom (streams w') ⊆ {[next_stream_id (conn s)]} ∪ dom (streams (conn s)) ->
  (exists fs, frames_out w' = frames_out (conn s) ++ fs /\ Forall signal fs /\ resets_gone fs w') ->
  sys_ok (mkSys w' (pumps s)).
Proof using Type.
  intros Hsys Hok Hn Hodd Hle Ht Hd (fs & Hf & Hs & Hr).
  pose proof (pump_known s Hsys) as Hknown.
  destruct Hsys as [O1 O2 O3 O4 O5 (st & W1 & W2 & W3 & W4) O7 O8].
  constructor; simpl; rewrite ?Hn, ?Ht, ?Hf; try done.
  - eapply Forall_impl; [exact O3|]. simpl. lia.
  - destruct (wire_signals fs st Hs W2) as (st' & E & Hi & Hl & Hu & Hk).
    exists st'. rewrite wire_run_app, W1. cbn [mbind option_bind].
    split_and!; [done|done|lia|]. intros id Hp Hst. apply Hk.
    + apply W4; [done|]. apply (opened_before id (conn s) w'); auto.
    + intros code Hin. destruct (decide (code = REFUSED)) as [|Hc]; [done|].
      destruct Hst as [x Hx]. by rewrite (Hr id code Hin Hc) in Hx.
  - intros id body Hin. rewrite upload_frames_app, (upload_frames_signals _ fs), app_nil_r by done. auto.
  - intros id Hin. rewrite upload_frames_app, (upload_frames_signals _ fs), app_nil_r by done. auto.
Qed.

Lemma fresh_task s : sys_ok s -> next_stream_id (conn s) ∉ (tasks (conn s)).*1.
Proof using Type.
  intros Hs Hin. apply list_elem_of_fmap in Hin as ([i b] & Hi & Hin).
  pose proof (so_tasks _ Hs) as Ht. rewrite Forall_forall in Ht.
  specialize (Ht _ Hin). simpl in *. lia.
Qed.

(** A request that goes out. *)
Lemma sys_ok_request s w' body frags (es := body_is_empty body) (id := next_stream_id (conn s)) :
  sys_ok s -> conn_ok w' -> next_stream_id w' = id + 2 -> frags <> [] ->
  frames_out w' = frames_out (conn s) ++ header_frames id es frags ->
  tasks w' = tasks (conn s) ++ (if es then [] else [(id, body)]) ->
  dom (streams w') ⊆ {[id]} ∪ dom (streams (conn s)) ->
  sys_ok (mkSys w' (if es then pumps s else <[id := PumpNext (body_chunks body)]> (pumps s))).
Proof using Type.
  intros Hs Hok Hn Hne Hf Ht Hd. pose proof (fresh_task s Hs) as Hfresh. fold id in Hfresh.
  pose proof (pump_known s Hs) as Hknown.
  destruct Hs as [O1 O2 O3 O4 O5 (st & W1 & W2 & W3 & W4) O7 O8].
  assert (wire_run (frames_out w') wire_init =
    Some (mkWire None id (if es then uploading st else {[id]} ∪ uploading st) true)) as Hw.
  { rewrite Hf, wire_run_app, W1. cbn [mbind option_bind]. by apply wire_headers. }
  assert (forall i, upload_frames i (frames_out w') = upload_frames i (frames_out (conn s))) as Hup.
  { intros i. by rewrite Hf, upload_frames_app, upload_frames_headers, app_nil_r. }
  assert ((id + 2) mod 2 = 1) as Hodd by (subst id; zlia).
  assert (Forall (fun t => t.1 < id + 2) (tasks (conn s))) as Ht2
    by (eapply Forall_impl; [exact O3|]; simpl; subst id; lia).
  destruct es.
  - rewrite app_nil_r in Ht.
    constructor; simpl; rewrite ?Hn, ?Ht, ?Hw; try done.
    + eexists. split_and!; [done|done|simpl; lia|]. intros i Hi Hst. apply W4; [done|].
      apply (opened_before i (conn s) w'); auto.
    + intros i b Hin. rewrite Hup. auto.
    + intros i Hin. rewrite Hup. auto.
  - constructor; simpl; rewrite ?Hn, ?Ht, ?Hw, ?fmap_app; simpl; try done.
    + apply Forall_app. split; [done|]. repeat constructor. simpl. lia.
    + apply NoDup_app. split_and!; [done| |apply NoDup_singleton]. set_solver.
    + intros i p Hi. destruct (decide (i = id)) as [->|Hne'].
      * rewrite lookup_insert_eq in Hi. injection Hi as <-. split; [done|set_solver].
      * rewrite lookup_insert_ne in Hi by done. destruct (O5 i p Hi). split; [done|set_solver].
    + eexists. split_and!; [done|done|simpl; lia|]. simpl. intros i Hi Hst.
      destruct (decide (i = id)) as [->|Hne']; [set_solver|].
      rewrite lookup_insert_ne in Hi by done. apply elem_of_union_r, W4; [done|].
      apply (opened_before i (conn s) w'); auto.
    + intros i b Hin. rewrite Hup. destruct (decide (i = id)) as [->|Hne'].
      * assert (b = body) as ->.
        { apply elem_of_app in Hin as [Hin|Hin]; [|set_solver].
          exfalso. apply Hfresh. apply list_elem_of_fmap. by exists (id, b). }
        rewrite lookup_insert_eq, O8 by done. exists [], (concat (body_chunks body)), false.
        by split_and!.
      * rewrite lookup_insert_ne by done. apply O7.
        apply elem_of_app in Hin as [Hin|Hin]; [done|set_solver].
    + intros i Hin. rewrite Hup. apply O8. set_solver.
Qed.

(** A pump sent pieces of what it had to send, and has [p'] left. *)
Lemma sys_ok_pieces s w' id p p' pieces (chunk := remaining p) :
  sys_ok s -> pumps s !! id = Some p -> conn_ok w' -> books (conn s) w' ->
  (pieces <> [] -> is_Some (streams (conn s) !! id)) ->
  frames_out w' = frames_out (conn s) ++ ((fun d => Frame.Data id d false) <$> pieces) ->
  match p' with
  | Some p' => pump_wf p' /\ concat pieces ++ remaining p' = remaining p
  | None => exists rest, concat pieces ++ rest = remaining p
  end ->
  sys_ok (mkSys w' (match p' with Some p' => <[id := p']> (pumps s) | None => delete id (pumps s) end)).
Proof using Type.
  intros [O1 O2 O3 O4 O5 (st & W1 & W2 & W3 & W4) O7 O8] Hp Hok (Hn & Ht & Hd) Hlive Hf Hrem.
  destruct (O5 id p Hp) as [Hwf Hin].
  constructor; simpl; rewrite ?Hn, ?Ht, ?Hf; try done.
  - intros i q Hi. destruct (decide (i = id)) as [->|Hne].
    + destruct p' as [p'|]; [|by rewrite lookup_delete_eq in Hi].
      rewrite lookup_insert_eq in Hi. injection Hi as <-. by destruct Hrem.
    + apply O5. by destruct p'; [rewrite lookup_insert_ne in Hi|rewrite lookup_delete_ne in Hi].
  - exists st. rewrite wire_run_app, W1. cbn [mbind option_bind].
    rewrite wire_data by (done || (intros ?; apply W4; eauto)). split_and!; [done..|]. intros i Hi Hst.
    apply elem_of_dom, Hd, elem_of_dom in Hst.
    destruct (decide (i = id)) as [->|Hne]; [apply W4; eauto|].
    apply W4; [|done]. by destruct p'; [rewrite lookup_insert_ne in Hi|rewrite lookup_delete_ne in Hi].
  - intros i b Hib. rewrite upload_frames_app, upload_frames_data. specialize (O7 i b Hib).
    destruct (Z.eqb_spec id i) as [->|Hne].
    + rewrite Hp in O7. destruct O7 as (ps & rest & fin & E1 & E2 & _ & -> & ->).
      rewrite E1, app_nil_r, <- fmap_app. destruct p' as [p'|].
      * rewrite lookup_insert_eq. destruct Hrem as [_ Hrem].
        exists (ps ++ pieces), (remaining p'), false. rewrite concat_app, <- app_assoc, Hrem.
        by rewrite app_nil_r.
      * rewrite lookup_delete_eq. destruct Hrem as [rest Hrem].
        exists (ps ++ pieces), rest, false. rewrite concat_app, <- app_assoc, Hrem.
        by rewrite app_nil_r.
    + rewrite app_nil_r. by destruct p'; [rewrite lookup_insert_ne|rewrite lookup_delete_ne].
  - intros i Hi. rewrite upload_frames_app, upload_frames_data, O8 by done.
    destruct (Z.eqb_spec id i) as [->|Hne]; [done|reflexivity].
Qed.

(** The pump of a body that is all sent ends the stream, if it is live. *)
Lemma sys_ok_finish s w' id (live := bool_decide (is_Some (streams (conn s) !! id))) :
  sys_ok s -> pumps s !! id = Some (PumpNext []) -> conn_ok w' -> books (conn s) w' ->
  frames_out w' = frames_out (conn s) ++ (if live then [Frame.Data id [] true] else []) ->
  sys_ok (mkSys w' (delete id (pumps s))).
Proof using Type.
  intros [O1 O2 O3 O4 O5 (st & W1 & W2 & W3 & W4) O7 O8] Hp Hok (Hn & Ht & Hd) Hf.
  destruct (O5 id _ Hp) as [_ Hin].
  assert (live = true -> id ∈ uploading st) as Hu
    by (intros H%bool_decide_eq_true; apply W4; eauto). clearbody live.
  assert (forall i, upload_frames i (if live then [Frame.Data id [] true] else []) =
    if live && (id =? i) then [([], true)] else []) as Hup.
  { intros i. destruct live; [|done]. cbn. by destruct (id =? i). }
  constructor; simpl; rewrite ?Hn, ?Ht, ?Hf; try done.
  - intros i q Hi. apply lookup_delete_Some in Hi as [_ Hi]. auto.
  - rewrite wire_run_app, W1. cbn [mbind option_bind].
    destruct W2 as [Hb Hst].
    assert (forall i, is_Some (delete id (pumps s) !! i) -> is_Some (streams w' !! i) ->
      i <> id /\ i ∈ uploading st) as Hk.
    { intros i [q Hi] H. apply lookup_delete_Some in Hi as [Hne Hi]. split; [done|].
      apply W4; [by exists q|]. apply elem_of_dom, Hd. by apply elem_of_dom. }
    exists (if live then mkWire None (last_id st) (uploading st ∖ {[id]}) true else st).
    destruct live; split_and!; try done.
    + cbn [wire_run]. unfold wire_step. by rewrite Hst, Hb, bool_decide_true by auto.
    + simpl. intros i H1 H2. destruct (Hk i H1 H2). set_solver.
    + intros i H1 H2. by destruct (Hk i H1 H2).
  - intros i b Hib. rewrite upload_frames_app, Hup. specialize (O7 i b Hib).
    destruct (Z.eqb_spec id i) as [->|Hne].
    + rewrite Hp in O7. destruct O7 as (ps & rest & fin & E1 & E2 & _ & -> & ->).
      rewrite lookup_delete_eq, E1, app_nil_r, andb_true_r. exists ps, [], live. by split_and!.
    + by rewrite andb_false_r, app_nil_r, lookup_delete_ne.
  - intros i Hi. rewrite upload_frames_app, Hup, O8 by done.
    destruct (Z.eqb_spec id i) as [->|Hne]; [done|by rewrite andb_false_r].
Qed.

Lemma pump_in_ok s k id p chunk offset rest :
  sys_ok s -> pumps s !! id = Some p -> remaining p = drop offset chunk ++ concat rest ->
  (offset <= length chunk)%nat ->
  exists w p', pump_in k id chunk offset rest (conn s) = (w, Ok p') /\
    sys_ok (mkSys w (match p' with Some p' => <[id := p']> (pumps s) | None => delete id (pumps s) end)).
Proof using Type.
  intros Hs Hp Hrem Ho. unfold pump_in.
  destruct (pump_chunk_wire k id chunk offset (conn s) (so_conn _ Hs) Ho)
    as (w & r & o' & Hrun & [P1 P2 P3 (pieces & P4 & P5 & P6)] & Hr).
  rewrite (st_bind_Ok _ _ _ _ _ Hrun). do 2 eexists. split; [reflexivity|].
  assert (concat pieces ++ drop o' chunk = drop offset chunk) as Hcut.
  { rewrite P5. rewrite <- (take_drop (o' - offset) (drop offset chunk)) at 2.
    rewrite drop_drop. by replace (offset + (o' - offset))%nat with o' by lia. }
  eapply sys_ok_pieces; [done|exact Hp|done..|]. rewrite Hrem.
  destruct r as [o|[]]; simpl.
  - subst o. split; [lia|]. by rewrite app_assoc, Hcut.
  - split; [done|]. subst o'. rewrite drop_all in Hcut. rewrite app_nil_r in Hcut.
    by rewrite Hcut.
  - exists (drop o' chunk ++ concat rest). by rewrite app_assoc, Hcut.
Qed.

Lemma pump_body_ok s k id p :
  sys_ok s -> pumps s !! id = Some p ->
  exists w p', pump_body k id p (conn s) = (w, Ok p') /\
    sys_ok (mkSys w (match p' with Some p' => <[id := p']> (pumps s) | None => delete id (pumps s) end)).
Proof using Type.
  intros Hs Hp. destruct (so_pumps _ Hs id p Hp) as [Hwf _].
  destruct p as [[|chunk rest]|chunk offset rest]; cbn [pump_body].
  - destruct (pump_finish_wire id (conn s) (so_conn _ Hs)) as (w & Hrun & Hb & Hf).
    rewrite (st_bind_Ok _ _ _ _ _ Hrun). exists w, None. split; [done|].
    eapply sys_ok_finish; [done|exact Hp| |done|].
    + pose proof (apply_op_ok (fun b => b) (OpPumpFinish id) (conn s) (so_conn _ Hs)) as H.
      simpl in H. by rewrite Hrun in H.
    + by rewrite Hf.
  - case_bool_decide as Hc.
    + subst chunk. exists (conn s), (Some (PumpNext rest)). split; [done|].
      eapply (sys_ok_pieces s (conn s) id _ (Some (PumpNext rest)) []);
        [done|exact Hp|apply Hs|done|done|by rewrite app_nil_r|done].
    + eapply pump_in_ok; [done|exact Hp|by rewrite drop_0|lia].
  - by eapply pump_in_ok.
Qed.

Lemma start_tasks_same (w w' : ConnState) m :
  tasks w' = tasks w -> start_tasks (drop (length (tasks w)) (tasks w')) m = m.
Proof using Type. intros ->. by rewrite drop_all. Qed.

Lemma sys_step_ok o s : sys_op_ok o s -> sys_ok s -> sys_ok (sys_step o s).
Proof using Type.
  intros Ho Hs. destruct o as [op|id k]; simpl.
  2:{ destruct (pumps s !! id) as [p|] eqn:Hp; [|done].
      destruct (pump_body_ok s k id p Hs Hp) as (w & p' & Hrun & Hok). rewrite Hrun.
      by destruct p'. }
  destruct Ho as [Hop Hnp].
  pose proof (apply_op_ok to_uppercase op (conn s) (so_conn _ Hs)) as Hok.
  assert (plain_op op -> sys_ok (mkSys (apply_op to_uppercase op (conn s))
    (start_tasks (drop (length (tasks (conn s))) (tasks (apply_op to_uppercase op (conn s))))
      (pumps s)))) as Hplain.
  { intros Hpl. destruct (plain_op_signals to_uppercase op (conn s) Hpl) as [Hf Hn Ht Hd].
    rewrite start_tasks_same by done.
    eapply sys_ok_signals; [done|done|exact Hn|apply Hs|lia|done|set_solver|done]. }
  destruct op as [now c| | |k init|k now| |k id c o|id|id k|id]; try (by apply Hplain); try done.
  simpl in *.
  destruct (request_turn_wire to_uppercase k init (conn s) (so_conn _ Hs) Hop)
    as [Hd [(Hf & Ht & Hn)|(frags & Hne & Hn & Hf & Ht)]].
  - rewrite start_tasks_same by done. pose proof (so_next _ Hs) as Hodd.
    eapply sys_ok_signals; [done|done|reflexivity|destruct Hn as [->| ->]; [done|zlia]|lia|done|done|].
    exists []. rewrite Hf, app_nil_r. split_and!; [done|constructor|]. by intros ? ? ?%elem_of_nil.
  - rewrite Ht, drop_app_length.
    pose proof (sys_ok_request s _ (init_body init) frags Hs Hok Hn Hne Hf Ht Hd) as H.
    by destruct (body_is_empty (init_body init)).
Qed.

(** What [connect] queues after the preface. *)
Lemma connect_frames options :
  exists st fs, frames_out (connect options) = Frame.Settings false st :: fs /\ Forall signal fs /\
    forall id code, Frame.RstStream id code ∉ fs.
Proof using Type.
  unfold connect, connect_writes.
  match goal with |- context [Frame.Settings false ?st] => exists st end.
  destruct (0 <? _); [eexists [_]|exists []]; split_and!; [reflexivity|by repeat constructor|set_solver..].
Qed.

Lemma connect_sys_ok options : sys_ok (mkSys (connect options) ∅).
Proof using Type.
  assert (books (new_state options) (connect options)) as (Hn & Ht & _).
  { unfold connect, connect_writes. by destruct (0 <? _). }
  destruct (connect_frames options) as (st & fs & Hf & Hs & _).
  constructor; simpl; rewrite ?Hn, ?Ht, ?Hf; simpl; try done.
  - apply connect_ok.
  - constructor.
  - destruct (wire_signals fs (mkWire None 0 ∅ true) Hs) as (st' & E & Hi & Hl & _); [done|].
    exists st'. split_and!; [exact E|apply Hi..|rewrite Hl; simpl; lia|].
    intros id [p Hp]. by rewrite lookup_empty in Hp.
  - intros id body Hin. set_solver.
  - intros id _. change (upload_frames id ([Frame.Settings false st] ++ fs) = []).
    by rewrite upload_frames_app, (upload_frames_signals _ fs).
Qed.

Lemma sys_run_ok options s : sys_run options s -> sys_ok s.
Proof using Type.
  induction 1 as [|s o _ IH Ho]; [apply connect_sys_ok|by apply sys_step_ok].
Qed.

(** Frames are only ever added to the queue. *)
Lemma sys_step_grows o s :
  sys_ok s -> sys_op_ok o s ->
  exists fs, frames_out (conn (sys_step o s)) = frames_out (conn s) ++ fs.
Proof using Type.
  intros Hs Ho. destruct o as [op|id k]; cbn [sys_step conn].
  - assert (plain_op op -> exists fs, frames_out (apply_op to_uppercase op (conn s)) = frames_out (conn s) ++ fs)
      as Hpl by (intros H; destruct (plain_op_signals to_uppercase op (conn s) H) as [(fs & ? & _) _ _ _]; by exists fs).
    destruct Ho as [Ho Hn]. destruct op; try done; try by apply Hpl. cbn.
    destruct (request_turn_wire to_uppercase k init (conn s) (so_conn _ Hs) Ho)
      as [_ [(Hf & _)|(frags & _ & _ & Hf & _)]]; [exists []; by rewrite app_nil_r|by eexists].
  - destruct (pumps s !! id) as [p|] eqn:Hp; [|exists []; by rewrite app_nil_r].
    assert (forall chunk o rest, (o <= length chunk)%nat ->
      exists fs, frames_out (fst (pump_in k id chunk o rest (conn s))) = frames_out (conn s) ++ fs) as Hin.
    { intros chunk o rest Hle. unfold pump_in.
      destruct (pump_chunk_wire k id chunk o (conn s) (so_conn _ Hs) Hle)
        as (w & r & o' & Hrun & [_ _ _ (ps & Hf & _)] & _).
      rewrite (st_bind_Ok _ _ _ _ _ Hrun). by eexists. }
    destruct (so_pumps _ Hs id p Hp) as [Hwf _].
    assert (exists fs, frames_out (fst (pump_body k id p (conn s))) = frames_out (conn s) ++ fs) as H.
    { destruct p as [[|chunk rest]|chunk o rest]; cbn [pump_body].
      - destruct (pump_finish_wire id (conn s) (so_conn _ Hs)) as (w & Hrun & _ & Hf).
        rewrite (st_bind_Ok _ _ _ _ _ Hrun). by eexists.
      - case_bool_decide; [exists []; by rewrite app_nil_r|apply Hin; lia].
      - by apply Hin. }
    by destruct (pump_body k id p (conn s)).
Qed.

(** The conversation's own half is what was queued. *)
Lemma sys_log_said options es s : sys_log options es s -> said es = frames_out (conn s).
Proof using Type.
  induction 1 as [|es s o Hlog IH Ho]; [apply said_said|].
  destruct (sys_step_grows o s) as [fs Hf]; [by eapply sys_run_ok, sys_log_run|done|].
  unfold exchange. by rewrite !said_app, said_heard, said_said, Hf, drop_app_length, IH.
Qed.

(** What is refused was promised. *)
Lemma sys_log_refuses options es s : sys_log options es s -> refuses (promises (heard es)) (conn s).
Proof using Type.
  induction 1 as [|es s o Hlog IH Ho]; [apply connect_refuses|].
  unfold exchange. rewrite !heard_app, heard_heard, heard_said, app_nil_r.
  destruct o as [op|id k]; cbn [sys_step conn].
  - apply apply_op_refuses.
    + intros id (on & fr & eh & H). exists on, fr, eh. apply elem_of_app. by right.
    + eapply refuses_more; [|exact IH]. intros id. apply promises_app.
  - rewrite app_nil_r. destruct (pumps s !! id) as [p|]; [|done].
    pose proof (pump_body_refuses (promises (heard es)) k id p (conn s) IH) as H.
    by destruct (pump_body k id p (conn s)).
Qed.

(** ** Progress: an upload with enough credit completes *)

Lemma pump_chunk_completes fuel k id chunk o st w :
  conn_ok w -> streams w !! id = Some st -> (o <= length chunk)%nat ->
  (length chunk - o < fuel)%nat -> zlen chunk - Z.of_nat o <= allowance w st ->
  exists w' st', pump_chunk fuel k id chunk o w = (w', Ok (inr true)) /\
    streams w' !! id = Some st' /\
    allowance w' st' = allowance w st - (zlen chunk - Z.of_nat o).
Proof using Type.
  revert o st w. induction fuel as [|fuel IH]; intros o st w Hok Hs Ho Hfuel Ha; [lia|].
  unfold zlen in *. cbn [pump_chunk]. destruct (Nat.ltb_spec o (length chunk)) as [Hlt|Hge].
  2:{ exists w, st. split_and!; [done|done|lia]. }
  destruct (pump_turn_sends k id chunk o st w Hok Hs Hlt ltac:(lia)) as (Hn & item & _ & Hrun).
  pose proof (ok_max _ Hok) as Hmax. pose proof (pump_turn_ok k id chunk o w Hok) as Hok1.
  rewrite Hrun in Hok1. cbn [fst] in Hok1. unfold zlen in *.
  set (n := Z.min _ _) in *.
  assert (n <= Z.of_nat (length chunk) - Z.of_nat o) as Hn1 by (unfold n; lia). clearbody n.
  rewrite (st_bind_Ok _ _ _ _ _ Hrun).
  set (st1 := set_send_window (SendWindow.consume n (StreamState.send_window st)) st).
  assert (allowance (set_sent (sent w ++ [item]) (paid id n st w)) st1 = allowance w st - n) as Ha1
    by (unfold allowance, SendWindow.value; simpl; lia).
  destruct (IH (o + Z.to_nat n)%nat st1 _ Hok1) as (w' & st' & H1 & H2 & H3);
    [by simpl; rewrite lookup_insert_eq|lia|lia|lia|].
  exists w', st'. split_and!; [exact H1|exact H2|]. rewrite H3, Ha1. lia.
Qed.

(** Turns a pump needs when its windows never run out. *)
Definition turns (p : pump_state) : nat :=
  match p with PumpNext rest => S (length rest) | PumpChunk _ _ rest => S (S (length rest)) end.

Lemma pump_in_completes k id chunk o rest st w :
  conn_ok w -> streams w !! id = Some st -> (o <= length chunk)%nat ->
  zlen (drop o chunk ++ concat rest) <= allowance w st ->
  exists w' st', pump_in k id chunk o rest w = (w', Ok (Some (PumpNext rest))) /\
    streams w' !! id = Some st' /\ zlen (concat rest) <= allowance w' st'.
Proof using Type.
  intros Hok Hs Ho Ha. rewrite zlen_app in Ha. pose proof (zlen_nonneg (concat rest)).
  assert (zlen (drop o chunk) = zlen chunk - Z.of_nat o) as Hd
    by (unfold zlen; rewrite length_drop; lia).
  destruct (pump_chunk_completes (S (length chunk)) k id chunk o st w Hok Hs Ho)
    as (w' & st' & H1 & H2 & H3); [lia|lia|].
  exists w', st'. unfold pump_in. rewrite (st_bind_Ok _ _ _ _ _ H1). split_and!; [done|done|lia].
Qed.

(** A turn with enough credit gets on, and the last one ends the stream. *)
Lemma pump_turn_completes k id s p st :
  sys_ok s -> pumps s !! id = Some p -> streams (conn s) !! id = Some st ->
  zlen (remaining p) <= allowance (conn s) st ->
  let s' := sys_step (SysPump id k) s in
  (exists p' st', pumps s' !! id = Some p' /\ streams (conn s') !! id = Some st' /\
     (turns p' < turns p)%nat /\ zlen (remaining p') <= allowance (conn s') st' /\
     tasks (conn s') = tasks (conn s)) \/
  (pumps s' !! id = None /\ tasks (conn s') = tasks (conn s) /\
     frames_out (conn s') = frames_out (conn s) ++ [Frame.Data id [] true]).
Proof using Type.
  intros Hs Hp Hst Ha. cbn [sys_step]. rewrite Hp.
  destruct (so_pumps _ Hs id p Hp) as [Hwf _].
  assert (forall chunk o rest, remaining p = drop o chunk ++ concat rest ->
    (o <= length chunk)%nat -> (S (length rest) < turns p)%nat ->
    pump_body k id p (conn s) = pump_in k id chunk o rest (conn s) ->
    let '(w, r) := pump_body k id p (conn s) in
    let s' := mkSys w (match r with Ok (Some p) => <[id := p]> (pumps s)
                       | _ => delete id (pumps s) end) in
    exists p' st', pumps s' !! id = Some p' /\ streams (conn s') !! id = Some st' /\
     (turns p' < turns p)%nat /\ zlen (remaining p') <= allowance (conn s') st' /\
     tasks (conn s') = tasks (conn s)) as Hin.
  { intros chunk o rest Hrem Ho Ht Hrun. rewrite Hrem in Ha.
    pose proof (pump_chunk_ensures books (S (length chunk)) k id chunk o
      (fun o => pump_turn_books k id chunk o) (conn s)) as Hb.
    destruct (pump_in_completes k id chunk o rest st (conn s) (so_conn _ Hs) Hst Ho Ha)
      as (w' & st' & H1 & H2 & H3).
    rewrite Hrun, H1. exists (PumpNext rest), st'. cbn [pumps conn].
    rewrite lookup_insert_eq. split_and!; [done|done|done|done|].
    unfold pump_in in H1. rewrite st_bind_run in H1. unfold ensures_at in Hb.
    destruct (pump_chunk _ k id chunk o (conn s)) as [w1 [r|e| |]]; try discriminate H1.
    injection H1 as <- _. apply Hb. }
  destruct p as [[|chunk rest]|chunk o rest].
  - right. cbn [pump_body]. destruct (pump_finish_wire id (conn s) (so_conn _ Hs))
      as (w & Hrun & (_ & Hb & _) & Hf). rewrite (st_bind_Ok _ _ _ _ _ Hrun). cbn [pumps conn mret].
    rewrite bool_decide_true in Hf by eauto. split_and!; [apply lookup_delete_eq|done|done].
  - left. destruct (decide (chunk = [])) as [->|Hne].
    + exists (PumpNext rest), st. cbn [pump_body]. cbn -[insert]. rewrite lookup_insert_eq.
      split_and!; [done|done|simpl; lia|done|done].
    + specialize (Hin chunk 0%nat rest). rewrite drop_0 in Hin.
      specialize (Hin eq_refl ltac:(lia) ltac:(simpl; lia)). cbn [pump_body] in *.
      rewrite bool_decide_false in * by done. specialize (Hin eq_refl).
      by destruct (pump_in k id chunk 0 rest (conn s)).
  - left. specialize (Hin chunk o rest eq_refl Hwf ltac:(simpl; lia) eq_refl).
    by destruct (pump_body k id (PumpChunk chunk o rest) (conn s)).
Qed.

(** ** Refinement: the system is a run of the connection *)

Lemma pump_chunk_runs options fuel k id chunk offset fs w :
  run to_uppercase options fs w ->
  run to_uppercase options fs (fst (pump_chunk fuel k id chunk offset w)).
Proof using Type.
  revert offset w. induction fuel as [|fuel IH]; intros offset w Hrun; [done|]. cbn [pump_chunk].
  destruct (offset <? length chunk)%nat; [|done].
  pose proof (run_step _ _ _ _ (OpPump k id chunk offset) Hrun I) as Hstep. simpl in Hstep.
  rewrite app_nil_r in Hstep. rewrite st_bind_run.
  destruct (pump_turn k id chunk offset w) as [w1 [[[o|]|]|e| |]]; simpl in *; auto.
Qed.

Lemma pump_body_runs options k id p fs w :
  run to_uppercase options fs w -> run to_uppercase options fs (fst (pump_body k id p w)).
Proof using Type.
  intros Hrun.
  assert (forall chunk offset rest,
    run to_uppercase options fs (fst (pump_in k id chunk offset rest w))) as Hin.
  { intros chunk offset rest. unfold pump_in. rewrite st_bind_run.
    pose proof (pump_chunk_runs options (S (length chunk)) k id chunk offset fs w Hrun) as H.
    by destruct (pump_chunk _ k id chunk offset w) as [w1 [r|e| |]]. }
  destruct p as [[|chunk rest]|chunk offset rest]; cbn [pump_body]; [|by case_bool_decide|done].
  pose proof (run_step _ _ _ _ (OpPumpFinish id) Hrun I) as Hstep. simpl in Hstep.
  rewrite app_nil_r in Hstep. rewrite st_bind_run.
  by destruct (pump_finish id w) as [w1 [r|e| |]].
Qed.
End system.

(** ** Theorems *)

(** The system of connection and pumps refines the connection's own
    transition system: every state it reaches is reached by a run of single
    operations, so whatever holds of all runs (flow control, the connection's
    invariant) holds whatever turns the driver and the pumps take. *)
Theorem system_refines_run {arch : Arch} up options s :
  sys_run up options s -> exists fs, run up options fs (conn s).
Proof.
  induction 1 as [|s o _ [fs IH] Ho].
  - exists []. constructor.
  - destruct o as [op|id k]; simpl in *.
    + exists (fs ++ frames_of op (conn s)). apply run_step; [done|apply Ho].
    + exists fs. destruct (pumps s !! id) as [p|]; [|done].
      pose proof (pump_body_runs up options k id p fs (conn s) IH) as H.
      by destruct (pump_body k id p (conn s)) as [w r].
Qed.

(** The stream was opened by a HEADERS frame. *)
Definition headers_sent (id : Z) (fs : list Frame.t) : Prop :=
  exists fragment es eh p, Frame.Headers id fragment es eh p ∈ fs.

(** C9: The client's frames keep their order, in every run and whatever the peer sends:
    SETTINGS first; streams opened with odd, increasing ids; a header block's
    CONTINUATIONs right behind it, with nothing in between; DATA only on a stream opened
    with a body, before its END_STREAM and before it is reset; never PUSH_PROMISE or
    PRIORITY.  Between operations no header block is left open.  An RST_STREAM with
    REFUSED_STREAM names an id the peer promised; once an opened stream was reset, no
    DATA follows on it, unless that RST_STREAM was the refusal of a promise, and then
    the peer had promised a stream that the client had opened itself. *)
Theorem wire_order {arch : Arch} up options es s :
  sys_log up options es s ->
  said es = frames_out (conn s) /\
  (exists st, wire_run (said es) wire_init = Some st /\ block st = None) /\
  (forall id, Frame.RstStream id REFUSED ∈ said es -> promises (heard es) id) /\
  forall id code before after, said es = before ++ Frame.RstStream id code :: after ->
    headers_sent id before -> code <> REFUSED \/ ~ promises (heard es) id ->
    forall d fin, Frame.Data id d fin ∉ after.
Proof.
  intros Hlog. pose proof (sys_log_said up options es s Hlog) as Hsaid.
  pose proof (sys_log_refuses up options es s Hlog) as [Hr _]. rewrite <- Hsaid in Hr.
  destruct (so_wire _ (sys_run_ok up options s (sys_log_run up options es s Hlog)))
    as (st & H1 & [H2 _] & _). rewrite <- Hsaid in H1.
  split; [done|]. split; [by exists st|]. split; [done|].
  intros id code before after E Ho Hc. apply (wire_reset_last _ st id code before after H1 E Ho).
  intros ->. destruct Hc as [?|Hc]; [done|]. apply Hc, Hr. rewrite E. set_solver.
Qed.

(** C6: An upload is faithful, whatever else happens meanwhile: the DATA on a
    stream is the request's body cut in pieces, in order and nothing else, up to
    where its pump stands; END_STREAM comes at most once, after the last byte of
    the body, and is the last DATA of the stream.  A stream without a registered
    body carries no DATA. *)
Theorem upload_faithful {arch : Arch} up options s id :
  sys_run up options s ->
  (id ∉ (tasks (conn s)).*1 -> upload_frames id (frames_out (conn s)) = []) /\
  forall body, (id, body) ∈ tasks (conn s) ->
    exists pieces rest (fin : bool),
      upload_frames id (frames_out (conn s)) =
        ((fun d => (d, false)) <$> pieces) ++ (if fin then [([], true)] else []) /\
      concat pieces ++ rest = concat (body_chunks body) /\
      (fin = true -> rest = []) /\
      (forall p, pumps s !! id = Some p -> fin = false /\ rest = remaining p).
Proof.
  intros Hrun. pose proof (sys_run_ok up options s Hrun) as Hs.
  split; [apply (so_none _ Hs)|]. intros body Hin.
  destruct (so_upload _ Hs id body Hin) as (pieces & rest & fin & H1 & H2 & H3 & H4).
  exists pieces, rest, fin. split_and!; [done..|]. intros p Hp. by rewrite Hp in H4.
Qed.

(** C10: An upload completes as soon as it may: when the windows hold enough credit
    for what is left of the body, and nothing takes it away, the pump's own turns
    (one per remaining chunk, and one more) send the rest and END_STREAM, after
    which the DATA frames of the stream are exactly the body and its end. *)
Theorem upload_completes {arch : Arch} up options s id k body p st :
  sys_run up options s -> pumps s !! id = Some p -> (id, body) ∈ tasks (conn s) ->
  streams (conn s) !! id = Some st -> zlen (remaining p) <= allowance (conn s) st ->
  exists n pieces, (n <= turns p)%nat /\
    let s' := Nat.iter n (sys_step up (SysPump id k)) s in
    pumps s' !! id = None /\
    upload_frames id (frames_out (conn s')) = ((fun d => (d, false)) <$> pieces) ++ [([], true)] /\
    concat pieces = concat (body_chunks body).
Proof.
  intros Hrun Hp Hin Hst Ha. apply sys_run_ok in Hrun.
  revert p st s Hrun Hp Hin Hst Ha.
  induction p as [p IH] using (induction_ltof1 _ turns). unfold ltof in IH.
  intros st s Hs Hp Hin Hst Ha. pose proof (sys_step_ok up (SysPump id k) s I Hs) as Hs'.
  destruct (pump_turn_completes up k id s p st Hs Hp Hst Ha)
    as [(p' & st' & H1 & H2 & H3 & H4 & H5)|(H1 & H2 & H3)].
  - destruct (IH p' H3 st' _ Hs' H1) as (n & pieces & Hn & H); [by rewrite H5|done|done|].
    exists (S n), pieces. split; [lia|]. by rewrite Nat.iter_succ_r.
  - destruct (so_upload _ Hs' id body) as (pieces & rest & fin & E1 & E2 & E3 & _); [by rewrite H2|].
    exists 1%nat, pieces. split; [destruct p; simpl; lia|]. cbn [Nat.iter nat_rect].
    assert (fin = true) as ->.
    { rewrite H3, upload_frames_app in E1. destruct fin; [done|]. exfalso.
      rewrite app_nil_r in E1. cbn in E1. rewrite Z.eqb_refl in E1.
      assert (([], true) ∈ (fun d : bytes => (d, false)) <$> pieces) as Hb
        by (rewrite <- E1; set_solver).
      by apply list_elem_of_fmap in Hb as (? & ? & _). }
    split_and!; [done|exact E1|]. by rewrite E3, app_nil_r in E2.
Qed.

(** The promised id of a PUSH_PROMISE is not checked: one that names the
    client's own open stream makes the client refuse it with RST_STREAM and yet
    keep the stream, whose body it then goes on sending after the reset. *)
Theorem push_promise_own_stream :
  let s0 := sys_step (arch := host64_debug) id (SysOp (OpRequest 0 sample_request))
    (mkSys (connect (arch := host64_debug) default_options) ∅) in
  let s1 := sys_step (arch := host64_debug) id
    (SysOp (OpRead 0 [0; 0; 5; 5; 4; 0; 0; 0; 1; 0; 0; 0; 1; 136])) s0 in
  let s2 := sys_step (arch := host64_debug) id (SysPump 1 7) s1 in
  is_Some (streams (conn s1) !! 1) /\
  frames_out (conn s2) = frames_out (conn s0) ++
    [Frame.RstStream 1 (ErrorCode.value ErrorCode.RefusedStream);
     Frame.Data 1 (str "hello") false].
Proof.
  intros s0 s1 s2. split.
  - destruct (streams (conn s1) !! 1) as [st|] eqn:H; [by exists st|vm_compute in H; discriminate H].
  - vm_compute. reflexivity.
Qed.

(** A zero WINDOW_UPDATE on a stream never opened is answered with RST_STREAM on
    that idle stream. *)
Theorem zero_update_idle_stream :
  let s0 := mkSys (connect (arch := host64_debug) default_options) ∅ in
  let s1 := sys_step (arch := host64_debug) id
    (SysOp (OpRead 0 [0; 0; 4; 8; 0; 0; 0; 0; 5; 0; 0; 0; 0])) s0 in
  next_stream_id (conn s0) = 1 /\
  frames_out (conn s1) = frames_out (conn s0) ++
    [Frame.RstStream 5 (ErrorCode.value ErrorCode.ProtocolError)].
Proof. vm_compute. by split. Qed.

(** ** Witnesses *)

(** A request with a body, a window update, and the pump to its end. *)
Definition sample_sys : list sys_op :=
  [SysOp (OpRequest 0 sample_request); SysPump 1 7;
   SysOp (OpRead 0 [0; 0; 4; 8; 0; 0; 0; 0; 0; 0; 0; 0; 9]); SysPump 1 7].

Definition sample_state : sys :=
  fold_left (fun s o => sys_step (arch := host64_debug) id o s) sample_sys
    (mkSys (connect (arch := host64_debug) default_options) ∅).

Lemma sample_sys_run : sys_run (arch := host64_debug) id default_options sample_state.
Proof.
  set (s0 := mkSys (connect (arch := host64_debug) default_options) ∅).
  assert (sys_run (arch := host64_debug) id default_options s0) as H0 by constructor.
  pose proof (sys_next id default_options s0 (SysOp (OpRequest 0 sample_request)) H0
    ltac:(vm_compute; by split)) as H1.
  pose proof (sys_next id default_options _ (SysPump 1 7) H1 I) as H2.
  pose proof (sys_next id default_options _
    (SysOp (OpRead 0 [0; 0; 4; 8; 0; 0; 0; 0; 0; 0; 0; 0; 9])) H2
    ltac:(split; [repeat constructor; done|exact I])) as H3.
  exact (sys_next id default_options _ (SysPump 1 7) H3 I).
Qed.

Lemma system_refines_run_witness :
  exists fs, run (arch := host64_debug) id default_options fs (conn sample_state).
Proof. exact (system_refines_run id default_options sample_state sample_sys_run). Defined.

(** A request whose body is given up before it is sent, its pump, and another request
    with its pump. *)
Definition dropped_sys : list sys_op :=
  [SysOp (OpRequest 0 sample_request); SysOp (OpBodyDrop 1); SysPump 1 7;
   SysOp (OpRequest 0 sample_request); SysPump 3 8].

Definition log_of (ops : list sys_op) : list frame_event * sys :=
  fold_left (fun '(es, s) o => (es ++ exchange (arch := host64_debug) id o s,
                                sys_step (arch := host64_debug) id o s))
    ops (Said <$> frames_out (connect (arch := host64_debug) default_options),
         mkSys (connect (arch := host64_debug) default_options) ∅).

Lemma wire_order_witness :
  let '(es, s) := log_of dropped_sys in
  exists before after, said es = before ++ Frame.RstStream 1 (ErrorCode.value ErrorCode.Cancel) :: after /\
    length after = 2%nat /\ upload_frames 3 after = [(str "hello", false)] /\
    forall d fin, Frame.Data 1 d fin ∉ after.
Proof.
  assert (sys_log (arch := host64_debug) id default_options (log_of dropped_sys).1 (log_of dropped_sys).2) as Hlog.
  { set (s0 := mkSys (connect (arch := host64_debug) default_options) ∅).
    assert (sys_log (arch := host64_debug) id default_options
      (Said <$> frames_out (connect (arch := host64_debug) default_options)) s0) as H0 by constructor.
    pose proof (log_next id default_options _ s0 (SysOp (OpRequest 0 sample_request)) H0
      ltac:(vm_compute; by split)) as H1.
    pose proof (log_next id default_options _ _ (SysOp (OpBodyDrop 1)) H1 ltac:(by split)) as H2.
    pose proof (log_next id default_options _ _ (SysPump 1 7) H2 I) as H3.
    pose proof (log_next id default_options _ _ (SysOp (OpRequest 0 sample_request)) H3
      ltac:(vm_compute; by split)) as H4.
    exact (log_next id default_options _ _ (SysPump 3 8) H4 I). }
  assert (exists before after, said (log_of dropped_sys).1 =
    before ++ Frame.RstStream 1 (ErrorCode.value ErrorCode.Cancel) :: after /\
    length after = 2%nat /\ upload_frames 3 after = [(str "hello", false)] /\
    existsb (fun f => match f with Frame.Headers i _ _ _ _ => i =? 1 | _ => false end) before = true)
    as (before & after & E & Hl & Hu & Hh)
    by (eexists [_; _; _], [_; _]; split_and!; vm_compute; reflexivity).
  destruct (log_of dropped_sys) as [es s]. cbn [fst snd] in *.
  destruct (wire_order (arch := host64_debug) id default_options es s Hlog) as (_ & _ & _ & H2).
  exists before, after. repeat (split; [assumption|]).
  apply (H2 1 _ before after E); [|left; discriminate].
  apply existsb_exists in Hh as (f & Hin & Hf). destruct f; try discriminate Hf. apply Z.eqb_eq in Hf as ->.
  do 4 eexists. apply list_elem_of_In. exact Hin.
Defined.

Lemma upload_faithful_witness :
  upload_frames 1 (frames_out (conn sample_state)) = [(str "hello", false); ([], true)] /\
  exists pieces rest (fin : bool),
    upload_frames 1 (frames_out (conn sample_state)) =
      ((fun d => (d, false)) <$> pieces) ++ (if fin then [([], true)] else []) /\
    concat pieces ++ rest = str "hello".
Proof.
  split; [vm_compute; reflexivity|].
  destruct (proj2 (upload_faithful id default_options sample_state 1 sample_sys_run)
    (BodyBytes (str "hello"))) as (pieces & rest & fin & H1 & H2 & _).
  - vm_compute. by left.
  - exists pieces, rest, fin. split; [exact H1|]. rewrite H2. reflexivity.
Defined.

Lemma upload_completes_witness :
  let s := sys_step (arch := host64_debug) id (SysOp (OpRequest 0 sample_request))
    (mkSys (connect (arch := host64_debug) default_options) ∅) in
  exists n pieces,
    let s' := Nat.iter n (sys_step (arch := host64_debug) id (SysPump 1 7)) s in
    pumps s' !! 1 = None /\
    upload_frames 1 (frames_out (conn s')) = ((fun d => (d, false)) <$> pieces) ++ [([], true)] /\
    concat pieces = str "hello".
Proof.
  intros s. destruct (streams (conn s) !! 1) as [st|] eqn:Hst; [|vm_compute in Hst; discriminate Hst].
  destruct (upload_completes (arch := host64_debug) id default_options s 1 7
    (BodyBytes (str "hello")) (PumpNext [str "hello"]) st) as (n & pieces & _ & H1 & H2 & H3).
  - apply sys_next; [constructor|]. split; [vm_compute; reflexivity|exact I].
  - vm_compute. reflexivity.
  - vm_compute. by left.
  - exact Hst.
  - vm_compute in Hst. injection Hst as <-. vm_compute. discriminate.
  - exists n, pieces. split; [exact H1|]. split; [exact H2|]. rewrite H3. reflexivity.
Defined.
