(* ===== verification/Ledger.v ===== *)
(** * Ledger: the client never spends credit it does not have

    The peer's side of flow control (RFC 7540, section 6.9): a ledger of the credit on
    the connection and on each stream, replayed over the conversation of [sys_log] of
    System.v, frame by frame.  A DATA frame must fit in both credits and in the frame
    size, or the replay fails.  It never does, and while the connection is open the
    client's own windows are the ledger's. *)

From S2P Require Import Prelude Errors Bytes Utf8 Frames FramesFacts Hpack Flow Stream Connection.
From S2P Require Import ConnectionFacts FlowSafety Lifecycle Sending Totality Wire Resets System.

(** ** The ledger *)

Record ledger := mkLedger {
  conn_credit : Z;
  initial_window : Z;   (* what a new stream is given *)
  frame_limit : Z;
  credits : gmap Z Z;   (* of each stream the client opened *)
}.

Definition ledger_init : ledger := mkLedger 65535 65535 16384 ∅.

(** A change of the initial window moves every stream's credit with it, below zero
    if need be; credit for a stream the client has not opened is lost. *)
Definition ledger_step (e : frame_event) (l : ledger) : option ledger :=
  match e with
  | Heard (Frame.WindowUpdate id inc) =>
      Some (if id =? 0 then mkLedger (conn_credit l + inc) (initial_window l) (frame_limit l) (credits l)
            else mkLedger (conn_credit l) (initial_window l) (frame_limit l)
                   (alter (fun c => c + inc) id (credits l)))
  | Heard (Frame.Settings false s) =>
      let iw := default (initial_window l) (initial_window_size s) in
      Some (mkLedger (conn_credit l) iw (default (frame_limit l) (max_frame_size s))
              ((fun c => c + (iw - initial_window l)) <$> credits l))
  | Said (Frame.Headers id _ _ _ _) =>
      Some (mkLedger (conn_credit l) (initial_window l) (frame_limit l)
              (<[id := initial_window l]> (credits l)))
  | Said (Frame.Data id d _) =>
      let n := zlen d in
      if n =? 0 then Some l
      else
        c ← credits l !! id;
        if (n <=? conn_credit l) && (n <=? c) && (n <=? frame_limit l) then
          Some (mkLedger (conn_credit l - n) (initial_window l) (frame_limit l)
                  (<[id := c - n]> (credits l)))
        else None
  | _ => Some l
  end.

Fixpoint replay (es : list frame_event) (l : ledger) : option ledger :=
  match es with
  | [] => Some l
  | e :: es => l ← ledger_step e l; replay es l
  end.

Lemma replay_app es1 es2 l : replay (es1 ++ es2) l = (l ← replay es1 l; replay es2 l).
Proof.
  revert l. induction es1 as [|e es1 IH]; intros l; [done|]. cbn. destruct (ledger_step e l); [apply IH|done].
Qed.

(** What is heard and the control frames said never break the ledger. *)
Lemma heard_step f l : is_Some (ledger_step (Heard f) l).
Proof. destruct f as [| | | |[]| | | | |]; by eexists. Qed.

Lemma replay_neutral fs l :
  Forall (fun f => forall l, ledger_step (Said f) l = Some l) fs -> replay (Said <$> fs) l = Some l.
Proof. induction 1 as [|f fs Hf _ IH]; [done|]. cbn [fmap list_fmap replay]. rewrite Hf. exact IH. Qed.

Lemma replay_signals fs l : Forall signal fs -> replay (Said <$> fs) l = Some l.
Proof. intros H. apply replay_neutral. eapply Forall_impl; [exact H|]. by intros []. Qed.

Lemma replay_headers id es frags l : frags <> [] ->
  replay (Said <$> header_frames id es frags) l =
    Some (mkLedger (conn_credit l) (initial_window l) (frame_limit l) (<[id := initial_window l]> (credits l))).
Proof.
  destruct frags as [|f frags]; [done|]. intros _. cbn -[insert]. apply replay_neutral.
  induction frags as [|g frags IH]; [constructor|]. destruct frags; by constructor.
Qed.

(** ** The client's windows are the ledger's *)

(** [D]: the streams whose body is being sent. *)
Record mirrors (D : Z -> Prop) (l : ledger) (w : ConnState) : Prop := {
  mi_conn : conn_credit l = SendWindow.value (conn_send_window w);
  mi_initial : initial_window l = Remote.initial_window_size (remote w);
  mi_limit : frame_limit l = Remote.max_frame_size (remote w);
  mi_streams id s : D id -> streams w !! id = Some s ->
    credits l !! id = Some (SendWindow.value (StreamState.send_window s));
}.

Definition mirrored (D : Z -> Prop) (l : ledger) (w : ConnState) : Prop :=
  closed w = false -> mirrors D l w.

Section ledger.
Context {arch : Arch}.

Lemma mirrors_quiet D l w w' : quiet w w' -> mirrors D l w -> mirrors D l w'.
Proof using Type.
  intros [Q1 Q2 Q3 Q4 Q5 Q6] [M1 M2 M3 M4]. split; rewrite ?Q1, ?Q2; try done.
  intros id s' Hd Hs. destruct (Q6 id s' Hs) as (s & H & ->). auto.
Qed.

Lemma mirrored_quiet D l w w' :
  quiet w w' -> silent w w' -> mirrored D l w -> mirrored D l w'.
Proof using Type.
  intros Hq Hs Hm Hc. apply (mirrors_quiet D l w w' Hq), Hm. destruct (closed w) eqn:E; [|done].
  destruct (Hs E) as [H _]. congruence.
Qed.

Lemma mirrors_less (D D' : Z -> Prop) l w : (forall id, D' id -> D id) -> mirrors D l w -> mirrors D' l w.
Proof using Type. intros H [M1 M2 M3 M4]. split; auto. Qed.

(** ** Credit heard *)

(** What a method makes of the ledger, unless it is a connection error. *)
Definition settles {A} (m : M A) (w : ConnState) (Q : ConnState -> Prop) : Prop :=
  match m w with
  | (w', Ok _) => Q w'
  | (_, Err _) => True
  | _ => False
  end.

Lemma settles_bind {A B} (m : M A) (f : A -> M B) w (P Q : ConnState -> Prop) :
  settles m w P -> (forall a w', P w' -> settles (f a) w' Q) -> settles (m ≫= f) w Q.
Proof using Type.
  unfold settles. intros Hm Hf. rewrite st_bind_run.
  destruct (m w) as [w' [a|e| |]]; cbn [fst snd]; try done. by apply Hf.
Qed.

Lemma iter_mirrors D l delta w r :
  mirrors D l w -> initial_window l + delta = Remote.initial_window_size r ->
  frame_limit l = Remote.max_frame_size r ->
  settles (st_iter (fun id => on_stream id (fun st c =>
      let '(win, woken) := SendWindow.adjust delta (StreamState.send_window st) in
      (set_send_window win st, c, woken))) (stream_ids w)) (set_remote r w)
    (mirrors D (mkLedger (conn_credit l) (Remote.initial_window_size r) (frame_limit l)
      ((fun c => c + (Remote.initial_window_size r - initial_window l)) <$> credits l))).
Proof using Type.
  intros [M1 M2 M3 M4] Hiw Hfl. unfold settles.
  match goal with |- context [st_iter (fun id => on_stream id ?f) _ _] => set (g := f) end.
  assert (moves_window delta g) as Hg by (intros st c; unfold g, SendWindow.adjust; by destruct (0 <? _)).
  destruct (iter_moves delta g (stream_ids w) (set_remote r w) Hg (stream_ids_NoDup w)) as [[B1 B2 B3 B4 B5 B6 B7] Hok].
  destruct (st_iter _ _ _) as [w' o]. cbn [fst snd] in *. subst o.
  split; cbn [conn_credit initial_window frame_limit credits]; rewrite ?B1, ?B2; try done.
  intros id s' Hd Hs. destruct (B6 id s' Hs) as (s & H & ->). cbn in H.
  rewrite lookup_fmap, (M4 id s Hd H). cbn. f_equal.
  rewrite bool_decide_true by (apply stream_ids_spec; eauto). lia.
Qed.

(** The settings other than those two. *)
Lemma mirrors_remote D l g w :
  (forall r, Remote.initial_window_size (g r) = Remote.initial_window_size r /\
     Remote.max_frame_size (g r) = Remote.max_frame_size r) ->
  mirrors D l w -> mirrors D l (set_remote (g (remote w)) w).
Proof using Type. intros Hg [M1 M2 M3 M4]. destruct (Hg (remote w)) as [E1 E2]. split; cbn; rewrite ?E1, ?E2; auto. Qed.

Lemma settings_mirrors D l s w l' :
  ledger_step (Heard (Frame.Settings false s)) l = Some l' -> mirrors D l w ->
  settles (apply_remote_settings s) w (mirrors D l').
Proof using Type.
  intros [= <-] Hm. unfold apply_remote_settings.
  set (iw := default (initial_window l) (initial_window_size s)).
  set (cs := (fun c => c + (iw - initial_window l)) <$> credits l).
  apply (settles_bind _ _ w (mirrors D (mkLedger (conn_credit l) iw (frame_limit l) cs))).
  { destruct (initial_window_size s) as [z|]; cbn [default] in *; subst iw.
    - destruct (_ <? z); [done|]. unfold settles. rewrite st_get_bind, st_put_bind.
      apply (iter_mirrors D l (z - Remote.initial_window_size (remote w)) w (Remote.mk z _ _ _ _) Hm);
        destruct Hm as [M1 M2 M3 M4]; cbn; [lia|done].
    - change (mirrors D (mkLedger (conn_credit l) (initial_window l) (frame_limit l) cs) w).
      destruct Hm as [M1 M2 M3 M4]. split; try done. intros id st Hd Hs. unfold cs. cbn.
      rewrite lookup_fmap, (M4 id st Hd Hs). cbn. f_equal. lia. }
  clear Hm w. intros _ w Hm.
  apply (settles_bind _ _ w (mirrors D (mkLedger (conn_credit l) iw (default (frame_limit l) (max_frame_size s)) cs))).
  { destruct (max_frame_size s) as [z|]; [|exact Hm]. destruct (negb _); [done|].
    destruct Hm as [M1 M2 M3 M4]. by split. }
  clear Hm w. intros _ w Hm. set (l2 := mkLedger _ _ _ _) in *. clearbody l2. clear iw cs.
  apply (settles_bind _ _ w (mirrors D l2)).
  { destruct (header_table_size s) as [z|]; [|exact Hm].
    apply (mirrors_remote D l2
      (fun r => Remote.mk (Remote.initial_window_size r) (Remote.max_frame_size r) z (Remote.enable_push r) (Remote.max_concurrent_streams r)));
      [done|exact Hm]. }
  clear Hm w. intros _ w Hm. apply (settles_bind _ _ w (mirrors D l2)).
  { destruct (enable_push s) as [z|]; [|exact Hm].
    apply (mirrors_remote D l2
      (fun r => Remote.mk (Remote.initial_window_size r) (Remote.max_frame_size r) (Remote.header_table_size r) z (Remote.max_concurrent_streams r)));
      [done|exact Hm]. }
  clear Hm w. intros _ w Hm. destruct (max_concurrent_streams s) as [z|]; [|exact Hm].
  apply (settles_bind _ _ w (mirrors D l2)).
  { apply (mirrors_remote D l2
      (fun r => Remote.mk (Remote.initial_window_size r) (Remote.max_frame_size r) (Remote.header_table_size r) (Remote.enable_push r) z));
      [done|exact Hm]. }
  clear Hm w. intros _ w Hm. unfold settles.
  pose proof (wake_slot_waiters_quiet w) as Hq. unfold ensures_at in Hq.
  unfold wake_slot_waiters in *. rewrite st_get_bind in *. rewrite st_put_bind in *.
  by apply (mirrors_quiet D l2 w).
Qed.

(** A frame the ledger does not enter. *)
Definition unentered (f : Frame.t) : Prop :=
  match f with Frame.Settings false _ | Frame.WindowUpdate _ _ => False | _ => True end.

Lemma dispatch_quiet now f : unentered f -> ensures quiet (dispatch now f).
Proof using Type.
  intros Hf. unfold dispatch, receive_goaway. apply ensures_get_bind. intros w.
  destruct (_ && _); [apply ensures_at_of; auto with quiet|].
  destruct f as [id d es|id frag es eh p|id p|id code|[] st|id pid frag eh|ack d|last code dbg|
    id inc|id frag eh]; try done; try (quiet_auto; fail).
  quiet_auto. apply ensures_modify. intros w'. quiet_same.
Qed.

(** Taking in one frame: an error apart, the windows and the ledger move together. *)
Lemma dispatch_mirrors D now f w l l' :
  ledger_step (Heard f) l = Some l' -> mirrors D l w ->
  match dispatch now f w with (_, Err _) => True | (w', _) => mirrors D l' w' end.
Proof using Type.
  intros Hl Hm. assert (unentered f \/ ~ unentered f) as [Hu|Hu]
    by (destruct f as [| | | |[]| | | | |]; cbn; tauto).
  { assert (l' = l) as -> by (destruct f as [| | | |[]| | | | |]; try done; by injection Hl).
    pose proof (dispatch_quiet now f Hu w) as Hq. unfold ensures_at in Hq.
    destruct (dispatch now f w) as [w' [a|e| |]]; [|done|..]; by eapply mirrors_quiet. }
  unfold dispatch. rewrite st_get_bind. destruct (_ && _); [done|].
  destruct f as [| | | |[] st| | | |id inc|]; try (by destruct Hu).
  - pose proof (settings_mirrors D l st w l' Hl Hm) as Hs. unfold settles in Hs. rewrite st_bind_run.
    destruct (apply_remote_settings st w) as [w1 [[]|e| |]]; [|done..]. cbn [fst snd].
    pose proof (send_frame_quiet (Frame.Settings true default_settings) ltac:(by intros []) w1) as Hq.
    unfold ensures_at in Hq. destruct (send_frame _ w1) as [w2 [a|e| |]]; [|done|..]; by eapply mirrors_quiet.
  - injection Hl as <-. destruct (Z.eqb_spec inc 0) as [->|Hinc].
    + destruct (Z.eqb_spec id 0) as [->|Hid]; [done|].
      pose proof (reset_stream_quiet id ErrorCode.ProtocolError w) as Hq. unfold ensures_at in Hq.
      assert (mirrors D (mkLedger (conn_credit l) (initial_window l) (frame_limit l)
        (alter (fun c => c + 0) id (credits l))) w) as H1.
      { destruct Hm as [M1 M2 M3 M4]. split; try done. intros i s Hd Hs. cbn.
        destruct (decide (i = id)) as [->|Hne]; [|by rewrite lookup_alter_ne by done; auto].
        rewrite lookup_alter_eq, (M4 id s Hd Hs). cbn. f_equal. lia. }
      destruct (reset_stream _ _ w) as [w2 [a|e| |]]; [|done|..]; by eapply mirrors_quiet.
    + destruct (Z.eqb_spec id 0) as [->|Hid].
      * pose proof (window_step_available (Update inc) (conn_send_window w)) as Hv. cbn in Hv.
        destruct (SendWindow.update inc (conn_send_window w)) as [win woken]. cbn in Hv.
        rewrite st_put_bind. destruct Hm as [M1 M2 M3 M4]. split; cbn; try done. rewrite Hv, M1. lia.
      * match goal with |- context [on_stream id ?f w] => set (g := f) end.
        assert (moves_window inc g) as Hg by (intros st c; unfold g, SendWindow.update; by destruct (0 <? _)).
        destruct (on_stream_moves id inc g w Hg) as [B1 B2 B3 B4 B5 B6 B7].
        destruct (on_stream id g w) as [w' r]. cbn [fst] in *.
        assert (mirrors D (mkLedger (conn_credit l) (initial_window l) (frame_limit l)
          (alter (fun c => c + inc) id (credits l))) w') as H1.
        { destruct Hm as [M1 M2 M3 M4]. split; cbn [conn_credit initial_window frame_limit credits]; rewrite ?B1, ?B2; try done.
          intros i s' Hd Hs. destruct (B6 i s' Hs) as (s & H & ->). destruct (Z.eqb_spec i id) as [->|Hne].
          - rewrite lookup_alter_eq, (M4 id s Hd H). reflexivity.
          - rewrite lookup_alter_ne by done. rewrite (M4 i s Hd H). f_equal. lia. }
        by destruct r.
Qed.

Lemma acted_mirrors D now fs w l :
  mirrors D l w ->
  exists l', replay (Heard <$> acted now fs w) l = Some l' /\
    match dispatch_all now fs w with (_, Err _) => True | (w', _) => mirrors D l' w' end.
Proof using Type.
  revert w l. induction fs as [|f fs IH]; intros w l Hm; [by exists l|]. cbn [acted dispatch_all].
  destruct (heard_step f l) as [l1 Hl1]. pose proof (dispatch_mirrors D now f w l l1 Hl1 Hm) as Hd.
  rewrite st_bind_run. rewrite fmap_cons. cbn [replay]. rewrite Hl1. cbn [mbind option_bind].
  destruct (dispatch now f w) as [w1 [[]|e| |]]; cbn [fst snd]; [by apply IH|by exists l1..].
Qed.

(** Reading: whatever comes in. *)
Lemma read_mirrored D up now c w l :
  mirrored D l w ->
  exists l', replay (Heard <$> taken_in (OpRead now c) w) l = Some l' /\
    mirrored D l' (apply_op up (OpRead now c) w).
Proof using Type.
  intros Hm. destruct (closed w) eqn:Hc.
  { assert (exists l', replay (Heard <$> taken_in (OpRead now c) w) l = Some l') as [l' Hl].
    { generalize (taken_in (OpRead now c) w). intros fs. clear Hm. revert l.
      induction fs as [|f fs IH]; intros l; [by exists l|]. rewrite fmap_cons. cbn [replay].
      destruct (heard_step f l) as [l1 ->]. apply IH. }
    exists l'. split; [done|]. intros Hc'. exfalso.
    destruct (apply_op_silent up (OpRead now c) w Hc) as [H _]. congruence. }
  specialize (Hm Hc). cbn [apply_op taken_in]. unfold read_chunk.
  destruct (bool_decide (c = [])); [exists l; split; [done|by intros _]|]. cbn [negb].
  unfold on_bytes, st_catch. rewrite st_get_bind.
  destruct (FrameDecoder.push c (frame_decoder w)) as [fd r]. rewrite st_put_bind, st_lift_bind.
  set (w1 := set_frame_decoder fd w).
  assert (mirrors D l w1) as H1 by (by destruct Hm).
  assert (forall e w l, mirrored D l (fst (connection_error e w))) as Herr.
  { intros e w2 l2 H. by rewrite connection_error_closes in H. }
  destruct r as [fs|e| |]; [|exists l; split; [done|first [apply Herr|by intros _]]..].
  destruct (acted_mirrors D now fs w1 l H1) as (l' & Hl & Hd). exists l'. split; [done|].
  destruct (dispatch_all now fs w1) as [w2 [[]|e| |]]; cbn [fst]; [by intros _|apply Herr|by intros _..].
Qed.

(** ** Streams opened *)

(** At most one stream is opened, with the peer's initial window. *)
Definition opens (w w' : ConnState) : Prop :=
  quiet w w' \/
  exists w1 st, quiet w1 w' /\ conn_send_window w1 = conn_send_window w /\ remote w1 = remote w /\
    streams w1 = <[next_stream_id w := st]> (streams w) /\
    SendWindow.value (StreamState.send_window st) = Remote.initial_window_size (remote w).

Lemma request_open_window up init w : next_stream_id w + 2 < 4294967296 -> opens w (fst (request_open up init w)).
Proof using Type.
  intros Hid. unfold request_open. rewrite st_bind_run, check_open_state.
  destruct (snd (check_open w)); [|by left..].
  rewrite st_get_bind. unfold u32_add. destruct (Z.ltb_spec (next_stream_id w + 2) 4294967296); [|lia].
  rewrite st_lift_Ok, st_put_bind, st_modify_bind. right.
  match goal with |- context [fst (?m ?a)] =>
    exists a; eexists; split; [change (ensures_at quiet m a)|split_and!; [reflexivity..|reflexivity]] end.
  apply ensures_at_of. quiet_auto. apply ensures_modify. intros w'. quiet_same.
Qed.

Lemma request_turn_window up k init w : next_stream_id w + 2 < 4294967296 -> opens w (fst (request_turn up k init w)).
Proof using Type.
  intros Hid. unfold request_turn. rewrite st_bind_run, request_wait_run.
  destruct (closed w); [by left|]. destruct (goaway_received w); [by left|].
  destruct (can_open_stream w); [|left; cbn; quiet_same]. cbn [fst snd]. rewrite st_bind_run.
  pose proof (request_open_window up init w Hid) as H. by destruct (request_open up init w) as [w2 [n|e| |]].
Qed.

(** A stream opened that the ledger was told of, or that sends no body. *)
Lemma opens_mirrors D (D' : Z -> Prop) l w w' cs :
  opens w w' -> mirrors D l w -> (forall id, D' id -> id <> next_stream_id w -> D id) ->
  (forall id, id <> next_stream_id w -> cs !! id = credits l !! id) ->
  (D' (next_stream_id w) -> cs !! next_stream_id w = Some (initial_window l)) ->
  (~ is_Some (streams w !! next_stream_id w)) ->
  mirrors D' (mkLedger (conn_credit l) (initial_window l) (frame_limit l) cs) w'.
Proof using Type.
  intros Ho [M1 M2 M3 M4] HD Hcs Hnew Hfresh.
  assert (forall w1, conn_send_window w1 = conn_send_window w -> remote w1 = remote w ->
    (forall id s, id <> next_stream_id w -> streams w1 !! id = Some s -> streams w !! id = Some s) ->
    (forall s, streams w1 !! next_stream_id w = Some s ->
       SendWindow.value (StreamState.send_window s) = Remote.initial_window_size (remote w)) ->
    mirrors D' (mkLedger (conn_credit l) (initial_window l) (frame_limit l) cs) w1) as H.
  { intros w1 E1 E2 E3 E4. split; cbn; rewrite ?E1, ?E2; try done. intros id s Hd Hs.
    destruct (decide (id = next_stream_id w)) as [->|Hne]; [rewrite (E4 s Hs), <- M2; auto|].
    rewrite Hcs by done. auto. }
  destruct Ho as [Hq|(w1 & st & Hq & E1 & E2 & E3 & E4)]; apply (mirrors_quiet D' _ _ w' Hq), H; try done.
  - intros s Hs. destruct Hfresh. by eexists.
  - intros id s Hne. by rewrite E3, lookup_insert_ne by done.
  - intros s. rewrite E3, lookup_insert_eq. by intros [= <-].
Qed.

(** ** Credit spent *)

(** What a pump says fits the ledger. *)
Definition spends (D : Z -> Prop) (w w' : ConnState) : Prop :=
  conn_ok w -> conn_ok w' /\
  forall l, mirrored D l w -> exists fs l', frames_out w' = frames_out w ++ fs /\
    replay (Said <$> fs) l = Some l' /\ mirrored D l' w'.

#[export] Instance spends_preorder D : PreOrder (spends D).
Proof using Type.
  split.
  - intros w Hok. split; [done|]. intros l Hl. exists [], l. by rewrite app_nil_r.
  - intros w1 w2 w3 H12 H23 Hok. destruct (H12 Hok) as [Hok2 H1]. destruct (H23 Hok2) as [Hok3 H2].
    split; [done|]. intros l Hl. destruct (H1 l Hl) as (fs1 & l1 & E1 & R1 & M1).
    destruct (H2 l1 M1) as (fs2 & l2 & E2 & R2 & M2). exists (fs1 ++ fs2), l2.
    rewrite E2, E1, app_assoc. split; [done|]. split; [|done].
    rewrite fmap_app, replay_app, R1. exact R2.
Qed.

(** Nothing said. *)
Lemma spends_mute D w w' :
  frames_out w' = frames_out w -> quiet w w' -> (conn_ok w -> conn_ok w') -> silent w w' -> spends D w w'.
Proof using Type.
  intros Hf Hq Ho Hs Hok. split; [auto|]. intros l Hl. exists [], l. rewrite app_nil_r. split; [done|].
  split; [done|]. by eapply mirrored_quiet.
Qed.

Lemma pump_turn_spends (D : Z -> Prop) k id chunk offset : D id -> ensures (spends D) (pump_turn k id chunk offset).
Proof using Type.
  intros Hd w. unfold ensures_at.
  pose proof (pump_turn_ok k id chunk offset w) as Hok'. pose proof (pump_turn_silent k id chunk offset w) as Hsil.
  unfold ensures_at in Hok', Hsil. revert Hok' Hsil. unfold pump_turn. rewrite st_get_bind.
  destruct (streams w !! id) as [s|] eqn:Hs; [|intros; reflexivity].
  destruct (closed w) eqn:Hcl; [intros; reflexivity|].
  destruct (negb _).
  { rewrite st_put_bind. intros H1 H2. apply spends_mute; [|by apply set_wakers_quiet|done|done].
    unfold frames_out, mret, ST_ret. clear H1 H2. cbn [fst]. by do 2 case_match. }
  destruct (SendWindow.is_closed _); [intros; reflexivity|].
  set (n := Z.min (Z.min (Z.min _ _) _) _). destruct (Z.leb_spec n 0) as [|Hn]; [intros; reflexivity|].
  assert (n <= zlen chunk - Z.of_nat offset /\ n <= SendWindow.value (conn_send_window w) /\
    n <= SendWindow.value (StreamState.send_window s) /\ n <= Remote.max_frame_size (remote w))
    as (Hrem & Hcw & Hsw & Hmax) by (unfold n; lia).
  clearbody n. unfold zlen in Hrem. rewrite st_put_bind, st_lift_bind.
  rewrite slice_ok by lia. cbn [expect]. set (data := take _ _).
  assert (zlen data = n) as Hlen by (unfold data, zlen; rewrite length_take, length_drop; lia).
  clearbody data. intros Hok' _ Hok. split; [by apply Hok'|]. intros l Hl. specialize (Hl Hcl). destruct Hl as [M1 M2 M3 M4].
  destruct (ok_open _ Hok Hcl) as (Ho & _). fold (paid id n s w).
  destruct (send_frame_run (Frame.Data id data false) (paid id n s w) I Hcl Ho) as (item & [Hi _] & Hrun).
  rewrite (st_bind_Ok _ _ _ _ _ Hrun). unfold mret, ST_ret; cbn [fst].
  exists [Frame.Data id data false]. eexists. split.
  { unfold frames_out. cbn [sent set_sent]. rewrite omap_app. cbn. by rewrite Hi. }
  cbn [fmap list_fmap replay ledger_step]. rewrite Hlen, (M4 id s Hd Hs).
  destruct (Z.eqb_spec n 0); [lia|]. cbn [mbind option_bind].
  assert ((n <=? conn_credit l) && (n <=? SendWindow.value (StreamState.send_window s)) && (n <=? frame_limit l) = true) as ->
    by (rewrite !andb_true_iff, !Z.leb_le; lia).
  split; [reflexivity|]. intros _. unfold SendWindow.value in *. split; cbn; [lia|done|done|].
  intros i st Hdi Hsi. destruct (decide (i = id)) as [->|Hne].
  - rewrite lookup_insert_eq. rewrite lookup_insert_eq in Hsi. by injection Hsi as <-.
  - rewrite lookup_insert_ne by done. rewrite lookup_insert_ne in Hsi by done. by apply M4.
Qed.

Lemma pump_finish_spends D id : ensures (spends D) (pump_finish id).
Proof using Type.
  intros w Hok. split.
  { exact (apply_op_ok (fun b => b) (OpPumpFinish id) w Hok). }
  intros l Hl. destruct (pump_finish_wire id w Hok) as (w' & Hrun & _ & Hf). rewrite Hrun. cbn [fst].
  exists (if bool_decide (is_Some (streams w !! id)) then [Frame.Data id [] true] else []), l.
  split; [done|]. split; [by case_bool_decide|]. revert Hl.
  replace w' with (fst (pump_finish id w)) by by rewrite Hrun. apply mirrored_quiet.
  - apply (ensures_at_of quiet). auto with quiet.
  - exact (apply_op_silent (fun b => b) (OpPumpFinish id) w).
Qed.

Lemma pump_body_spends (D : Z -> Prop) k id p : D id -> ensures (spends D) (pump_body k id p).
Proof using Type.
  intros Hd. assert (forall chunk offset rest, ensures (spends D) (pump_in k id chunk offset rest)) as Hin.
  { intros chunk offset rest. unfold pump_in. apply ensures_bind; [exact _| |intros ?; apply ensures_ret; exact _].
    apply pump_chunk_ensures; [exact _|]. intros o. by apply pump_turn_spends. }
  unfold pump_body. destruct p as [[|chunk rest]|chunk offset rest]; [|case_bool_decide; [apply ensures_ret; exact _|]|]; try apply Hin.
  apply ensures_bind; [exact _|apply pump_finish_spends|intros ?; apply ensures_ret; exact _].
Qed.
End ledger.

(** ** Runs *)

Section runs.
Context {arch : Arch} (up : bytes -> bytes).

Definition uploading_now (s : sys) (id : Z) : Prop := is_Some (pumps s !! id).

Lemma streams_known options s id : sys_run up options s -> is_Some (streams (conn s) !! id) -> id < next_stream_id (conn s).
Proof using Type.
  intros Hs [st Hst]. destruct (system_refines_run up options s Hs) as [fs Hr].
  by destruct (acc_stream _ _ (run_accounts up options fs _ Hr) id st Hst).
Qed.

Lemma start_tasks_one id body m : start_tasks [(id, body)] m = <[id := PumpNext (body_chunks body)]> m.
Proof using Type. reflexivity. Qed.

Lemma request_mirrored options k init s l :
  sys_run up options s -> sys_op_ok (SysOp (OpRequest k init)) s -> mirrored (uploading_now s) l (conn s) ->
  let s' := sys_step up (SysOp (OpRequest k init)) s in
  exists fs l', frames_out (conn s') = frames_out (conn s) ++ fs /\
    replay (Said <$> fs) l = Some l' /\ mirrored (uploading_now s') l' (conn s').
Proof using Type.
  intros Hrun [Hop _] Hl s'. pose proof (sys_run_ok up options s Hrun) as Hs. cbn in Hop.
  destruct (request_turn_wire up k init (conn s) (so_conn _ Hs) Hop) as [_ Hw].
  pose proof (request_turn_window up k init (conn s) Hop) as Ho.
  pose proof (apply_op_silent up (OpRequest k init) (conn s)) as Hsil. cbn [apply_op] in Hsil.
  assert (~ is_Some (streams (conn s) !! next_stream_id (conn s))) as Hfresh
    by (intros H; pose proof (streams_known options s _ Hrun H); lia).
  assert (forall id, uploading_now s id -> id <> next_stream_id (conn s)) as Hold
    by (intros id H; pose proof (pump_known s Hs id H); lia).
  set (id := next_stream_id (conn s)) in *. subst s'. unfold uploading_now in *. cbn [sys_step conn pumps apply_op].
  set (w' := fst (request_turn up k init (conn s))) in *.
  assert (closed w' = false -> mirrors (uploading_now s) l (conn s)) as Hm.
  { intros Hc. apply Hl. destruct (closed (conn s)) eqn:E; [|done]. destruct (Hsil E). congruence. }
  destruct Hw as [(Hf & Ht & _)|(frags & Hne & _ & Hf & Ht)].
  - exists [], l. rewrite Hf, app_nil_r. split; [done|]. split; [done|]. rewrite start_tasks_same by done.
    intros Hc. destruct l as [a b c d]. apply (opens_mirrors (uploading_now s) _ _ (conn s) w' d Ho (Hm Hc)); try done.
    intros Hd. by destruct (Hold id Hd).
  - eexists _, _. split; [exact Hf|]. split; [by apply replay_headers|].
    rewrite Ht, drop_app_length. intros Hc. apply (opens_mirrors (uploading_now s) _ _ (conn s) w' _ Ho (Hm Hc)); fold id; try done.
    + intros i Hi Hnei. unfold uploading_now. destruct (body_is_empty _); [done|].
      rewrite start_tasks_one in Hi. by rewrite lookup_insert_ne in Hi.
    + intros i Hnei. by rewrite lookup_insert_ne.
    + intros _. apply lookup_insert_eq.
Qed.

(** What a step that hears nothing says decides the replay. *)
Lemma said_only o s fs l l' :
  (match o with SysOp op => taken_in op (conn s) | SysPump _ _ => [] end) = [] ->
  frames_out (conn (sys_step up o s)) = frames_out (conn s) ++ fs -> replay (Said <$> fs) l = Some l' ->
  replay (exchange up o s) l = Some l'.
Proof using Type. unfold exchange. intros -> -> Hr. by rewrite drop_app_length. Qed.

(** An operation that sends only control frames. *)
Lemma plain_said op s :
  plain_op op ->
  uploading_now (sys_step up (SysOp op) s) = uploading_now s /\
  exists fs, frames_out (apply_op up op (conn s)) = frames_out (conn s) ++ fs /\ Forall signal fs.
Proof using Type.
  intros Hp. destruct (plain_op_signals up op (conn s) Hp) as [(fs & Hf & Hsig & _) _ Ht _].
  split; [|by exists fs]. unfold uploading_now. cbn. by rewrite start_tasks_same.
Qed.

Lemma plain_mirrored op s l :
  plain_op op -> taken_in op (conn s) = [] -> quiet (conn s) (apply_op up op (conn s)) ->
  mirrored (uploading_now s) l (conn s) ->
  exists l', replay (exchange up (SysOp op) s) l = Some l' /\
    mirrored (uploading_now (sys_step up (SysOp op) s)) l' (conn (sys_step up (SysOp op) s)).
Proof using Type.
  intros Hp Ht Hq Hl. destruct (plain_said op s Hp) as [Hup (fs & Hf & Hsig)]. exists l. split.
  - apply (said_only (SysOp op) s fs); [done|done|by apply replay_signals].
  - rewrite Hup. apply (mirrored_quiet _ l (conn s)); [exact Hq|apply apply_op_silent|done].
Qed.

Lemma pump_mirrored options k id s l :
  sys_run up options s -> mirrored (uploading_now s) l (conn s) ->
  exists l', replay (exchange up (SysPump id k) s) l = Some l' /\
    mirrored (uploading_now (sys_step up (SysPump id k) s)) l' (conn (sys_step up (SysPump id k) s)).
Proof using Type.
  intros Hrun Hl. pose proof (sys_run_ok up options s Hrun) as Hs. cbn [sys_step] in *.
  destruct (pumps s !! id) as [p|] eqn:Hp.
  2:{ exists l. split; [|done]. apply (said_only _ _ []); cbn [sys_step]; rewrite ?Hp, ?app_nil_r; done. }
  destruct (pump_body_spends (uploading_now s) k id p ltac:(by exists p) (conn s) (so_conn _ Hs)) as [_ H].
  destruct (H l Hl) as (fs & l' & Hf & Hr & Hm). clear H. exists l'. split.
  { apply (said_only _ _ fs); [done| |done]. cbn [sys_step]. rewrite Hp.
    by destruct (pump_body k id p (conn s)). }
  destruct (pump_body k id p (conn s)) as [w r]. cbn [fst conn] in *.
  intros Hc. apply (mirrors_less (uploading_now s)); [|by apply Hm]. intros i. unfold uploading_now. cbn.
  destruct r as [[p'|]|e| |]; try (intros [q Hq]; apply lookup_delete_Some in Hq as [_ Hq]; by eexists).
  destruct (decide (i = id)) as [->|Hne]; [by eexists|by rewrite lookup_insert_ne].
Qed.

Lemma step_mirrored options o s l :
  sys_run up options s -> sys_op_ok o s -> mirrored (uploading_now s) l (conn s) ->
  exists l', replay (exchange up o s) l = Some l' /\
    mirrored (uploading_now (sys_step up o s)) l' (conn (sys_step up o s)).
Proof using Type.
  intros Hrun Ho Hl. destruct o as [op|id k]; [|by apply (pump_mirrored options)].
  destruct op as [now c| | |k init|k now| |k id c off|id|id k|id]; try (by destruct Ho as [_ []]);
    try (apply plain_mirrored; [exact I|reflexivity| |done]; apply (ensures_at_of quiet); auto with quiet; fail).
  - destruct (plain_said (OpRead now c) s I) as [Hup (fs & Hf & Hsig)].
    destruct (read_mirrored (uploading_now s) up now c (conn s) l Hl) as (l' & Hr & Hm).
    exists l'. rewrite Hup. unfold exchange. cbn [sys_step conn]. rewrite Hf, drop_app_length, replay_app, Hr.
    split; [by apply replay_signals|done].
  - apply plain_mirrored; [exact I|reflexivity| |done]. apply (ensures_at_of quiet). unfold read_end. auto with quiet.
  - apply plain_mirrored; [exact I|reflexivity| |done]. apply (ensures_at_of quiet). unfold write_failed. auto with quiet.
  - destruct (request_mirrored options k init s l Hrun Ho Hl) as (fs & l' & H1 & H2 & H3).
    exists l'. split; [by apply (said_only _ _ fs)|done].
Qed.

Lemma log_mirrored options es s :
  sys_log up options es s -> exists l, replay es ledger_init = Some l /\ mirrored (uploading_now s) l (conn s).
Proof using Type.
  induction 1 as [|es s o Hlog (l & IH & Hm) Ho].
  - exists ledger_init. split.
    + destruct (connect_frames options) as (st & fs & -> & Hs & _). cbn. by apply replay_signals.
    + intros _. split; unfold connect, connect_writes; destruct (0 <? _); try done;
        intros id s [p Hp]; cbn in Hp; by rewrite lookup_empty in Hp.
  - destruct (step_mirrored options o s l (sys_log_run up options es s Hlog) Ho Hm) as (l' & Hr & Hm').
    exists l'. split; [|done]. by rewrite replay_app, IH.
Qed.
End runs.

(** C2: Flow-control safety, in every interleaving of the driver, requests, body pumps and
    body readers, and whatever the peer sends: in the peer's ledger of the conversation,
    every DATA frame with a body fits in the credit of the connection, in the credit of its
    stream and in the peer's frame size at the moment it is sent, and is on a stream the
    client opened.  The ledger starts at 65535, gives a new stream the initial window in
    force, adds the WINDOW_UPDATEs, moves every stream with a changed initial window, and
    pays for each DATA frame.  While the connection is open the client's own windows are
    exactly the ledger's, on the connection and on each stream being uploaded. *)
Theorem flow_control_safe {arch : Arch} up options es s :
  sys_log up options es s ->
  exists l, replay es ledger_init = Some l /\
    (closed (conn s) = false ->
       conn_credit l = SendWindow.value (conn_send_window (conn s)) /\
       initial_window l = Remote.initial_window_size (remote (conn s)) /\
       frame_limit l = Remote.max_frame_size (remote (conn s)) /\
       forall id st, is_Some (pumps s !! id) -> streams (conn s) !! id = Some st ->
         credits l !! id = Some (SendWindow.value (StreamState.send_window st))).
Proof.
  intros Hlog. destruct (log_mirrored up options es s Hlog) as (l & Hr & Hm). exists l. split; [done|].
  intros Hc. by destruct (Hm Hc).
Qed.

(** A peer that takes the initial window down to 2, gets 2 bytes, and then grants 3 more. *)
Definition credit_sys : list sys_op :=
  [SysOp (OpRequest 0 sample_request);
   SysOp (OpRead 0 [0; 0; 6; 4; 0; 0; 0; 0; 0; 0; 4; 0; 0; 0; 2]); SysPump 1 7;
   SysOp (OpRead 0 [0; 0; 4; 8; 0; 0; 0; 0; 1; 0; 0; 0; 3]); SysPump 1 7].

Lemma flow_control_safe_witness :
  let '(es, s) := log_of credit_sys in
  exists l, replay es ledger_init = Some l /\
    upload_frames 1 (said es) = [(str "he", false); (str "llo", false)] /\
    conn_credit l = 65530 /\ initial_window l = 2 /\ credits l !! 1 = Some 0.
Proof.
  assert (sys_log (arch := host64_debug) id default_options (log_of credit_sys).1 (log_of credit_sys).2) as Hlog.
  { set (s0 := mkSys (connect (arch := host64_debug) default_options) ∅).
    assert (sys_log (arch := host64_debug) id default_options
      (Said <$> frames_out (connect (arch := host64_debug) default_options)) s0) as H0 by constructor.
    pose proof (log_next id default_options _ s0 (SysOp (OpRequest 0 sample_request)) H0
      ltac:(vm_compute; by split)) as H1.
    pose proof (log_next id default_options _ _ (SysOp (OpRead 0 [0; 0; 6; 4; 0; 0; 0; 0; 0; 0; 4; 0; 0; 0; 2])) H1
      ltac:(split; [repeat constructor; done|exact I])) as H2.
    pose proof (log_next id default_options _ _ (SysPump 1 7) H2 I) as H3.
    pose proof (log_next id default_options _ _ (SysOp (OpRead 0 [0; 0; 4; 8; 0; 0; 0; 0; 1; 0; 0; 0; 3])) H3
      ltac:(split; [repeat constructor; done|exact I])) as H4.
    exact (log_next id default_options _ _ (SysPump 1 7) H4 I). }
  destruct (flow_control_safe (arch := host64_debug) id default_options _ _ Hlog) as (l & Hr & _).
  assert ((fun l => (conn_credit l, initial_window l, credits l !! 1)) <$> replay (log_of credit_sys).1 ledger_init
    = Some (65530, 2, Some 0)) as Hv by (vm_compute; reflexivity).
  assert (upload_frames 1 (said (log_of credit_sys).1) = [(str "he", false); (str "llo", false)]) as Hu
    by (vm_compute; reflexivity).
  rewrite Hr in Hv. injection Hv as H1 H2 H3. destruct (log_of credit_sys) as [es s]. cbn [fst snd] in *.
  by exists l.
Defined.
