(* ===== verification/Pool.v ===== *)
(** * Pool: routing requests over several connections

    Models [rust/crates/h2ts-client/src/pool.rs].  [PoolConnection] is the trait of
    that name, its methods reading the state of the world; [H2Pool] is the pool's
    shared state with the turns of [request] and [open_one] between their awaits
    (which connection a task is routed to, when it opens one, when it waits for
    another task's open).  A task is named by a number; the [factory] is outside
    and its outcome an input.  [h2_connections] is the trait's implementation by
    the connections of Connection.v. *)

From S2P Require Import Prelude Errors Bytes Utf8 Frames Hpack HpackFacts Flow Stream Connection.
From S2P Require Import ConnectionFacts FlowSafety Lifecycle Sending.

Class PoolConnection (W C : Type) := {
  is_closed : W -> C -> bool;
  has_slot : W -> C -> bool;  (* [can_open_stream] *)
}.

Module H2Pool.

Section pool.
Context {W C : Type} `{PC : PoolConnection W C}.
Variable max_connections : Z.

Record t := mk {
  conns : list C;
  opening : bool;
  open_waiters : list nat;
}.

Definition new : t := mk [] false [].

(** Where a request stands. *)
Inductive task :=
  | Opening  (* it owns the open and awaits the factory *)
  | Waiting  (* it awaits another task's open *)
  | Routed (c : C)  (* the request was issued on [c] *)
  | Failed (e : H2Error.t).

(** [st.conns.retain(|c| !c.is_closed())], then the choice. *)
Definition choose (w : W) (st : t) : t * option C :=
  let conns := filter (fun c => is_closed w c = false) (conns st) in
  let st := mk conns (opening st) (open_waiters st) in
  match list_find (fun c => has_slot w c = true) conns with
  | Some (_, c) => (st, Some c)
  | None =>
      if negb (zlen conns =? 0) && (max_connections <=? zlen conns) then (st, hd_error conns)
      else (st, None)
  end.

(** [open_one] up to its await: task [k] waits for the open under way, or owns a
    new one. *)
Definition open_one (k : nat) (st : t) : t * task :=
  if opening st then (mk (conns st) true (open_waiters st ++ [k]), Waiting)
  else (mk (conns st) true (open_waiters st), Opening).

(** The loop of [request] from its top. *)
Definition route (k : nat) (w : W) (st : t) : t * task :=
  match choose w st with
  | (st, Some c) => (st, Routed c)
  | (st, None) => open_one k st
  end.

(** The loop from the return of [open_one]: park on a newest connection that is
    full already, else go round. *)
Definition after_open (k : nat) (w : W) (st : t) : t * task :=
  match last (conns st) with
  | Some c => if negb (is_closed w c) && negb (has_slot w c) then (st, Routed c) else route k w st
  | None => route k w st
  end.

(** The end of [open_one] for the task that owns the open: the waiters are woken,
    then the factory's outcome counts. *)
Definition open_done (k : nat) (w : W) (r : H2Error.t + C) (st : t) : t * task * list nat :=
  let woken := open_waiters st in
  match r with
  | inl e => (mk (conns st) false [], Failed e, woken)
  | inr c => (after_open k w (mk (conns st ++ [c]) false []), woken)
  end.

Definition connections (w : W) (st : t) : nat :=
  length (filter (fun c => is_closed w c = false) (conns st)).

(** [close]: the connections it closes, in order. *)
Definition close (st : t) : t * list C := (mk [] (opening st) (open_waiters st), conns st).

(** ** The pool and its tasks *)

Record sys := mkSys {
  pool : t;
  jobs : gmap nat task;
  woken : list nat;  (* waiters whose receiver has resolved *)
}.

Inductive op :=
  | Start (k : nat)  (* a new request *)
  | Opened (k : nat) (r : H2Error.t + C)  (* the factory answered the owner *)
  | Wake (k : nat)  (* a woken waiter takes its turn *)
  | Close
  | Drop (k : nat).  (* the future of a request is dropped *)

(** [w] is the world the operation sees; an operation that does not apply changes
    nothing. *)
Definition step (w : W) (o : op) (s : sys) : sys :=
  match o with
  | Start k =>
      match jobs s !! k with
      | None => let '(st, j) := route k w (pool s) in mkSys st (<[k := j]> (jobs s)) (woken s)
      | Some _ => s
      end
  | Opened k r =>
      match jobs s !! k with
      | Some Opening =>
          let '(st, j, ks) := open_done k w r (pool s) in
          mkSys st (<[k := j]> (jobs s)) (woken s ++ ks)
      | _ => s
      end
  | Wake k =>
      match jobs s !! k with
      | Some Waiting =>
          if bool_decide (k ∈ woken s) then
            let '(st, j) := after_open k w (pool s) in
            mkSys st (<[k := j]> (jobs s)) (filter (fun i => i <> k) (woken s))
          else s
      | _ => s
      end
  | Close => mkSys (fst (close (pool s))) (jobs s) (woken s)
  | Drop k => mkSys (pool s) (delete k (jobs s)) (woken s)
  end.

Definition init : sys := mkSys new ∅ [].

(** Runs, with or without tasks being dropped. *)
Inductive run (drops : bool) : sys -> Prop :=
  | run_init : run drops init
  | run_step s w o :
      run drops s -> (if drops then True else forall k, o <> Drop k) ->
      run drops (step w o s).

(** ** Placement *)

(** Where a turn leaves its task, in the world it saw: on a live connection, with
    a free slot if there is one, unless it is the newest; opening or waiting only
    when every connection is full and the cap allows one more. *)
Definition placed (w : W) (st : t) (j : task) : Prop :=
  match j with
  | Routed c =>
      c ∈ conns st /\ is_closed w c = false /\
      (has_slot w c = true \/ last (conns st) = Some c \/
       (forall c', c' ∈ conns st -> has_slot w c' = false) /\ max_connections <= zlen (conns st))
  | Opening | Waiting =>
      (forall c, c ∈ conns st -> is_closed w c = false /\ has_slot w c = false) /\
      (conns st = [] \/ zlen (conns st) < max_connections)
  | Failed _ => False
  end.

Lemma choose_spec w st :
  let '(st', o) := choose w st in
  conns st' = filter (fun c => is_closed w c = false) (conns st) /\
  opening st' = opening st /\ open_waiters st' = open_waiters st /\
  match o with
  | Some c => placed w st' (Routed c)
  | None => placed w st' Opening
  end.
Proof using Type.
  unfold choose. set (cs := filter _ (conns st)).
  assert (forall c, c ∈ cs -> is_closed w c = false) as Hcs
    by (intros c Hc; by apply list_elem_of_filter in Hc as [? _]).
  destruct (list_find _ cs) as [[i c]|] eqn:Hf.
  - apply list_find_Some in Hf as (Hi & Hc & _).
    assert (c ∈ cs) by (by eapply list_elem_of_lookup_2). simpl. split_and!; auto.
  - apply list_find_None in Hf. rewrite Forall_forall in Hf.
    assert (forall c, c ∈ cs -> has_slot w c = false) as Hfull.
    { intros c Hc. specialize (Hf c Hc). by destruct (has_slot w c). }
    destruct (negb (zlen cs =? 0) && (max_connections <=? zlen cs)) eqn:Hm.
    + destruct cs as [|c cs'] eqn:Hcseq; [done|]. simpl.
      assert (c ∈ c :: cs') by (by left). split_and!; auto. right. right. split; [done|lia].
    + simpl. split_and!; auto. destruct cs as [|c cs']; [by left|]. right.
      unfold zlen in *. simpl in *. lia.
Qed.

(** A live connection without a free slot. *)
Definition full (w : W) (c : C) : Prop := is_closed w c = false /\ has_slot w c = false.

(** The placement of task [k]: by the connections that are live, in their order. *)
Definition placement (k : nat) (w : W) (st : t) (r : t * task) : Prop :=
  let live := filter (fun c => is_closed w c = false) (conns st) in
  (exists l1 c l2, live = l1 ++ c :: l2 /\ Forall (full w) l1 /\ has_slot w c = true /\
     r = (mk live (opening st) (open_waiters st), Routed c)) \/
  (Forall (full w) live /\ exists c l, live = c :: l /\ max_connections <= zlen live /\
     r = (mk live (opening st) (open_waiters st), Routed c)) \/
  (Forall (full w) live /\ (live = [] \/ zlen live < max_connections) /\
     r = if opening st then (mk live true (open_waiters st ++ [k]), Waiting)
         else (mk live true (open_waiters st), Opening)).

Lemma route_placement k w st : placement k w st (route k w st).
Proof using Type.
  unfold placement, route, choose, open_one. set (live := filter _ (conns st)).
  assert (Forall (fun c => is_closed w c = false) live) as Hl.
  { apply Forall_forall. intros c Hc. by apply list_elem_of_filter in Hc as [? _]. }
  clearbody live. destruct (list_find _ live) as [[i c]|] eqn:Hf.
  - left. apply list_find_Some in Hf as (Hi & Hc & Hb).
    exists (take i live), c, (drop (S i) live). rewrite take_drop_middle by done. split_and!; try done.
    apply Forall_lookup. intros j c' Hj. apply lookup_take_Some in Hj as [Hj Hlt].
    split; [exact (Forall_lookup_1 _ _ _ _ Hl Hj)|]. specialize (Hb j c' Hj Hlt). by destruct (has_slot w c').
  - right. apply list_find_None in Hf.
    assert (Forall (full w) live) as Hfull.
    { apply Forall_forall. intros c Hc. rewrite !Forall_forall in *. split; [auto|].
      specialize (Hf c Hc). by destruct (has_slot w c). }
    destruct live as [|c l].
    + right. split; [done|]. split; [by left|]. by destruct (opening st).
    + destruct (Z.leb_spec max_connections (zlen (c :: l))) as [Hm|Hm].
      * left. split; [done|]. by exists c, l.
      * right. split; [done|]. split; [by right|]. cbn [negb andb]. rewrite andb_false_r. by destruct (opening st).
Qed.

(** ** The pool's own invariant *)

(** The cap holds, with room for the connection being opened; only an open under
    way has waiters. *)
Definition pool_ok (st : t) : Prop :=
  zlen (conns st) <= Z.max 1 max_connections /\
  (opening st = true -> conns st = [] \/ zlen (conns st) < max_connections) /\
  (open_waiters st <> [] -> opening st = true).

(** What a turn of task [k] does to the pool, by where it ends up. *)
Definition moved (k : nat) (w : W) (st : t) (r : t * task) : Prop :=
  let '(st', j) := r in
  placed w st' j /\ (pool_ok st -> pool_ok st') /\
  match j with
  | Routed _ => opening st' = opening st /\ open_waiters st' = open_waiters st
  | Waiting => opening st = true /\ opening st' = true /\ open_waiters st' = open_waiters st ++ [k]
  | Opening => opening st = false /\ opening st' = true /\ open_waiters st' = open_waiters st
  | Failed _ => False
  end.

Lemma route_moved k w st : moved k w st (route k w st).
Proof using Type.
  unfold route. pose proof (choose_spec w st) as H.
  destruct (choose w st) as [st1 o]. destruct H as (Hc & Ho & Hw & Hp).
  assert (zlen (conns st1) <= zlen (conns st)) as Hlen.
  { rewrite Hc. unfold zlen. pose proof (length_filter (fun c => is_closed w c = false) (conns st)). lia. }
  assert (pool_ok st -> zlen (conns st1) <= Z.max 1 max_connections /\
    (opening st = true -> conns st1 = [] \/ zlen (conns st1) < max_connections)) as Hkeep.
  { intros (P1 & P2 & _). split; [lia|]. intros H. destruct (P2 H) as [E|]; [|right; lia].
    left. by rewrite Hc, E. }
  destruct o as [c|].
  - split_and!; [done| |done|done]. intros Hok. destruct (Hkeep Hok). destruct Hok as (_ & _ & P3).
    unfold pool_ok. by rewrite Ho, Hw.
  - unfold open_one. rewrite Ho, Hw. destruct (opening st) eqn:Hop.
    + split_and!; try done. intros Hok. destruct (Hkeep Hok).
      unfold pool_ok. simpl. split_and!; auto.
    + split_and!; try done. intros Hok. destruct (Hkeep Hok).
      unfold pool_ok. simpl. split_and!; auto. intros _. apply Hp.
Qed.

Lemma after_open_moved k w st : moved k w st (after_open k w st).
Proof using Type.
  unfold after_open. destruct (last (conns st)) as [c|] eqn:Hl; [|apply route_moved].
  destruct (negb _ && _) eqn:Hc; [|apply route_moved].
  apply andb_true_iff in Hc as [Hc _]. apply negb_true_iff in Hc.
  assert (c ∈ conns st).
  { apply last_Some in Hl as [l ->]. set_solver. }
  split_and!; auto. simpl. by split_and!; auto.
Qed.

(** ** The tasks *)

(** At most one task owns an open, and only while one is under way; a waiting task
    is registered with it, or has been woken. *)
Record sys_ok (s : sys) : Prop := {
  sys_pool : pool_ok (pool s);
  sys_owner k : jobs s !! k = Some Opening -> opening (pool s) = true;
  sys_single k1 k2 : jobs s !! k1 = Some Opening -> jobs s !! k2 = Some Opening -> k1 = k2;
  sys_waiting k : jobs s !! k = Some Waiting -> k ∈ open_waiters (pool s) \/ k ∈ woken s;
}.

(** An open under way has its owner, as long as no task is dropped. *)
Definition owned (s : sys) : Prop :=
  opening (pool s) = true -> exists k, jobs s !! k = Some Opening.

(** Task [k], not the owner, takes a turn and the woken lose nobody else. *)
Lemma turn_ok k w s st j wk :
  sys_ok s -> jobs s !! k <> Some Opening -> moved k w (pool s) (st, j) ->
  (forall i, i ∈ woken s -> i <> k -> i ∈ wk) ->
  sys_ok (mkSys st (<[k := j]> (jobs s)) wk) /\
  (owned s -> owned (mkSys st (<[k := j]> (jobs s)) wk)).
Proof using Type.
  intros [S1 S2 S3 S4] Hk (_ & Hok & Hj) Hwk. split; [constructor; simpl|].
  - auto.
  - intros i Hi. destruct (decide (i = k)) as [->|Hne].
    + rewrite lookup_insert_eq in Hi. injection Hi as ->. apply Hj.
    + rewrite lookup_insert_ne in Hi by done. specialize (S2 i Hi).
      destruct j; (destruct Hj as (? & ? & ?) || destruct Hj as (? & ?) || done); congruence.
  - intros i1 i2 H1 H2. destruct (decide (i1 = k)) as [->|N1], (decide (i2 = k)) as [->|N2];
      rewrite ?lookup_insert_eq, ?lookup_insert_ne in * by done; [done|..|eauto].
    + injection H1 as ->. destruct Hj as (Hj & _). specialize (S2 i2 H2). congruence.
    + injection H2 as ->. destruct Hj as (Hj & _). specialize (S2 i1 H1). congruence.
  - intros i Hi. destruct (decide (i = k)) as [->|Hne].
    + rewrite lookup_insert_eq in Hi. injection Hi as ->. destruct Hj as (_ & _ & ->).
      left. set_solver.
    + rewrite lookup_insert_ne in Hi by done. destruct (S4 i Hi) as [Hw|Hw]; [left|right; auto].
      destruct j; (destruct Hj as (_ & _ & ->) || destruct Hj as (_ & ->) || done); set_solver.
  - unfold owned. simpl. intros Ho Hop. destruct j.
    + exists k. by rewrite lookup_insert_eq.
    + destruct Hj as (Hj & _). destruct (Ho Hj) as [i Hi]. exists i. rewrite lookup_insert_ne; [done|].
      intros ->. done.
    + destruct Hj as (Hj & _). rewrite Hj in Hop. destruct (Ho Hop) as [i Hi]. exists i.
      rewrite lookup_insert_ne; [done|]. intros ->. done.
    + done.
Qed.

(** The owner's open ends: the pool is free again and everybody who waited woken. *)
Lemma release_ok k w r s :
  sys_ok s -> jobs s !! k = Some Opening ->
  let '(st, j, ks) := open_done k w r (pool s) in
  sys_ok (mkSys st (<[k := j]> (jobs s)) (woken s ++ ks)) /\
  owned (mkSys st (<[k := j]> (jobs s)) (woken s ++ ks)).
Proof using Type.
  intros [S1 S2 S3 S4] Hk. pose proof (S2 k Hk) as Hop. destruct S1 as (P1 & P2 & P3).
  set (s1 := fun cs => mkSys (mk cs false []) (delete k (jobs s)) (woken s ++ open_waiters (pool s))).
  assert (forall cs, zlen cs <= Z.max 1 max_connections -> sys_ok (s1 cs)) as Hs1.
  { intros cs Hcs. constructor; simpl.
    - unfold pool_ok. simpl. by split_and!.
    - intros i Hi. apply lookup_delete_Some in Hi as [Hne Hi]. by destruct (Hne (S3 k i Hk Hi)).
    - intros i1 i2 H1 H2. apply lookup_delete_Some in H1 as [_ H1].
      apply lookup_delete_Some in H2 as [_ H2]. eauto.
    - intros i Hi. apply lookup_delete_Some in Hi as [_ Hi].
      right. destruct (S4 i Hi); set_solver. }
  assert (forall cs, owned (s1 cs)) as Ho1 by (intros cs; by unfold owned).
  destruct r as [e|c]; simpl.
  - specialize (Hs1 (conns (pool s)) P1). destruct Hs1 as [T1 T2 T3 T4]. split; [|done].
    constructor; simpl in *; [done|..].
    + intros i Hi. destruct (decide (i = k)) as [->|Hne]; [by rewrite lookup_insert_eq in Hi|].
      apply (T2 i). by rewrite lookup_insert_ne in Hi; [rewrite lookup_delete_ne|].
    + intros i1 i2 H1 H2. destruct (decide (i1 = k)) as [->|N1]; [by rewrite lookup_insert_eq in H1|].
      destruct (decide (i2 = k)) as [->|N2]; [by rewrite lookup_insert_eq in H2|].
      rewrite lookup_insert_ne in H1, H2 by done. eauto.
    + intros i Hi. destruct (decide (i = k)) as [->|Hne]; [by rewrite lookup_insert_eq in Hi|].
      rewrite lookup_insert_ne in Hi by done. apply T4. by rewrite lookup_delete_ne.
  - assert (zlen (conns (pool s) ++ [c]) <= Z.max 1 max_connections) as Hlen.
    { rewrite zlen_app. destruct (P2 Hop) as [->|H]; unfold zlen in *; simpl; lia. }
    pose proof (after_open_moved k w (mk (conns (pool s) ++ [c]) false [])) as Hm.
    destruct (after_open k w _) as [st j].
    destruct (turn_ok k w (s1 (conns (pool s) ++ [c])) st j (woken s ++ open_waiters (pool s))
      (Hs1 _ Hlen)) as [H1 H2]; [by simpl; rewrite lookup_delete_eq|done|by simpl|].
    simpl in H1, H2. rewrite insert_delete_eq in H1, H2. split; [done|]. by apply H2, Ho1.
Qed.

Lemma step_ok w o s :
  sys_ok s ->
  sys_ok (step w o s) /\ ((forall k, o <> Drop k) -> owned s -> owned (step w o s)).
Proof using Type.
  intros Hs. destruct o as [k|k r|k| |k]; simpl.
  - destruct (jobs s !! k) as [j|] eqn:Hk; [by split|]. pose proof (route_moved k w (pool s)) as Hm.
    destruct (route k w (pool s)) as [st j].
    destruct (turn_ok k w s st j (woken s) Hs) as [H1 H2]; [congruence|done|done|]. by split; auto.
  - destruct (jobs s !! k) as [[]|] eqn:Hk; try by split.
    pose proof (release_ok k w r s Hs Hk) as H. destruct (open_done k w r (pool s)) as [[st j] ks].
    destruct H. by split.
  - destruct (jobs s !! k) as [[]|] eqn:Hk; try by split.
    case_bool_decide as Hw; [|by split]. pose proof (after_open_moved k w (pool s)) as Hm.
    destruct (after_open k w (pool s)) as [st j].
    destruct (turn_ok k w s st j (filter (fun i => i <> k) (woken s)) Hs) as [H1 H2];
      [congruence|done| |by split; auto].
    intros i Hi Hne. by apply list_elem_of_filter.
  - destruct Hs as [(P1 & P2 & P3) S2 S3 S4]. split; [|done]. constructor; simpl; try done.
    unfold pool_ok. simpl. split_and!; [unfold zlen; simpl; lia|by left|done].
  - destruct Hs as [S1 S2 S3 S4]. split; [|by intros H; destruct (H k)].
    constructor; simpl; [done|..].
    + intros i Hi. apply lookup_delete_Some in Hi as [_ Hi]. eauto.
    + intros i1 i2 H1 H2. apply lookup_delete_Some in H1 as [_ H1].
      apply lookup_delete_Some in H2 as [_ H2]. eauto.
    + intros i Hi. apply lookup_delete_Some in Hi as [_ Hi]. eauto.
Qed.

Lemma pool_run_ok drops s : run drops s -> sys_ok s /\ (drops = false -> owned s).
Proof using Type.
  induction 1 as [|s w o _ [IH1 IH2] Ho].
  - split; [|done]. constructor; simpl; [|intros k Hk; by rewrite lookup_empty in Hk
      |intros k1 k2 Hk; by rewrite lookup_empty in Hk|intros k Hk; by rewrite lookup_empty in Hk].
    unfold pool_ok, zlen. simpl. split_and!; [lia|done|done].
  - destruct (step_ok w o s IH1) as [H1 H2]. split; [done|]. intros ->. auto.
Qed.
End pool.

Arguments t : clear implicits.
Arguments task : clear implicits.
Arguments sys : clear implicits.
Arguments op : clear implicits.
End H2Pool.

(** [H2Connection] as a [PoolConnection]: handles are numbers. *)
#[export] Instance h2_connections : PoolConnection (nat -> ConnState) nat := {
  is_closed w c := closed (w c);
  has_slot w c := can_open_stream (w c);
}.

(** ** Theorems *)

(** C39: Placement, on every branch.  The loop of a pooled request forgets the closed
    connections and then issues the request on the first that has a free stream slot; if
    none has and the cap is reached, on the oldest; else it opens a connection, or waits
    for the open under way.  After an open it issues the request on the newest connection
    if that is live and full already, and otherwise goes round the loop. *)
Theorem pool_placement {W C : Type} `{PoolConnection W C} max k w (st : H2Pool.t C) :
  H2Pool.placement max k w st (H2Pool.route max k w st) /\
  (forall c, last (H2Pool.conns st) = Some c -> H2Pool.full w c ->
     H2Pool.after_open max k w st = (st, H2Pool.Routed c)) /\
  ((forall c, last (H2Pool.conns st) = Some c -> ~ H2Pool.full w c) ->
     H2Pool.placement max k w st (H2Pool.after_open max k w st)).
Proof.
  split; [apply H2Pool.route_placement|]. unfold H2Pool.after_open, H2Pool.full. split.
  - intros c -> [Hc Hs]. by rewrite Hc, Hs.
  - intros Hn. destruct (last (H2Pool.conns st)) as [c|]; [|apply H2Pool.route_placement].
    specialize (Hn c eq_refl). destruct (is_closed w c), (has_slot w c); try apply H2Pool.route_placement.
    by destruct Hn.
Qed.

(** In every reachable state of the pool and its requests, dropped ones
    included, the number of connections stays within the cap (one is always
    allowed) and at most one is being opened; if no request is ever dropped,
    every waiting request has been woken or waits for an open that some request
    owns: nobody waits for nothing. *)
Theorem pool_bounded_single {W C : Type} `{PoolConnection W C} max drops (s : H2Pool.sys C) :
  H2Pool.run max drops s ->
  zlen (H2Pool.conns (H2Pool.pool s)) <= Z.max 1 max /\
  (forall k1 k2, H2Pool.jobs s !! k1 = Some H2Pool.Opening ->
     H2Pool.jobs s !! k2 = Some H2Pool.Opening -> k1 = k2) /\
  (drops = false -> forall k, H2Pool.jobs s !! k = Some H2Pool.Waiting ->
     k ∈ H2Pool.woken s \/ exists k', H2Pool.jobs s !! k' = Some H2Pool.Opening).
Proof.
  intros Hrun. destruct (H2Pool.pool_run_ok max drops s Hrun) as [[(P1 & P2 & P3) S2 S3 S4] Ho].
  split_and!; [done|done|]. intros Hd k Hk. destruct (S4 k Hk) as [Hw|]; [|by left].
  right. apply (Ho Hd). apply P3. intros E. rewrite E in Hw. set_solver.
Qed.

(** Two connections, by their state: closed, with a slot. *)
#[local] Instance sample_connections : PoolConnection unit (bool * bool) := {
  is_closed _ c := c.1;
  has_slot _ c := c.2;
}.

Lemma pool_bounded_single_witness :
  let s0 := H2Pool.step 1 tt (H2Pool.Start 0) (H2Pool.init (C := bool * bool)) in
  let s := H2Pool.step 1 tt (H2Pool.Start 1) s0 in
  H2Pool.jobs s !! 1%nat = Some H2Pool.Waiting /\
  (1%nat ∈ H2Pool.woken s \/ exists k', H2Pool.jobs s !! k' = Some H2Pool.Opening).
Proof.
  intros s0 s. assert (H2Pool.jobs s !! 1%nat = Some H2Pool.Waiting) as Hk
    by (vm_compute; reflexivity).
  split; [exact Hk|].
  apply (proj2 (proj2 (pool_bounded_single 1 false s
    (H2Pool.run_step 1 false s0 tt (H2Pool.Start 1)
      (H2Pool.run_step 1 false _ tt (H2Pool.Start 0) (H2Pool.run_init 1 false)
        ltac:(intros k; discriminate)) ltac:(intros k; discriminate)))) eq_refl 1%nat Hk).
Defined.

(** The pool after the request that owned the open was dropped. *)
Record wedged {C : Type} (s : H2Pool.sys C) : Prop := {
  wedged_opening : H2Pool.opening (H2Pool.pool s) = true;
  wedged_owner k : H2Pool.jobs s !! k <> Some H2Pool.Opening;
  wedged_conns : H2Pool.conns (H2Pool.pool s) = [];
  wedged_woken : H2Pool.woken s = [];
}.

Lemma wedged_step {W C : Type} `{PoolConnection W C} max w o (s : H2Pool.sys C) :
  wedged s ->
  wedged (H2Pool.step max w o s) /\
  forall k, H2Pool.jobs s !! k = Some H2Pool.Waiting ->
    H2Pool.jobs (H2Pool.step max w o s) !! k = Some H2Pool.Waiting \/ o = H2Pool.Drop k.
Proof.
  intros [W1 W2 W3 W4]. destruct s as [[cs op ws] jobs wk]. simpl in *. subst.
  destruct o as [k|k r|k| |k]; simpl.
  - destruct (jobs !! k) as [j|] eqn:Hk; simpl; [split; [by constructor|auto]|].
    unfold H2Pool.route, H2Pool.choose, H2Pool.open_one. simpl. split.
    + constructor; simpl; try done. intros i. destruct (decide (i = k)) as [->|Hne].
      * by rewrite lookup_insert_eq.
      * by rewrite lookup_insert_ne.
    + intros i Hi. left. rewrite lookup_insert_ne; [done|]. intros ->. congruence.
  - destruct (jobs !! k) as [[]|] eqn:Hk; try (split; [by constructor|auto]).
    by destruct (W2 k).
  - destruct (jobs !! k) as [[]|] eqn:Hk; try (split; [by constructor|auto]).
  - split; [by constructor|auto].
  - split.
    + constructor; simpl; try done. intros i Hi. apply lookup_delete_Some in Hi as [_ Hi].
      by apply (W2 i).
    + intros i Hi. simpl. destruct (decide (i = k)) as [->|Hne]; [by right|left].
      by rewrite lookup_delete_ne.
Qed.

(** Dropping the request that owns the open wedges the pool: from then on,
    whatever happens, no request ever gets a connection; a request started later
    waits, and stays waiting until it is dropped itself. *)
Theorem pool_drop_wedges {W C : Type} `{PoolConnection W C} max w (ops : list (W * H2Pool.op C)) :
  let s := H2Pool.step max w (H2Pool.Start 1)
    (H2Pool.step max w (H2Pool.Drop 0) (H2Pool.step max w (H2Pool.Start 0) H2Pool.init)) in
  Forall (fun o => o.2 <> H2Pool.Drop 1) ops ->
  let s' := fold_left (fun s o => H2Pool.step max o.1 o.2 s) ops s in
  H2Pool.jobs s' !! 1%nat = Some H2Pool.Waiting /\ H2Pool.conns (H2Pool.pool s') = [].
Proof.
  intros s Hops s'. assert (wedged s /\ H2Pool.jobs s !! 1%nat = Some H2Pool.Waiting) as Hs.
  { split; [|reflexivity]. constructor; try reflexivity. intros k Hk.
    change (H2Pool.jobs s) with (<[1%nat := H2Pool.Waiting]>
      (delete 0%nat (<[0%nat := H2Pool.Opening]> (∅ : gmap nat (H2Pool.task C))))) in Hk.
    destruct (decide (k = 1%nat)) as [->|Hne]; [by rewrite lookup_insert_eq in Hk|].
    rewrite lookup_insert_ne in Hk by done. apply lookup_delete_Some in Hk as [Hne0 Hk].
    by rewrite lookup_insert_ne, lookup_empty in Hk. }
  subst s'. clearbody s. revert s Hs. induction Hops as [|[w' o] ops Ho _ IH]; intros s [Hs Hk].
  - split; [done|apply Hs].
  - simpl. apply IH. destruct (wedged_step max w' o s Hs) as [H1 H2]. split; [done|].
    by destruct (H2 _ Hk).
Qed.

Lemma pool_drop_wedges_witness :
  let s := H2Pool.step 5 tt (H2Pool.Start 1)
    (H2Pool.step 5 tt (H2Pool.Drop 0)
      (H2Pool.step 5 tt (H2Pool.Start 0) (H2Pool.init (C := bool * bool)))) in
  H2Pool.jobs (H2Pool.step 5 tt (H2Pool.Start 2) (H2Pool.step 5 tt (H2Pool.Opened 0 (inr (false, true))) s))
    !! 1%nat = Some H2Pool.Waiting.
Proof.
  exact (proj1 (pool_drop_wedges 5 tt
    [(tt, H2Pool.Opened 0 (inr (false, true))); (tt, H2Pool.Start 2)]
    ltac:(repeat constructor; simpl; discriminate))).
Defined.

(** The pool does not see GOAWAY: a connection whose peer sent GOAWAY with
    NO_ERROR, and which has no stream, counts as having a free slot; every request
    is routed to it and fails with REFUSED_STREAM, while the pool opens no other
    connection. *)
Theorem pool_routes_to_goaway k init :
  let w := fst (on_bytes (arch := host64_debug) 0
    [0; 0; 8; 7; 0; 0; 0; 0; 0; 0; 0; 0; 0; 0; 0; 0; 0]
    (connect (arch := host64_debug) default_options)) in
  let world (_ : nat) := w in
  goaway_received w = true /\
  H2Pool.route 10 k world (H2Pool.mk [0%nat] false []) =
    (H2Pool.mk [0%nat] false [], H2Pool.Routed 0%nat) /\
  snd (request_turn (arch := host64_debug) id k init w) =
    Err (H2Error.new ErrorCode.RefusedStream "connection is going away").
Proof.
  intros w world.
  assert (closed w = false /\ goaway_received w = true /\ can_open_stream w = true) as (Hc & Hg & Ho)
    by (split_and!; vm_compute; reflexivity).
  split_and!; [done| |].
  - unfold H2Pool.route, H2Pool.choose. cbn [H2Pool.conns].
    rewrite filter_cons_True, filter_nil by exact Hc. cbn [list_find].
    rewrite decide_True by exact Ho. reflexivity.
  - unfold request_turn. rewrite st_bind_run, request_wait_run. by rewrite Hc, Hg.
Qed.
