(* ===== verification/Text.v ===== *)
(** * Text: the [str] methods of the standard library the server uses

    [split] on a separator, [trim], ASCII case folding and [join], on the bytes
    of ASCII text, with the lemmas about them: [split] is the inverse of [join],
    [trim] strips exactly the white space around a word, and comparison ignoring
    case is an equivalence relation. *)

From S2P Require Import Prelude.

(** [l.split(sep)]: always at least one piece. *)
Fixpoint split (sep : Z) (l : bytes) : list bytes :=
  match l with
  | [] => [[]]
  | x :: l =>
      if x =? sep then [] :: split sep l
      else match split sep l with
           | [] => [[x]]
           | p :: ps => (x :: p) :: ps
           end
  end.

(** [pieces.join(sep)] *)
Fixpoint join (sep : bytes) (ps : list bytes) : bytes :=
  match ps with
  | [] => []
  | [p] => p
  | p :: ps => p ++ sep ++ join sep ps
  end.

(** [char::is_whitespace] on ASCII. *)
Definition is_whitespace (b : Z) : bool := ((9 <=? b) && (b <=? 13)) || (b =? 32).

Fixpoint trim_start (l : bytes) : bytes :=
  match l with
  | x :: l' => if is_whitespace x then trim_start l' else l
  | [] => []
  end.

Definition trim_end (l : bytes) : bytes := reverse (trim_start (reverse l)).

Definition trim (l : bytes) : bytes := trim_end (trim_start l).

Definition ascii_lower (b : Z) : Z := if (65 <=? b) && (b <=? 90) then b + 32 else b.

Definition eq_ignore_ascii_case (a b : bytes) : bool :=
  bool_decide (ascii_lower <$> a = ascii_lower <$> b).

(** ** Splitting and joining *)

Lemma split_nonnil sep l : split sep l <> [].
Proof. destruct l as [|x l]; simpl; [done|]. destruct (x =? sep); [done|]. by destruct (split sep l). Qed.

Lemma split_join sep l : join [sep] (split sep l) = l.
Proof.
  induction l as [|x l IH]; [done|]. simpl.
  destruct (Z.eqb_spec x sep) as [->|]; simpl.
  - rewrite IH. by destruct (split sep l) eqn:E; [edestruct split_nonnil|].
  - destruct (split sep l) as [|p ps] eqn:E; [by edestruct split_nonnil|].
    rewrite <- IH. by destruct ps.
Qed.

Lemma split_free sep l : Forall (fun p => sep ∉ p) (split sep l).
Proof.
  induction l as [|x l IH]; simpl.
  - constructor; [apply not_elem_of_nil|done].
  - destruct (Z.eqb_spec x sep).
    + constructor; [apply not_elem_of_nil|done].
    + destruct (split sep l) as [|p ps]; inversion IH; subst;
        repeat constructor; set_solver.
Qed.

Lemma split_word sep p : sep ∉ p -> split sep p = [p].
Proof.
  induction p as [|x p IH]; [done|]. intros H. simpl.
  destruct (Z.eqb_spec x sep); [set_solver|]. rewrite IH; [done|set_solver].
Qed.

Lemma split_app sep p l :
  sep ∉ p -> split sep (p ++ sep :: l) = p :: split sep l.
Proof.
  induction p as [|x p IH]; intros H; simpl.
  - by rewrite Z.eqb_refl.
  - destruct (Z.eqb_spec x sep); [set_solver|]. rewrite IH; [done|set_solver].
Qed.

(** The pieces are the only way to read a text as a list with separators. *)
Lemma split_unique sep l ps :
  split sep l = ps <-> ps <> [] /\ join [sep] ps = l /\ Forall (fun p => sep ∉ p) ps.
Proof.
  split.
  - intros <-. split_and!; [apply split_nonnil|apply split_join|apply split_free].
  - intros (Hn & <- & Hf). induction ps as [|p ps IH]; [done|].
    inversion Hf as [|?? Hp Hps]; subst. destruct ps as [|q ps]; [by apply split_word|].
    change (join [sep] (p :: q :: ps)) with (p ++ [sep] ++ join [sep] (q :: ps)).
    cbn [app]. rewrite split_app by done. by rewrite IH.
Qed.

Lemma split_app_sep sep l1 l2 : split sep (l1 ++ sep :: l2) = split sep l1 ++ split sep l2.
Proof.
  induction l1 as [|x l1 IH]; simpl; [by rewrite Z.eqb_refl|].
  destruct (x =? sep); [by rewrite IH|]. rewrite IH.
  by destruct (split sep l1) eqn:E; [edestruct split_nonnil|].
Qed.

Lemma join_app sep ps qs :
  ps <> [] -> qs <> [] -> join sep (ps ++ qs) = join sep ps ++ sep ++ join sep qs.
Proof.
  intros Hp Hq. induction ps as [|p ps IH]; [done|]. destruct ps as [|p' ps].
  - by destruct qs.
  - change (p ++ sep ++ join sep ((p' :: ps) ++ qs) = (p ++ sep ++ join sep (p' :: ps)) ++ sep ++ join sep qs).
    rewrite IH by done. by rewrite <- !(assoc_L (++)).
Qed.

(** The pieces, as stretches of the text between separators. *)
Lemma elem_of_split sep p l :
  p ∈ split sep l <->
  exists pre post, l = pre ++ p ++ post /\ sep ∉ p /\
    (pre = [] \/ last pre = Some sep) /\ (post = [] \/ hd_error post = Some sep).
Proof.
  split.
  - intros Hp. pose proof (split_join sep l) as E. pose proof (split_free sep l) as F.
    apply list_elem_of_split in Hp as (l1 & l2 & Hs). rewrite Hs in E, F.
    apply Forall_app in F as [_ F]. inversion F as [|?? Fp _]; subst.
    exists (match l1 with [] => [] | _ => join [sep] l1 ++ [sep] end),
      (match l2 with [] => [] | _ => sep :: join [sep] l2 end).
    split_and!; [|done| |by destruct l2; auto].
    + destruct l1 as [|q l1]; [|rewrite join_app, <- !(assoc_L (++)) by done];
        destruct l2; cbn; by rewrite ?app_nil_r.
    + destruct l1; [by left|right]. by rewrite last_snoc.
  - intros (pre & post & -> & Hp & Hpre & Hpost).
    assert (p ∈ split sep (p ++ post)) as E.
    { destruct Hpost as [->|Hpost]; [rewrite app_nil_r, split_word by done; by left|].
      destruct post; [done|]. injection Hpost as ->. rewrite split_app by done. by left. }
    destruct Hpre as [->|Hpre]; [done|].
    apply last_Some in Hpre as [l' ->]. rewrite <- (assoc_L (++)). cbn [app].
    rewrite split_app_sep. apply elem_of_app. by right.
Qed.

(** ** Trimming *)

Definition blank (l : bytes) : Prop := Forall (fun b => is_whitespace b = true) l.

Lemma trim_start_spec l :
  exists w, l = w ++ trim_start l /\ blank w /\
    (forall x t, trim_start l = x :: t -> is_whitespace x = false).
Proof.
  induction l as [|x l (w & E & Hw & Hs)]; simpl.
  - exists []. split_and!; [done|constructor|done].
  - destruct (is_whitespace x) eqn:Hx.
    + exists (x :: w). split_and!; [by rewrite E at 1|by constructor|done].
    + exists []. split_and!; [done|constructor|by intros ?? [= -> ->]].
Qed.

Lemma trim_end_spec l :
  exists w, l = trim_end l ++ w /\ blank w /\
    (forall x t, trim_end l = t ++ [x] -> is_whitespace x = false).
Proof.
  destruct (trim_start_spec (reverse l)) as (w & E & Hw & Hs). unfold trim_end.
  exists (reverse w). split_and!.
  - by rewrite <- reverse_app, <- E, reverse_involutive.
  - unfold blank. by rewrite Forall_reverse.
  - intros x t Ht. apply (Hs x (reverse t)).
    apply (f_equal reverse) in Ht. by rewrite reverse_involutive, reverse_app in Ht.
Qed.

(** No white space at either end. *)
Definition trimmed (l : bytes) : Prop :=
  (forall x t, l = x :: t -> is_whitespace x = false) /\
  (forall x t, l = t ++ [x] -> is_whitespace x = false).

Lemma trim_spec l :
  exists w1 w2, l = w1 ++ trim l ++ w2 /\ blank w1 /\ blank w2 /\ trimmed (trim l).
Proof.
  destruct (trim_start_spec l) as (w1 & E1 & H1 & S1).
  destruct (trim_end_spec (trim_start l)) as (w2 & E2 & H2 & S2).
  exists w1, w2. unfold trim. split; [by rewrite <- E2|]. repeat split; [done|done| |done].
  intros x t Ht. rewrite Ht in E2. simpl in E2. by eapply S1.
Qed.

Lemma trim_start_blank w l : blank w -> trim_start (w ++ l) = trim_start l.
Proof. induction 1 as [|x w Hx _ IH]; [done|]. simpl. by rewrite Hx. Qed.

Lemma trim_start_clean l :
  (forall x t, l = x :: t -> is_whitespace x = false) -> trim_start l = l.
Proof. destruct l as [|x l]; [done|]. intros H. simpl. by rewrite (H x l). Qed.

(** [trim] finds the word in any padding. *)
Lemma trim_padded w1 l w2 :
  blank w1 -> blank w2 -> trimmed l -> l <> [] -> trim (w1 ++ l ++ w2) = l.
Proof.
  intros H1 H2 [Hs He] Hl. unfold trim, trim_end. rewrite trim_start_blank by done.
  rewrite (trim_start_clean (l ++ w2)).
  - rewrite reverse_app, trim_start_blank by (unfold blank; by rewrite Forall_reverse).
    rewrite trim_start_clean; [apply reverse_involutive|].
    intros x t Ht. apply (He x (reverse t)).
    apply (f_equal reverse) in Ht. by rewrite reverse_involutive, reverse_cons in Ht.
  - intros x t Ht. destruct l as [|y l]; [done|]. injection Ht as -> _. by eapply Hs.
Qed.

Lemma trim_subset l b : b ∈ trim l -> b ∈ l.
Proof. destruct (trim_spec l) as (w1 & w2 & E & _). rewrite E at 2. set_solver. Qed.

(** ** Case folding *)

Lemma eq_ignore_ascii_case_eq a b :
  eq_ignore_ascii_case a b = true <-> ascii_lower <$> a = ascii_lower <$> b.
Proof. apply bool_decide_eq_true. Qed.

#[export] Instance eq_ignore_ascii_case_equiv :
  Equivalence (fun a b => eq_ignore_ascii_case a b = true).
Proof.
  split; intros ?; intros; rewrite !eq_ignore_ascii_case_eq in *; congruence.
Qed.

(** Printable ASCII, the contents of a header value that is text. *)
Definition is_visible_ascii (b : Z) : bool := ((32 <=? b) && (b <? 127)) || (b =? 9).
Definition visible (l : bytes) : Prop := Forall (fun b => is_visible_ascii b = true) l.

Lemma visible_lowercase b : is_visible_ascii (ascii_lower b) = is_visible_ascii b.
Proof.
  unfold is_visible_ascii, ascii_lower.
  destruct ((65 <=? b) && (b <=? 90)) eqn:E; [|done]. lia.
Qed.

Lemma visible_fold a b : eq_ignore_ascii_case a b = true -> visible a -> visible b.
Proof.
  rewrite eq_ignore_ascii_case_eq. unfold visible. revert b.
  induction a as [|x a IH]; intros [|y b]; cbn; try done. intros [= Exy Eab] H.
  inversion H; subst. constructor; [|by apply IH].
  by rewrite <- visible_lowercase, <- Exy, visible_lowercase.
Qed.

#[export] Hint Resolve split_nonnil split_free : h2ts.
