(* ===== verification/Handshake.v ===== *)
(** * Handshake: accepting a WebSocket upgrade

    Models [rust/crates/h2ts-server/src/handshake.rs].  A request is what
    [headers().get] answers for each header; [HeaderValue]'s conversions and the
    digests of the accept key are interfaces ([Http], [Digests]) with the
    documented behaviour the code relies on as their laws.  [Concrete] implements
    both interfaces, so that a whole handshake can be run. *)

From S2P Require Import Prelude Text.

Inductive HeaderName :=
  | UPGRADE | CONNECTION | ORIGIN
  | SEC_WEBSOCKET_KEY | SEC_WEBSOCKET_ACCEPT | SEC_WEBSOCKET_PROTOCOL.

#[export] Instance HeaderName_eq_dec : EqDecision HeaderName.
Proof. solve_decision. Defined.

(** [http::HeaderValue]: [to_str] yields visible ASCII, unchanged, and nothing else;
    [from_str] takes any text, and accepts visible ASCII. *)
Class Http := {
  to_str : bytes -> option bytes;
  from_str : bytes -> option bytes;
}.
Class HttpLaws `(Http) : Prop := {
  to_str_visible v s : to_str v = Some s -> s = v /\ visible s;
  to_str_of_visible s : visible s -> to_str s = Some s;
  from_str_visible s : visible s -> from_str s = Some s;
}.

(** The [sha1] and [base64] crates: base64 text is visible ASCII. *)
Class Digests := {
  sha1 : bytes -> bytes;
  base64 : bytes -> bytes;
}.
Class DigestsLaws `(Digests) : Prop := base64_visible b : visible (base64 b).

(** The headers of a request: the first value of each name. *)
Definition Request : Type := HeaderName -> option bytes.

Record Response := response {
  status : Z;
  headers : list (HeaderName * bytes);
}.

Definition get (h : HeaderName) (r : Response) : option bytes :=
  snd <$> head (filter (fun f => f.1 = h) (headers r)).

(** [headers_mut().insert(h, v)]: replaces the values of [h]. *)
Definition insert_header (h : HeaderName) (v : bytes) (r : Response) : Response :=
  response (status r) (filter (fun f => f.1 <> h) (headers r) ++ [(h, v)]).

Definition WS_GUID : bytes := str "258EAFA5-E914-47DA-95CA-C5AB0DC85B11".
Definition DEFAULT_SUBPROTOCOL : bytes := str "h2ts".

Record AcceptOptions := {
  allow_implicit_codec : bool;
  allowed_origins : option (list bytes);
}.

(** [#[derive(Default)]] *)
Definition AcceptOptions_default : AcceptOptions :=
  {| allow_implicit_codec := false; allowed_origins := None |}.

Inductive Fallback :=
  | Accept (p : option bytes)
  | Reject.

Section handshake.
Context `{HT : Http} `{DG : Digests}.
(** hyper's error and upgraded connection. *)
Context {HyperError Upgraded : Type} (error_text : HyperError -> bytes).

Inductive WebSocketError :=
  | NotUpgradeRequest
  | UnsupportedSubprotocol
  | ForbiddenOrigin
  | Upgrade (e : HyperError).

Definition rejection_response (e : WebSocketError) : Response :=
  response match e with
           | NotUpgradeRequest => 426
           | UnsupportedSubprotocol => 400
           | ForbiddenOrigin => 403
           | Upgrade _ => 500
           end [].

Definition fmt (e : WebSocketError) : bytes :=
  match e with
  | NotUpgradeRequest => str "not a WebSocket upgrade request"
  | UnsupportedSubprotocol => str "client offered no supported subprotocol"
  | ForbiddenOrigin => str "origin not allowed"
  | Upgrade e => str "WebSocket upgrade failed: " ++ error_text e
  end.

Definition source (e : WebSocketError) : option HyperError :=
  match e with
  | Upgrade e => Some e
  | NotUpgradeRequest | UnsupportedSubprotocol | ForbiddenOrigin => None
  end.

Definition COMMA : Z := 44.

Definition header_lists (request : Request) (header : HeaderName) (needle : bytes) : bool :=
  match request header ≫= to_str with
  | Some list => existsb (fun t => eq_ignore_ascii_case (trim t) needle) (split COMMA list)
  | None => false
  end.

Definition is_upgrade_request (request : Request) : bool :=
  header_lists request UPGRADE (str "websocket")
  && header_lists request CONNECTION (str "upgrade")
  && bool_decide (is_Some (request SEC_WEBSOCKET_KEY)).

Definition offered_protocols (request : Request) : list bytes :=
  match request SEC_WEBSOCKET_PROTOCOL ≫= to_str with
  | Some list => filter (fun s => s <> []) (trim <$> split COMMA list)
  | None => []
  end.

Definition fallback_subprotocol (offered : list bytes) (allow_implicit_codec : bool) : Fallback :=
  match List.find (fun p => eq_ignore_ascii_case p DEFAULT_SUBPROTOCOL) offered with
  | Some p => Accept (Some p)
  | None => if allow_implicit_codec then Accept (hd_error offered) else Reject
  end.

Definition accept_key (key : bytes) : bytes := base64 (sha1 (key ++ WS_GUID)).

(** The upgrade future, as a function of what hyper's resolves to. *)
Definition upgrade_future (on_upgrade : HyperError + Upgraded) : WebSocketError + Upgraded :=
  match on_upgrade with
  | inl e => inl (Upgrade e)
  | inr upgraded => inr upgraded
  end.

(** The subprotocol decision of [accept_with_options]. *)
Definition decide_subprotocol (select : list bytes -> option bytes) (options : AcceptOptions)
    (offered : list bytes) : Fallback :=
  match select offered with
  | Some proto =>
      if existsb (fun o => eq_ignore_ascii_case o proto) offered then Accept (Some proto)
      else fallback_subprotocol offered (allow_implicit_codec options)
  | None => fallback_subprotocol offered (allow_implicit_codec options)
  end.

(** The [Origin] check of [accept_with_options]. *)
Definition origin_ok (request : Request) (options : AcceptOptions) : bool :=
  match allowed_origins options with
  | Some allowed =>
      match request ORIGIN ≫= to_str with
      | Some o => existsb (fun a => eq_ignore_ascii_case a o) allowed
      | None => false
      end
  | None => true
  end.

Definition accept_with_options (request : Request) (select : list bytes -> option bytes)
    (options : AcceptOptions)
    : outcome WebSocketError (Response * (HyperError + Upgraded -> WebSocketError + Upgraded)) :=
  if negb (is_upgrade_request request) then Err NotUpgradeRequest else
  if negb (origin_ok request options) then Err ForbiddenOrigin else
  key ← ok_or NotUpgradeRequest (request SEC_WEBSOCKET_KEY);
  let accept_value := accept_key key in
  match decide_subprotocol select options (offered_protocols request) with
  | Reject => Err UnsupportedSubprotocol
  | Accept chosen =>
      accept_header ← expect (from_str accept_value);
      let r := response 101 [(CONNECTION, str "Upgrade"); (UPGRADE, str "websocket");
                             (SEC_WEBSOCKET_ACCEPT, accept_header)] in
      let r := match chosen ≫= from_str with
               | Some value => insert_header SEC_WEBSOCKET_PROTOCOL value r
               | None => r
               end in
      Ok (r, upgrade_future)
  end.

Definition accept_with (request : Request) (select : list bytes -> option bytes) :=
  accept_with_options request select AcceptOptions_default.

Definition accept (request : Request) := accept_with request (fun _ => None).

End handshake.

Arguments WebSocketError : clear implicits.

(** ** What a handshake has to establish *)

(** [w] is one of the comma-separated words of [list], white space aside. *)
Definition word (list w : bytes) : Prop :=
  exists pre p post,
    list = pre ++ p ++ post /\ COMMA ∉ p /\ trim p = w /\
    (pre = [] \/ last pre = Some COMMA) /\ (post = [] \/ hd_error post = Some COMMA).

Section verdict.
Context `{HT : Http} `{DG : Digests}.

(** The text of the first [h] header. *)
Definition text (request : Request) (h : HeaderName) (s : bytes) : Prop :=
  exists v, request h = Some v /\ to_str v = Some s.

Definition names (request : Request) (h : HeaderName) (needle : bytes) : Prop :=
  exists s w, text request h s /\ word s w /\ eq_ignore_ascii_case w needle = true.

Definition upgrade_wanted (request : Request) : Prop :=
  names request UPGRADE (str "websocket") /\ names request CONNECTION (str "upgrade") /\
  is_Some (request SEC_WEBSOCKET_KEY).

Definition origin_admitted (request : Request) (options : AcceptOptions) : Prop :=
  match allowed_origins options with
  | None => True
  | Some allowed =>
      exists o a, text request ORIGIN o /\ a ∈ allowed /\ eq_ignore_ascii_case a o = true
  end.

(** The client offered the subprotocol [p]. *)
Definition offers (request : Request) (p : bytes) : Prop :=
  p <> [] /\ exists s, text request SEC_WEBSOCKET_PROTOCOL s /\ word s p.

(** The offer, in order: what its header lists between commas, white space and empty
    entries aside. *)
Definition offer (request : Request) (ps : list bytes) : Prop :=
  (exists raw, text request SEC_WEBSOCKET_PROTOCOL (join [COMMA] raw) /\ raw <> [] /\
     Forall (fun w => COMMA ∉ w) raw /\ ps = filter (fun w => w <> []) (trim <$> raw)) \/
  (ps = [] /\ forall s, ~ text request SEC_WEBSOCKET_PROTOCOL s).

Definition is_default (p : bytes) : Prop := eq_ignore_ascii_case p DEFAULT_SUBPROTOCOL = true.

(** The handler names none of the offer [ps]. *)
Definition declined (select : list bytes -> option bytes) (ps : list bytes) : Prop :=
  forall p o, select ps = Some p -> o ∈ ps -> eq_ignore_ascii_case o p = false.

(** The subprotocol of a 101 that answers the offer [ps]: what the handler names, if it was
    offered (up to case); or else the first [h2ts] in it; or else, with implicit
    codecs, its first entry, or none if there is none. *)
Definition chosen_ok (select : list bytes -> option bytes) (options : AcceptOptions)
    (ps : list bytes) (chosen : option bytes) : Prop :=
  (exists p o, chosen = Some p /\ select ps = Some p /\ o ∈ ps /\ eq_ignore_ascii_case o p = true) \/
  (declined select ps /\ exists l1 p l2, chosen = Some p /\ ps = l1 ++ p :: l2 /\
     is_default p /\ Forall (fun o => ~ is_default o) l1) \/
  (declined select ps /\ Forall (fun o => ~ is_default o) ps /\
     allow_implicit_codec options = true /\ chosen = hd_error ps).

(** ** Reading the headers *)

Lemma text_get request h s : request h ≫= to_str = Some s <-> text request h s.
Proof. rewrite bind_Some. done. Qed.

Lemma text_fun request h s s' : text request h s -> text request h s' -> s = s'.
Proof. rewrite <- !text_get. congruence. Qed.

Lemma word_split list w : word list w <-> w ∈ trim <$> split COMMA list.
Proof.
  rewrite list_elem_of_fmap. unfold word. setoid_rewrite elem_of_split. split.
  - intros (pre & p & post & E & Hp & <- & H). exists p. split; [done|]. by exists pre, post.
  - intros (p & -> & pre & post & E & Hp & H). by exists pre, p, post.
Qed.

Lemma existsb_elem {A} (f : A -> bool) l : existsb f l = true <-> exists x, x ∈ l /\ f x = true.
Proof. rewrite existsb_exists. by setoid_rewrite list_elem_of_In. Qed.

Lemma header_lists_spec request h needle :
  header_lists request h needle = true <-> names request h needle.
Proof.
  unfold header_lists, names. setoid_rewrite <- text_get.
  destruct (request h ≫= to_str) as [s|]; [|split; [done|by intros (? & ? & [=] & _)]].
  rewrite existsb_elem. setoid_rewrite word_split. setoid_rewrite list_elem_of_fmap. split.
  - intros (t & Ht & E). exists s, (trim t). eauto.
  - intros (_ & _ & [= <-] & (t & -> & Ht) & E). eauto.
Qed.

Lemma is_upgrade_request_spec request :
  is_upgrade_request request = true <-> upgrade_wanted request.
Proof.
  unfold is_upgrade_request, upgrade_wanted.
  rewrite !andb_true_iff, !header_lists_spec, bool_decide_eq_true. tauto.
Qed.

Lemma origin_ok_spec request options :
  origin_ok request options = true <-> origin_admitted request options.
Proof.
  unfold origin_ok, origin_admitted. destruct (allowed_origins options) as [l|]; [|done].
  setoid_rewrite <- text_get. destruct (request ORIGIN ≫= to_str) as [o|]; [|split; [done|by intros (? & ? & [=] & _)]].
  rewrite existsb_elem. split; [|intros (? & a & [= <-] & H); by exists a].
  intros (a & H). by exists o, a.
Qed.

Lemma offered_spec request p : p ∈ offered_protocols request <-> offers request p.
Proof.
  unfold offered_protocols, offers. setoid_rewrite <- text_get.
  destruct (request SEC_WEBSOCKET_PROTOCOL ≫= to_str) as [s|].
  - rewrite list_elem_of_filter, <- word_split. split; intros [? H]; split; try done.
    + by exists s.
    + by destruct H as (? & [= <-] & H).
  - rewrite elem_of_nil. split; [done|by intros (_ & ? & [=] & _)].
Qed.

Lemma existsb_false {A} (f : A -> bool) l x : existsb f l = false -> x ∈ l -> f x = false.
Proof.
  intros H Hx. apply not_true_iff_false. intros Hf. apply not_true_iff_false in H.
  apply H, existsb_elem. by exists x.
Qed.

Lemma text_visible `{!HttpLaws HT} request h s : text request h s -> visible s.
Proof. intros (v & _ & H). exact (proj2 (to_str_visible v s H)). Qed.

Lemma offers_visible `{!HttpLaws HT} request p : offers request p -> visible p.
Proof.
  intros (_ & s & Hs & pre & q & post & -> & _ & <- & _). apply text_visible in Hs.
  apply Forall_app in Hs as [_ Hs]. apply Forall_app in Hs as [Hs _].
  apply Forall_forall. intros b Hb%trim_subset. revert b Hb. by apply Forall_forall.
Qed.

(** ** The subprotocol decision *)

Lemma offered_offer request : offer request (offered_protocols request).
Proof.
  unfold offer, offered_protocols. setoid_rewrite <- text_get.
  destruct (request SEC_WEBSOCKET_PROTOCOL ≫= to_str) as [s|]; [left|by right].
  exists (split COMMA s). by rewrite split_join; split_and!; [|apply split_nonnil|apply split_free|].
Qed.

Lemma fallback_ok select options ps :
  declined select ps ->
  match fallback_subprotocol ps (allow_implicit_codec options) with
  | Accept chosen => chosen_ok select options ps chosen
  | Reject => allow_implicit_codec options = false /\ Forall (fun o => ~ is_default o) ps
  end.
Proof.
  intros Hd. unfold fallback_subprotocol.
  destruct (List.find _ ps) as [p|] eqn:Hf.
  - right. left. split; [done|]. clear Hd. revert Hf. induction ps as [|q ps IH]; [done|]. cbn [List.find].
    destruct (eq_ignore_ascii_case q DEFAULT_SUBPROTOCOL) eqn:Hq.
    + intros [= ->]. by exists [], p, ps.
    + intros (l1 & p' & l2 & [= <-] & E & Hp & H1)%IH. exists (q :: l1), p, l2. rewrite E. split_and!; try done.
      constructor; [|done]. unfold is_default. by rewrite Hq.
  - assert (Forall (fun o => ~ is_default o) ps) as Hn.
    { apply Forall_forall. intros o Ho%list_elem_of_In Hdef. pose proof (find_none _ _ Hf o Ho) as H.
      unfold is_default in Hdef. cbn beta in H. congruence. }
    destruct (allow_implicit_codec options) eqn:Hi; [right; right; by rewrite Hi|done].
Qed.

Lemma decide_ok select options ps :
  match decide_subprotocol select options ps with
  | Accept chosen => chosen_ok select options ps chosen
  | Reject => allow_implicit_codec options = false /\ Forall (fun o => ~ is_default o) ps /\ declined select ps
  end.
Proof.
  unfold decide_subprotocol.
  assert (declined select ps -> match fallback_subprotocol ps (allow_implicit_codec options) with
    | Accept chosen => chosen_ok select options ps chosen
    | Reject => allow_implicit_codec options = false /\ Forall (fun o => ~ is_default o) ps /\ declined select ps
    end) as HF.
  { intros Hd. pose proof (fallback_ok select options ps Hd) as H. destruct (fallback_subprotocol _ _); [done|].
    by destruct H. }
  destruct (select ps) as [p|] eqn:Hs; [|by apply HF; intros p o; rewrite Hs].
  destruct (existsb _ _) eqn:He.
  - apply existsb_elem in He as (o & Ho & E). left. by exists p, o.
  - apply HF. intros p' o. rewrite Hs. intros [= <-] Ho. by eapply existsb_false in He.
Qed.

(** What was chosen is a valid header value: the [101] never goes without it. *)
Lemma chosen_valid `{!HttpLaws HT} request select options chosen :
  chosen_ok select options (offered_protocols request) chosen -> chosen ≫= from_str = chosen.
Proof.
  assert (forall p, p ∈ offered_protocols request -> from_str p = Some p) as Hin.
  { intros p Hp%offered_spec. by apply from_str_visible, (offers_visible request). }
  intros [(p & o & -> & _ & Ho & E)|[(_ & l1 & p & l2 & -> & E & _)|(_ & _ & _ & ->)]]; cbn.
  - apply from_str_visible. eapply visible_fold; [done|]. eapply offers_visible. by apply offered_spec.
  - apply Hin. rewrite E. apply elem_of_app. right. by left.
  - destruct (offered_protocols request) as [|p l]; [done|]. apply Hin. by left.
Qed.

(** ** The handshake *)

(** What a verdict has to establish: a 101 answers exactly an upgrade from an admitted
    origin with an acceptable offer; each rejection means what it says. *)
Definition verdict_ok {E U} (request : Request) (select : list bytes -> option bytes) (options : AcceptOptions)
    (verdict : outcome (WebSocketError E) (Response * (E + U -> WebSocketError E + U))) : Prop :=
  let ps := offered_protocols request in
  match verdict with
  | Ok (r, fut) =>
      upgrade_wanted request /\ origin_admitted request options /\
      status r = 101 /\ get UPGRADE r = Some (str "websocket") /\
      get CONNECTION r = Some (str "Upgrade") /\
      (exists key, request SEC_WEBSOCKET_KEY = Some key /\
        get SEC_WEBSOCKET_ACCEPT r = Some (base64 (sha1 (key ++ WS_GUID)))) /\
      chosen_ok select options ps (get SEC_WEBSOCKET_PROTOCOL r)
  | Err NotUpgradeRequest => ~ upgrade_wanted request
  | Err ForbiddenOrigin => upgrade_wanted request /\ ~ origin_admitted request options
  | Err UnsupportedSubprotocol =>
      upgrade_wanted request /\ origin_admitted request options /\
      allow_implicit_codec options = false /\
      Forall (fun o => ~ is_default o) ps /\ declined select ps
  | _ => False
  end.

Lemma accept_verdict `{!HttpLaws HT, !DigestsLaws DG} {E U} request select options :
  verdict_ok request select options (accept_with_options (HyperError:=E) (Upgraded:=U) request select options).
Proof.
  unfold verdict_ok. set (ps := offered_protocols request). unfold accept_with_options.
  destruct (is_upgrade_request request) eqn:Hu; cbn [negb];
    [apply is_upgrade_request_spec in Hu | by rewrite <- is_upgrade_request_spec, Hu].
  destruct (origin_ok request options) eqn:Ho; cbn [negb];
    [apply origin_ok_spec in Ho | by rewrite <- origin_ok_spec, Ho].
  destruct (proj2 (proj2 Hu)) as [key Hkey]. rewrite Hkey. cbn [ok_or mbind outcome_bind].
  pose proof (decide_ok select options ps) as HD. fold ps.
  destruct (decide_subprotocol _ _ _) as [chosen|]; [|done].
  unfold accept_key. rewrite from_str_visible by apply base64_visible.
  cbn [expect mbind outcome_bind]. rewrite (chosen_valid _ _ _ _ HD).
  destruct chosen as [p|]; (split; [done|split; [done|split; [done|]]]);
    (split; [done|split; [done|split; [by exists key|exact HD]]]).
Qed.

(** C23: The verdict on a request, on every branch: a 101 answers exactly a WebSocket
    upgrade (all three headers) from an admitted origin that has an acceptable offer, and
    carries the RFC 6455 accept key.  The subprotocol it names is the handler's, if the
    client offered that (up to case); or else the first h2ts of the offer; or else, only
    when implicit codecs are allowed, the first of the offer, or none when nothing was
    offered.  The offer is the words of its header, in order.  The rejections mean what
    they say, and nothing panics. *)
Theorem handshake_verdict `{!HttpLaws HT, !DigestsLaws DG} {E U} request select options :
  let ps := offered_protocols request in
  offer request ps /\ (forall o, o ∈ ps <-> offers request o) /\
  match accept_with_options (HyperError:=E) (Upgraded:=U) request select options with
  | Ok (r, fut) =>
      upgrade_wanted request /\ origin_admitted request options /\
      status r = 101 /\ get UPGRADE r = Some (str "websocket") /\
      get CONNECTION r = Some (str "Upgrade") /\
      (exists key, request SEC_WEBSOCKET_KEY = Some key /\
        get SEC_WEBSOCKET_ACCEPT r = Some (base64 (sha1 (key ++ WS_GUID)))) /\
      chosen_ok select options ps (get SEC_WEBSOCKET_PROTOCOL r)
  | Err NotUpgradeRequest => ~ upgrade_wanted request
  | Err ForbiddenOrigin => upgrade_wanted request /\ ~ origin_admitted request options
  | Err UnsupportedSubprotocol =>
      upgrade_wanted request /\ origin_admitted request options /\
      allow_implicit_codec options = false /\
      Forall (fun o => ~ is_default o) ps /\ declined select ps
  | _ => False
  end.
Proof.
  intros ps. split; [apply offered_offer|]. split; [apply offered_spec|]. apply accept_verdict.
Qed.

(** ** A client's offer *)

(** A subprotocol as a client lists it. *)
Definition clean (p : bytes) : Prop := p <> [] /\ trimmed p /\ COMMA ∉ p /\ visible p.

Lemma filter_id {A} (P : A -> Prop) `{!forall x, Decision (P x)} l : Forall P l -> filter P l = l.
Proof. induction 1 as [|x l Hx _ IH]; [done|]. by rewrite filter_cons_True, IH by done. Qed.

Lemma visible_join ps : Forall visible ps -> visible (join (str ", ") ps).
Proof.
  induction 1 as [|p [|q ps] Hp _ IH]; [constructor|done|].
  change (visible (p ++ str ", " ++ join (str ", ") (q :: ps))).
  repeat apply Forall_app_2; [done| |done]. by repeat constructor.
Qed.

Lemma split_offer ps :
  Forall clean ps -> ps <> [] -> trim <$> split COMMA (join (str ", ") ps) = ps.
Proof.
  assert (forall w p, blank w -> clean p -> trim (w ++ p) = p) as Htrim.
  { intros w p Hw (Hn & Ht & _). rewrite <- (app_nil_r p) at 1. by apply trim_padded; [|constructor| |]. }
  enough (forall w ps, blank w -> COMMA ∉ w -> Forall clean ps -> ps <> [] ->
            trim <$> split COMMA (w ++ join (str ", ") ps) = ps) as H.
  { intros Hps Hn. by apply (H []); [constructor|apply not_elem_of_nil| |]. }
  clear ps. intros w ps Hw Hc Hps. revert w Hw Hc.
  induction Hps as [|p [|q ps] Hp _ IH]; intros w Hw Hc Hn; [done| |].
  - cbn. rewrite split_word by (destruct Hp as (_ & _ & ? & _); set_solver).
    cbn. by rewrite Htrim.
  - change (w ++ join (str ", ") (p :: q :: ps))
      with (w ++ p ++ COMMA :: [32] ++ join (str ", ") (q :: ps)).
    rewrite (assoc_L (++)), split_app by (destruct Hp as (_ & _ & ? & _); set_solver).
    rewrite fmap_cons, Htrim by done. f_equal. apply IH; [by repeat constructor| |done].
    by intros ?%list_elem_of_singleton.
Qed.

(** A client that asks for the upgrade and lists its subprotocols the way clients
    do gets what it needs: the server reads back exactly the list, and [accept] agrees
    to the first h2ts of it, in the client's spelling, or rejects it as unsupported. *)
Theorem client_offer_accepted `{!HttpLaws HT, !DigestsLaws DG} {E U} request ps :
  upgrade_wanted request ->
  Forall clean ps ->
  request SEC_WEBSOCKET_PROTOCOL = Some (join (str ", ") ps) ->
  offered_protocols request = ps /\
  match List.find (fun p => eq_ignore_ascii_case p DEFAULT_SUBPROTOCOL) ps with
  | Some p => exists r fut,
      accept (HyperError:=E) (Upgraded:=U) request = Ok (r, fut) /\
      status r = 101 /\ get SEC_WEBSOCKET_PROTOCOL r = Some p
  | None => accept (HyperError:=E) (Upgraded:=U) request = Err UnsupportedSubprotocol
  end.
Proof.
  intros Hu Hps Hreq.
  assert (Forall visible ps) as Hv by (eapply Forall_impl; [done|]; by intros p (_ & _ & _ & ?)).
  assert (offered_protocols request = ps) as Ho.
  { unfold offered_protocols. rewrite Hreq. cbn. rewrite to_str_of_visible by by apply visible_join.
    destruct ps as [|p ps]; [done|]. rewrite split_offer by done. apply filter_id.
    eapply Forall_impl; [exact Hps|]. by intros p' (? & _). }
  split; [done|].
  unfold accept, accept_with, accept_with_options, decide_subprotocol, fallback_subprotocol.
  rewrite (proj2 (is_upgrade_request_spec request) Hu), Ho. destruct Hu as (_ & _ & key & ->). cbn.
  destruct (List.find _ ps) as [p|] eqn:Hf; [|done].
  rewrite from_str_visible by apply base64_visible. cbn.
  apply find_some in Hf as [Hp _]. rewrite from_str_visible; [by eauto|].
  by eapply Forall_forall in Hv; [|by apply list_elem_of_In].
Qed.
End verdict.

(** ** A concrete implementation of the interfaces *)

Module Concrete.

Definition header_text (v : bytes) : option bytes :=
  if forallb is_visible_ascii v then Some v else None.

#[export] Instance http : Http := {| to_str := header_text; from_str := header_text |}.

#[export] Instance http_laws : HttpLaws http.
Proof.
  assert (forall s, visible s <-> forallb is_visible_ascii s = true) as H.
  { intros s. unfold visible. rewrite forallb_forall, Forall_forall.
    by setoid_rewrite list_elem_of_In. }
  split; cbn; unfold header_text; intros ?; [|intros -> %H..]; try done.
  intros s. rewrite H. by destruct (forallb is_visible_ascii v) eqn:E; intros [= <-].
Qed.

(** FIPS 180-4, section 6.1. *)
Definition rotl (n x : Z) : Z := as_u32 (Z.lor (Z.shiftl x n) (Z.shiftr x (32 - n))).
Definition be_word (l : bytes) : Z := fold_left (fun w b => w * 256 + b) l 0.
Fixpoint be_bytes (n : nat) (x : Z) : bytes :=
  match n with O => [] | S n => be_bytes n (x / 256) ++ [x mod 256] end.

Fixpoint groups {A} (fuel k : nat) (l : list A) : list (list A) :=
  match fuel, l with
  | S fuel, _ :: _ => take k l :: groups fuel k (drop k l)
  | _, _ => []
  end.

Definition padded (m : bytes) : bytes :=
  m ++ [128] ++ replicate (Z.to_nat ((55 - zlen m) mod 64)) 0 ++ be_bytes 8 (8 * zlen m).

(** The message schedule, newest word first. *)
Fixpoint schedule (n : nat) (ws : list Z) : list Z :=
  match n with
  | O => ws
  | S n =>
      let w i := default 0 (ws !! i) in
      schedule n (rotl 1 (Z.lxor (Z.lxor (w 2%nat) (w 7%nat)) (Z.lxor (w 13%nat) (w 15%nat))) :: ws)
  end.

Definition round (st : Z * Z * Z * Z * Z * Z) (w : Z) : Z * Z * Z * Z * Z * Z :=
  let '(t, a, b, c, d, e) := st in
  let '(f, k) :=
    if t <? 20 then (Z.lxor d (Z.land b (Z.lxor c d)), 0x5A827999)
    else if t <? 40 then (Z.lxor (Z.lxor b c) d, 0x6ED9EBA1)
    else if t <? 60 then (Z.lor (Z.land b c) (Z.land d (Z.lor b c)), 0x8F1BBCDC)
    else (Z.lxor (Z.lxor b c) d, 0xCA62C1D6) in
  (t + 1, as_u32 (rotl 5 a + f + e + k + w), a, rotl 30 b, c, d).

Definition block (h : list Z) (m : bytes) : list Z :=
  let ws := reverse (schedule 64 (reverse (be_word <$> groups 16 4 m))) in
  match h with
  | [a; b; c; d; e] =>
      let '(_, a', b', c', d', e') := fold_left round ws (0, a, b, c, d, e) in
      as_u32 <$> [a + a'; b + b'; c + c'; d + d'; e + e']
  | _ => h
  end.

Definition sha1_digest (m : bytes) : bytes :=
  fold_left block (groups (S (length m)) 64 (padded m))
    [0x67452301; 0xEFCDAB89; 0x98BADCFE; 0x10325476; 0xC3D2E1F0] ≫= be_bytes 4.

(** RFC 4648, section 4. *)
Definition base64_char (i : Z) : Z :=
  if i <? 26 then 65 + i else if i <? 52 then 71 + i else if i <? 62 then i - 4
  else if i =? 62 then 43 else 47.

Definition base64_group (g : bytes) : bytes :=
  let c n := base64_char (n mod 64) in
  match g with
  | [a] => [c (a / 4); c (a * 16); 61; 61]
  | [a; b] => [c (a / 4); c (a * 16 + b / 16); c (b * 4); 61]
  | [a; b; x] => [c (a / 4); c (a * 16 + b / 16); c (b * 4 + x / 64); c x]
  | _ => []
  end.

Definition base64_text (l : bytes) : bytes := groups (length l) 3 l ≫= base64_group.

#[export] Instance digests : Digests := {| sha1 := sha1_digest; base64 := base64_text |}.

#[export] Instance digests_laws : DigestsLaws digests.
Proof.
  assert (forall n, is_visible_ascii (base64_char (n mod 64)) = true) as Hc.
  { intros n. pose proof (Z.mod_pos_bound n 64). unfold base64_char, is_visible_ascii.
    repeat case_match; lia. }
  intros l. cbn. unfold base64_text. generalize (groups (length l) 3 l). intros gs.
  induction gs as [|g gs IH]; [constructor|]. cbn. apply Forall_app_2; [|done].
  destruct g as [|a [|b [|x [|]]]]; repeat constructor; try done; apply Hc.
Qed.

(** The example of RFC 6455, section 1.3. *)
Example accept_key_rfc6455 :
  accept_key (str "dGhlIHNhbXBsZSBub25jZQ==") = str "s3pPLMBiTxaQ9kYGzzhZRbK+xOo=".
Proof. vm_compute. reflexivity. Qed.

(** A well-formed upgrade request with the given offer. *)
Definition asks (offer : bytes) : Request := fun h =>
  match h with
  | UPGRADE => Some (str "websocket")
  | CONNECTION => Some (str "keep-alive, Upgrade")
  | SEC_WEBSOCKET_KEY => Some (str "dGhlIHNhbXBsZSBub25jZQ==")
  | SEC_WEBSOCKET_PROTOCOL => Some offer
  | _ => None
  end.

Lemma asks_upgrade offer : upgrade_wanted (asks offer).
Proof. apply is_upgrade_request_spec. vm_compute. reflexivity. Qed.

(** The offer is compared ignoring case, and it is the handler's spelling that goes
    out: a name the client did not offer as such. *)
Example selector_casing_echoed :
  exists r fut,
    accept_with (HyperError:=False) (Upgraded:=unit) (asks (str "Chat")) (fun _ => Some (str "chat"))
      = Ok (r, fut) /\
    get SEC_WEBSOCKET_PROTOCOL r = Some (str "chat") /\
    str "chat" ∉ offered_protocols (asks (str "Chat")).
Proof.
  eexists _, _. split; [vm_compute; reflexivity|split; [reflexivity|]].
  apply (bool_decide_unpack _). vm_compute. exact I.
Qed.

End Concrete.

Import Concrete.

(** Implicit codecs: the handler declines, [h2ts] is not offered, the first entry is
    taken. *)
Lemma handshake_verdict_witness :
  let ps := [str "chat"; str "superchat"] in
  offer (asks (str "chat, superchat")) ps /\
  chosen_ok (fun _ => None) {| allow_implicit_codec := true; allowed_origins := None |} ps (Some (str "chat")).
Proof.
  intros ps. pose proof (handshake_verdict (E:=False) (U:=unit) (asks (str "chat, superchat"))
    (fun _ => None) {| allow_implicit_codec := true; allowed_origins := None |}) as H.
  cbv zeta in H. destruct H as (H1 & _ & H).
  assert (offered_protocols (asks (str "chat, superchat")) = ps) as Ep by (vm_compute; reflexivity).
  rewrite Ep in H1, H. split; [exact H1|].
  remember (accept_with_options _ _ _) as a eqn:Ha in H.
  vm_compute in Ha. subst a. exact (proj2 (proj2 (proj2 (proj2 (proj2 (proj2 H)))))).
Defined.

Lemma client_offer_accepted_witness :
  offered_protocols (asks (str "chat, h2ts")) = [str "chat"; str "h2ts"].
Proof.
  refine (proj1 (client_offer_accepted (E:=False) (U:=unit) (asks (str "chat, h2ts"))
    [str "chat"; str "h2ts"] _ _ _)).
  - apply asks_upgrade.
  - assert (forall p, p <> [] -> forallb (fun b => negb (is_whitespace b) && negb (b =? COMMA)
      && is_visible_ascii b) p = true -> clean p) as Hc.
    { intros p Hn Hp. rewrite forallb_forall in Hp.
      assert (forall b, b ∈ p -> is_whitespace b = false /\ b <> COMMA /\ is_visible_ascii b = true) as Hb.
      { intros b Hb%list_elem_of_In%Hp. lia. }
      split; [done|split; [split|split]].
      - intros x t ->. apply Hb. by left.
      - intros x t ->. apply Hb. apply elem_of_app. right. by left.
      - intros H%Hb. by destruct H as (_ & [] & _).
      - apply Forall_forall. apply Hb. }
    repeat constructor; apply Hc; vm_compute; congruence.
  - vm_compute. reflexivity.
Defined.
