(* ===== verification/Idle.v ===== *)
(** * Idle: reaping a connection without open streams

    Models [rust/crates/h2ts-server/src/idle.rs] and the [select!] of
    [serve_h2_with_config] (lib.rs) that uses it.  [StreamCounter] is the watch
    channel of tokio with its version number; the guards alive are the streams of
    [sys].  [wait_idle] is a state machine resumed step by step: what happens
    between two steps (streams opening and ending, time passing, the connection
    ending) is any sequence of [event]s, so its steps interleave with the streams'
    in every order.  Time is an integer number of milliseconds. *)

From S2P Require Import Prelude.

(** ** The counter *)

(** [watch::Sender<usize>]: the value and how many times it was sent. *)
Record StreamCounter := counter {
  open : Z;
  version : nat;
}.

Section arch.
Context {arch : Arch}.

Definition StreamCounter_new : StreamCounter := counter 0 0.

(** [send_modify(|n| *n += 1)]: the addition panics or wraps. *)
Definition enter (c : StreamCounter) : outcome unit StreamCounter :=
  if open c + 1 <? 2 ^ usize_bits then Ok (counter (open c + 1) (S (version c)))
  else if overflow_checks then Panic
  else Ok (counter 0 (S (version c))).

(** [Drop for StreamGuard]: [send_modify(|n| *n = n.saturating_sub(1))]. *)
Definition StreamGuard_drop (c : StreamCounter) : StreamCounter :=
  counter (Z.max 0 (open c - 1)) (S (version c)).

End arch.

(** ** The guarded body *)

(** [hyper::body::Body]: a poll changes the body and yields a frame, the end, an
    error or nothing yet. *)
Class Body (B R H : Type) := {
  body_poll_frame : B -> B * R;
  body_is_end_stream : B -> bool;
  body_size_hint : B -> H;
}.

Record GuardedBody (B : Type) := guarded {
  inner : B;
  guard : nat;  (* whose guard it holds *)
}.
Arguments guarded {B} _ _.
Arguments inner {B} _.
Arguments guard {B} _.

#[export] Instance GuardedBody_Body {B R H} `{Body B R H} : Body (GuardedBody B) R H := {
  body_poll_frame b :=
    let '(i, r) := body_poll_frame (inner b) in (guarded i (guard b), r);
  body_is_end_stream b := body_is_end_stream (R:=R) (H:=H) (inner b);
  body_size_hint b := body_size_hint (R:=R) (inner b);
}.

(** ** Waiting for idleness *)

(** Where [wait_idle] stands: at the top of its loop, in one of its two awaits, or
    returned. *)
Inductive phase :=
  | Top
  | Busy  (* [open.changed().await], the count not zero *)
  | Window (deadline : Z)  (* the [select!] of the sleep and the change *)
  | Returned.

(** [seen]: the version the receiver has marked as seen. *)
Record waiter := wait {
  seen : nat;
  pos : phase;
}.

(** [changed()] is ready. *)
Definition changed (c : StreamCounter) (w : waiter) : bool :=
  negb (Nat.eqb (seen w) (version c)).

(** Which branch of a [select!] is polled first; tokio picks at random. *)
Inductive pick := SleepFirst | ChangeFirst.

(** One step of [wait_idle]; an await that is not ready stays where it is. *)
Definition resume (idle now : Z) (p : pick) (c : StreamCounter) (w : waiter) : waiter :=
  match pos w with
  | Top =>
      if negb (open c =? 0) then wait (version c) Busy
      else wait (version c) (Window (now + idle))
  | Busy => if changed c w then wait (version c) Top else w
  | Window deadline =>
      match p with
      | SleepFirst =>
          if deadline <=? now then wait (seen w) Returned
          else if changed c w then wait (version c) Top else w
      | ChangeFirst =>
          if changed c w then wait (version c) Top
          else if deadline <=? now then wait (seen w) Returned else w
      end
  | Returned => w
  end.

(** ** Serving with an idle timeout *)

(** [serve_h2_with_config] from its [select!]: the connection alone when no timeout
    is set, the connection and [wait_idle], the connection after
    [graceful_shutdown], or done. *)
Inductive serve :=
  | Plain
  | Watched (w : waiter)
  | Draining
  | Done.

(** How far the response of a stream is; its guard lives in both. *)
Inductive stream := Serving | Sending.

Record sys := mkSys {
  now : Z;
  streams : gmap nat stream;
  count : StreamCounter;
  server : serve;
}.

Inductive event :=
  | Tick (d : Z)  (* time passes *)
  | Call (k : nat)  (* a request arrives: [TrackedService::call] *)
  | Respond (k : nat)  (* the service answered, the body carries the guard *)
  | Release (k : nat)  (* the service failed, or the body or the future is dropped *)
  | Resume (p : pick)
  | ConnDone.  (* the connection future resolves *)

Definition calls (e : event) : bool := match e with Call _ => true | _ => false end.
Definition resumes (e : event) : bool := match e with Resume _ => true | _ => false end.

Definition ticks (e : event) : Z := match e with Tick d => Z.max 0 d | _ => 0 end.

Definition elapsed (es : list event) : Z := foldr (fun e t => ticks e + t) 0 es.

Section sys.
Context {arch : Arch}.
Variable idle_timeout : option Z.

Definition init : sys :=
  mkSys 0 ∅ StreamCounter_new
    match idle_timeout with None => Plain | Some _ => Watched (wait 0 Top) end.

Definition step (e : event) (s : sys) : outcome unit sys :=
  match e with
  | Tick d => Ok (mkSys (now s + Z.max 0 d) (streams s) (count s) (server s))
  | Call k =>
      match streams s !! k with
      | Some _ => Ok s
      | None =>
          c ← enter (count s);
          Ok (mkSys (now s) (<[k := Serving]> (streams s)) c (server s))
      end
  | Respond k =>
      match streams s !! k with
      | Some Serving => Ok (mkSys (now s) (<[k := Sending]> (streams s)) (count s) (server s))
      | _ => Ok s
      end
  | Release k =>
      match streams s !! k with
      | Some _ =>
          Ok (mkSys (now s) (delete k (streams s)) (StreamGuard_drop (count s)) (server s))
      | None => Ok s
      end
  | Resume p =>
      match server s, idle_timeout with
      | Watched w, Some idle =>
          let w := resume idle (now s) p (count s) w in
          Ok (mkSys (now s) (streams s) (count s)
                match pos w with Returned => Draining | _ => Watched w end)
      | _, _ => Ok s
      end
  | ConnDone => Ok (mkSys (now s) (streams s) (count s) Done)
  end.

Fixpoint run_from (es : list event) (s : sys) : outcome unit sys :=
  match es with
  | [] => Ok s
  | e :: es => s ← step e s; run_from es s
  end.

Definition run (es : list event) : outcome unit sys := run_from es init.

(** ** The count is the number of guards alive *)

Lemma idle_run_app es1 es2 s :
  run_from (es1 ++ es2) s = s ← run_from es1 s; run_from es2 s.
Proof.
  revert s. induction es1 as [|e es1 IH]; intros s; [done|]. cbn.
  destruct (step e s); cbn; auto.
Qed.

Lemma run_snoc es e : run (es ++ [e]) = s ← run es; step e s.
Proof.
  unfold run. rewrite idle_run_app. destruct (run_from es init) as [s|e'| |]; try done.
  cbn. by destruct (step e s).
Qed.

Lemma run_app es1 es2 : run (es1 ++ es2) = s ← run es1; run_from es2 s.
Proof. apply idle_run_app. Qed.

Definition counted (s : sys) : Prop := open (count s) = Z.of_nat (size (streams s)).

Lemma step_counted `{!ArchOk arch} e s :
  counted s -> Z.of_nat (size (streams s)) + 1 < 2 ^ usize_bits ->
  exists s', step e s = Ok s' /\ counted s' /\ (size (streams s') <= S (size (streams s)))%nat.
Proof.
  unfold counted. intros Hc Hb. destruct e as [d|k|k|k|p|]; cbn [step].
  - eexists. split; [done|]. cbn. lia.
  - destruct (streams s !! k) as [j|] eqn:Hk; [by eexists; eauto|].
    unfold enter. destruct (Z.ltb_spec (open (count s) + 1) (2 ^ usize_bits)); [|lia].
    eexists. split; [done|]. cbn. rewrite map_size_insert_None by done. lia.
  - destruct (streams s !! k) as [[]|] eqn:Hk; try by eexists; eauto.
    eexists. split; [done|]. cbn. rewrite map_size_insert_Some by done. lia.
  - destruct (streams s !! k) as [j|] eqn:Hk; [|by eexists; eauto].
    eexists. split; [done|]. cbn. rewrite map_size_delete_Some by done.
    assert (size (streams s) <> 0%nat) as Hn.
    { rewrite map_size_ne_0_lookup. by exists k, j. }
    lia.
  - destruct (server s), idle_timeout; eexists; (split; [done|]); cbn; lia.
  - eexists. split; [done|]. cbn. lia.
Qed.

Lemma run_counted `{!ArchOk arch} es :
  zlen es < 2 ^ 32 ->
  exists s, run es = Ok s /\ counted s /\ Z.of_nat (size (streams s)) <= zlen es.
Proof.
  assert (2 ^ 32 <= 2 ^ usize_bits) as Hw by (apply Z.pow_le_mono_r; [lia|apply usize_bits_ge]).
  induction es as [|e es IH] using rev_ind; intros Hl.
  - exists init. split; [done|]. split; [done|]. cbn. rewrite map_size_empty. done.
  - rewrite zlen_app, zlen_cons in Hl. change (zlen []) with 0 in Hl.
    destruct IH as (s & Hs & Hc & Hb); [lia|].
    destruct (step_counted e s Hc) as (s' & Hs' & Hc' & Hb'); [lia|].
    exists s'. rewrite run_snoc, Hs. split_and!; [done|done|].
    rewrite zlen_app, zlen_cons. change (zlen []) with 0. lia.
Qed.

Lemma counted_zero s : counted s -> open (count s) = 0 -> streams s = ∅.
Proof. unfold counted. intros H1 H2. apply map_size_empty_inv. lia. Qed.

(** C30: The open-stream count is exactly the number of guards alive, that is of
    requests whose service or body is still there: it never wraps, saturates or
    panics in any run of fewer than 2^32 events. *)
Theorem stream_count_exact `{!ArchOk arch} es :
  zlen es < 2 ^ 32 ->
  exists s, run es = Ok s /\ open (count s) = Z.of_nat (size (streams s)).
Proof. intros (s & Hs & Hc & _)%run_counted. by exists s. Qed.

(** ** The quiet window *)

Lemma elapsed_app es1 es2 : elapsed (es1 ++ es2) = elapsed es1 + elapsed es2.
Proof. induction es1 as [|e es1 IH]; cbn; [done|]. unfold elapsed in *. lia. Qed.

Lemma step_frame e s s' :
  step e s = Ok s' -> now s' = now s + ticks e /\ (version (count s) <= version (count s'))%nat.
Proof.
  destruct e as [d|k|k|k|p|]; cbn [step ticks]; try (intros [= <-]; cbn; lia);
    [destruct (streams s !! k) as [j|]|destruct (streams s !! k) as [[]|]
    |destruct (streams s !! k) as [j|]|]; try (intros [= <-]; cbn; lia).
  - unfold enter. destruct (_ <? _), overflow_checks; cbn; intros [= <-]; cbn; lia.
  - destruct (server s), idle_timeout; intros [= <-]; cbn; lia.
Qed.

Lemma elapsed_nonneg es : 0 <= elapsed es.
Proof. induction es as [|[] es IH]; unfold elapsed in *; cbn in *; lia. Qed.

Lemma run_elapsed es s s' : run_from es s = Ok s' -> now s' = now s + elapsed es.
Proof.
  revert s. induction es as [|e es IH]; intros s Hr; [injection Hr as <-; cbn; lia|].
  cbn [run_from] in Hr. apply bind_Ok in Hr as (s1 & Hs & Hr). apply IH in Hr.
  apply step_frame in Hs as [Hs _]. unfold elapsed in *. cbn. lia.
Qed.

(** The events [es] end in a window: it opened after [es1] with no stream alive, [es2]
    opened none, and the events [es3] came after the waiter's last step. *)
Definition in_window (idle : Z) (es : list event) (s : sys) (w : waiter) (d : Z) : Prop :=
  exists es1 es2 es3 s1,
    es = es1 ++ es2 ++ es3 /\ run es1 = Ok s1 /\ streams s1 = ∅ /\ d = now s1 + idle /\
    now s = now s1 + elapsed (es2 ++ es3) /\
    Forall (fun e => calls e = false) es2 /\ Forall (fun e => resumes e = false) es3 /\
    (es3 = [] /\ streams s = ∅ /\ seen w = version (count s) \/
     (seen w < version (count s))%nat).

Lemma in_window_step idle es s w d e s' :
  in_window idle es s w d -> step e s = Ok s' ->
  resumes e = false \/ seen w = version (count s) ->
  in_window idle (es ++ [e]) s' w d.
Proof.
  intros (es1 & es2 & es3 & s1 & -> & Hr & H0 & -> & Ht & H2 & H3 & Hv) Hs He.
  destruct (step_frame _ _ _ Hs) as [Hn Hver].
  assert (now s' = now s1 + elapsed ((es2 ++ es3) ++ [e])) as Ht'
    by (rewrite elapsed_app; cbn; lia).
  destruct Hv as [(-> & Hst & Hv)|Hv].
  - rewrite app_nil_r in *. destruct (calls e) eqn:Hc.
    + exists es1, es2, [e], s1. rewrite (assoc_L (++)). split_and!; try done.
      * by destruct e; repeat constructor.
      * right. destruct e; try done. cbn [step] in Hs. rewrite Hst, lookup_empty in Hs.
        unfold enter in Hs. destruct (_ <? _), overflow_checks; simplify_eq/=; lia.
    + exists es1, (es2 ++ [e]), [], s1. rewrite !app_nil_r, (assoc_L (++)). split_and!; try done.
      * apply Forall_app_2; [done|by repeat constructor].
      * left. destruct e; try done; cbn [step] in Hs; rewrite ?Hst, ?lookup_empty in Hs;
          try (destruct (server s), idle_timeout); simplify_eq/=; split_and!; try done; congruence.
  - destruct He as [He|He]; [|lia].
    exists es1, es2, (es3 ++ [e]), s1. rewrite !(assoc_L (++)). split_and!; try done.
    + apply Forall_app_2; [done|by repeat constructor].
    + right. lia.
Qed.

(** What [wait_idle] knows wherever it stands. *)
Definition waiting (idle : Z) (es : list event) (s : sys) : Prop :=
  match server s with
  | Watched w =>
      match pos w with
      | Top => True
      | Busy => (seen w <= version (count s))%nat /\
          (seen w = version (count s) -> open (count s) <> 0)
      | Window d => in_window idle es s w d
      | Returned => False
      end
  | _ => True
  end.

Lemma step_server e s s' :
  step e s = Ok s' -> resumes e = false -> server s' = server s \/ server s' = Done.
Proof.
  destruct e as [d|k|k|k|p|]; cbn [step]; try done; intros Hs _.
  - left. by simplify_eq/=.
  - destruct (streams s !! k); [by simplify_eq; left|].
    unfold enter in Hs. left. by destruct (_ <? _), overflow_checks; simplify_eq/=.
  - left. by destruct (streams s !! k) as [[]|]; simplify_eq/=.
  - left. by destruct (streams s !! k); simplify_eq/=.
  - right. by simplify_eq/=.
Qed.

Lemma step_count e s s' :
  step e s = Ok s' -> version (count s') = version (count s) -> open (count s') = open (count s).
Proof.
  destruct e as [d|k|k|k|p|]; cbn [step]; intros Hs Hv; try by simplify_eq/=.
  - destruct (streams s !! k); [by simplify_eq|].
    unfold enter in Hs. destruct (_ <? _), overflow_checks; simplify_eq/=; lia.
  - by destruct (streams s !! k) as [[]|]; simplify_eq/=.
  - destruct (streams s !! k); simplify_eq/=; lia.
  - by destruct (server s), idle_timeout; simplify_eq/=.
Qed.

Section watched.
Context `{!ArchOk arch} (idle : Z) (Hidle : idle_timeout = Some idle).

(** A step of the waiter, in the terms of [step]. *)
Lemma step_resume p s w :
  server s = Watched w ->
  let w' := resume idle (now s) p (count s) w in
  step (Resume p) s = Ok (mkSys (now s) (streams s) (count s)
    match pos w' with Returned => Draining | _ => Watched w' end).
Proof. intros Hw. cbn [step]. by rewrite Hw, Hidle. Qed.

Lemma window_opens es s w p :
  run es = Ok s -> counted s -> open (count s) = 0 ->
  in_window idle (es ++ [Resume p])
    (mkSys (now s) (streams s) (count s) (Watched (wait (version (count s)) w)))
    (wait (version (count s)) w) (now s + idle).
Proof.
  intros Hr Hc H0. exists es, [Resume p], [], s. rewrite app_nil_r.
  split_and!; try done; [by apply counted_zero|cbn; lia|by repeat constructor|].
  left. split_and!; try done. by apply counted_zero.
Qed.

Lemma waiting_step es s e s' :
  run es = Ok s -> counted s -> waiting idle es s -> step e s = Ok s' ->
  waiting idle (es ++ [e]) s'.
Proof.
  intros Hr Hc Hw Hs. destruct (resumes e) eqn:He.
  - destruct e as [| | | |p|]; try done.
    destruct (server s) as [|w| |] eqn:Hw'; try (cbn [step] in Hs; rewrite Hw' in Hs; simplify_eq;
      unfold waiting; by rewrite Hw').
    rewrite (step_resume _ _ _ Hw') in Hs. unfold waiting in Hw. rewrite Hw' in Hw.
    injection Hs as <-. unfold waiting. cbn. destruct w as [v [| |d|]]; cbn in Hw |- *; try done.
    + destruct (Z.eqb_spec (open (count s)) 0); cbn; [by apply window_opens|done].
    + unfold changed. cbn. destruct (Nat.eqb_spec v (version (count s))); cbn; auto.
    + set (s' := mkSys _ _ _ _). assert (v = version (count s) -> in_window idle (es ++ [Resume p])
          s' (wait v (Window d)) d) as Hkeep.
      { intros Hv. exact (in_window_step _ _ _ _ _ _ _ Hw (step_resume p s _ Hw') (or_intror Hv)). }
      revert s' Hkeep. unfold changed. cbn.
      destruct p, (Nat.eqb_spec v (version (count s))), (d <=? now s); cbn; auto.
  - unfold waiting in Hw |- *. destruct (step_server _ _ _ Hs He) as [->| ->]; [|done].
    destruct (server s) as [|w| |]; try done. destruct (step_frame _ _ _ Hs) as [Hn Hv].
    destruct (pos w) as [| |d|]; try done.
    + destruct Hw as [Hle Hw]. split; [lia|]. intros Hsv.
      rewrite (step_count _ _ _ Hs) by lia. apply Hw. lia.
    + eapply in_window_step; eauto.
Qed.

Lemma run_waiting es s : zlen es < 2 ^ 32 -> run es = Ok s -> waiting idle es s /\ counted s.
Proof.
  revert s. induction es as [|e es IH] using rev_ind; intros s Hl Hr.
  - injection Hr as <-. unfold waiting, init. by rewrite Hidle.
  - destruct (run_counted (es ++ [e]) Hl) as (s'' & Hr'' & Hc & _).
    rewrite Hr in Hr''. injection Hr'' as <-. split; [|done].
    rewrite zlen_app, zlen_cons in Hl. change (zlen []) with 0 in Hl.
    rewrite run_snoc in Hr. apply bind_Ok in Hr as (s1 & Hr & Hs).
    destruct (IH s1) as [Hw Hc1]; [lia|done|]. by eapply waiting_step.
Qed.

(** ** The timeout does fire *)

(** Nothing but time, the waiter's steps and streams moving on or ending. *)
Definition quiet (e : event) : bool :=
  match e with Call _ | ConnDone => false | _ => true end.

(** The waiter has [n] steps to go to its window, no stream being open. *)
Definition nears (n : nat) (s : sys) : Prop :=
  streams s = ∅ /\ counted s /\
  match server s with
  | Draining => True
  | Watched w =>
      match pos w with
      | Top => (1 <= n)%nat
      | Busy => seen w <> version (count s) /\ (2 <= n)%nat
      | Window d => d <= now s + idle /\ (seen w = version (count s) \/ (2 <= n)%nat)
      | Returned => False
      end
  | _ => False
  end.

Lemma nears_step n e s :
  0 <= idle -> nears n s -> quiet e = true ->
  exists s', step e s = Ok s' /\ nears (if resumes e then pred n else n) s'.
Proof.
  intros Hi (H0 & Hc & Hw) Hq. unfold nears. destruct e as [d|k|k|k|p|]; try done; cbn [step resumes].
  - eexists. split; [done|]. cbn. split_and!; [done|done|].
    destruct (server s) as [|[v []]| |]; cbn in *; intuition lia.
  - rewrite H0, lookup_empty. by exists s.
  - rewrite H0, lookup_empty. by exists s.
  - destruct (server s) as [|w| |] eqn:Hs; try done; [|exists s; by rewrite Hs].
    fold (step (Resume p) s). rewrite Hidle. eexists. split; [done|]. cbn. split_and!; [done..|].
    unfold counted in Hc. rewrite H0, map_size_empty in Hc. change (Z.of_nat 0) with 0 in Hc.
    destruct w as [v [| |d|]]; cbn in Hw |- *; unfold changed; cbn; try done.
    + rewrite Hc. cbn. lia.
    + destruct (Nat.eqb_spec v (version (count s))); [tauto|cbn; lia].
    + destruct p, (Nat.eqb_spec v (version (count s))), (Z.leb_spec d (now s)); cbn; lia.
Qed.

Lemma nears_run es n s :
  0 <= idle -> nears n s -> forallb quiet es = true ->
  exists s', run_from es s = Ok s' /\ nears (n - length (List.filter resumes es)) s'.
Proof.
  intros Hi. revert n s. induction es as [|e es IH]; intros n s Hn Hq; cbn [run_from].
  - exists s. split; [done|]. by rewrite Nat.sub_0_r.
  - cbn in Hq. apply andb_true_iff in Hq as [He Hq].
    destruct (nears_step n e s Hi Hn He) as (s1 & Hs1 & Hn1). rewrite Hs1. cbn [mbind outcome_bind].
    destruct (IH _ _ Hn1 Hq) as (s' & Hr & Hn'). exists s'. split; [done|].
    cbn [List.filter]. destruct (resumes e); cbn [length]; [|done].
    replace (n - S _)%nat with (pred n - length (List.filter resumes es))%nat by lia. done.
Qed.

(** The reaping is due at [d] at the latest. *)
Definition due (d : Z) (s : sys) : Prop :=
  streams s = ∅ /\
  match server s with
  | Draining => True
  | Watched w =>
      match pos w with Window d' => d' <= d /\ seen w = version (count s) | _ => False end
  | _ => False
  end.

Lemma due_run es d s :
  due d s -> forallb quiet es = true -> exists s', run_from es s = Ok s' /\ due d s'.
Proof.
  revert s. induction es as [|e es IH]; intros s Hd Hq; [by exists s|].
  cbn in Hq. apply andb_true_iff in Hq as [He Hq].
  enough (exists s1, step e s = Ok s1 /\ due d s1) as (s1 & Hs1 & Hd1).
  { cbn. rewrite Hs1. by apply IH. }
  destruct Hd as [H0 Hd]. destruct e as [t|k|k|k|p|]; try done; cbn [step].
  - by eexists.
  - rewrite H0, lookup_empty. by exists s.
  - rewrite H0, lookup_empty. by exists s.
  - destruct (server s) as [|[v [| |d'|]]| |] eqn:Hs; try done;
      [|exists s; split; [done|split; [done|by rewrite Hs]]].
    rewrite Hidle. eexists. split; [done|]. split; [done|]. cbn in *. unfold changed. cbn.
    destruct p, (Nat.eqb_spec v (version (count s))), (Z.leb_spec d' (now s)); cbn; lia.
Qed.

(** C29: The connection is reaped only after a quiet window: when [graceful_shutdown]
    is called, the whole timeout has passed since a moment with no stream open, and
    streams may have opened since only after the last step [wait_idle] took; if its
    [select!] looks at the change first, none has opened at all. *)
Theorem reap_quiet_window es p s w s' :
  zlen es < 2 ^ 32 ->
  run es = Ok s -> server s = Watched w ->
  step (Resume p) s = Ok s' -> server s' = Draining ->
  exists es1 es2 es3 s1,
    es = es1 ++ es2 ++ es3 /\ run es1 = Ok s1 /\ streams s1 = ∅ /\
    idle <= elapsed (es2 ++ es3) /\
    Forall (fun e => calls e = false) es2 /\ Forall (fun e => resumes e = false) es3 /\
    (p = ChangeFirst -> es3 = [] /\ streams s = ∅).
Proof.
  intros Hl Hr Hw Hs Hd. destruct (run_waiting es s Hl Hr) as [HW _].
  rewrite (step_resume _ _ _ Hw) in Hs. injection Hs as <-. cbn in Hd.
  unfold waiting in HW. rewrite Hw in HW.
  destruct w as [v [| |d|]]; cbn in HW, Hd; unfold changed in Hd; cbn in Hd; try done;
    [by destruct (open (count s) =? 0)|by destruct (Nat.eqb v (version (count s)))|].
  destruct HW as (es1 & es2 & es3 & s1 & -> & Hr1 & H0 & -> & Ht & H2 & H3 & Hv).
  exists es1, es2, es3, s1. cbn in Hv. destruct (Z.leb_spec (now s1 + idle) (now s)).
  - split_and!; try done; [lia|]. intros ->.
    destruct (Nat.eqb_spec v (version (count s))); [|done]. intuition lia.
  - by destruct p, (Nat.eqb_spec v (version (count s))).
Qed.

(** C28: The timeout does fire: from any reachable state without open streams, whatever
    the interleaving, once [wait_idle] has been resumed twice, the timeout has passed
    and it is resumed again, the connection is being shut down, provided no stream was
    opened meanwhile: no wakeup is lost. *)
Theorem idle_reaps es s w es1 es2 p :
  0 <= idle -> zlen es < 2 ^ 32 ->
  run es = Ok s -> server s = Watched w -> streams s = ∅ ->
  forallb quiet (es1 ++ es2) = true ->
  (2 <= length (List.filter resumes es1))%nat ->
  idle <= elapsed es2 ->
  exists s', run_from (es1 ++ es2 ++ [Resume p]) s = Ok s' /\ server s' = Draining.
Proof.
  intros Hi Hl Hr Hw H0 Hq H2 He. destruct (run_waiting es s Hl Hr) as [HW Hc].
  rewrite forallb_app in Hq. apply andb_true_iff in Hq as [Hq1 Hq2].
  assert (nears 2 s) as Hn.
  { split; [done|split; [done|]]. unfold waiting in HW. rewrite Hw in HW |- *.
    destruct (pos w); [lia| | |done].
    - split; [|lia]. intros E. apply HW in E. unfold counted in Hc.
      rewrite H0, map_size_empty in Hc. done.
    - destruct HW as (e1 & e2 & e3 & s1 & -> & _ & _ & -> & Ht & _).
      split; [|lia]. pose proof (elapsed_nonneg (e2 ++ e3)). lia. }
  destruct (nears_run es1 2 s Hi Hn Hq1) as (s1 & Hr1 & Hn1).
  replace (2 - _)%nat with 0%nat in Hn1 by lia.
  assert (due (now s1 + idle) s1) as Hdue.
  { destruct Hn1 as (? & _ & Hn1). split; [done|].
    destruct (server s1) as [|[v [| |d|]]| |]; cbn in *; try done; try lia. }
  destruct (due_run es2 _ s1 Hdue Hq2) as (s2 & Hr2 & _ & Hd2).
  rewrite idle_run_app, Hr1. cbn [mbind outcome_bind]. rewrite idle_run_app, Hr2.
  cbn [mbind outcome_bind run_from]. destruct (server s2) as [|w2| |] eqn:Hw2; try done.
  - rewrite (step_resume _ _ _ Hw2). eexists. split; [done|]. cbn.
    apply run_elapsed in Hr2.
    destruct w2 as [v [| |d|]]; cbn in Hd2 |- *; try done. destruct Hd2 as [Hd ->].
    unfold changed. cbn. rewrite Nat.eqb_refl. cbn.
    destruct (Z.leb_spec d (now s2)); [by destruct p|lia].
  - exists s2. split; [|done]. cbn [step]. by rewrite Hw2.
Qed.
End watched.
End sys.

(** ** Runs *)

(** [select!] prefers neither branch: the sleep may win over a stream that has
    opened already. *)
Example reap_race :
  exists s, run (arch:=host64_release) (Some 10)
    [Resume ChangeFirst; Tick 10; Call 1%nat; Resume SleepFirst] = Ok s /\
  server s = Draining /\ streams s = {[1%nat := Serving]}.
Proof. eexists. split; [vm_compute; reflexivity|]. by vm_compute. Qed.

Lemma stream_count_exact_witness :
  exists s, run (arch:=wasm32_debug) None [Call 1%nat; Call 2%nat; Release 1%nat] = Ok s /\
  open (count s) = 1.
Proof.
  destruct (stream_count_exact (arch:=wasm32_debug) None [Call 1%nat; Call 2%nat; Release 1%nat])
    as (s & Hs & Hc); [vm_compute; reflexivity|].
  exists s. split; [exact Hs|]. rewrite Hc. vm_compute in Hs. injection Hs as <-. reflexivity.
Defined.

Lemma reap_quiet_window_witness :
  exists es1 es2 es3,
    [Call 1%nat; Resume ChangeFirst; Release 1%nat; Resume ChangeFirst; Resume ChangeFirst; Tick 10]
      = es1 ++ es2 ++ es3 /\ 10 <= elapsed (es2 ++ es3).
Proof.
  destruct (reap_quiet_window (arch:=host64_release) (Some 10) 10 eq_refl
    [Call 1%nat; Resume ChangeFirst; Release 1%nat; Resume ChangeFirst; Resume ChangeFirst; Tick 10]
    ChangeFirst
    (mkSys 10 ∅ (counter 0 2) (Watched (wait 2 (Window 10)))) (wait 2 (Window 10))
    (mkSys 10 ∅ (counter 0 2) Draining)) as (es1 & es2 & es3 & s1 & E & _ & _ & H & _);
    [vm_compute; reflexivity..|].
  exists es1, es2, es3. split; [exact E|exact H].
Defined.

Lemma idle_reaps_witness :
  exists s', run_from (arch:=host64_release) (Some 10)
    ([Resume SleepFirst; Resume ChangeFirst] ++ [Tick 10] ++ [Resume SleepFirst])
    (init (Some 10)) = Ok s' /\ server s' = Draining.
Proof.
  apply (idle_reaps (arch:=host64_release) (Some 10) 10 eq_refl [] (init (Some 10)) (wait 0 Top));
    vm_compute; congruence || reflexivity || idtac.
  all: repeat constructor.
Defined.
