(* ===== verification/Bridge.v ===== *)
(** * Bridge: a WebSocket and a byte stream

    Models [rust/crates/h2ts-server/src/wslay.rs].  wslay (C, vendored) is the
    interface [Wslay]: a context with the operations the code calls, [event_recv]
    and [event_send] being programs that call back ([prog]).  The callbacks, the
    synchronous sections and the four directions are modelled in full: [step] is
    what one direction does when the await it is parked on resolves, and a run is
    any sequence of such events, so that the directions interleave at their awaits
    as they do under [select!].  The write half of the WebSocket is behind a fair
    mutex: the queue [lock].  A [write_all] appends whole blocks; a block whose
    write fails, or is under way when the bridge ends, may be cut on the real
    socket.  Time is in milliseconds.  The theorems are in BridgeFacts.v. *)

From S2P Require Import Prelude Utf8.

Definition READ_CHUNK : Z := 64 * 1024.

Inductive ControlEvent :=
  | EvClose (code : Z) (reason : bytes)
  | EvPing (p : bytes)
  | EvPong (p : bytes).

Record Shared := mkShared {
  inbound : bytes;
  inbound_pos : nat;
  outbound : bytes;
  to_peer : bytes;
  cur_is_data : bool;
  control_events : list ControlEvent;
}.

Definition Shared_default : Shared := mkShared [] 0 [] [] false [].

(** ** The callbacks *)

(** The bytes for wslay, or -1 with [WSLAY_ERR_WOULDBLOCK] set.  A position past the
    end would be an underflow of [usize]. *)
Definition recv_cb (len : nat) (s : Shared) : outcome unit (Shared * option bytes) :=
  if (length (inbound s) <? inbound_pos s)%nat then Panic else
  let avail := (length (inbound s) - inbound_pos s)%nat in
  if (avail =? 0)%nat then Ok (s, None) else
  let n := Nat.min len avail in
  let from := inbound_pos s in
  Ok (mkShared (inbound s) (inbound_pos s + n) (outbound s) (to_peer s) (cur_is_data s)
        (control_events s),
      Some (take n (drop from (inbound s)))).

Definition send_cb (data : bytes) (s : Shared) : Shared * Z :=
  (mkShared (inbound s) (inbound_pos s) (outbound s ++ data) (to_peer s) (cur_is_data s)
     (control_events s), zlen data).

(** [(opcode >> 3) & 1 == 0] *)
Definition is_data_opcode (opcode : Z) : bool := Z.land (Z.shiftr opcode 3) 1 =? 0.

Definition frame_start_cb (opcode : Z) (s : Shared) : Shared :=
  mkShared (inbound s) (inbound_pos s) (outbound s) (to_peer s) (is_data_opcode opcode)
    (control_events s).

Definition frame_chunk_cb (data : bytes) (s : Shared) : Shared :=
  if cur_is_data s then
    mkShared (inbound s) (inbound_pos s) (outbound s) (to_peer s ++ data) (cur_is_data s)
      (control_events s)
  else s.

(** [msg] is [None] for a null pointer. *)
Definition msg_recv_cb (opcode status_code : Z) (msg : option bytes) (s : Shared) : Shared :=
  let event :=
    if opcode =? 0x8 then
      let reason := match msg with
                    | Some m => if 2 <=? zlen m then drop 2 m else []
                    | None => [] end in
      Some (EvClose status_code reason)
    else if (opcode =? 0x9) || (opcode =? 0xA) then
      let payload := match msg with Some m => m | None => [] end in
      Some (if opcode =? 0x9 then EvPing payload else EvPong payload)
    else None in
  match event with
  | Some ev =>
      mkShared (inbound s) (inbound_pos s) (outbound s) (to_peer s) (cur_is_data s)
        (control_events s ++ [ev])
  | None => s
  end.

(** ** wslay *)

(** A run of wslay, up to what it does to its own context: the callbacks it calls,
    each with what follows. *)
Inductive prog (A : Type) : Type :=
  | Ret (a : A)
  | Recv (len : nat) (k : option bytes -> prog A)
  | Send (data : bytes) (k : Z -> prog A)
  | FrameStart (opcode : Z) (k : prog A)
  | FrameChunk (data : bytes) (k : prog A)
  | MsgRecv (opcode status_code : Z) (msg : option bytes) (k : prog A).

Arguments Ret {A} a.
Arguments Recv {A} len k.
Arguments Send {A} data k.
Arguments FrameStart {A} opcode k.
Arguments FrameChunk {A} data k.
Arguments MsgRecv {A} opcode status_code msg k.

Class Wslay (Ctx : Type) := {
  server_init : option Ctx;  (* [None]: an error code or a null context *)
  set_no_buffering : Ctx -> Ctx;
  event_recv : Ctx -> prog (Ctx * Z);
  event_send : Ctx -> prog (Ctx * Z);
  event_queue_msg : Ctx -> Z -> bytes -> Ctx;
  event_queue_close : Ctx -> Z -> bytes -> Ctx;
  get_close_received : Ctx -> bool;
}.

Definition WSLAY_BINARY_FRAME : Z := 0x2.
Definition WSLAY_PING : Z := 0x9.
Definition WSLAY_PONG : Z := 0xA.

(** What passed between the code and wslay, for the statements. *)
Inductive call :=
  | CRecv (data : bytes)
  | CSend (data : bytes)
  | CFrameStart (opcode : Z)
  | CFrameChunk (data : bytes)
  | CQueueMsg (opcode : Z) (payload : bytes)
  | CQueueClose (code : Z) (reason : bytes).

(** A wslay program, its callbacks working on [Shared]. *)
Fixpoint exec {A} (p : prog A) (s : Shared) : outcome unit (Shared * list call * A) :=
  match p with
  | Ret a => Ok (s, [], a)
  | Recv len k =>
      '(s, r) ← recv_cb len s;
      '(s, l, a) ← exec (k r) s;
      Ok (s, match r with Some d => CRecv d :: l | None => l end, a)
  | Send data k =>
      let '(s, n) := send_cb data s in
      '(s, l, a) ← exec (k n) s;
      Ok (s, CSend data :: l, a)
  | FrameStart opcode k =>
      '(s, l, a) ← exec k (frame_start_cb opcode s);
      Ok (s, CFrameStart opcode :: l, a)
  | FrameChunk data k =>
      '(s, l, a) ← exec k (frame_chunk_cb data s);
      Ok (s, CFrameChunk data :: l, a)
  | MsgRecv opcode status_code msg k => exec k (msg_recv_cb opcode status_code msg s)
  end.

(** ** Configuration *)

Record CloseFrame := closeFrame {
  code : Z;
  reason : bytes;
}.

Definition CloseFrame_default : CloseFrame := closeFrame 1000 [].

Inductive ControlCmd :=
  | CmdPing (p : bytes)
  | CmdPong (p : bytes)
  | CmdClose (cf : CloseFrame).

Record KeepAlive := keepAlive {
  interval : Z;
  timeout : Z;
  ka_close : CloseFrame;
}.

Definition KeepAlive_new (interval timeout : Z) : KeepAlive :=
  keepAlive interval timeout (closeFrame 1001 (str "keepalive timeout")).

Definition KeepAlive_default : KeepAlive := KeepAlive_new 30000 15000.

(** [control] and the hooks: whether they are set. *)
Record BridgeConfig := bridgeConfig {
  close : CloseFrame;
  error_close : CloseFrame;
  keepalive : option KeepAlive;
  control : bool;
  on_close : bool;
  on_ping : bool;
  on_pong : bool;
}.

Definition BridgeConfig_default : BridgeConfig :=
  bridgeConfig CloseFrame_default (closeFrame 1011 []) (Some KeepAlive_default)
    false false false false.

Inductive EndReason :=
  | PeerClose (cf : CloseFrame)
  | LocalClose (cf : CloseFrame)
  | Abnormal.

(** A call of one of the hooks. *)
Inductive hook :=
  | OnClose (cf : CloseFrame)
  | OnPing (p : bytes)
  | OnPong (p : bytes).

(** ** The bridge *)

(** Who writes to the WebSocket. *)
Inductive dir := WsToPeer | PeerToWs | ControlDir | KeepAliveDir.

#[export] Instance dir_eq_dec : EqDecision dir.
Proof. solve_decision. Defined.

(** The await each direction is parked on. *)
Inductive dir1 :=
  | D1Read
  | D1PeerWrite (to_peer outbound : bytes) (closed : bool) (events : list ControlEvent)
  | D1ErrWrite  (* the close after a failed peer write *)
  | D1WsWrite (closed : bool) (peer_close : option CloseFrame)
  | D1Shutdown (r : EndReason).

Inductive dir2 :=
  | D2Read
  | D2WsWrite
  | D2CloseWrite (cf : CloseFrame).

Inductive dir3 :=
  | D3Recv
  | D3WsWrite
  | D3Parked.

Inductive dir4 :=
  | D4Off
  | D4Sleep (until : Z)
  | D4PingWrite
  | D4Wait (pinged_at until : Z)
  | D4CloseWrite.

(** The wslay context with [Shared], and what passed between them. *)
Record core (Ctx : Type) := mkCore {
  ctx : Ctx;
  shared : Shared;
  calls : list call;
}.
Arguments mkCore {Ctx} _ _ _.
Arguments ctx {Ctx} _.
Arguments shared {Ctx} _.
Arguments calls {Ctx} _.

Section bridge.
Context {Ctx : Type} `{WS : Wslay Ctx} {IoError : Type} (error_text : IoError -> bytes).
Variable config : BridgeConfig.

(** The last four fields are a history: the bytes read from either side, the blocks
    taken from [outbound] and by whom, the peer's write failure. *)
Record t := mk {
  now : Z;
  last_activity : Z;
  wslay : core Ctx;
  d1 : dir1;
  d2 : dir2;
  d3 : dir3;
  d4 : dir4;
  lock : list (dir * bytes);  (* holder first: the blocks being written *)
  written : list (dir * bytes);  (* blocks written to the WebSocket *)
  peer_out : bytes;  (* written to the peer *)
  hooks : list hook;
  ended : option (IoError + EndReason);
  ws_in : bytes;
  peer_in : bytes;
  taken : list (dir * bytes);
  peer_failed : bool;
}.

Definition set_wslay w s := mk (now s) (last_activity s) w (d1 s) (d2 s) (d3 s) (d4 s)
  (lock s) (written s) (peer_out s) (hooks s) (ended s) (ws_in s) (peer_in s) (taken s) (peer_failed s).
Definition set_time n a s := mk n a (wslay s) (d1 s) (d2 s) (d3 s) (d4 s)
  (lock s) (written s) (peer_out s) (hooks s) (ended s) (ws_in s) (peer_in s) (taken s) (peer_failed s).
Definition set_d1 d s := mk (now s) (last_activity s) (wslay s) d (d2 s) (d3 s) (d4 s)
  (lock s) (written s) (peer_out s) (hooks s) (ended s) (ws_in s) (peer_in s) (taken s) (peer_failed s).
Definition set_d2 d s := mk (now s) (last_activity s) (wslay s) (d1 s) d (d3 s) (d4 s)
  (lock s) (written s) (peer_out s) (hooks s) (ended s) (ws_in s) (peer_in s) (taken s) (peer_failed s).
Definition set_d3 d s := mk (now s) (last_activity s) (wslay s) (d1 s) (d2 s) d (d4 s)
  (lock s) (written s) (peer_out s) (hooks s) (ended s) (ws_in s) (peer_in s) (taken s) (peer_failed s).
Definition set_d4 d s := mk (now s) (last_activity s) (wslay s) (d1 s) (d2 s) (d3 s) d
  (lock s) (written s) (peer_out s) (hooks s) (ended s) (ws_in s) (peer_in s) (taken s) (peer_failed s).
Definition set_lock l w s := mk (now s) (last_activity s) (wslay s) (d1 s) (d2 s) (d3 s) (d4 s)
  l w (peer_out s) (hooks s) (ended s) (ws_in s) (peer_in s) (taken s) (peer_failed s).
Definition set_peer_out p s := mk (now s) (last_activity s) (wslay s) (d1 s) (d2 s) (d3 s) (d4 s)
  (lock s) (written s) p (hooks s) (ended s) (ws_in s) (peer_in s) (taken s) (peer_failed s).
Definition set_hooks h e s := mk (now s) (last_activity s) (wslay s) (d1 s) (d2 s) (d3 s) (d4 s)
  (lock s) (written s) (peer_out s) h e (ws_in s) (peer_in s) (taken s) (peer_failed s).
Definition set_history i p k f s := mk (now s) (last_activity s) (wslay s) (d1 s) (d2 s) (d3 s) (d4 s)
  (lock s) (written s) (peer_out s) (hooks s) (ended s) i p k f.

(** *** The synchronous sections *)

Definition queue_msg (opcode : Z) (payload : bytes) (c : core Ctx) : core Ctx :=
  mkCore (event_queue_msg (ctx c) opcode payload) (shared c) (calls c ++ [CQueueMsg opcode payload]).

Definition queue_close (code : Z) (reason : bytes) (c : core Ctx) : core Ctx :=
  mkCore (event_queue_close (ctx c) code reason) (shared c) (calls c ++ [CQueueClose code reason]).

(** [wslay_event_recv] or [wslay_event_send] on the context. *)
Definition run_wslay (f : Ctx -> prog (Ctx * Z)) (c : core Ctx) : outcome unit (core Ctx * Z) :=
  '(s, l, (x, rc)) ← exec (f (ctx c)) (shared c);
  Ok (mkCore x s (calls c ++ l), rc).

(** [std::mem::take(&mut shared.outbound)] *)
Definition take_outbound (c : core Ctx) : core Ctx * bytes :=
  let s := shared c in
  (mkCore (ctx c)
     (mkShared (inbound s) (inbound_pos s) [] (to_peer s) (cur_is_data s) (control_events s))
     (calls c), outbound s).

(** Queue, [wslay_event_send], take: the section of directions 2 to 4. *)
Definition flush (queue : core Ctx -> core Ctx) (c : core Ctx) : outcome unit (core Ctx * bytes) :=
  '(c, _) ← run_wslay event_send (queue c);
  Ok (take_outbound c).

(** The section of direction 1: what was decoded, what wslay answers, whether it is
    over, the control frames. *)
Definition feed (data : bytes) (c : core Ctx)
    : outcome unit (core Ctx * bytes * bytes * bool * list ControlEvent) :=
  let s := shared c in
  let c := mkCore (ctx c)
    (mkShared (inbound s ++ data) (inbound_pos s) (outbound s) (to_peer s) (cur_is_data s)
       (control_events s)) (calls c) in
  '(c, recv_rc) ← run_wslay event_recv c;
  '(c, _) ← run_wslay event_send c;
  let s := shared c in
  let closed := negb (recv_rc =? 0) || get_close_received (ctx c) in
  Ok (mkCore (ctx c) (mkShared (drop (inbound_pos s) (inbound s)) 0 [] [] (cur_is_data s) [])
        (calls c),
      to_peer s, outbound s, closed, control_events s).

(** *** The end *)

Definition closed_with (r : IoError + EndReason) : CloseFrame :=
  match r with
  | inr (PeerClose cf) | inr (LocalClose cf) => cf
  | inr Abnormal => closeFrame 1006 []
  | inl e => closeFrame 1006 (error_text e)
  end.

Definition finish (r : IoError + EndReason) (s : t) : t :=
  set_hooks (hooks s ++ (if on_close config then [OnClose (closed_with r)] else [])) (Some r) s.

(** *** Writing to the WebSocket *)

(** Direction [d] goes on after its [write_all]. *)
Definition after_write (d : dir) (r : IoError + unit) (s : t) : t :=
  match d with
  | WsToPeer =>
      match d1 s with
      | D1ErrWrite => finish (inr (LocalClose (error_close config))) s
      | D1WsWrite closed peer_close =>
          match r with
          | inl e => finish (inl e) s
          | inr _ =>
              if closed then
                set_d1 (D1Shutdown match peer_close with
                                   | Some cf => PeerClose cf
                                   | None => Abnormal
                                   end) s
              else set_d1 D1Read s
          end
      | _ => s
      end
  | PeerToWs =>
      match d2 s with
      | D2CloseWrite cf => finish (inr (LocalClose cf)) s
      | D2WsWrite =>
          match r with inl e => finish (inl e) s | inr _ => set_d2 D2Read s end
      | D2Read => s
      end
  | ControlDir =>
      match d3 s with
      | D3WsWrite =>
          match r with inl e => finish (inl e) s | inr _ => set_d3 D3Recv s end
      | _ => s
      end
  | KeepAliveDir =>
      match d4 s, keepalive config with
      | D4PingWrite, Some ka =>
          match r with
          | inl e => finish (inl e) s
          | inr _ => set_d4 (D4Wait (now s) (now s + timeout ka)) s
          end
      | D4CloseWrite, Some ka => finish (inr (LocalClose (ka_close ka))) s
      | _, _ => s
      end
  end.

(** [if !outbound.is_empty() { ws_write.lock().await.write_all(&outbound).await }] *)
Definition write_ws (d : dir) (block : bytes) (s : t) : t :=
  match block with
  | [] => after_write d (inr tt) s
  | _ => set_lock (lock s ++ [(d, block)]) (written s) s
  end.

(** The section [flush] of direction [d], the block it takes noted. *)
Definition flush_as (d : dir) (queue : core Ctx -> core Ctx) (s : t) : outcome unit (t * bytes) :=
  '(c, block) ← flush queue (wslay s);
  Ok (set_history (ws_in s) (peer_in s) (taken s ++ [(d, block)]) (peer_failed s)
        (set_wslay c s), block).

(** *** Direction 1: WebSocket to peer *)

(** The hooks of the control events, and the last Close among them. *)
Definition on_event (s : t * option CloseFrame) (e : ControlEvent) : t * option CloseFrame :=
  match e with
  | EvClose code reason =>
      (fst s, Some (closeFrame (if code =? 0 then 1005 else code) (decode_utf8 reason)))
  | EvPing p =>
      (if on_ping config then set_hooks (hooks (fst s) ++ [OnPing p]) (ended (fst s)) (fst s)
       else fst s, snd s)
  | EvPong p =>
      (if on_pong config then set_hooks (hooks (fst s) ++ [OnPong p]) (ended (fst s)) (fst s)
       else fst s, snd s)
  end.

(** From the end of [peer_write.write_all] to the write of wslay's replies. *)
Definition after_peer_write (outbound : bytes) (closed : bool) (events : list ControlEvent)
    (s : t) : t :=
  let '(s, peer_close) := fold_left on_event events (s, None) in
  write_ws WsToPeer outbound (set_d1 (D1WsWrite closed peer_close) s).

(** [ws_read.read] has returned. *)
Definition ws_read (r : IoError + bytes) (s : t) : outcome unit t :=
  match r with
  | inl e => Ok (finish (inl e) s)
  | inr [] => Ok (set_d1 (D1Shutdown Abnormal) s)
  | inr data =>
      let s := set_time (now s) (now s) s in
      '(c, to_peer, outbound, closed, events) ← feed data (wslay s);
      let s := set_history (ws_in s ++ data) (peer_in s) (taken s ++ [(WsToPeer, outbound)])
        (peer_failed s) (set_wslay c s) in
      match to_peer with
      | [] => Ok (after_peer_write outbound closed events s)
      | _ => Ok (set_d1 (D1PeerWrite to_peer outbound closed events) s)
      end
  end.

(** [peer_write.write_all(&to_peer)] has returned. *)
Definition peer_wrote (r : IoError + unit) (to_peer outbound : bytes) (closed : bool)
    (events : list ControlEvent) (s : t) : outcome unit t :=
  match r with
  | inr _ => Ok (after_peer_write outbound closed events (set_peer_out (peer_out s ++ to_peer) s))
  | inl _ =>
      let cf := error_close config in
      '(s, block) ← flush_as WsToPeer (queue_close (code cf) (reason cf)) s;
      Ok (write_ws WsToPeer block
            (set_d1 D1ErrWrite (set_history (ws_in s) (peer_in s) (taken s) true s)))
  end.

(** *** Direction 2: peer to WebSocket *)

Definition peer_read (r : IoError + bytes) (s : t) : outcome unit t :=
  match r with
  | inr ((_ :: _) as data) =>
      '(s, block) ← flush_as PeerToWs (queue_msg WSLAY_BINARY_FRAME data)
        (set_history (ws_in s) (peer_in s ++ data) (taken s) (peer_failed s) s);
      Ok (write_ws PeerToWs block (set_d2 D2WsWrite s))
  | other =>
      let cf := match other with inr _ => close config | inl _ => error_close config end in
      '(s, block) ← flush_as PeerToWs (queue_close (code cf) (reason cf)) s;
      Ok (write_ws PeerToWs block (set_d2 (D2CloseWrite cf) s))
  end.

(** *** Direction 3: injected control frames *)

Definition command (cmd : ControlCmd) (s : t) : outcome unit t :=
  '(s, block) ← flush_as ControlDir
    match cmd with
    | CmdPing p => queue_msg WSLAY_PING p
    | CmdPong p => queue_msg WSLAY_PONG p
    | CmdClose cf => queue_close (code cf) (reason cf)
    end s;
  Ok (write_ws ControlDir block (set_d3 D3WsWrite s)).

(** *** Direction 4: keepalive *)

(** The loop of direction 4 from its top. *)
Definition ka_check (ka : KeepAlive) (s : t) : outcome unit t :=
  let idle := now s - last_activity s in
  if idle <? interval ka then Ok (set_d4 (D4Sleep (now s + (interval ka - idle))) s)
  else
    '(s, block) ← flush_as KeepAliveDir (queue_msg WSLAY_PING []) s;
    Ok (write_ws KeepAliveDir block (set_d4 D4PingWrite s)).

(** A sleep of direction 4 is polled. *)
Definition ka_timer (ka : KeepAlive) (s : t) : outcome unit t :=
  match d4 s with
  | D4Sleep until => if until <=? now s then ka_check ka s else Ok s
  | D4Wait pinged_at until =>
      if until <=? now s then
        if last_activity s <=? pinged_at then
          '(s, block) ← flush_as KeepAliveDir
            (queue_close (code (ka_close ka)) (reason (ka_close ka))) s;
          Ok (write_ws KeepAliveDir block (set_d4 D4CloseWrite s))
        else ka_check ka s
      else Ok s
  | _ => Ok s
  end.

(** *** The bridge as a whole *)

(** [bridge_with] up to the [select!] and its first poll of direction 4; an
    initialisation that fails returns at once, no hook called. *)
Definition start : outcome unit t :=
  match server_init with
  | None => Err tt
  | Some c =>
      let s := mk 0 0 (mkCore (set_no_buffering c) Shared_default []) D1Read D2Read
        (if control config then D3Recv else D3Parked) D4Off [] [] [] [] None [] [] [] false in
      match keepalive config with
      | Some ka => ka_check ka s
      | None => Ok s
      end
  end.

Inductive event :=
  | Tick (d : Z)
  | WsRead (r : IoError + bytes)
  | PeerWrote (r : IoError + unit)
  | PeerShut  (* [peer_write.shutdown()] has returned *)
  | PeerRead (r : IoError + bytes)
  | Command (cmd : ControlCmd)
  | CommandsGone  (* every [WsControl] has been dropped *)
  | KaTimer
  | WsWrote (r : IoError + unit).  (* the holder of [lock] has finished its write *)

(** A read returns at most a buffer. *)
Definition read_fits (r : IoError + bytes) : bool :=
  match r with inl _ => true | inr data => zlen data <=? READ_CHUNK end.

(** An event none of the directions is waiting for changes nothing. *)
Definition step (e : event) (s : t) : outcome unit t :=
  match ended s with
  | Some _ => Ok s
  | None =>
      match e with
      | Tick d => Ok (set_time (now s + Z.max 0 d) (last_activity s) s)
      | WsRead r =>
          match d1 s with D1Read => if read_fits r then ws_read r s else Ok s | _ => Ok s end
      | PeerWrote r =>
          match d1 s with
          | D1PeerWrite to_peer outbound closed events =>
              peer_wrote r to_peer outbound closed events s
          | _ => Ok s
          end
      | PeerShut => match d1 s with D1Shutdown r => Ok (finish (inr r) s) | _ => Ok s end
      | PeerRead r =>
          match d2 s with D2Read => if read_fits r then peer_read r s else Ok s | _ => Ok s end
      | Command cmd => match d3 s with D3Recv => command cmd s | _ => Ok s end
      | CommandsGone => match d3 s with D3Recv => Ok (set_d3 D3Parked s) | _ => Ok s end
      | KaTimer => match keepalive config with Some ka => ka_timer ka s | None => Ok s end
      | WsWrote r =>
          match lock s with
          | [] => Ok s
          | (d, block) :: rest =>
              Ok (after_write d r
                    (set_lock rest (written s ++ (if r then [] else [(d, block)])) s))
          end
      end
  end.

Fixpoint run_from (es : list event) (s : t) : outcome unit t :=
  match es with
  | [] => Ok s
  | e :: es => s ← step e s; run_from es s
  end.

End bridge.
