(* ===== verification/BridgeFacts.v ===== *)
(** * BridgeFacts: what the bridge relays, and when it ends

    Theorems about Bridge.v, for every wslay: what passes between the socket, wslay
    and the peer in any interleaving of the directions ([bridge_relays]), the
    keepalive, and the bridge after a protocol violation. *)

From S2P Require Import Prelude Utf8 Bridge.

(** ** Readings of the calls *)

(** The bytes wslay has taken. *)
Definition received (l : list call) : bytes :=
  l ≫= fun c => match c with CRecv d => d | _ => [] end.

(** The bytes wslay has sent. *)
Definition sent (l : list call) : bytes :=
  l ≫= fun c => match c with CSend d => d | _ => [] end.

(** The payload of the binary messages queued. *)
Definition binary (l : list call) : bytes :=
  l ≫= fun c => match c with CQueueMsg 2 d => d | _ => [] end.

(** The payload of the data frames received; [cur]: whether the current frame is one. *)
Fixpoint payload (cur : bool) (l : list call) : bytes :=
  match l with
  | [] => []
  | CFrameStart opcode :: l => payload (is_data_opcode opcode) l
  | CFrameChunk d :: l => (if cur then d else []) ++ payload cur l
  | _ :: l => payload cur l
  end.

Fixpoint cur_after (cur : bool) (l : list call) : bool :=
  match l with
  | [] => cur
  | CFrameStart opcode :: l => cur_after (is_data_opcode opcode) l
  | _ :: l => cur_after cur l
  end.

Arguments received : simpl never.
Arguments sent : simpl never.
Arguments binary : simpl never.

Lemma payload_app cur l1 l2 :
  payload cur (l1 ++ l2) = payload cur l1 ++ payload (cur_after cur l1) l2.
Proof.
  revert cur. induction l1 as [|[] l1 IH]; intros cur; cbn; rewrite ?IH; try done.
  by rewrite (assoc_L (++)).
Qed.

Lemma cur_after_app cur l1 l2 : cur_after cur (l1 ++ l2) = cur_after (cur_after cur l1) l2.
Proof. revert cur. induction l1 as [|[] l1 IH]; intros cur; cbn; auto. Qed.

Lemma received_app l1 l2 : received (l1 ++ l2) = received l1 ++ received l2.
Proof. apply bind_app. Qed.
Lemma sent_app l1 l2 : sent (l1 ++ l2) = sent l1 ++ sent l2.
Proof. apply bind_app. Qed.
Lemma binary_app l1 l2 : binary (l1 ++ l2) = binary l1 ++ binary l2.
Proof. apply bind_app. Qed.

(** ** A run of wslay *)

(** From one state of [Shared] to another by the calls [l]. *)
Definition passes (s : Shared) (l : list call) (s' : Shared) : Prop :=
  inbound s' = inbound s /\ (inbound_pos s' <= length (inbound s'))%nat /\
  drop (inbound_pos s) (inbound s) = received l ++ drop (inbound_pos s') (inbound s') /\
  outbound s' = outbound s ++ sent l /\
  to_peer s' = to_peer s ++ payload (cur_is_data s) l /\
  cur_is_data s' = cur_after (cur_is_data s) l /\ binary l = [].

Lemma exec_passes {A} (p : prog A) s :
  (inbound_pos s <= length (inbound s))%nat ->
  exists s' l a, exec p s = Ok (s', l, a) /\ passes s l s'.
Proof.
  revert s. induction p as [a|len k IH|d k IH|opcode k IH|d k IH|op sc m k IH]; intros s Hs; cbn [exec].
  - exists s, [], a. split; [done|]. unfold passes. cbn. by rewrite !app_nil_r.
  - unfold recv_cb. destruct (Nat.ltb_spec (length (inbound s)) (inbound_pos s)) as [?|_]; [lia|].
    destruct (Nat.eqb_spec (length (inbound s) - inbound_pos s) 0) as [_|_].
    + cbn [mbind outcome_bind]. destruct (IH None s Hs) as (s' & l & a & -> & H).
      by exists s', l, a.
    + cbn [mbind outcome_bind]. set (n := Nat.min _ _). set (s1 := mkShared _ _ _ _ _ _).
      destruct (IH (Some (take n (drop (inbound_pos s) (inbound s)))) s1) as (s' & l & a & -> & H);
        [subst n s1; cbn; lia|].
      exists s', (CRecv (take n (drop (inbound_pos s) (inbound s))) :: l), a. split; [done|].
      destruct H as (H1 & H2 & H3 & H4). subst s1. cbn [inbound inbound_pos] in *.
      split; [done|split; [done|split; [|done]]].
      match goal with |- context [received (CRecv ?d :: l)] =>
        change (received (CRecv d :: l)) with (d ++ received l) end.
      rewrite <- (assoc_L (++)), <- H3, <- drop_drop. by rewrite take_drop.
  - destruct (send_cb d s) as [s1 n] eqn:E. injection E as <- <-.
    destruct (IH (zlen d) (mkShared (inbound s) (inbound_pos s) (outbound s ++ d) (to_peer s)
      (cur_is_data s) (control_events s)) Hs) as (s' & l & a & -> & H).
    exists s', (CSend d :: l), a. split; [done|]. unfold passes in *. cbn in *.
    by rewrite <- (assoc_L (++)) in H.
  - destruct (IH (frame_start_cb opcode s) Hs) as (s' & l & a & -> & H).
    exists s', (CFrameStart opcode :: l), a. by split.
  - destruct (IH (frame_chunk_cb d s)) as (s' & l & a & -> & H).
    { unfold frame_chunk_cb. by destruct (cur_is_data s). }
    exists s', (CFrameChunk d :: l), a. split; [done|]. unfold passes, frame_chunk_cb in *.
    destruct (cur_is_data s) eqn:Hc; cbn in *; [|by rewrite Hc in H].
    by rewrite <- (assoc_L (++)) in H.
  - destruct (IH (msg_recv_cb op sc m s)) as (s' & l & a & -> & H).
    { unfold msg_recv_cb. by repeat case_match. }
    exists s', l, a. split; [done|]. revert H. unfold passes, msg_recv_cb. by repeat case_match.
Qed.

Section facts.
Context {Ctx : Type} `{WS : Wslay Ctx} {IoError : Type} (error_text : IoError -> bytes).
Variable config : BridgeConfig.

Notation state := (@t Ctx IoError).

(** ** The core: nothing lost or made up between the socket, wslay and the peer *)

(** The books of the core: [i] was read from the socket, [o] handed to the peer's side,
    [b] taken for the socket, [q] queued as binary messages. *)
Record books (c : core Ctx) (i o b q : bytes) : Prop := {
  books_pos : (inbound_pos (shared c) <= length (inbound (shared c)))%nat;
  books_cur : cur_is_data (shared c) = cur_after false (calls c);
  books_in : received (calls c) ++ drop (inbound_pos (shared c)) (inbound (shared c)) = i;
  books_peer : o ++ to_peer (shared c) = payload false (calls c);
  books_out : b ++ outbound (shared c) = sent (calls c);
  books_binary : q = binary (calls c);
}.

Lemma run_wslay_books f c i o b q :
  books c i o b q -> exists c' rc, run_wslay f c = Ok (c', rc) /\ books c' i o b q.
Proof.
  intros [Hp Hc Hi Ho Hb Hq].
  destruct (exec_passes (f (ctx c)) _ Hp) as (s' & l & [x rc] & E & HP).
  unfold run_wslay. rewrite E. eexists _, rc. split; [done|].
  destruct HP as (H1 & H2 & H3 & H4 & H5 & H6 & H7). split; cbn.
  - done.
  - by rewrite H6, Hc, cur_after_app.
  - by rewrite received_app, <- (assoc_L (++)), <- H3.
  - by rewrite H5, payload_app, <- Ho, <- Hc, (assoc_L (++)).
  - by rewrite H4, sent_app, <- Hb, (assoc_L (++)).
  - by rewrite binary_app, H7, app_nil_r.
Qed.

Lemma queue_msg_books opcode p c i o b q :
  books c i o b q ->
  books (queue_msg opcode p c) i o b (q ++ (if opcode =? 2 then p else [])).
Proof.
  intros [Hp Hc Hi Ho Hb Hq]. split; cbn.
  - done.
  - by rewrite cur_after_app.
  - by rewrite received_app, (app_nil_r (received _)).
  - by rewrite payload_app, app_nil_r.
  - by rewrite sent_app, (app_nil_r (sent _)).
  - rewrite binary_app, Hq. f_equal. unfold binary. cbn.
    destruct (Z.eqb_spec opcode 2) as [->|Hn]; cbn; [by rewrite app_nil_r|].
    destruct opcode as [|[|[]|]|]; cbn; done.
Qed.

Lemma queue_close_books cd p c i o b q : books c i o b q -> books (queue_close cd p c) i o b q.
Proof.
  intros [Hp Hc Hi Ho Hb Hq]. split; cbn.
  - done.
  - by rewrite cur_after_app.
  - by rewrite received_app, (app_nil_r (received _)).
  - by rewrite payload_app, app_nil_r.
  - by rewrite sent_app, (app_nil_r (sent _)).
  - by rewrite binary_app, (app_nil_r (binary _)).
Qed.

Lemma flush_books queue c i o b q' :
  books (queue c) i o b q' ->
  exists c' block, flush queue c = Ok (c', block) /\
    books c' i o (b ++ block) q' /\ outbound (shared c') = [].
Proof.
  intros H. unfold flush. destruct (run_wslay_books event_send _ _ _ _ _ H) as (c1 & rc & -> & H1).
  eexists _, _. split; [done|]. split; [|done]. destruct H1. split; cbn; try done.
  by rewrite app_nil_r.
Qed.

Lemma feed_books data c i o b q :
  books c i o b q ->
  exists c' tp block closed evs, feed data c = Ok (c', tp, block, closed, evs) /\
    books c' (i ++ data) (o ++ tp) (b ++ block) q /\ outbound (shared c') = [].
Proof.
  intros [Hp Hc Hi Ho Hb Hq]. unfold feed. set (c0 := mkCore (ctx c) _ _).
  assert (books c0 (i ++ data) o b q) as H0.
  { subst c0. split; cbn; try done; [rewrite length_app; lia|].
    rewrite drop_app_le by done. by rewrite (assoc_L (++)), Hi. }
  destruct (run_wslay_books event_recv _ _ _ _ _ H0) as (c1 & rc & -> & H1). cbn [mbind outcome_bind].
  destruct (run_wslay_books event_send _ _ _ _ _ H1) as (c2 & rc2 & -> & H2). cbn [mbind outcome_bind].
  eexists _, _, _, _, _. split; [done|]. split; [|done]. destruct H2. split; cbn; try done.
  - lia.
  - by rewrite app_nil_r.
  - by rewrite app_nil_r.
Qed.

(** ** The blocks written to the socket *)

(** The bytes of the blocks of directions 2 to 4, and of direction 1. *)
Definition others (l : list (dir * bytes)) : bytes :=
  concat (snd <$> filter (fun x => fst x <> WsToPeer) l).
Definition mine (l : list (dir * bytes)) : bytes :=
  concat (snd <$> filter (fun x => fst x = WsToPeer) l).

Arguments others : simpl never.
Arguments mine : simpl never.

Lemma others_app l1 l2 : others (l1 ++ l2) = others l1 ++ others l2.
Proof. unfold others. by rewrite filter_app, fmap_app, concat_app. Qed.
Lemma mine_app l1 l2 : mine (l1 ++ l2) = mine l1 ++ mine l2.
Proof. unfold mine. by rewrite filter_app, fmap_app, concat_app. Qed.
Lemma others_empty d : others [(d, [])] = [].
Proof. by destruct d. Qed.
Lemma mine_empty d : mine [(d, [])] = [].
Proof. by destruct d. Qed.
Lemma blocks_app (l1 l2 : list (dir * bytes)) :
  concat (snd <$> (l1 ++ l2)) = concat (snd <$> l1) ++ concat (snd <$> l2).
Proof. by rewrite fmap_app, concat_app. Qed.

(** What direction 1 holds while it writes to the peer. *)
Definition held (s : state) : bytes :=
  match d1 s with D1PeerWrite to_peer _ _ _ => to_peer | _ => [] end.
Definition held_block (s : state) : bytes :=
  match d1 s with D1PeerWrite _ outbound _ _ => outbound | _ => [] end.

(** The books of the bridge, a direction being about to write the blocks [p]. *)
Record relays (p : list (dir * bytes)) (s : state) : Prop := {
  rel_core : exists o,
    books (wslay s) (ws_in s) o (concat (snd <$> taken s)) (peer_in s) /\
    outbound (shared (wslay s)) = [] /\
    peer_out s ++ held s `prefix_of` o /\
    (peer_failed s = false -> peer_out s ++ held s = o);
  rel_written : others (written s) `prefix_of` others (taken s);
  rel_others : ended s = None -> others (written s ++ lock s ++ p) = others (taken s);
  rel_mine : ended s = None -> peer_failed s = false ->
    mine (written s ++ lock s ++ p) ++ held_block s = mine (taken s);
  rel_failed : ended s = None -> peer_failed s = true -> d1 s = D1ErrWrite;
}.

(** The fields the books do not mention may change. *)
Lemma relays_same p s s' :
  wslay s' = wslay s -> ws_in s' = ws_in s -> peer_in s' = peer_in s ->
  taken s' = taken s -> written s' = written s -> lock s' = lock s ->
  peer_out s' = peer_out s -> peer_failed s' = peer_failed s ->
  held s' = held s -> held_block s' = held_block s ->
  (ended s' = None -> ended s = None) ->
  (ended s' = None -> peer_failed s = true -> d1 s = D1ErrWrite -> d1 s' = D1ErrWrite) ->
  relays p s -> relays p s'.
Proof.
  intros E1 E2 E3 E4 E5 E6 E7 E8 E9 E10 He Hd [H1 H2 H3 H4 H5].
  split; rewrite ?E1, ?E2, ?E3, ?E4, ?E5, ?E6, ?E7, ?E8, ?E9, ?E10; auto.
Qed.

Ltac same := eapply relays_same; [..|eassumption]; cbn; try done.

Lemma after_write_relays d r s :
  ended s = None -> relays [] s -> relays [] (after_write error_text config d r s).
Proof.
  intros He H. pose proof (rel_failed _ _ H He) as Hf. unfold after_write, finish.
  destruct d; [destruct (d1 s) eqn:Hd|destruct (d2 s)|destruct (d3 s)|destruct (d4 s), (keepalive config)];
    try done; try (destruct r); try (destruct closed); same;
    unfold held, held_block; cbn; rewrite ?Hd; done || (intros; exfalso; naive_solver).
Qed.

Lemma write_ws_relays d block s :
  ended s = None -> relays [(d, block)] s -> relays [] (write_ws error_text config d block s).
Proof.
  intros He [H1 H2 H3 H4 H5]. destruct block as [|b block]; cbn [write_ws].
  - apply after_write_relays; [done|]. split; try done; rewrite app_nil_r.
    + rewrite <- H3 by done. by rewrite !others_app, others_empty, app_nil_r.
    + intros ??. rewrite <- H4 by done. by rewrite !mine_app, mine_empty, app_nil_r.
  - split; cbn; rewrite ?app_nil_r; try done.
Qed.

Lemma set_history_id (s : state) :
  set_history (ws_in s) (peer_in s) (taken s) (peer_failed s) s = s.
Proof. by destruct s. Qed.

(** The state after direction [d] has taken [block] in a section. *)
Definition flushed (c : core Ctx) (pi : bytes) (d : dir) (block : bytes) (s : state) : state :=
  set_history (ws_in s) pi (taken s ++ [(d, block)]) (peer_failed s) (set_wslay c s).

Lemma flush_as_relays d queue pi s :
  d <> WsToPeer -> ended s = None -> relays [] s ->
  (forall o b, books (wslay s) (ws_in s) o b (peer_in s) ->
     books (queue (wslay s)) (ws_in s) o b pi) ->
  exists c block,
    flush_as d queue (set_history (ws_in s) pi (taken s) (peer_failed s) s)
      = Ok (flushed c pi d block s, block) /\
    relays [(d, block)] (flushed c pi d block s).
Proof.
  intros Hd He [(o & Hb & Ho & Hpre & Heq) H2 H3 H4 H5] Hq.
  destruct (flush_books queue _ _ _ _ _ (Hq _ _ Hb)) as (c & block & Hf & Hb' & Ho').
  exists c, block. unfold flush_as. cbn. rewrite Hf. split; [done|]. split; cbn; try done.
  - exists o. rewrite blocks_app. cbn. by rewrite app_nil_r.
  - rewrite others_app. by apply prefix_app_r.
  - intros _. specialize (H3 He). rewrite app_nil_r in H3.
    by rewrite (assoc_L (++)), !others_app, <- H3, others_app.
  - intros _ Hp. specialize (H4 He Hp). rewrite app_nil_r in H4.
    assert (mine [(d, block)] = []) as E by (by destruct d).
    rewrite (assoc_L (++)), !mine_app, E, !app_nil_r, <- H4, mine_app. done.
Qed.

(** A section of directions 2 to 4 and the write that follows. *)
Lemma send_relays d queue pi s (f : state -> state) :
  d <> WsToPeer -> ended s = None -> relays [] s ->
  (forall o b, books (wslay s) (ws_in s) o b (peer_in s) ->
     books (queue (wslay s)) (ws_in s) o b pi) ->
  (forall p s', relays p s' -> relays p (f s')) -> (forall s', ended (f s') = ended s') ->
  exists s',
    ('(s, block) ← flush_as d queue (set_history (ws_in s) pi (taken s) (peer_failed s) s);
     Ok (write_ws error_text config d block (f s))) = Ok s' /\ relays [] s'.
Proof.
  intros Hd He H Hq Hf Hfe.
  destruct (flush_as_relays d queue pi s Hd He H Hq) as (c & block & -> & H').
  eexists. split; [reflexivity|]. apply write_ws_relays; [by rewrite Hfe|]. by apply Hf.
Qed.

Lemma on_events_hooks evs (s : state) pc :
  exists h pc', fold_left (on_event config) evs (s, pc) = (set_hooks h (ended s) s, pc').
Proof.
  revert s pc. induction evs as [|ev evs IH]; intros s pc; cbn.
  - exists (hooks s), pc. by destruct s.
  - destruct ev as [cd rs|p|p]; cbn; [apply IH|destruct (on_ping config)|destruct (on_pong config)];
      try apply IH.
    + destruct (IH (set_hooks (hooks s ++ [OnPing p]) (ended s) s) pc) as (h & pc' & E).
      by exists h, pc'.
    + destruct (IH (set_hooks (hooks s ++ [OnPong p]) (ended s) s) pc) as (h & pc' & E).
      by exists h, pc'.
Qed.

(** Direction 1 in its read or with nothing held. *)
Lemma after_peer_write_relays outbound closed evs s :
  ended s = None -> peer_failed s = false -> held s = [] -> held_block s = [] ->
  relays [(WsToPeer, outbound)] s ->
  relays [] (after_peer_write error_text config outbound closed evs s).
Proof.
  intros He Hp Hh Hb H. unfold after_peer_write.
  destruct (on_events_hooks evs s None) as (h & pc & ->).
  apply write_ws_relays; [done|]. same. congruence.
Qed.

Lemma ws_read_relays r s :
  ended s = None -> d1 s = D1Read -> relays [] s ->
  exists s', ws_read error_text config r s = Ok s' /\ relays [] s'.
Proof.
  intros He Hd H. pose proof (rel_failed _ _ H He) as Hf.
  assert (peer_failed s = false) as Hp by (destruct (peer_failed s); [rewrite Hd in Hf; naive_solver|done]).
  unfold ws_read. destruct r as [e|[|x data]].
  - eexists. split; [done|]. unfold finish. by same.
  - eexists. split; [done|]. same; unfold held, held_block; cbn; by rewrite ?Hd, ?Hp.
  - destruct H as [(o & Hb & Ho & Hpre & Heq) H2 H3 H4 H5].
    destruct (feed_books (x :: data) _ _ _ _ _ Hb) as (c & tp & block & closed & evs & E & Hb' & Ho').
    cbn [wslay set_time]. rewrite E. cbn [mbind outcome_bind].
    unfold held, held_block in *. rewrite Hd in *. rewrite app_nil_r in Heq, Hpre.
    set (s1 := set_history _ _ _ _ _).
    assert (forall d, (d = D1Read \/ d = D1PeerWrite tp block closed evs) ->
      (tp = [] \/ d <> D1Read) ->
      relays (match d with D1Read => [(WsToPeer, block)] | _ => [] end) (set_d1 d s1)) as Hs1.
    { intros d Hd' Htp. split; unfold held, held_block; cbn.
      - exists (o ++ tp). rewrite blocks_app. cbn. rewrite app_nil_r. split; [done|split; [done|]].
        rewrite <- (Heq Hp). by destruct Hd' as [-> | ->], Htp as [-> |]; rewrite ?app_nil_r.
      - rewrite others_app. by apply prefix_app_r.
      - intros _. specialize (H3 He). rewrite app_nil_r in H3.
        assert (others [(WsToPeer, block)] = []) as Em by done.
        rewrite (others_app (taken s)), Em, app_nil_r, <- H3.
        destruct Hd' as [-> | ->]; [|by rewrite app_nil_r].
        by rewrite (assoc_L (++)), others_app, Em, app_nil_r.
      - intros _ _. specialize (H4 He Hp). rewrite !app_nil_r in H4.
        assert (mine [(WsToPeer, block)] = block) as Em by exact (app_nil_r block).
        rewrite (mine_app (taken s)), Em, <- H4.
        destruct Hd' as [-> | ->]; [|by rewrite app_nil_r].
        by rewrite app_nil_r, (assoc_L (++)), mine_app, Em.
      - congruence. }
    destruct tp as [|y tp].
    + eexists. split; [done|]. apply after_peer_write_relays; try done;
        try (unfold held, held_block; cbn; by rewrite Hd).
      specialize (Hs1 D1Read (or_introl eq_refl) (or_introl eq_refl)).
      by replace (set_d1 D1Read s1) with s1 in Hs1 by (subst s1; destruct s; cbn in *; by subst).
    + eexists. split; [done|]. apply (Hs1 (D1PeerWrite (y :: tp) block closed evs)); auto.
Qed.

Lemma peer_wrote_relays r tp outbound closed evs s :
  ended s = None -> d1 s = D1PeerWrite tp outbound closed evs -> relays [] s ->
  exists s', peer_wrote error_text config r tp outbound closed evs s = Ok s' /\ relays [] s'.
Proof.
  intros He Hd H. pose proof (rel_failed _ _ H He) as Hf.
  assert (peer_failed s = false) as Hp by (destruct (peer_failed s); [rewrite Hd in Hf; naive_solver|done]).
  unfold peer_wrote. destruct H as [(o & Hb & Ho & Hpre & Heq) H2 H3 H4 H5].
  unfold held, held_block in *. rewrite Hd in *. destruct r as [e|[]].
  - destruct (flush_books _ _ _ _ _ _ (queue_close_books (code (error_close config))
      (reason (error_close config)) _ _ _ _ _ Hb)) as (c & block & E & Hb' & Ho').
    unfold flush_as. rewrite E. cbn [mbind outcome_bind]. eexists. split; [done|].
    apply write_ws_relays; [done|]. split; unfold held, held_block; cbn; try done.
    + exists o. rewrite blocks_app. cbn. rewrite app_nil_r. split; [done|split; [done|split; [|done]]].
      rewrite app_nil_r. etransitivity; [|exact Hpre]. by apply prefix_app_r.
    + rewrite others_app. by apply prefix_app_r.
    + intros _. specialize (H3 He). rewrite app_nil_r in H3.
      by rewrite (others_app (taken s)), <- H3, (assoc_L (++)), others_app.
  - eexists. split; [done|]. unfold after_peer_write.
    destruct (on_events_hooks evs (set_peer_out (peer_out s ++ tp) s) None) as (h & pc & ->).
    apply write_ws_relays; [done|]. split; unfold held, held_block; cbn; rewrite ?app_nil_r; try done.
    + by exists o.
    + intros _. rewrite <- (H3 He), app_nil_r.
      assert (others [(WsToPeer, outbound)] = []) as Em by done.
      by rewrite (assoc_L (++)), others_app, Em, app_nil_r.
    + intros _ _. rewrite <- (H4 He Hp), app_nil_r.
      assert (mine [(WsToPeer, outbound)] = outbound) as Em by exact (app_nil_r outbound).
      by rewrite (assoc_L (++)), mine_app, Em.
    + congruence.
Qed.

(** Sections that queue a control frame or a close, from directions 2 to 4. *)
Lemma queue_books k (s : state) o b :
  (exists op p, k = queue_msg op p /\ op <> 2) \/ (exists cd p, k = queue_close cd p) ->
  books (wslay s) (ws_in s) o b (peer_in s) -> books (k (wslay s)) (ws_in s) o b (peer_in s).
Proof.
  intros [(op & p & -> & Hop)|(cd & p & ->)] H; [|by apply queue_close_books].
  apply (queue_msg_books op p) in H. destruct (Z.eqb_spec op 2); [done|]. by rewrite app_nil_r in H.
Qed.

Lemma section_relays d k s (f : state -> state) :
  d <> WsToPeer -> ended s = None -> relays [] s ->
  (exists op p, k = queue_msg op p /\ op <> 2) \/ (exists cd p, k = queue_close cd p) ->
  (forall p s', relays p s' -> relays p (f s')) -> (forall s', ended (f s') = ended s') ->
  exists s',
    ('(s, block) ← flush_as d k s; Ok (write_ws error_text config d block (f s))) = Ok s' /\
    relays [] s'.
Proof.
  intros Hd He H Hk Hf Hfe.
  destruct (send_relays d k (peer_in s) s f Hd He H) as (s' & E & H'); try done.
  - intros o b Hb. by apply queue_books.
  - rewrite set_history_id in E. by exists s'.
Qed.

Lemma set_d2_relays d p s : relays p s -> relays p (set_d2 d s).
Proof. intros H. same. Qed.
Lemma set_d3_relays d p s : relays p s -> relays p (set_d3 d s).
Proof. intros H. same. Qed.
Lemma set_d4_relays d p s : relays p s -> relays p (set_d4 d s).
Proof. intros H. same. Qed.

Lemma ka_check_relays ka s :
  ended s = None -> relays [] s ->
  exists s', ka_check error_text config ka s = Ok s' /\ relays [] s'.
Proof.
  intros He H. unfold ka_check. destruct (_ <? _).
  - eexists. split; [done|]. by apply set_d4_relays.
  - apply section_relays; try done; [left; by exists WSLAY_PING, []|apply set_d4_relays].
Qed.


(** ** The lock *)

(** Direction [d] awaits the lock or its write. *)
Definition writing (d : dir) (s : state) : bool :=
  match d with
  | WsToPeer => match d1 s with D1ErrWrite | D1WsWrite _ _ => true | _ => false end
  | PeerToWs => match d2 s with D2WsWrite | D2CloseWrite _ => true | D2Read => false end
  | ControlDir => match d3 s with D3WsWrite => true | _ => false end
  | KeepAliveDir => match d4 s with D4PingWrite | D4CloseWrite => true | _ => false end
  end.

(** The queue holds one block of each direction that writes. *)
Definition queued (l : list (dir * bytes)) (s : state) : Prop :=
  NoDup (fst <$> l) /\ (forall d, d ∈ fst <$> l <-> writing d s = true) /\
  (keepalive config = None -> d4 s = D4Off).

Definition locked (s : state) : Prop := ended s = None -> queued (lock s) s.

(** As [locked], direction [d] being about to write [block]. *)
Definition about_to (d : dir) (block : bytes) (s : state) : Prop :=
  ended s = None -> d ∉ fst <$> lock s /\ queued (lock s ++ [(d, block)]) s.

Lemma about_to_intro d block s s' :
  locked s -> ended s = None -> writing d s = false -> lock s' = lock s ->
  (forall d', d' <> d -> writing d' s' = writing d' s) -> writing d s' = true ->
  (keepalive config = None -> d4 s = D4Off -> d4 s' = D4Off) ->
  about_to d block s'.
Proof.
  intros H He Hd Hl Hw Hd' Hk _. destruct (H He) as (Hn & Hq & Hka). rewrite Hl.
  assert (d ∉ fst <$> lock s) as Hnin by (rewrite Hq, Hd; done).
  split; [done|]. split; [|split; [|auto]].
  - rewrite fmap_app. apply NoDup_app. split; [done|split].
    + by intros x Hx ->%list_elem_of_singleton.
    + apply NoDup_singleton.
  - intros d'. rewrite fmap_app, elem_of_app, Hq. cbn. rewrite list_elem_of_singleton.
    destruct (decide (d' = d)) as [->|Hne]; [by split; [|right]|].
    rewrite Hw by done. tauto.
Qed.

Lemma after_write_locked d block r s :
  ended s = None -> about_to d block s -> locked (after_write error_text config d r s).
Proof.
  intros He H. destruct (H He) as (Hnin & Hn & Hq & Hka). clear H.
  rewrite fmap_app in Hn. apply NoDup_app in Hn as (Hn & _ & _).
  assert (writing d s = true) as Hw.
  { apply Hq. rewrite fmap_app. apply elem_of_app. right. by left. }
  assert (forall d', d' <> d -> d' ∈ fst <$> lock s <-> writing d' s = true) as Hq'.
  { intros d' Hne. rewrite <- Hq, fmap_app, elem_of_app. cbn. rewrite list_elem_of_singleton. tauto. }
  enough (ended (after_write error_text config d r s) <> None \/
    lock (after_write error_text config d r s) = lock s /\
    writing d (after_write error_text config d r s) = false /\
    (forall d', d' <> d -> writing d' (after_write error_text config d r s) = writing d' s) /\
    (keepalive config = None -> d4 (after_write error_text config d r s) = D4Off)) as [?|(E1 & E2 & E3 & E4)].
  - by intros ?.
  - intros _. rewrite E1. split; [done|split; [|done]]. intros d'.
    destruct (decide (d' = d)) as [->|Hne]; [by rewrite E2; split|]. rewrite E3 by done. by apply Hq'.
  - destruct d; cbn in Hw |- *;
      [destruct (d1 s) eqn:Hd|destruct (d2 s) eqn:Hd|destruct (d3 s) eqn:Hd|destruct (d4 s) eqn:Hd];
      try discriminate Hw; try (destruct (keepalive config); [|by specialize (Hka eq_refl)]);
      try (by left); destruct r; try (by left); try destruct closed; right;
      (split; [done|split; [done|split; [by intros []|try done; auto]]]).
Qed.

Lemma write_ws_locked d block s :
  ended s = None -> about_to d block s -> locked (write_ws error_text config d block s).
Proof.
  intros He H. destruct block as [|x block]; cbn [write_ws]; [by eapply after_write_locked|].
  intros _. destruct (H He) as (_ & Hn & Hq & Hka). by split.
Qed.

Lemma flush_as_frame d k (s s1 : state) block :
  flush_as d k s = Ok (s1, block) ->
  d1 s1 = d1 s /\ d2 s1 = d2 s /\ d3 s1 = d3 s /\ d4 s1 = d4 s /\ lock s1 = lock s /\
  ended s1 = ended s /\ now s1 = now s /\ last_activity s1 = last_activity s /\
  ws_in s1 = ws_in s.
Proof.
  unfold flush_as. destruct (flush k (wslay s)) as [[c b]| | |]; cbn; try done.
  by intros [= <- <-].
Qed.

Lemma queued_ext l s s' :
  d1 s' = d1 s -> d2 s' = d2 s -> d3 s' = d3 s -> d4 s' = d4 s -> queued l s -> queued l s'.
Proof.
  intros E1 E2 E3 E4 (H1 & H2 & H3). split; [done|split; [|by rewrite E4]].
  intros d. rewrite H2. destruct d; cbn; by rewrite ?E1, ?E2, ?E3, ?E4.
Qed.

(** A direction moves between awaits that are not writes. *)
Lemma move_locked d s s' :
  locked s -> ended s = None -> lock s' = lock s -> writing d s' = writing d s ->
  (forall d', d' <> d -> writing d' s' = writing d' s) ->
  (keepalive config = None -> d4 s = D4Off -> d4 s' = D4Off) -> locked s'.
Proof.
  intros H He Hl Hd Hw Hk _. destruct (H He) as (H1 & H2 & H3). rewrite Hl.
  split; [done|split; [|by auto]]. intros d'. rewrite H2.
  destruct (decide (d' = d)) as [->|Hne]; [by rewrite Hd|by rewrite Hw].
Qed.

Lemma section_locked d k s f s' :
  locked s -> ended s = None -> writing d s = false ->
  (forall s1, lock (f s1) = lock s1 /\ ended (f s1) = ended s1 /\ writing d (f s1) = true /\
    (forall d', d' <> d -> writing d' (f s1) = writing d' s1) /\
    (keepalive config = None -> d4 s1 = D4Off -> d4 (f s1) = D4Off)) ->
  ('(s1, block) ← flush_as d k s; Ok (write_ws error_text config d block (f s1))) = Ok s' ->
  locked s'.
Proof.
  intros H He Hd Hf Hs. destruct (flush_as d k s) as [[s1 block]| | |] eqn:E; try done.
  apply flush_as_frame in E as (E1 & E2 & E3 & E4 & El & Ee & _). injection Hs as <-.
  destruct (Hf s1) as (F1 & F2 & F3 & F4 & F5).
  apply write_ws_locked; [by rewrite F2, Ee|].
  apply (about_to_intro d block s); try done; [by rewrite F1| |by rewrite <- E4; auto].
  intros d' Hne. rewrite F4 by done. destruct d'; cbn; by rewrite ?E1, ?E2, ?E3, ?E4.
Qed.

Lemma after_peer_write_locked outbound closed evs s :
  locked s -> ended s = None -> writing WsToPeer s = false ->
  locked (after_peer_write error_text config outbound closed evs s).
Proof.
  intros H He Hd. unfold after_peer_write.
  destruct (on_events_hooks evs s None) as (h & pc & ->). apply write_ws_locked; [done|].
  apply (about_to_intro WsToPeer outbound s); try done. by intros [].
Qed.

Lemma ka_check_locked ka s s' :
  keepalive config = Some ka -> locked s -> ended s = None -> writing KeepAliveDir s = false ->
  ka_check error_text config ka s = Ok s' -> locked s'.
Proof.
  intros Hka H He Hd. unfold ka_check. destruct (_ <? _).
  - intros [= <-]. apply (move_locked KeepAliveDir s); try done; try congruence; by intros [].
  - apply section_locked; try done. intros s1. split_and!; try done; try congruence; by intros [].
Qed.

Lemma step_locked e s s' : locked s -> step error_text config e s = Ok s' -> locked s'.
Proof.
  intros H. unfold step. destruct (ended s) eqn:He; [by intros [= <-]|].
  destruct e as [d|r|r| |r|cmd| | |r].
  - intros [= <-] _. by eapply queued_ext, H.
  - destruct (d1 s) eqn:Hd; try by intros [= <-]. destruct (read_fits r); [|by intros [= <-]].
    destruct r as [e|[|x data]]; cbn [ws_read].
    + by intros [= <-].
    + intros [= <-]. apply (move_locked WsToPeer s); try done; [cbn; by rewrite Hd|]; by intros [].
    + destruct (feed _ _) as [[[[[c tp] block] closed] evs]| | |]; try done. cbn.
      set (s1 := set_history _ _ _ _ _).
      assert (locked s1 /\ ended s1 = None /\ d1 s1 = D1Read) as (H1 & He1 & Hd1).
      { split; [|done]. intros _. by eapply queued_ext, H. }
      destruct tp; intros [= <-].
      * apply after_peer_write_locked; try done. cbn. by rewrite Hd.
      * apply (move_locked WsToPeer s1); try done; [cbn; by rewrite Hd|]; by intros [].
  - destruct (d1 s) eqn:Hd; try by intros [= <-]. destruct r as [e|[]]; cbn [peer_wrote].
    + intros Hs.
      apply (section_locked WsToPeer (queue_close (code (error_close config)) (reason (error_close config)))
        s (fun s1 => set_d1 D1ErrWrite (set_history (ws_in s1) (peer_in s1) (taken s1) true s1)));
        try done; [cbn; by rewrite Hd|]. intros s1. split_and!; try done; try congruence; by intros [].
    + intros [= <-]. apply after_peer_write_locked; [|done|cbn; by rewrite Hd].
      intros _. by eapply queued_ext, H.
  - destruct (d1 s) eqn:Hd; try by intros [= <-].
  - destruct (d2 s) eqn:Hd; try by intros [= <-]. destruct (read_fits r); [|by intros [= <-]].
    assert (forall D k s0, d2 s0 = D2Read -> ended s0 = None -> locked s0 ->
      writing PeerToWs (set_d2 D s0) = true ->
      ('(s1, block) ← flush_as PeerToWs k s0;
       Ok (write_ws error_text config PeerToWs block (set_d2 D s1))) = Ok s' -> locked s') as Hsec.
    { intros D k s0 Hd0 He0 H0 Hw. apply section_locked; try done; [cbn; by rewrite Hd0|].
      intros s1. split_and!; try done; try congruence; by intros []. }
    destruct r as [e|[|x data]]; cbn [peer_read]; (apply Hsec; try done).
  - destruct (d3 s) eqn:Hd; try by intros [= <-]. apply section_locked; try done; [cbn; by rewrite Hd|].
    intros s1. split_and!; try done; try congruence; by intros [].
  - destruct (d3 s) eqn:Hd; try by intros [= <-]. intros [= <-].
    apply (move_locked ControlDir s); try done; [cbn; by rewrite Hd|]; by intros [].
  - destruct (keepalive config) as [ka|] eqn:Hka; [|by intros [= <-]]. unfold ka_timer.
    destruct (d4 s) as [|u| |pa u|] eqn:Hd; try by intros [= <-].
    + destruct (u <=? now s); [|by intros [= <-]]. apply ka_check_locked; try done. cbn. by rewrite Hd.
    + destruct (u <=? now s); [|by intros [= <-]]. destruct (_ <=? _).
      * apply section_locked; try done; [cbn; by rewrite Hd|].
        intros s1. split_and!; try done; try congruence; by intros [].
      * apply ka_check_locked; try done. cbn. by rewrite Hd.
  - destruct (lock s) as [|[d block] rest] eqn:Hl; [by intros [= <-]|]. intros [= <-].
    apply (after_write_locked d block); [done|]. intros _. cbn.
    destruct (H He) as (Hn & Hq & Hk). rewrite Hl in Hn, Hq. cbn in Hn, Hq.
    apply NoDup_cons in Hn as [Hd Hn]. split; [done|]. split; [|split].
    + rewrite fmap_app. apply NoDup_app. split; [done|split].
      * by intros x Hx ->%list_elem_of_singleton.
      * apply NoDup_singleton.
    + intros d'. rewrite fmap_app, elem_of_app. cbn. rewrite list_elem_of_singleton.
      change (writing d' (set_lock _ _ s)) with (writing d' s). rewrite <- Hq, elem_of_cons. tauto.
    + done.
Qed.
Lemma step_relays e s :
  relays [] s -> locked s -> exists s', step error_text config e s = Ok s' /\ relays [] s'.
Proof.
  intros H HL. unfold step. destruct (ended s) eqn:He; [by exists s|].
  destruct e as [d|r|r| |r|cmd| | |r].
  - eexists. split; [done|]. same.
  - destruct (d1 s) eqn:Hd; try by exists s. destruct (read_fits r); [|by exists s].
    by apply ws_read_relays.
  - destruct (d1 s) eqn:Hd; try by exists s. by apply peer_wrote_relays.
  - destruct (d1 s) eqn:Hd; try by exists s. eexists. split; [done|]. unfold finish. same.
  - destruct (d2 s) eqn:Hd; try by exists s. destruct (read_fits r); [|by exists s].
    unfold peer_read. destruct r as [e|[|x data]];
      try (apply section_relays; try done; [right; by eexists _, _|apply set_d2_relays]).
    apply send_relays; try done; [|apply set_d2_relays].
    intros o b Hb. exact (queue_msg_books 2 (x :: data) _ _ _ _ _ Hb).
  - destruct (d3 s) eqn:Hd; try by exists s. unfold command.
    apply section_relays; try done; [|apply set_d3_relays].
    destruct cmd; [left; by exists WSLAY_PING, p|left; by exists WSLAY_PONG, p|right; by eexists _, _].
  - destruct (d3 s) eqn:Hd; try by exists s. eexists. split; [done|]. same.
  - destruct (keepalive config) as [ka|]; [|by exists s]. unfold ka_timer.
    destruct (d4 s) as [|u| |pa u|]; try by exists s.
    + destruct (u <=? now s); [by apply ka_check_relays|by exists s].
    + destruct (u <=? now s); [|by exists s]. destruct (_ <=? _); [|by apply ka_check_relays].
      apply section_relays; try done; [right; by eexists _, _|apply set_d4_relays].
  - destruct (lock s) as [|[d block] rest] eqn:Hl; [by exists s|].
    eexists. split; [done|]. destruct H as [H1 H2 H3 H4 H5].
    assert (writing d s = true) as Hw.
    { apply (HL He). rewrite Hl. by left. }
    assert (others (written s ++ [(d, block)]) `prefix_of` others (taken s)) as Hpre.
    { rewrite <- (H3 He), Hl. exists (others rest).
      rewrite app_nil_r, <- others_app, <- (assoc_L (++)). done. }
    destruct r as [e|[]].
    + rewrite app_nil_r. destruct (HL He) as (_ & _ & Hk).
      enough (exists x, after_write error_text config d (inl e) (set_lock rest (written s) s)
        = finish error_text config x (set_lock rest (written s) s)) as [x ->] by by split.
      destruct d; cbn in Hw |- *;
        [destruct (d1 s)|destruct (d2 s)|destruct (d3 s)|destruct (d4 s)]; try discriminate Hw;
        try (destruct (keepalive config); [|by specialize (Hk eq_refl)]); by eexists.
    + apply after_write_relays; [done|]. split; try done; cbn; rewrite app_nil_r.
      * intros _. rewrite <- (H3 He), Hl, <- (assoc_L (++)), app_nil_r. done.
      * intros _ Hp. rewrite <- (H4 He Hp), Hl, <- (assoc_L (++)), app_nil_r. done.
Qed.

Lemma run_relays es s :
  relays [] s -> locked s ->
  exists s', run_from error_text config es s = Ok s' /\ relays [] s' /\ locked s'.
Proof.
  revert s. induction es as [|e es IH]; intros s H HL; cbn [run_from]; [by exists s|].
  destruct (step_relays e s H HL) as (s1 & E & H1). rewrite E. cbn [mbind outcome_bind].
  apply IH; [done|]. by eapply step_locked.
Qed.

(** The state [start] begins with. *)
Definition initial (c : Ctx) : state :=
  mk 0 0 (mkCore (set_no_buffering c) Shared_default []) D1Read D2Read
    (if control config then D3Recv else D3Parked) D4Off [] [] [] [] None [] [] [] false.

Lemma initial_relays c : relays [] (initial c).
Proof.
  split; try done. exists []. split; [|done]. by split; try done; cbn; lia.
Qed.

Lemma initial_locked c : locked (initial c).
Proof.
  intros _. split; [constructor|split; [|done]]. intros d. cbn. rewrite elem_of_nil.
  destruct d; cbn; try done. by destruct (control config).
Qed.

Lemma start_relays :
  match start error_text config with
  | Ok s => relays [] s /\ locked s
  | Err _ => server_init = None
  | _ => False
  end.
Proof.
  unfold start. destruct server_init as [c|]; [|done]. fold (initial c).
  destruct (keepalive config) as [ka|] eqn:Hka; [|split; [apply initial_relays|apply initial_locked]].
  destruct (ka_check_relays ka (initial c) eq_refl (initial_relays c)) as (s & E & H). rewrite E.
  split; [done|]. by eapply ka_check_locked, E; [|apply initial_locked| |].
Qed.

(** What the peer has been given of the payload. *)
Lemma relays_peer s :
  relays [] s ->
  exists lost, peer_out s ++ held s ++ lost ++ to_peer (shared (wslay s)) = payload false (calls (wslay s)) /\
    (peer_failed s = false -> lost = []).
Proof.
  intros [(o & [_ _ _ B4 _ _] & _ & [lost Hl] & Heq) _ _ _ _]. exists lost.
  rewrite <- B4, Hl, <- !(assoc_L (++)). split; [done|]. intros Hp.
  apply Heq in Hp. rewrite Hp in Hl. apply (f_equal length) in Hl.
  rewrite length_app in Hl. destruct lost; cbn in Hl; [done|lia].
Qed.

(** What the bridge relays, in every interleaving of its directions and for every
    wslay: the bytes wslay takes are those read from the socket, each once and in
    order; what is written to the peer is the payload of the data frames, in order,
    all of it but what direction 1 still holds or a failed peer lost; what the peer
    sends is queued as binary messages, in order; the blocks wslay emits are written
    in order, except that a reply to the socket's input may wait for the peer's
    write.  Nothing panics. *)
Theorem bridge_relays es :
  match start error_text config with
  | Ok s0 =>
      exists s, run_from error_text config es s0 = Ok s /\
      let l := calls (wslay s) in
      let sh := shared (wslay s) in
      received l ++ drop (inbound_pos sh) (inbound sh) = ws_in s /\
      (exists lost, peer_out s ++ held s ++ lost ++ to_peer sh = payload false l /\
         (peer_failed s = false -> lost = [])) /\
      binary l = peer_in s /\
      concat (snd <$> taken s) = sent l /\
      others (written s) `prefix_of` others (taken s) /\
      (ended s = None ->
         others (written s ++ lock s) = others (taken s) /\
         (peer_failed s = false -> mine (written s ++ lock s) ++ held_block s = mine (taken s)))
  | Err _ => server_init = None
  | _ => False
  end.
Proof.
  pose proof start_relays as Hs. destruct (start error_text config) as [s0| | |]; try done.
  destruct Hs as [H HL]. destruct (run_relays es s0 H HL) as (s & -> & H' & _).
  exists s. split; [done|]. pose proof (relays_peer s H') as Hpeer.
  destruct H' as [(o & [B1 B2 B3 B4 B5 B6] & Ho & Hpre & Heq) H2 H3 H4 H5].
  rewrite app_nil_r in *. rewrite Ho, app_nil_r in B5. split_and!; try done.
  intros He. split; auto.
Qed.

(** ** Keepalive *)

Lemma bridge_run_app es1 es2 s :
  run_from error_text config (es1 ++ es2) s =
  s ← run_from error_text config es1 s; run_from error_text config es2 s.
Proof.
  revert s. induction es1 as [|e es1 IH]; intros s; [done|]. cbn.
  destruct (step _ _ _ _); cbn; auto.
Qed.

(** A ping has been queued. *)
Definition pinged (s : state) : Prop := CQueueMsg WSLAY_PING [] ∈ calls (wslay s).

(** Where direction 4 stands, and what has happened by then. *)
Definition keeping (ka : KeepAlive) (s : state) : Prop :=
  last_activity s <= now s /\
  match d4 s with
  | D4Off => False
  | D4Sleep until => until <= now s + interval ka
  | D4Wait pinged_at until =>
      pinged_at <= now s /\ until = pinged_at + timeout ka /\ pinged s
  | _ => pinged s
  end.

(** What a step leaves of the keepalive's view: the calls only grow, and time passes. *)
Definition later (s s' : state) : Prop :=
  now s <= now s' /\ calls (wslay s) `prefix_of` calls (wslay s').

Lemma pinged_later s s' : later s s' -> pinged s -> pinged s'.
Proof. intros [_ [l Hl]] H. unfold pinged. rewrite Hl. apply elem_of_app. by left. Qed.

Lemma keeping_later ka s s' :
  later s s' -> last_activity s' <= now s' -> d4 s' = d4 s -> keeping ka s -> keeping ka s'.
Proof.
  intros Hl Ha Hd [_ H]. split; [done|]. rewrite Hd. pose proof (pinged_later _ _ Hl) as Hp.
  destruct Hl as [Hn _]. destruct (d4 s); try done; try (by apply Hp); [lia|].
  destruct H as (? & ? & ?). split_and!; [lia|done|by apply Hp].
Qed.

Lemma flush_as_later d k s s1 block :
  flush_as d k s = Ok (s1, block) -> calls (wslay s) `prefix_of` calls (k (wslay s)) ->
  later s s1 /\ calls (k (wslay s)) `prefix_of` calls (wslay s1).
Proof.
  intros E Hk. pose proof (flush_as_frame _ _ _ _ _ E) as (_ & _ & _ & _ & _ & _ & Hn & _).
  unfold flush_as, flush, run_wslay in E.
  destruct (exec _ _) as [[[sh l] [x rc]]| | |]; cbn in E; try done. injection E as <- <-.
  assert (calls (k (wslay s)) `prefix_of` calls (k (wslay s)) ++ l) as Hpre by (by exists l).
  split; [|done]. split; [cbn; lia|]. cbn. by etransitivity.
Qed.

(** After a write, everything but the direction that wrote is as before. *)
Lemma after_write_frame d r (s : state) :
  let s' := after_write error_text config d r s in
  now s' = now s /\ last_activity s' = last_activity s /\ wslay s' = wslay s /\
  ws_in s' = ws_in s /\ (d <> KeepAliveDir -> d4 s' = d4 s).
Proof.
  cbn. unfold after_write, finish.
  destruct d; [destruct (d1 s)|destruct (d2 s)|destruct (d3 s)|destruct (d4 s), (keepalive config)];
    try done; destruct r; try done; by destruct closed.
Qed.

Lemma write_ws_frame d block (s : state) :
  let s' := write_ws error_text config d block s in
  now s' = now s /\ last_activity s' = last_activity s /\ wslay s' = wslay s /\
  ws_in s' = ws_in s /\ (d <> KeepAliveDir -> d4 s' = d4 s).
Proof. cbn. destruct block; [apply after_write_frame|done]. Qed.

Lemma after_write_keeping ka r (s : state) :
  keepalive config = Some ka ->
  keeping ka s -> keeping ka (after_write error_text config KeepAliveDir r s).
Proof.
  intros Hka [Ha H]. unfold after_write. rewrite Hka. destruct (d4 s) eqn:Hd; try (by split; rewrite ?Hd).
  - destruct r; [split; cbn; by rewrite ?Hd|]. split; [done|]. cbn. split_and!; [lia|done|done].
  - split; cbn; by rewrite ?Hd.
Qed.

(** A step of direction [d] that reads nothing from the socket. *)
Definition deaf (d : dir) (s s' : state) : Prop :=
  later s s' /\ last_activity s' = last_activity s /\ ws_in s' = ws_in s /\
  (d <> KeepAliveDir -> d4 s' = d4 s).

Lemma deaf_refl d (s : state) : deaf d s s.
Proof. by split. Qed.

Lemma deaf_write d block (s s1 : state) :
  deaf d s s1 -> deaf d s (write_ws error_text config d block s1).
Proof.
  intros ([Hn Hc] & Ha & Hi & Hd).
  pose proof (write_ws_frame d block s1) as (E1 & E2 & E3 & E4 & E5). unfold deaf, later.
  rewrite E1, E2, E3, E4. split_and!; try done. intros Hk. by rewrite E5, Hd.
Qed.

Lemma queues_grow k c :
  (exists op p, k = queue_msg op p) \/ (exists cd p, k = queue_close cd p) ->
  calls c `prefix_of` calls (k c : core Ctx).
Proof. by intros [(op & p & ->)|(cd & p & ->)]; eexists. Qed.

Lemma section_deaf d k f s s' :
  (exists op p, k = queue_msg op p) \/ (exists cd p, k = queue_close cd p) ->
  (forall s1, deaf d s s1 -> deaf d s (f s1)) ->
  ('(s1, block) ← flush_as d k s; Ok (write_ws error_text config d block (f s1))) = Ok s' ->
  deaf d s s'.
Proof.
  intros Hk Hf Hs. destruct (flush_as d k s) as [[s1 block]| | |] eqn:E; try done.
  injection Hs as <-. apply deaf_write, Hf.
  destruct (flush_as_later _ _ _ _ _ E (queues_grow k _ Hk)) as [Hl _].
  by apply flush_as_frame in E as (_ & _ & _ & ? & _ & _ & _ & ? & ?).
Qed.

Lemma feed_later data c c' tp block closed evs :
  feed data c = Ok (c', tp, block, closed, evs) -> calls c `prefix_of` calls c'.
Proof.
  unfold feed, run_wslay. cbn. destruct (exec _ _) as [[[sh l] [x rc]]| | |]; try done. cbn.
  destruct (exec (event_send x) sh) as [[[sh' l'] [x' rc']]| | |]; try done.
  intros [= <- <- <- <- <-]. cbn. rewrite <- (assoc_L (++)). by eexists.
Qed.

Lemma after_peer_write_now outbound closed evs (s : state) :
  now (after_peer_write error_text config outbound closed evs s) = now s.
Proof.
  unfold after_peer_write. destruct (on_events_hooks evs s None) as (h & pc & ->).
  by destruct (write_ws_frame WsToPeer outbound (set_d1 (D1WsWrite closed pc) (set_hooks h (ended s) s)))
    as [-> _].
Qed.

Lemma after_peer_write_deaf outbound closed evs (s s1 : state) :
  deaf WsToPeer s s1 -> deaf WsToPeer s (after_peer_write error_text config outbound closed evs s1).
Proof.
  intros H. unfold after_peer_write.
  destruct (on_events_hooks evs s1 None) as (h & pc & ->). by apply deaf_write.
Qed.

Lemma ka_check_deaf ka (s s' : state) :
  ka_check error_text config ka s = Ok s' -> deaf KeepAliveDir s s'.
Proof.
  unfold ka_check. destruct (_ <? _); intros Hs; [injection Hs as <-; by split|].
  eapply (section_deaf KeepAliveDir _ (set_d4 D4PingWrite)); [left; by eexists _, _| |exact Hs].
  by intros s1 (? & ? & ? & _).
Qed.

(** The direction an event belongs to, direction 1 for the passing of time. *)
Definition acts (e : @event IoError) (s : state) : dir :=
  match e with
  | Tick _ | WsRead _ | PeerWrote _ | PeerShut => WsToPeer
  | PeerRead _ => PeerToWs
  | Command _ | CommandsGone => ControlDir
  | KaTimer => KeepAliveDir
  | WsWrote _ => match lock s with (d, _) :: _ => d | [] => WsToPeer end
  end.

Ltac idle_step := intros [= <-]; left; apply deaf_refl.

(** Time passes and the calls grow; the time of the last activity is that of the last
    read. *)
Lemma step_later e s s' :
  step error_text config e s = Ok s' ->
  deaf (acts e s) s s' \/ later s s' /\ last_activity s' = now s' /\ d4 s' = d4 s.
Proof.
  unfold step. destruct (ended s) eqn:He; [idle_step|].
  destruct e as [d|r|r| |r|cmd| | |r]; cbn [acts].
  - intros [= <-]. left. split; [split; [cbn; lia|done]|done].
  - destruct (d1 s); try idle_step. destruct (read_fits r); [|idle_step].
    destruct r as [e|[|x data]]; cbn [ws_read]; try (intros [= <-]; left; by split).
    destruct (feed _ _) as [[[[[c tp] block] closed] evs]| | |] eqn:E; try done.
    apply feed_later in E. cbn. set (s1 := set_history _ _ _ _ _). intros Hs. right.
    assert (deaf WsToPeer s1 s') as ([Hn Hc] & Ha & _ & Hd4).
    { destruct tp; injection Hs as <-; [apply after_peer_write_deaf, deaf_refl|by split]. }
    assert (now s' = now s) as Hns
      by (destruct tp; injection Hs as <-; [exact (after_peer_write_now _ _ _ s1)|done]).
    cbn in Ha, Hc. rewrite Ha, Hns. split; [|by rewrite Hd4].
    split; [lia|]. by etransitivity.
  - destruct (d1 s); try idle_step. intros Hs. left. destruct r as [e|[]]; cbn [peer_wrote] in Hs.
    + by eapply (section_deaf _ _
        (fun s1 => set_d1 D1ErrWrite (set_history (ws_in s1) (peer_in s1) (taken s1) true s1)));
        [right; eexists _, _| |exact Hs].
    + injection Hs as <-. by apply after_peer_write_deaf.
  - destruct (d1 s); intros [= <-]; left; by split.
  - destruct (d2 s); try idle_step. destruct (read_fits r); [|idle_step]. intros Hs. left.
    destruct r as [e|[|x data]]; cbn [peer_read] in Hs.
    + by eapply section_deaf; [right; eexists _, _| |exact Hs].
    + by eapply section_deaf; [right; eexists _, _| |exact Hs].
    + by eapply (section_deaf PeerToWs _ _ (set_history _ _ _ _ s)); [left; eexists _, _| |exact Hs].
  - destruct (d3 s); try idle_step. intros Hs. left.
    eapply (section_deaf ControlDir _ (set_d3 D3WsWrite)); [|done|exact Hs].
    destruct cmd; [left|left|right]; by eexists _, _.
  - destruct (d3 s); intros [= <-]; left; by split.
  - intros Hs. left. destruct (keepalive config) as [ka|]; [|injection Hs as <-; apply deaf_refl].
    unfold ka_timer in Hs. destruct (d4 s) as [|u| |pa u|]; try (injection Hs as <-; apply deaf_refl).
    + destruct (u <=? now s); [by eapply ka_check_deaf|injection Hs as <-; apply deaf_refl].
    + destruct (u <=? now s); [|injection Hs as <-; apply deaf_refl].
      destruct (last_activity s <=? pa); [|by eapply ka_check_deaf].
      eapply (section_deaf KeepAliveDir _ (set_d4 D4CloseWrite)); [right; by eexists _, _| |exact Hs].
      by intros s1 (? & ? & ? & _).
  - destruct (lock s) as [|[d block] rest] eqn:Hl; intros [= <-]; left; [by split|].
    set (s1 := set_lock _ _ s). pose proof (after_write_frame d r s1) as (E1 & E2 & E3 & E4 & E5).
    unfold deaf, later. by rewrite E1, E2, E3, E4.
Qed.

Lemma ka_check_keeping ka s s' :
  keepalive config = Some ka -> last_activity s <= now s ->
  ka_check error_text config ka s = Ok s' -> keeping ka s'.
Proof.
  intros Hka Ha. unfold ka_check. destruct (Z.ltb_spec (now s - last_activity s) (interval ka)).
  - intros [= <-]. split; [done|]. cbn. lia.
  - destruct (flush_as _ _ s) as [[s1 block]| | |] eqn:E; try done. intros [= <-].
    destruct (flush_as_later _ _ _ _ _ E (queues_grow (queue_msg WSLAY_PING []) _
      (or_introl (ex_intro _ _ (ex_intro _ _ eq_refl))))) as [_ [l Hp]].
    apply flush_as_frame in E as (_ & _ & _ & _ & _ & _ & En & Ea & _).
    assert (keeping ka (set_d4 D4PingWrite s1)) as Hk.
    { split; [cbn; by rewrite En, Ea|]. cbn. unfold pinged. cbn. rewrite Hp. cbn.
      rewrite !elem_of_app. left. right. by left. }
    destruct block; cbn [write_ws]; [by apply after_write_keeping|exact Hk].
Qed.

Lemma step_keeping ka e s s' :
  keepalive config = Some ka -> keeping ka s -> step error_text config e s = Ok s' -> keeping ka s'.
Proof.
  intros Hka H Hs. destruct (step_later _ _ _ Hs) as [(Hl & Ha & _ & Hd)|(Hl & Ha & Hd)].
  - destruct (decide (acts e s = KeepAliveDir)) as [Hact|Hact].
    + unfold step in Hs. destruct (ended s); [by injection Hs as <-|].
      destruct e; try done.
      * rewrite Hka in Hs. unfold ka_timer in Hs. destruct (d4 s) as [|u| |pa u|] eqn:Hd4;
          try (injection Hs as <-; exact H).
        -- destruct (u <=? now s); [eapply ka_check_keeping; try done; apply H|by injection Hs as <-].
        -- destruct (u <=? now s); [|by injection Hs as <-].
           destruct (last_activity s <=? pa); [|eapply ka_check_keeping; try done; apply H].
           destruct (flush_as _ _ s) as [[s1 block]| | |] eqn:E; try done. injection Hs as <-.
           pose proof (flush_as_frame _ _ _ _ _ E) as (_ & _ & _ & _ & _ & _ & En & Ea & _).
           apply flush_as_later in E as [Hl1 _]; [|by eexists]. destruct H as [H0 H].
           rewrite Hd4 in H. assert (keeping ka (set_d4 D4CloseWrite s1)) as Hk.
           { split; [cbn; by rewrite En, Ea|by eapply pinged_later, H]. }
           destruct block; cbn [write_ws]; [by apply after_write_keeping|exact Hk].
      * cbn in Hact. destruct (lock s) as [|[d block] rest]; [done|]. injection Hs as <-.
        subst d. by apply after_write_keeping.
    + eapply keeping_later; eauto. destruct H, Hl. lia.
  - eapply keeping_later; eauto. lia.
Qed.

(** A ping is sent or a sleep begun. *)
Lemma ka_check_spec ka (s s' : state) :
  keepalive config = Some ka -> ka_check error_text config ka s = Ok s' ->
  ended s' = ended s /\ now s' = now s /\ last_activity s' = last_activity s /\
  d4 s' <> D4CloseWrite /\
  (interval ka <= now s - last_activity s ->
     d4 s' = D4Wait (now s) (now s + timeout ka) /\ lock s' = lock s \/
     d4 s' = D4PingWrite /\ exists block, lock s' = lock s ++ [(KeepAliveDir, block)]).
Proof.
  intros Hka. unfold ka_check. destruct (Z.ltb_spec (now s - last_activity s) (interval ka)).
  - intros [= <-]. split_and!; try done. lia.
  - destruct (flush_as _ _ s) as [[s1 block]| | |] eqn:E; try done. intros [= <-].
    apply flush_as_frame in E as (_ & _ & _ & _ & El & Ee & En & Ea & _).
    destruct block as [|x block]; cbn [write_ws].
    + unfold after_write. rewrite Hka. cbn. rewrite En, El, Ee, Ea. split_and!; try done. auto.
    + cbn. rewrite En, El, Ee, Ea. split_and!; try done. right. by eauto.
Qed.

Lemma start_spec ka s0 :
  keepalive config = Some ka -> start error_text config = Ok s0 ->
  now s0 = 0 /\ last_activity s0 = 0 /\ keeping ka s0.
Proof.
  intros Hka. unfold start. destruct server_init as [c|]; [|done]. rewrite Hka. fold (initial c).
  intros Hs. pose proof (ka_check_keeping ka (initial c) s0 Hka ltac:(done) Hs).
  by apply (ka_check_spec ka _ _ Hka) in Hs as (_ & -> & -> & _).
Qed.

(** The last activity is the last read. *)
Lemma run_heard ka es s0 s :
  keepalive config = Some ka -> start error_text config = Ok s0 ->
  run_from error_text config es s0 = Ok s ->
  keeping ka s /\ exists es1 es2 s1,
    es = es1 ++ es2 /\ run_from error_text config es1 s0 = Ok s1 /\
    ws_in s1 = ws_in s /\ now s1 = last_activity s.
Proof.
  intros Hka H0. destruct (start_spec _ _ Hka H0) as (Hn0 & Ha0 & Hk0).
  revert s. induction es as [|e es IH] using rev_ind; intros s Hr.
  - injection Hr as <-. split; [done|]. exists [], [], s0. by rewrite Hn0, Ha0.
  - rewrite bridge_run_app in Hr. apply bind_Ok in Hr as (s1 & Hr & Hs).
    cbn in Hs. apply bind_Ok in Hs as (s1' & Hs & [= ->]).
    destruct (IH _ Hr) as (Hk & es1 & es2 & s2 & -> & Hr2 & Hi & Hn).
    split; [by eapply step_keeping|].
    destruct (step_later _ _ _ Hs) as [(_ & Ha & Hw & _)|(_ & Ha & _)].
    + exists es1, (es2 ++ [e]), s2. rewrite (assoc_L (++)). split_and!; try done; congruence.
    + exists ((es1 ++ es2) ++ [e]), [], s. rewrite app_nil_r. split_and!; try done.
      rewrite bridge_run_app, Hr. cbn. by rewrite Hs.
Qed.

(** The keepalive closes only a connection it has pinged and from which nothing has
    been read for the whole timeout, in every interleaving and for every wslay. *)
Theorem keepalive_closes_silent ka es s0 s s' :
  keepalive config = Some ka -> start error_text config = Ok s0 ->
  run_from error_text config es s0 = Ok s -> ended s = None ->
  step error_text config KaTimer s = Ok s' ->
  d4 s <> D4CloseWrite /\ d4 s' = D4CloseWrite \/
  ended s' = Some (inr (LocalClose (ka_close ka))) ->
  pinged s /\
  exists es1 es2 s1, es = es1 ++ es2 /\ run_from error_text config es1 s0 = Ok s1 /\
    ws_in s1 = ws_in s /\ now s1 + timeout ka <= now s.
Proof.
  intros Hka H0 Hr He Hs Hc.
  destruct (run_heard _ _ _ _ Hka H0 Hr) as ([Ha Hk] & es1 & es2 & s1 & Hes & Hr1 & Hi & Hn).
  assert (forall s1, ka_check error_text config ka s = Ok s1 -> s' = s1 -> False) as Hcheck.
  { intros s2 E ->. apply (ka_check_spec ka _ _ Hka) in E as (E & _ & _ & Hd & _).
    rewrite E, He in Hc. by destruct Hc as [[_ ?]|?]. }
  assert (s' = s -> False) as Hsame.
  { intros ->. rewrite He in Hc. by destruct Hc as [[? ?]|?]. }
  unfold step in Hs. rewrite He, Hka in Hs. unfold ka_timer in Hs.
  destruct (d4 s) as [|u| |pa u|]; try (exfalso; by injection Hs as <-; apply Hsame).
  - exfalso. destruct (u <=? now s); [by eapply Hcheck|by injection Hs as <-; apply Hsame].
  - destruct (Z.leb_spec u (now s)); [|exfalso; by injection Hs as <-; apply Hsame].
    destruct (Z.leb_spec (last_activity s) pa); [|exfalso; by eapply Hcheck].
    destruct Hk as (Hpa & -> & Hp). split; [done|]. exists es1, es2, s1. split_and!; try done. lia.
Qed.

Lemma run_ended es s r : ended s = Some r -> run_from error_text config es s = Ok s.
Proof.
  intros He. induction es as [|e es IH]; [done|]. cbn [run_from]. unfold step. rewrite He. exact IH.
Qed.

(** Time passes, the timer is polled and what it sends is written. *)
Definition silent_round (d : Z) : list (@event IoError) := [Tick d; KaTimer; WsWrote (inr tt)].

Lemma round_steps d s :
  relays [] s -> locked s ->
  exists s2 s3, step error_text config KaTimer (set_time (now s + Z.max 0 d) (last_activity s) s) = Ok s2 /\
    step error_text config (WsWrote (inr tt)) s2 = Ok s3 /\ relays [] s3 /\ locked s3 /\
    (ended s = None -> run_from error_text config (silent_round d) s = Ok s3).
Proof.
  intros H HL. set (s1 := set_time _ _ s).
  assert (relays [] s1 /\ locked s1) as [H1 HL1].
  { split; [same|]. intros He. by eapply queued_ext, (HL He). }
  destruct (step_relays KaTimer s1 H1 HL1) as (s2 & E2 & H2).
  pose proof (step_locked _ _ _ HL1 E2) as HL2.
  destruct (step_relays (WsWrote (inr tt)) s2 H2 HL2) as (s3 & E3 & H3).
  exists s2, s3. split_and!; try done; [by eapply step_locked|]. intros He.
  assert (step error_text config (Tick d) s = Ok s1) as E1 by (unfold step; by rewrite He).
  unfold silent_round. cbn [run_from]. rewrite E1. cbn [mbind outcome_bind]. rewrite E2. cbn [mbind outcome_bind]. by rewrite E3.
Qed.

(** Waiting for a pong that has not come. *)
Definition unanswered (ka : KeepAlive) (d : Z) (s : state) : Prop :=
  ended s = None /\ lock s = [] /\
  exists pa u, d4 s = D4Wait pa u /\ u <= now s + d /\ last_activity s <= pa.

Lemma unanswered_closes ka d s :
  keepalive config = Some ka -> relays [] s -> locked s -> unanswered ka d s ->
  exists s', run_from error_text config (silent_round d) s = Ok s' /\
    ended s' = Some (inr (LocalClose (ka_close ka))).
Proof.
  intros Hka H HL (He & Hl & pa & u & Hd & Hu & Ha).
  destruct (round_steps d s H HL) as (s2 & s3 & E2 & E3 & _ & _ & Hr).
  exists s3. split; [by apply Hr|]. clear Hr. set (s1 := set_time _ _ s) in *.
  unfold step in E2. change (ended s1) with (ended s) in E2. rewrite He, Hka in E2.
  unfold ka_timer in E2. change (d4 s1) with (d4 s) in E2. rewrite Hd in E2.
  destruct (Z.leb_spec u (now s1)) as [_|Hlt]; [|cbn in Hlt; lia].
  destruct (Z.leb_spec (last_activity s1) pa) as [_|Hlt]; [|cbn in Hlt; lia].
  destruct (flush_as _ _ s1) as [[sf block]| | |] eqn:E; try done. injection E2 as <-.
  apply flush_as_frame in E as (_ & _ & _ & _ & El & Ee & _). cbn in El, Ee. rewrite Hl in El. rewrite He in Ee.
  destruct block as [|x block]; cbn [write_ws] in E3.
  - unfold after_write in E3. rewrite Hka in E3. cbn in E3. by injection E3 as <-.
  - unfold step in E3. cbn in E3. rewrite Ee, El in E3. cbn in E3. rewrite Hka in E3.
    by injection E3 as <-.
Qed.

(** After one silent round the ping is out, or the connection closed. *)
Lemma round_pings ka d s :
  keepalive config = Some ka -> relays [] s -> locked s -> keeping ka s ->
  ended s = None -> lock s = [] -> interval ka <= d -> timeout ka <= d ->
  exists s', run_from error_text config (silent_round d) s = Ok s' /\ relays [] s' /\ locked s' /\
    (ended s' = Some (inr (LocalClose (ka_close ka))) \/ unanswered ka d s').
Proof.
  intros Hka H HL Hk He Hl Hi Ht.
  assert (forall pa u, d4 s = D4Wait pa u -> last_activity s <= pa -> unanswered ka d s) as Hun.
  { intros pa u Hd Ha. split; [done|split; [done|]]. exists pa, u. destruct Hk as [_ Hk].
    rewrite Hd in Hk. split_and!; [done|lia|done]. }
  destruct (round_steps d s H HL) as (s2 & s3 & E2 & E3 & H3 & HL3 & Hr). specialize (Hr He).
  exists s3. split_and!; try done.
  assert (forall sc, step error_text config (WsWrote (inr tt)) sc = Ok s3 ->
    ka_check error_text config ka (set_time (now s + Z.max 0 d) (last_activity s) s) = Ok sc ->
    unanswered ka d s3) as Hping.
  { intros sc E3' E. destruct Hk as [Ha _].
    apply (ka_check_spec ka _ _ Hka) in E as (Ee & En & Ela & _ & Hp). cbn in Ee, En, Ela, Hp.
    rewrite He in Ee. rewrite Hl in Hp. unfold step in E3'. rewrite Ee in E3'.
    destruct Hp as [[Hd4 Hlk]|[Hd4 [block Hlk]]]; [lia| |]; rewrite Hlk in E3'; cbn in E3'.
    - injection E3' as <-. split; [done|split; [done|]]. eexists _, _. split; [done|].
      rewrite En, Ela. lia.
    - unfold after_write in E3'. cbn in E3'. rewrite Hd4, Hka in E3'. injection E3' as <-.
      split; [done|split; [done|]]. eexists _, _. split; [done|]. cbn. rewrite En, Ela. lia. }
  pose proof Hk as [Ha Hk4]. unfold step in E2. cbn [ended set_time] in E2. rewrite He, Hka in E2.
  unfold ka_timer in E2. cbn [d4 set_time now last_activity] in E2.
  destruct (d4 s) as [|u| |pa u|] eqn:Hd; try done.
  - destruct (Z.leb_spec u (now s + Z.max 0 d)); [|lia]. right. by eapply Hping.
  - exfalso. assert (writing KeepAliveDir s = true) as Hw by (cbn; by rewrite Hd).
    apply (HL He) in Hw. rewrite Hl in Hw. by apply not_elem_of_nil in Hw.
  - destruct Hk4 as (Hpa & -> & Hp). destruct (Z.leb_spec (pa + timeout ka) (now s + Z.max 0 d)); [|lia].
    destruct (Z.leb_spec (last_activity s) pa) as [Hle|_]; [|right; by eapply Hping].
    left. destruct (unanswered_closes ka d s Hka H HL (Hun _ _ eq_refl Hle)) as (s' & Hr' & He').
    congruence.
  - exfalso. assert (writing KeepAliveDir s = true) as Hw by (cbn; by rewrite Hd).
    apply (HL He) in Hw. rewrite Hl in Hw. by apply not_elem_of_nil in Hw.
Qed.

(** C27: A peer that has gone silent is given up: from any reachable state with nothing
    left to write, two rounds of the keepalive's timer, each after the interval and the
    timeout, end the bridge with the keepalive's close, if nothing else happens. *)
Theorem keepalive_closes_dead ka es s0 s d :
  keepalive config = Some ka -> start error_text config = Ok s0 ->
  run_from error_text config es s0 = Ok s -> ended s = None -> lock s = [] ->
  interval ka <= d -> timeout ka <= d ->
  exists s', run_from error_text config (silent_round d ++ silent_round d) s = Ok s' /\
    ended s' = Some (inr (LocalClose (ka_close ka))).
Proof.
  intros Hka H0 Hr He Hl Hi Ht. destruct (run_heard _ _ _ _ Hka H0 Hr) as [Hk _].
  pose proof start_relays as Hst. rewrite H0 in Hst. destruct Hst as [Hst1 Hst2].
  destruct (run_relays es s0 Hst1 Hst2) as (s1 & E & H & HL). rewrite Hr in E. injection E as <-.
  destruct (round_pings ka d s Hka H HL Hk He Hl Hi Ht) as (s1 & E & H1 & HL1 & [Hend|Hun]).
  - exists s1. split; [|done]. rewrite bridge_run_app, E. by eapply run_ended.
  - destruct (unanswered_closes ka d s1 Hka H1 HL1 Hun) as (s' & E' & Hend).
    exists s'. split; [|done]. by rewrite bridge_run_app, E.
Qed.

(** ** The bridge after a protocol violation *)

(** wslay has stopped reading ([read_enabled] is 0) without a Close from the peer: it
    takes no more input, has nothing to send and reports no error. *)
Definition stopped (c : Ctx) : Prop :=
  event_recv c = Ret (c, 0) /\ event_send c = Ret (c, 0) /\ get_close_received c = false.

(** The bridge is parked in its reads, [i] being unconsumed input. *)
Definition reading (i : bytes) (s : state) : Prop :=
  ended s = None /\ d1 s = D1Read /\ stopped (ctx (wslay s)) /\
  exists cur, shared (wslay s) = mkShared i 0 [] [] cur [].

Lemma reading_step i data s :
  reading i s -> data <> [] -> zlen data <= READ_CHUNK ->
  exists s', step error_text config (WsRead (inr data)) s = Ok s' /\ reading (i ++ data) s' /\
    now s' = now s /\ last_activity s' = now s.
Proof.
  intros (He & Hd & (Hrecv & Hsend & Hcl) & cur & Hsh) Hn Hlen.
  unfold step, read_fits. rewrite He, Hd. destruct (Z.leb_spec (zlen data) READ_CHUNK); [|lia].
  destruct data as [|x data]; [done|]. cbn [ws_read]. cbn [wslay set_time].
  unfold feed, run_wslay. cbn [ctx shared calls]. rewrite Hrecv. cbn [exec mbind outcome_bind].
  cbn [ctx shared calls]. rewrite Hsend. cbn [exec mbind outcome_bind ctx shared calls].
  rewrite Hsh, Hcl. cbn. eexists. split; [done|]. split; [|done].
  split; [done|split; [done|]]. split; [done|]. by exists cur.
Qed.

(** After a protocol violation the bridge hoards: once wslay has stopped reading
    without having received a Close, whatever the client goes on sending is appended
    to the input buffer, without bound, and each read counts as activity for the
    keepalive. *)
Theorem bridge_hoards i s datas :
  reading i s ->
  Forall (fun data => data <> [] /\ zlen data <= READ_CHUNK) datas ->
  exists s', run_from error_text config ((fun data => WsRead (inr data)) <$> datas) s = Ok s' /\
    inbound (shared (wslay s')) = i ++ concat datas /\ ended s' = None /\
    (datas <> [] -> last_activity s' = now s').
Proof.
  intros Hs Hd. enough (exists s', run_from error_text config
      ((fun data => WsRead (inr data)) <$> datas) s = Ok s' /\ reading (i ++ concat datas) s' /\
      now s' = now s /\ (datas <> [] -> last_activity s' = now s)) as (s' & E & H & Hn & Ha).
  { destruct H as (He & _ & _ & cur & Hsh). exists s'. rewrite Hsh, Hn. by split_and!. }
  revert i s Hs. induction Hd as [|data datas [Hne Hlen] _ IH]; intros i s Hs; cbn.
  - exists s. by rewrite app_nil_r.
  - destruct (reading_step i data s Hs Hne Hlen) as (s1 & E1 & H1 & Hn1 & Ha1). rewrite E1. cbn.
    destruct (IH _ _ H1) as (s' & E & H & Hn & Ha). exists s'. rewrite (assoc_L (++)).
    split_and!; try done; [congruence|]. intros _. destruct datas as [|data' datas].
    + cbn in E. congruence.
    + rewrite Ha by done. congruence.
Qed.
End facts.

(** ** Runs *)

(** A wslay that queues what it is given, unframed, and has stopped reading. *)
Module Deaf.

#[export] Instance deaf_wslay : Wslay (list bytes) := {
  server_init := Some [];
  set_no_buffering c := c;
  event_recv c := Ret (c, 0);
  event_send c :=
    match c with [] => Ret (c, 0) | _ => Send (concat c) (fun _ => Ret ([], 0)) end;
  event_queue_msg c opcode p := c ++ [opcode :: p];
  event_queue_close c code r := c ++ [0x8 :: r];
  get_close_received _ := false;
}.

Definition text (e : unit) : bytes := [].

(** The state [start] returns, and the one after the events [es]. *)
Definition after (es : list (@event unit)) : outcome unit (@t (list bytes) unit) :=
  s ← start text BridgeConfig_default; run_from text BridgeConfig_default es s.

End Deaf.

Import Deaf.

Lemma keepalive_closes_silent_witness :
  exists s, after [Tick 30000; KaTimer; WsWrote (inr tt); Tick 15000] = Ok s /\ pinged s.
Proof.
  eexists. split; [vm_compute; reflexivity|].
  eapply (keepalive_closes_silent text BridgeConfig_default KeepAlive_default
    [Tick 30000; KaTimer; WsWrote (inr tt); Tick 15000]);
    [reflexivity|vm_compute; reflexivity|vm_compute; reflexivity|reflexivity
    |vm_compute; reflexivity|left; split; [discriminate|reflexivity]].
Defined.

Lemma keepalive_closes_dead_witness :
  exists s s', after [PeerRead (inr [1; 2]); WsWrote (inr tt)] = Ok s /\
  run_from text BridgeConfig_default (silent_round 30000 ++ silent_round 30000) s = Ok s' /\
  ended s' = Some (inr (LocalClose (closeFrame 1001 (str "keepalive timeout")))).
Proof.
  eexists. edestruct (keepalive_closes_dead text BridgeConfig_default KeepAlive_default
    [PeerRead (inr [1; 2]); WsWrote (inr tt)]) as (s' & E & H);
    [reflexivity|vm_compute; reflexivity|vm_compute; reflexivity|reflexivity|reflexivity
    | | |exists s'; split; [vm_compute; reflexivity|split; [exact E|exact H]]];
    vm_compute; discriminate.
Defined.

Lemma bridge_hoards_witness :
  exists s s', after [] = Ok s /\
  run_from text BridgeConfig_default [WsRead (inr [1]); WsRead (inr [2; 3])] s = Ok s' /\
  inbound (shared (wslay s')) = [1; 2; 3] /\ ended s' = None.
Proof.
  eexists. edestruct (bridge_hoards text BridgeConfig_default [])
    with (datas := [[1]; [2; 3]]) as (s' & E & H1 & H2 & _);
    [| |exists s'; split; [vm_compute; reflexivity|split; [exact E|split; [exact H1|exact H2]]]].
  - split; [reflexivity|split; [reflexivity|split; [by split|by exists false]]].
  - repeat constructor; discriminate.
Defined.
