(* ===== verification/WslayC.v ===== *)
(** * WslayC: the vendored wslay

    Models [rust/crates/wslay-sys/vendor/wslay_frame.c] and [wslay_event.c] as
    [wslay.rs] uses them: a server context, whole messages ([WSLAY_NON_FRAGMENTED]),
    the callbacks [wslay.rs] sets.  The functions that call back are programs
    ([Bridge.prog]); the others are functions of the context.  The two structs are
    split into the half that receives and the half that sends.  [malloc] succeeds; a
    queued chunk is the bytes copied to it so far.  [wslay_c] is the instance of
    [Bridge.Wslay].  The theorems are in WslayFacts.v. *)

From S2P Require Import Prelude Bridge.

#[export] Instance prog_ret : MRet prog := @Ret.

#[export] Instance prog_bind : MBind prog := fun A B f =>
  fix go (p : prog A) : prog B :=
    match p with
    | Ret a => f a
    | Recv len k => Recv len (fun r => go (k r))
    | Send data k => Send data (fun n => go (k n))
    | FrameStart opcode k => FrameStart opcode (go k)
    | FrameChunk data k => FrameChunk data (go k)
    | MsgRecv opcode status_code msg k => MsgRecv opcode status_code msg (go k)
    end.

Definition WSLAY_ERR_WANT_READ : Z := -100.
Definition WSLAY_ERR_WANT_WRITE : Z := -101.
Definition WSLAY_ERR_PROTO : Z := -200.
Definition WSLAY_ERR_INVALID_ARGUMENT : Z := -300.
Definition WSLAY_ERR_INVALID_CALLBACK : Z := -301.
Definition WSLAY_ERR_NO_MORE_MSG : Z := -302.
Definition WSLAY_ERR_CALLBACK_FAILURE : Z := -400.
Definition WSLAY_ERR_WOULDBLOCK : Z := -401.

Definition WSLAY_CODE_PROTOCOL_ERROR : Z := 1002.
Definition WSLAY_CODE_NO_STATUS_RCVD : Z := 1005.
Definition WSLAY_CODE_ABNORMAL_CLOSURE : Z := 1006.
Definition WSLAY_CODE_INVALID_FRAME_PAYLOAD_DATA : Z := 1007.
Definition WSLAY_CODE_MESSAGE_TOO_BIG : Z := 1009.

Definition WSLAY_CONTINUATION_FRAME : Z := 0x0.
Definition WSLAY_TEXT_FRAME : Z := 0x1.
Definition WSLAY_CONNECTION_CLOSE : Z := 0x8.

Definition wslay_is_ctrl_frame (opcode : Z) : bool := Z.land (Z.shiftr opcode 3) 1 =? 1.
Definition wslay_get_rsv1 (rsv : Z) : bool := Z.land (Z.shiftr rsv 2) 1 =? 1.

(** ** Frames: wslay_frame.c *)

Inductive frame_state :=
  | PREP_HEADER
  | PREP_HEADER_NOBUF
  | SEND_HEADER
  | SEND_PAYLOAD
  | RECV_HEADER1
  | RECV_PAYLOADLEN
  | RECV_EXT_PAYLOADLEN
  | RECV_MASKKEY
  | RECV_PAYLOAD.

#[export] Instance frame_state_eq_dec : EqDecision frame_state.
Proof. solve_decision. Defined.

(** The receiving half of [wslay_frame_context], with the [error] of the event context,
    which the receive callback sets.  [ibuf]: from [ibufmark] to [ibuflimit]. *)
Record frame_in := mkFrameIn {
  ibuf : bytes;
  iom_fin : Z;
  iom_rsv : Z;
  iom_opcode : Z;
  ipayloadlen : Z;
  ipayloadoff : Z;
  imask : Z;
  imaskkey : bytes;
  istate : frame_state;
  ireqread : Z;
  error : Z;
}.

(** The sending half; a server sends no mask.  [oheader]: from [oheadermark] to
    [oheaderlimit]. *)
Record frame_out := mkFrameOut {
  oheader : bytes;
  opayloadlen : Z;
  opayloadoff : Z;
  ostate : frame_state;
}.

Definition frame_in_init : frame_in := mkFrameIn [] 0 0 0 0 0 0 [0; 0; 0; 0] RECV_HEADER1 2 0.
Definition frame_out_init : frame_out := mkFrameOut [] 0 0 PREP_HEADER.

Definition set_ibuf b f := mkFrameIn b (iom_fin f) (iom_rsv f) (iom_opcode f) (ipayloadlen f)
  (ipayloadoff f) (imask f) (imaskkey f) (istate f) (ireqread f) (error f).
Definition set_iom fin rsv opcode mask f := mkFrameIn (ibuf f) fin rsv opcode (ipayloadlen f)
  (ipayloadoff f) mask (imaskkey f) (istate f) (ireqread f) (error f).
Definition set_ipayload len off f := mkFrameIn (ibuf f) (iom_fin f) (iom_rsv f) (iom_opcode f) len
  off (imask f) (imaskkey f) (istate f) (ireqread f) (error f).
Definition set_imaskkey key f := mkFrameIn (ibuf f) (iom_fin f) (iom_rsv f) (iom_opcode f)
  (ipayloadlen f) (ipayloadoff f) (imask f) key (istate f) (ireqread f) (error f).
Definition set_istate st req f := mkFrameIn (ibuf f) (iom_fin f) (iom_rsv f) (iom_opcode f)
  (ipayloadlen f) (ipayloadoff f) (imask f) (imaskkey f) st req (error f).
Definition set_error e f := mkFrameIn (ibuf f) (iom_fin f) (iom_rsv f) (iom_opcode f)
  (ipayloadlen f) (ipayloadoff f) (imask f) (imaskkey f) (istate f) (ireqread f) e.

(** [wslay_frame_iocb] as [wslay_frame_recv] fills it. *)
Record frame_iocb := mkIocb {
  io_fin : Z;
  io_rsv : Z;
  io_opcode : Z;
  io_payload_length : Z;
  io_mask : Z;
  io_data : bytes;
}.

(** *** Receiving *)

(** [wslay_recv]: at most what is left of [ibuf[4096]]. *)
Definition wslay_recv (f : frame_in) : prog (frame_in * Z) :=
  Recv (Z.to_nat (4096 - zlen (ibuf f))) (fun r =>
    match r with
    | Some ((_ :: _) as d) => mret (set_ibuf (ibuf f ++ d) f, zlen d)
    | Some [] => mret (f, WSLAY_ERR_WANT_READ)
    | None => mret (set_error WSLAY_ERR_WOULDBLOCK f, WSLAY_ERR_WANT_READ)
    end).

(** A stage of [wslay_frame_recv] waits for [ireqread] bytes.  [Some r]: it returns [r]. *)
Definition await_ireqread (f : frame_in) : prog (frame_in * option Z) :=
  if zlen (ibuf f) <? ireqread f then
    '(f, r) ← wslay_recv f;
    if r <=? 0 then mret (f, Some r)
    else if zlen (ibuf f) <? ireqread f then mret (f, Some WSLAY_ERR_WANT_READ)
    else mret (f, None)
  else mret (f, None).

(** After the length: the mask key, or the payload. *)
Definition after_length (f : frame_in) : frame_in :=
  if imask f =? 1 then set_istate RECV_MASKKEY 4 f else set_istate RECV_PAYLOAD (ireqread f) f.

(** The [RECV_HEADER1] stage on its two bytes. *)
Definition recv_header1 (f : frame_in) : frame_in * option Z :=
  match ibuf f with
  | b0 :: b1 :: rest =>
      let fin := Z.land (Z.shiftr b0 7) 1 in
      let rsv := Z.land (Z.shiftr b0 4) 7 in
      let opcode := Z.land b0 0xf in
      let payloadlen := Z.land b1 0x7f in
      let f := set_ibuf rest (set_iom fin rsv opcode (Z.land (Z.shiftr b1 7) 1) f) in
      if wslay_is_ctrl_frame opcode && ((125 <? payloadlen) || (fin =? 0))
      then (f, Some WSLAY_ERR_PROTO)
      else if payloadlen =? 126 then (set_istate RECV_EXT_PAYLOADLEN 2 f, None)
      else if payloadlen =? 127 then (set_istate RECV_EXT_PAYLOADLEN 8 f, None)
      else (after_length (set_ipayload payloadlen 0 f), None)
  | _ => (f, Some WSLAY_ERR_INVALID_ARGUMENT)  (* there are two *)
  end.

(** An integer in network order. *)
Definition be_value (l : bytes) : Z := fold_left (fun a b => a * 256 + b) l 0.

(** The [RECV_EXT_PAYLOADLEN] stage on its 2 or 8 bytes. *)
Definition recv_ext_payloadlen (f : frame_in) : frame_in * option Z :=
  let n := Z.to_nat (ireqread f) in
  let len := be_value (take n (ibuf f)) in
  let f := set_ibuf (drop n (ibuf f)) (set_ipayload len 0 f) in
  if (if ireqread f =? 8 then (len <? 65536) || Z.testbit len 63 else len <? 126)
  then (f, Some WSLAY_ERR_PROTO)
  else (after_length f, None).

(** The [RECV_MASKKEY] stage on its four bytes. *)
Definition recv_maskkey (f : frame_in) : frame_in * option Z :=
  (set_istate RECV_PAYLOAD (ireqread f)
     (set_ibuf (drop 4 (ibuf f)) (set_imaskkey (take 4 (ibuf f)) f)), None).

(** [data[i] ^= imaskkey[(off + i) % 4]] *)
Fixpoint unmask (key : bytes) (off : Z) (data : bytes) : bytes :=
  match data with
  | [] => []
  | b :: data => Z.lxor b (nth (Z.to_nat (off mod 4)) key 0) :: unmask key (off + 1) data
  end.

(** The [RECV_PAYLOAD] stage: what is there of the payload. *)
Definition recv_payload (f : frame_in) : frame_in * frame_iocb :=
  let rem := ipayloadlen f - ipayloadoff f in
  let n := if zlen (ibuf f) <? rem then length (ibuf f) else Z.to_nat rem in
  let data := take n (ibuf f) in
  let data := if imask f =? 1 then unmask (imaskkey f) (ipayloadoff f) data else data in
  let f := set_ibuf (drop n (ibuf f)) (set_ipayload (ipayloadlen f) (ipayloadoff f + Z.of_nat n) f) in
  ((if ipayloadlen f =? ipayloadoff f then set_istate RECV_HEADER1 2 f else f),
   mkIocb (iom_fin f) (iom_rsv f) (iom_opcode f) (ipayloadlen f) (imask f) data).

(** One stage: skipped in another state. *)
Definition stage (st : frame_state) (body : frame_in -> frame_in * option Z) (f : frame_in)
    : prog (frame_in * option Z) :=
  if decide (istate f = st) then
    '(f, r) ← await_ireqread f;
    mret (match r with Some _ => (f, r) | None => body f end)
  else mret (f, None).

(** [return r] of a stage; [inl]: the code of [wslay_frame_recv]. *)
Definition or_return (p : prog (frame_in * option Z))
    (k : frame_in -> prog (frame_in * (Z + frame_iocb))) : prog (frame_in * (Z + frame_iocb)) :=
  '(f, r) ← p;
  match r with Some r => mret (f, inl r) | None => k f end.

(** The last stage.  [inr]: [data_length >= 0], the frame in the [iocb]. *)
Definition payload_stage (f : frame_in) : prog (frame_in * (Z + frame_iocb)) :=
  if decide (istate f = RECV_PAYLOAD) then
    '(f, r) ← (if (zlen (ibuf f) =? 0) && (0 <? ipayloadlen f - ipayloadoff f)
               then wslay_recv f else mret (f, 1));
    if r <=? 0 then mret (f, inl r)
    else let '(f, io) := recv_payload f in mret (f, inr io)
  else mret (f, inl WSLAY_ERR_INVALID_ARGUMENT).

Definition wslay_frame_recv (f : frame_in) : prog (frame_in * (Z + frame_iocb)) :=
  or_return (stage RECV_HEADER1 recv_header1 f) (fun f =>
  or_return (stage RECV_EXT_PAYLOADLEN recv_ext_payloadlen f) (fun f =>
  or_return (stage RECV_MASKKEY recv_maskkey f) payload_stage)).

(** *** Sending *)

(** The header of a frame of a server, or [None] for a payload it cannot have. *)
Definition make_header (fin rsv opcode payload_length : Z) : option bytes :=
  let b0 := Z.lor (Z.lor (Z.land (Z.shiftl fin 7) 0x80) (Z.land (Z.shiftl rsv 4) 0x70))
              (Z.land opcode 0xf) in
  if wslay_is_ctrl_frame opcode && (125 <? payload_length) then None
  else if payload_length <? 126 then Some [b0; payload_length]
  else if payload_length <? 65536 then
    Some ([b0; 126] ++ [Z.shiftr payload_length 8 mod 256; payload_length mod 256])
  else if payload_length <? 2 ^ 63 then
    Some ([b0; 127] ++
      ((fun i => Z.shiftr payload_length (8 * i) mod 256) <$> [7; 6; 5; 4; 3; 2; 1; 0]))
  else None.

(** [wslay_frame_send] on the data of [iocb], [payload_length] the frame's. *)
Definition wslay_frame_send (fin rsv opcode payload_length : Z) (data : bytes) (f : frame_out)
    : prog (frame_out * Z) :=
  if payload_length <? zlen data then mret (f, WSLAY_ERR_INVALID_ARGUMENT) else
  match (if decide (ostate f = PREP_HEADER) then
           match make_header fin rsv opcode payload_length with
           | Some header => Some (mkFrameOut header payload_length 0 SEND_HEADER)
           | None => None
           end
         else Some f) with
  | None => mret (f, WSLAY_ERR_INVALID_ARGUMENT)
  | Some f =>
      '(f, r) ← (if decide (ostate f = SEND_HEADER) then
        Send (oheader f) (fun r =>
          let n := Z.to_nat r in
          if r <=? 0 then mret (f, Some WSLAY_ERR_WANT_WRITE)
          else if zlen (oheader f) <? r then mret (f, Some WSLAY_ERR_INVALID_CALLBACK)
          else if zlen (oheader f) =? r
          then mret (mkFrameOut [] (opayloadlen f) (opayloadoff f) SEND_PAYLOAD, None)
          else mret (mkFrameOut (drop n (oheader f)) (opayloadlen f) (opayloadoff f) SEND_HEADER,
                 Some WSLAY_ERR_WANT_WRITE))
      else mret (f, None));
      match r with
      | Some r => mret (f, r)
      | None =>
          if decide (ostate f = SEND_PAYLOAD) then
            '(f, r) ← (match data with
              | [] => mret (f, 0)
              | _ =>
                  Send data (fun r =>
                    if r <=? 0 then mret (f, WSLAY_ERR_WANT_WRITE)
                    else if zlen data <? r then mret (f, WSLAY_ERR_INVALID_CALLBACK)
                    else mret (mkFrameOut (oheader f) (opayloadlen f) (opayloadoff f + r) (ostate f), r))
              end);
            if r <? 0 then mret (f, r)
            else mret (if opayloadoff f =? opayloadlen f
                       then mkFrameOut (oheader f) (opayloadlen f) (opayloadoff f) PREP_HEADER
                       else f, r)
          else mret (f, WSLAY_ERR_INVALID_ARGUMENT)
      end
  end.

(** ** Events: wslay_event.c *)

(** *** The UTF-8 automaton *)

Definition UTF8_ACCEPT : Z := 0.
Definition UTF8_REJECT : Z := 12.

Definition utf8d : bytes :=
  replicate 128 0 ++
  replicate 16 1 ++ replicate 16 9 ++ replicate 32 7 ++
  [8; 8] ++ replicate 30 2 ++
  [10; 3; 3; 3; 3; 3; 3; 3; 3; 3; 3; 3; 3; 4; 3; 3; 11; 6; 6; 6; 5; 8; 8; 8; 8; 8; 8; 8; 8; 8; 8; 8] ++
  [0; 12; 24; 36; 60; 96; 84; 12; 12; 12; 48; 72; 12; 12; 12; 12; 12; 12; 12; 12; 12; 12; 12; 12;
   12; 0; 12; 12; 12; 12; 12; 0; 12; 0; 12; 12; 12; 24; 12; 12; 12; 12; 12; 24; 12; 24; 12; 12;
   12; 12; 12; 12; 12; 12; 12; 24; 12; 12; 12; 12; 12; 24; 12; 12; 12; 12; 12; 12; 12; 24; 12; 12;
   12; 12; 12; 12; 12; 12; 12; 36; 12; 36; 12; 12; 12; 36; 12; 12; 12; 12; 12; 36; 12; 36; 12; 12;
   12; 36; 12; 12; 12; 12; 12; 12; 12; 12; 12; 12].

(** [decode], the code point left out. *)
Definition decode (state byte : Z) : Z :=
  nth (Z.to_nat (256 + state + nth (Z.to_nat byte) utf8d 0)) utf8d 0.

(** The loop over a chunk, which stops at the first byte rejected. *)
Fixpoint validate (state : Z) (data : bytes) : Z :=
  match data with
  | [] => state
  | b :: data =>
      let state := decode state b in
      if state =? UTF8_REJECT then UTF8_REJECT else validate state data
  end.

(** *** The context *)

Record wslay_event_imsg := mkImsg {
  fin : Z;
  rsv : Z;
  opcode : Z;  (* 0xff: none *)
  utf8state : Z;
  chunks : bytes;
  msg_length : Z;
}.

Record wslay_event_omsg := mkOmsg {
  o_opcode : Z;
  o_rsv : Z;
  o_data : bytes;
}.

(** [wslay_event_context], the half that receives. *)
Record event_in := mkEventIn {
  frame_ctx_in : frame_in;
  read_enabled : bool;
  imsgs0 : wslay_event_imsg;
  imsgs1 : wslay_event_imsg;
  on_imsgs1 : bool;  (* [imsg] points to [imsgs[1]] *)
  e_ipayloadlen : Z;
  e_ipayloadoff : Z;
  status_code_recv : Z;
  close_received : bool;  (* [close_status & WSLAY_CLOSE_RECEIVED] *)
}.

(** The half that sends. *)
Record event_out := mkEventOut {
  frame_ctx_out : frame_out;
  write_enabled : bool;
  omsg : option wslay_event_omsg;
  send_queue : list wslay_event_omsg;
  send_ctrl_queue : list wslay_event_omsg;
  queued_msg_count : Z;
  queued_msg_length : Z;
  e_opayloadlen : Z;
  e_opayloadoff : Z;
  status_code_sent : Z;
  close_queued : bool;
  close_sent : bool;
}.

Record wslay_event_context := mkCtx {
  no_buffering : bool;  (* [config & WSLAY_CONFIG_NO_BUFFERING] *)
  ein : event_in;
  eout : event_out;
}.

Definition max_recv_msg_length : Z := 2 ^ 31 - 1.

Definition imsg_reset (m : wslay_event_imsg) : wslay_event_imsg :=
  mkImsg (fin m) (rsv m) 0xff UTF8_ACCEPT [] (msg_length m).
Definition imsg_set (f r op : Z) (m : wslay_event_imsg) : wslay_event_imsg :=
  mkImsg f r op (utf8state m) (chunks m) 0.

Definition wslay_event_context_server_init : wslay_event_context :=
  let m := imsg_reset (mkImsg 0 0 0 0 [] 0) in
  mkCtx false
    (mkEventIn frame_in_init true m m false 0 0 WSLAY_CODE_ABNORMAL_CLOSURE false)
    (mkEventOut frame_out_init true None [] [] 0 0 0 0 WSLAY_CODE_ABNORMAL_CLOSURE false false).

Definition wslay_event_config_set_no_buffering (c : wslay_event_context) : wslay_event_context :=
  mkCtx true (ein c) (eout c).

Definition wslay_event_get_close_received (c : wslay_event_context) : bool := close_received (ein c).

Definition set_ein i c := mkCtx (no_buffering c) i (eout c).
Definition set_eout o c := mkCtx (no_buffering c) (ein c) o.

Definition set_frame_in f i := mkEventIn f (read_enabled i) (imsgs0 i) (imsgs1 i) (on_imsgs1 i)
  (e_ipayloadlen i) (e_ipayloadoff i) (status_code_recv i) (close_received i).
Definition set_read_enabled b i := mkEventIn (frame_ctx_in i) b (imsgs0 i) (imsgs1 i) (on_imsgs1 i)
  (e_ipayloadlen i) (e_ipayloadoff i) (status_code_recv i) (close_received i).
Definition set_on_imsgs1 b i := mkEventIn (frame_ctx_in i) (read_enabled i) (imsgs0 i) (imsgs1 i) b
  (e_ipayloadlen i) (e_ipayloadoff i) (status_code_recv i) (close_received i).
Definition set_e_ipayload len off i := mkEventIn (frame_ctx_in i) (read_enabled i) (imsgs0 i)
  (imsgs1 i) (on_imsgs1 i) len off (status_code_recv i) (close_received i).
Definition set_received code i := mkEventIn (frame_ctx_in i) (read_enabled i) (imsgs0 i) (imsgs1 i)
  (on_imsgs1 i) (e_ipayloadlen i) (e_ipayloadoff i) code true.

(** [*ctx->imsg] *)
Definition imsg (i : event_in) : wslay_event_imsg := if on_imsgs1 i then imsgs1 i else imsgs0 i.
Definition set_imsg m i :=
  if on_imsgs1 i
  then mkEventIn (frame_ctx_in i) (read_enabled i) (imsgs0 i) m (on_imsgs1 i)
         (e_ipayloadlen i) (e_ipayloadoff i) (status_code_recv i) (close_received i)
  else mkEventIn (frame_ctx_in i) (read_enabled i) m (imsgs1 i) (on_imsgs1 i)
         (e_ipayloadlen i) (e_ipayloadoff i) (status_code_recv i) (close_received i).

(** *** Queueing *)

Definition wslay_event_is_msg_queueable (o : event_out) : bool :=
  write_enabled o && negb (close_queued o).

(** [wslay_event_queue_msg_ex] without reserved bits. *)
Definition wslay_event_queue_msg (op : Z) (msg : bytes) (o : event_out) : event_out * Z :=
  if negb (wslay_event_is_msg_queueable o) then (o, WSLAY_ERR_NO_MORE_MSG)
  else if wslay_is_ctrl_frame op && (125 <? zlen msg) then (o, WSLAY_ERR_INVALID_ARGUMENT)
  else
    let m := mkOmsg op 0 msg in
    (mkEventOut (frame_ctx_out o) (write_enabled o) (omsg o)
       (if wslay_is_ctrl_frame op then send_queue o else send_queue o ++ [m])
       (if wslay_is_ctrl_frame op then send_ctrl_queue o ++ [m] else send_ctrl_queue o)
       (queued_msg_count o + 1) (queued_msg_length o + zlen msg) (e_opayloadlen o)
       (e_opayloadoff o) (status_code_sent o) (close_queued o) (close_sent o), 0).

Definition set_close_queued o := mkEventOut (frame_ctx_out o) (write_enabled o) (omsg o) (send_queue o)
  (send_ctrl_queue o) (queued_msg_count o) (queued_msg_length o) (e_opayloadlen o)
  (e_opayloadoff o) (status_code_sent o) true (close_sent o).

(** The payload of a Close frame. *)
Definition close_payload (status_code : Z) (reason : bytes) : bytes :=
  if status_code =? 0 then [] else [Z.shiftr status_code 8 mod 256; status_code mod 256] ++ reason.

Definition wslay_event_queue_close (status_code : Z) (reason : bytes) (o : event_out)
    : event_out * Z :=
  if negb (wslay_event_is_msg_queueable o) then (o, WSLAY_ERR_NO_MORE_MSG)
  else if 123 <? zlen reason then (o, WSLAY_ERR_INVALID_ARGUMENT)
  else
    let '(o, r) := wslay_event_queue_msg WSLAY_CONNECTION_CLOSE (close_payload status_code reason) o in
    ((if r =? 0 then set_close_queued o else o), r).

Definition wslay_event_queue_close_wrapper (status_code : Z) (reason : bytes)
    (c : wslay_event_context) : wslay_event_context * Z :=
  let '(o, r) := wslay_event_queue_close status_code reason (eout c) in
  (mkCtx (no_buffering c) (set_read_enabled false (ein c)) o,
   if negb (r =? 0) && negb (r =? WSLAY_ERR_NO_MORE_MSG) then r else 0).

(** *** Receiving *)

(** How the body of the loop ends. *)
Inductive verdict :=
  | Continue
  | Break
  | Return (rc : Z).

(** [wslay_event_queue_close_wrapper], then [break]. *)
Definition fail_with (code : Z) (c : wslay_event_context) : wslay_event_context * verdict :=
  let '(c, r) := wslay_event_queue_close_wrapper code [] c in
  (c, if r =? 0 then Break else Return r).

(** Whether what arrives in a frame is kept for [on_msg_recv_callback]. *)
Definition buffers (c : wslay_event_context) (op : Z) : bool :=
  negb (no_buffering c) || wslay_is_ctrl_frame op.

(** The reserved bits (none is allowed) and the mask. *)
Definition frame_refused (io : frame_iocb) : bool :=
  negb (io_rsv io =? 0) ||
  (wslay_get_rsv1 (io_rsv io) &&
     (wslay_is_ctrl_frame (io_opcode io) || (io_opcode io =? WSLAY_CONTINUATION_FRAME))) ||
  (io_mask io =? 0).

Definition is_control (op : Z) : bool :=
  (op =? WSLAY_CONNECTION_CLOSE) || (op =? WSLAY_PING) || (op =? WSLAY_PONG).

(** The message the frame belongs to, and whether a frame begins; [None]: none. *)
Definition place_frame (io : frame_iocb) (i : event_in) : option (event_in * bool) :=
  let begin i := set_imsg (imsg_set (io_fin io) (io_rsv io) (io_opcode io) (imsg i)) i in
  if opcode (imsg i) =? 0xff then
    if (io_opcode io =? WSLAY_TEXT_FRAME) || (io_opcode io =? WSLAY_BINARY_FRAME) ||
       is_control (io_opcode io)
    then Some (begin i, true) else None
  else if (e_ipayloadlen i =? 0) && (e_ipayloadoff i =? 0) then
    if io_opcode io =? WSLAY_CONTINUATION_FRAME then
      let m := imsg i in
      Some (set_imsg (mkImsg (io_fin io) (rsv m) (opcode m) (utf8state m) (chunks m) (msg_length m)) i,
            true)
    else if is_control (io_opcode io) then Some (begin (set_on_imsgs1 true i), true)
    else None
  else Some (i, false).

(** [wslay_event_imsg_append_chunk], for the frames that are kept. *)
Definition append_chunk (io : frame_iocb) (c : wslay_event_context) : wslay_event_context :=
  let i := ein c in
  let m := imsg i in
  if buffers c (io_opcode io)
  then set_ein (set_imsg (mkImsg (fin m) (rsv m) (opcode m) (utf8state m) (chunks m)
                            (msg_length m + io_payload_length io)) i) c
  else c.

(** The validation of the chunk. *)
Definition validate_chunk (io : frame_iocb) (i : event_in) : event_in :=
  let m := imsg i in
  if (negb (wslay_get_rsv1 (rsv m)) && (opcode m =? WSLAY_TEXT_FRAME)) ||
     (opcode m =? WSLAY_CONNECTION_CLOSE)
  then
    let data := if opcode m =? WSLAY_CONNECTION_CLOSE then drop 2 (io_data io) else io_data io in
    set_imsg (mkImsg (fin m) (rsv m) (opcode m) (validate (utf8state m) data) (chunks m)
                (msg_length m)) i
  else i.

(** The chunk is stored. *)
Definition store_chunk (io : frame_iocb) (c : wslay_event_context) : wslay_event_context :=
  let i := ein c in
  let m := imsg i in
  let i := if buffers c (io_opcode io)
           then set_imsg (mkImsg (fin m) (rsv m) (opcode m) (utf8state m) (chunks m ++ io_data io)
                            (msg_length m)) i
           else i in
  set_ein (set_e_ipayload (e_ipayloadlen i) (e_ipayloadoff i + zlen (io_data io)) i) c.

Definition wslay_event_is_valid_status_code (status_code : Z) : bool :=
  ((1000 <=? status_code) && (status_code <=? 1011) && negb (status_code =? 1004) &&
   negb (status_code =? 1005) && negb (status_code =? 1006)) ||
  ((3000 <=? status_code) && (status_code <=? 4999)).

(** A Close that is complete: its status code, 0 for none.  [inr]: the loop ends. *)
Definition close_complete (msg : option bytes) (c : wslay_event_context)
    : wslay_event_context * (Z + verdict) :=
  let answer status_code reason :=
    let i := set_received (if status_code =? 0 then WSLAY_CODE_NO_STATUS_RCVD else status_code)
               (ein c) in
    let '(c, r) := wslay_event_queue_close_wrapper status_code reason (set_ein i c) in
    (c, if r =? 0 then inl status_code else inr (Return r)) in
  match msg with
  | Some (b0 :: b1 :: reason) =>
      let status_code := b0 * 256 + b1 in
      if wslay_event_is_valid_status_code status_code then answer status_code reason
      else let '(c, v) := fail_with WSLAY_CODE_PROTOCOL_ERROR c in (c, inr v)
  | _ => answer 0 []
  end.

(** A Ping that is complete is answered, unless no more is sent. *)
Definition ping_complete (msg : option bytes) (c : wslay_event_context)
    : wslay_event_context * (Z + verdict) :=
  let '(o, r) := wslay_event_queue_msg WSLAY_PONG (default [] msg) (eout c) in
  let c := set_eout o c in
  if negb (r =? 0) && negb (r =? WSLAY_ERR_NO_MORE_MSG)
  then (set_ein (set_read_enabled false (ein c)) c, inr (Return r))
  else (c, inl 0).

(** [wslay_event_imsg_reset(ctx->imsg)], back to the message under way, ready for a
    frame. *)
Definition next_frame (done : bool) (i : event_in) : event_in :=
  let i := if done then set_on_imsgs1 false (set_imsg (imsg_reset (imsg i)) i) else i in
  set_e_ipayload 0 0 i.

(** The message is complete. *)
Definition message_complete (io : frame_iocb) (c : wslay_event_context)
    : prog (wslay_event_context * verdict) :=
  let m := imsg (ein c) in
  let '(msg, c) :=
    if buffers c (io_opcode io) && negb (msg_length m =? 0) then
      (Some (chunks m),
       set_ein (set_imsg (mkImsg (fin m) (rsv m) (opcode m) (utf8state m) [] (msg_length m)) (ein c)) c)
    else (None, c) in
  let '(c, r) :=
    if opcode m =? WSLAY_CONNECTION_CLOSE then close_complete msg c
    else if opcode m =? WSLAY_PING then ping_complete msg c
    else (c, inl 0) in
  match r with
  | inr v => mret (c, v)
  | inl status_code =>
      let c := set_ein (set_frame_in (set_error 0 (frame_ctx_in (ein c))) (ein c)) c in
      MsgRecv (opcode m) status_code msg (mret (set_ein (next_frame true (ein c)) c, Continue))
  end.

(** The end of a frame. *)
Definition frame_end (io : frame_iocb) (c : wslay_event_context)
    : prog (wslay_event_context * verdict) :=
  let m := imsg (ein c) in
  if negb (fin m =? 0) &&
     ((opcode m =? WSLAY_TEXT_FRAME) || (opcode m =? WSLAY_CONNECTION_CLOSE)) &&
     negb (utf8state m =? UTF8_ACCEPT)
  then mret (fail_with WSLAY_CODE_INVALID_FRAME_PAYLOAD_DATA c)
  else if negb (fin m =? 0) then message_complete io c
  else mret (set_ein (next_frame false (ein c)) c, Continue).

(** The part of a frame that is there. *)
Definition frame_data (io : frame_iocb) (c : wslay_event_context)
    : prog (wslay_event_context * verdict) :=
  let c := set_ein (validate_chunk io (ein c)) c in
  if utf8state (imsg (ein c)) =? UTF8_REJECT
  then mret (fail_with WSLAY_CODE_INVALID_FRAME_PAYLOAD_DATA c)
  else
    FrameChunk (io_data io)
      (let c := store_chunk io c in
       if e_ipayloadoff (ein c) =? e_ipayloadlen (ein c) then frame_end io c
       else mret (c, Continue)).

(** [r >= 0]: what [wslay_frame_recv] has found. *)
Definition frame_received (io : frame_iocb) (c : wslay_event_context)
    : prog (wslay_event_context * verdict) :=
  if frame_refused io then mret (fail_with WSLAY_CODE_PROTOCOL_ERROR c) else
  match place_frame io (ein c) with
  | None => mret (fail_with WSLAY_CODE_PROTOCOL_ERROR c)
  | Some (i, false) => frame_data io (set_ein i c)
  | Some (i, true) =>
      let c := set_ein i c in
      if max_recv_msg_length <? msg_length (imsg i) + io_payload_length io
      then mret (fail_with WSLAY_CODE_MESSAGE_TOO_BIG c)
      else
        let c := set_ein (set_e_ipayload (io_payload_length io) (e_ipayloadoff i) i) c in
        FrameStart (io_opcode io) (frame_data io (append_chunk io c))
  end.

(** The body of the loop of [wslay_event_recv]. *)
Definition recv_once (c : wslay_event_context) : prog (wslay_event_context * verdict) :=
  '(f, r) ← wslay_frame_recv (frame_ctx_in (ein c));
  let c := set_ein (set_frame_in f (ein c)) c in
  match r with
  | inr io => frame_received io c
  | inl r =>
      if negb (r =? WSLAY_ERR_WANT_READ) ||
         (negb (error f =? WSLAY_ERR_WOULDBLOCK) && negb (error f =? 0))
      then
        let '(c, r) := wslay_event_queue_close_wrapper 0 [] c in
        mret (c, Return (if r =? 0 then WSLAY_ERR_CALLBACK_FAILURE else r))
      else mret (c, Break)
  end.

(** A code that is none of wslay's. *)
Definition OUT_OF_FUEL : Z := -1.

Fixpoint recv_loop (fuel : nat) (c : wslay_event_context) : prog (wslay_event_context * Z) :=
  if read_enabled (ein c) then
    match fuel with
    | O => mret (c, OUT_OF_FUEL)
    | S fuel =>
        '(c, v) ← recv_once c;
        match v with
        | Continue => recv_loop fuel c
        | Break => mret (c, 0)
        | Return r => mret (c, r)
        end
    end
  else mret (c, 0).

(** Each round takes a byte at least, of those in [ibuf] or those of a read. *)
Definition RECV_FUEL : nat := Z.to_nat (READ_CHUNK + 4096).

Definition wslay_event_recv (c : wslay_event_context) : prog (wslay_event_context * Z) :=
  recv_loop RECV_FUEL c.

(** *** Sending *)

(** [wslay_event_send_ctrl_queue_pop]: a queued Close discards what precedes it. *)
Fixpoint pop_close (l : list wslay_event_omsg) : option wslay_event_omsg * list wslay_event_omsg :=
  match l with
  | [] => (None, [])
  | m :: l => if o_opcode m =? WSLAY_CONNECTION_CLOSE then (Some m, l) else pop_close l
  end.

Definition wslay_event_send_ctrl_queue_pop (o : event_out)
    : option wslay_event_omsg * list wslay_event_omsg :=
  if close_queued o then pop_close (send_ctrl_queue o)
  else match send_ctrl_queue o with m :: l => (Some m, l) | [] => (None, []) end.

(** [m] is the message being sent, from [send_queue] and [send_ctrl_queue] as given. *)
Definition popped (m : option wslay_event_omsg) (sq scq : list wslay_event_omsg) (o : event_out)
    : event_out :=
  mkEventOut (frame_ctx_out o) (write_enabled o) m sq scq (queued_msg_count o) (queued_msg_length o)
    (match m with Some m => zlen (o_data m) | None => e_opayloadlen o end)
    (match m with Some _ => 0 | None => e_opayloadoff o end)
    (status_code_sent o) (close_queued o) (close_sent o).

(** The message to go on with; none: the loop ends. *)
Definition next_omsg (o : event_out) : event_out :=
  match omsg o with
  | None =>
      match send_ctrl_queue o, send_queue o with
      | [], m :: sq => popped (Some m) sq [] o
      | [], [] => o
      | _, _ => let '(m, scq) := wslay_event_send_ctrl_queue_pop o in popped m (send_queue o) scq o
      end
  | Some m =>
      if negb (wslay_is_ctrl_frame (o_opcode m)) &&
         bool_decide (ostate (frame_ctx_out o) = PREP_HEADER) &&
         match send_ctrl_queue o with [] => false | _ => true end
      then let '(m', scq) := wslay_event_send_ctrl_queue_pop o in popped m' (m :: send_queue o) scq o
      else o
  end.

(** The message [m] has been sent. *)
Definition omsg_sent (m : wslay_event_omsg) (o : event_out) : event_out :=
  let close := o_opcode m =? WSLAY_CONNECTION_CLOSE in
  let status_code := match o_data m with b0 :: b1 :: _ => b0 * 256 + b1 | _ => 0 end in
  mkEventOut (frame_ctx_out o) (if close then false else write_enabled o) None (send_queue o)
    (send_ctrl_queue o) (queued_msg_count o - 1) (queued_msg_length o - zlen (o_data m))
    (e_opayloadlen o) (e_opayloadoff o)
    (if close then if status_code =? 0 then WSLAY_CODE_NO_STATUS_RCVD else status_code
     else status_code_sent o)
    (close_queued o) (close || close_sent o).

(** The body of the loop of [wslay_event_send]; [err]: the context's [error]. *)
Definition send_once (err : Z) (o : event_out) : prog (event_out * verdict) :=
  let o := next_omsg o in
  match omsg o with
  | None => mret (o, Break)
  | Some m =>
      '(fo, r) ← wslay_frame_send 1 (o_rsv m) (o_opcode m) (e_opayloadlen o)
                   (drop (Z.to_nat (e_opayloadoff o)) (o_data m)) (frame_ctx_out o);
      let set off we o := mkEventOut fo we (omsg o) (send_queue o) (send_ctrl_queue o)
        (queued_msg_count o) (queued_msg_length o) (e_opayloadlen o) off (status_code_sent o)
        (close_queued o) (close_sent o) in
      if 0 <=? r then
        let o := set (e_opayloadoff o + r) (write_enabled o) o in
        if e_opayloadoff o =? e_opayloadlen o then mret (omsg_sent m o, Continue)
        else mret (o, Break)
      else if negb (r =? WSLAY_ERR_WANT_WRITE) ||
              (negb (err =? WSLAY_ERR_WOULDBLOCK) && negb (err =? 0))
      then mret (set (e_opayloadoff o) false o, Return WSLAY_ERR_CALLBACK_FAILURE)
      else mret (set (e_opayloadoff o) (write_enabled o) o, Break)
  end.

(** The messages to send. *)
Definition pending (o : event_out) : nat :=
  (match omsg o with Some _ => 1 | None => 0 end + length (send_queue o) + length (send_ctrl_queue o))%nat.

Fixpoint send_loop (fuel : nat) (err : Z) (o : event_out) : prog (event_out * Z) :=
  if write_enabled o && negb (pending o =? 0)%nat then
    match fuel with
    | O => mret (o, OUT_OF_FUEL)
    | S fuel =>
        '(o, v) ← send_once err o;
        match v with
        | Continue => send_loop fuel err o
        | Break => mret (o, 0)
        | Return r => mret (o, r)
        end
    end
  else mret (o, 0).

(** Each round sends one message. *)
Definition wslay_event_send (c : wslay_event_context) : prog (wslay_event_context * Z) :=
  '(o, rc) ← send_loop (pending (eout c)) (error (frame_ctx_in (ein c))) (eout c);
  mret (set_eout o c, rc).

(** *** The instance *)

#[export] Instance wslay_c : Wslay wslay_event_context := {
  server_init := Some wslay_event_context_server_init;
  set_no_buffering := wslay_event_config_set_no_buffering;
  event_recv := wslay_event_recv;
  event_send := wslay_event_send;
  event_queue_msg c op payload := set_eout (fst (wslay_event_queue_msg op payload (eout c))) c;
  event_queue_close c code reason := set_eout (fst (wslay_event_queue_close code reason (eout c))) c;
  get_close_received := wslay_event_get_close_received;
}.
