(* ===== verification/WslayFacts.v ===== *)
(** * WslayFacts: what wslay makes of a stream

    Theorems about WslayC.v, alone and under the bridge. *)

From S2P Require Import Prelude Utf8 Bridge BridgeFacts WslayC.

(** ** Running programs *)

Section exec_bind.
Context {A B : Type} (f : A -> prog B).
Lemma bind_Ret a : (Ret a ≫= f) = f a.
Proof. done. Qed.
Lemma bind_Recv len k : (Recv len k ≫= f) = Recv len (fun r => k r ≫= f).
Proof. done. Qed.
Lemma bind_Send d k : (Send d k ≫= f) = Send d (fun r => k r ≫= f).
Proof. done. Qed.
Lemma bind_FrameStart op k : (FrameStart op k ≫= f) = FrameStart op (k ≫= f).
Proof. done. Qed.
Lemma bind_FrameChunk d k : (FrameChunk d k ≫= f) = FrameChunk d (k ≫= f).
Proof. done. Qed.
Lemma bind_MsgRecv op sc m k : (MsgRecv op sc m k ≫= f) = MsgRecv op sc m (k ≫= f).
Proof. done. Qed.

Lemma exec_bind p s :
  exec (p ≫= f) s =
  ('(s1, l1, a) ← exec p s; '(s2, l2, b) ← exec (f a) s1; Ok (s2, l1 ++ l2, b)).
Proof.
  revert s. induction p as [a|len k IH|d k IH|op k IH|d k IH|op sc m k IH]; intros s;
    rewrite ?bind_Ret, ?bind_Recv, ?bind_Send, ?bind_FrameStart, ?bind_FrameChunk, ?bind_MsgRecv;
    cbn [exec].
  - cbn. by destruct (exec (f a) s) as [[[? ?] ?]| | |].
  - destruct (recv_cb len s) as [[s1 r]| | |]; [|done..]. cbn [mbind outcome_bind]. rewrite IH.
    destruct (exec (k r) s1) as [[[s2 l2] a]| | |]; [|done..]. cbn [mbind outcome_bind].
    destruct (exec (f a) s2) as [[[s3 l3] b]| | |]; [|done..]. cbn. by destruct r.
  - destruct (send_cb d s) as [s1 n]. rewrite IH.
    destruct (exec (k n) s1) as [[[s2 l2] a]| | |]; [|done..]. cbn [mbind outcome_bind].
    by destruct (exec (f a) s2) as [[[s3 l3] b]| | |].
  - rewrite IH. destruct (exec k _) as [[[s2 l2] a]| | |]; [|done..]. cbn [mbind outcome_bind].
    by destruct (exec (f a) s2) as [[[s3 l3] b]| | |].
  - rewrite IH. destruct (exec k _) as [[[s2 l2] a]| | |]; [|done..]. cbn [mbind outcome_bind].
    by destruct (exec (f a) s2) as [[[s3 l3] b]| | |].
  - apply IH.
Qed.
End exec_bind.

(** A bind whose first part is known. *)
Lemma exec_then {A B} (p : prog A) (f : A -> prog B) s s1 l1 a s2 l2 b :
  exec p s = Ok (s1, l1, a) -> exec (f a) s1 = Ok (s2, l2, b) ->
  exec (p ≫= f) s = Ok (s2, l1 ++ l2, b).
Proof. intros E1 E2. rewrite exec_bind, E1. cbn [mbind outcome_bind]. by rewrite E2. Qed.

(** ** Reading *)

(** The bytes there are to read. *)
Definition avail (s : Shared) : bytes := drop (inbound_pos s) (inbound s).
Definition ready (s : Shared) : Prop := (inbound_pos s <= length (inbound s))%nat.

Definition at_pos (n : nat) (s : Shared) : Shared :=
  mkShared (inbound s) n (outbound s) (to_peer s) (cur_is_data s) (control_events s).

Lemma at_pos_at_pos n m s : at_pos n (at_pos m s) = at_pos n s.
Proof. done. Qed.
Lemma at_pos_same s : at_pos (inbound_pos s) s = s.
Proof. by destruct s. Qed.

(** Calls that only read. *)
Definition reads (l : list call) : Prop := Forall (fun c => exists d, c = CRecv d) l.

Lemma reads_nil : reads [].
Proof. constructor. Qed.
Lemma reads_app l1 l2 : reads l1 -> reads l2 -> reads (l1 ++ l2).
Proof. apply Forall_app_2. Qed.
Lemma reads_payload cur l : reads l -> payload cur l = [].
Proof. by induction 1 as [|c l [d ->] _ IH]. Qed.
Lemma reads_cur cur l : reads l -> cur_after cur l = cur.
Proof. by induction 1 as [|c l [d ->] _ IH]. Qed.
Lemma reads_sent l : reads l -> sent l = [].
Proof. by induction 1 as [|c l [d ->] _ IH]. Qed.
Lemma reads_binary l : reads l -> binary l = [].
Proof. by induction 1 as [|c l [d ->] _ IH]. Qed.
Create HintDb wslay.
#[export] Hint Resolve reads_nil reads_app : wslay.

(** [error] is what the receive callback or [wslay_event_recv] leaves there. *)
Definition err_ok (f : frame_in) : Prop := error f = 0 \/ error f = WSLAY_ERR_WOULDBLOCK.

(** From [f] to [f'] by moving bytes from the socket's buffer to [ibuf]. *)
Definition took (f : frame_in) (s : Shared) (f' : frame_in) (s' : Shared) : Prop :=
  (exists n, s' = at_pos n s) /\ ready s' /\ ibuf f' ++ avail s' = ibuf f ++ avail s /\
  (exists e, f' = set_error e (set_ibuf (ibuf f') f)) /\ err_ok f'.

Lemma took_refl f s : ready s -> err_ok f -> took f s f s.
Proof.
  intros Hs Hf. split_and!; try done; [exists (inbound_pos s); by rewrite at_pos_same|].
  exists (error f). by destruct f.
Qed.

Lemma took_trans f1 s1 f2 s2 f3 s3 : took f1 s1 f2 s2 -> took f2 s2 f3 s3 -> took f1 s1 f3 s3.
Proof.
  intros ([n ->] & _ & E1 & [e1 H1] & _) ([m ->] & R & E2 & [e2 H2] & Ho).
  split_and!; try done; [by exists m|congruence|]. exists e2. rewrite H2, H1 at 1. by destruct f1.
Qed.

Lemma exec_wslay_recv f s :
  ready s -> err_ok f -> (length (ibuf f) < 4096)%nat ->
  exists f' s' l r, exec (wslay_recv f) s = Ok (s', l, (f', r)) /\ took f s f' s' /\ reads l /\
    ((avail s' = [] /\ r = WSLAY_ERR_WANT_READ /\ ibuf f' = ibuf f) \/
     (0 < r /\ (length (ibuf f) < length (ibuf f'))%nat /\
      (avail s' = [] \/ length (ibuf f') = 4096%nat))).
Proof.
  intros Hs Hf Hlen. unfold wslay_recv. cbn [exec]. unfold recv_cb.
  destruct (Nat.ltb_spec (length (inbound s)) (inbound_pos s)) as [?|_]; [unfold ready in *; lia|].
  assert (length (avail s) = (length (inbound s) - inbound_pos s)%nat) as Hal by apply length_drop.
  destruct (Nat.eqb_spec (length (inbound s) - inbound_pos s) 0) as [E|E].
  - cbn. exists (set_error WSLAY_ERR_WOULDBLOCK f), s, [], WSLAY_ERR_WANT_READ.
    split; [done|]. split; [|split; [auto with wslay|left; split; [apply nil_length_inv; lia|done]]].
    split_and!; try done; [exists (inbound_pos s); by rewrite at_pos_same|by eexists|by right].
  - set (n := Nat.min _ _). assert (0 < n)%nat as Hn by (subst n; unfold zlen; lia).
    fold (avail s). set (d := take n (avail s)).
    assert (length d = n) as Hd by (subst d; rewrite length_take; lia).
    destruct d as [|x d'] eqn:Ed; [cbn in Hd; lia|]. cbn. rewrite <- Ed in *.
    exists (set_ibuf (ibuf f ++ d) f), (at_pos (inbound_pos s + n) s), [CRecv d], (zlen d).
    subst d. split; [done|].
    assert (avail (at_pos (inbound_pos s + n) s) = drop n (avail s)) as Ha.
    { unfold avail. cbn. by rewrite drop_drop. }
    split; [|split].
    + split_and!; [by eexists|unfold ready in *; cbn; lia| |by exists (error f)|done].
      transitivity (ibuf (set_ibuf (ibuf f ++ take n (avail s)) f) ++ drop n (avail s)); [by f_equal|].
      cbn. by rewrite <- (assoc_L (++)), take_drop.
    + repeat constructor. by eexists.
    + right. cbn. rewrite length_app, Hd. unfold zlen. rewrite Hd. split_and!; [lia|lia|].
      destruct (decide (n = length (avail s))) as [En|En].
      * left. apply (eq_trans Ha). rewrite En. apply drop_all.
      * right. subst n. unfold zlen in *. lia.
Qed.

(** The wait of a stage. *)
Lemma exec_await f s :
  ready s -> err_ok f -> 0 <= ireqread f <= 4096 ->
  exists f' s' l r, exec (await_ireqread f) s = Ok (s', l, (f', r)) /\ took f s f' s' /\ reads l /\
    ((avail s' = [] /\ r = Some WSLAY_ERR_WANT_READ /\ zlen (ibuf f') < ireqread f) \/
     (r = None /\ ireqread f <= zlen (ibuf f'))).
Proof.
  intros Hs Hf Hn. unfold await_ireqread. destruct (Z.ltb_spec (zlen (ibuf f)) (ireqread f)).
  - destruct (exec_wslay_recv f s Hs Hf) as (f' & s' & l & r & E & Ht & Hl & Hr); [unfold zlen in *; lia|].
    rewrite exec_bind, E. cbn [mbind outcome_bind].
    assert (ireqread f' = ireqread f) as Eq by (destruct Ht as (_ & _ & _ & [e ->] & _); done).
    destruct Hr as [(Ha & -> & Hi)|(Hr & Hlt & Hr')].
    + exists f', s', (l ++ []), (Some WSLAY_ERR_WANT_READ). split; [done|]. rewrite app_nil_r.
      split_and!; try done. left. by rewrite Hi.
    + destruct (Z.leb_spec r 0); [lia|]. rewrite Eq.
      destruct (Z.ltb_spec (zlen (ibuf f')) (ireqread f)); cbn; eexists f', s', (l ++ []), _;
        (split; [done|]); rewrite app_nil_r; (split_and!; try done); [left|by right].
      destruct Hr' as [?|?]; [done|]. unfold zlen in *. lia.
  - exists f, s, [], None. split; [done|]. split; [by apply took_refl|split; [auto with wslay|by right]].
Qed.

Lemma exec_stage st body f s :
  ready s -> err_ok f -> 0 <= ireqread f <= 4096 ->
  (istate f <> st /\ exec (stage st body f) s = Ok (s, [], (f, None))) \/
  (istate f = st /\ exists f' s' l r, exec (stage st body f) s = Ok (s', l, r) /\
    took f s f' s' /\ reads l /\
    ((avail s' = [] /\ r = (f', Some WSLAY_ERR_WANT_READ) /\ zlen (ibuf f') < ireqread f) \/
     (r = body f' /\ ireqread f <= zlen (ibuf f')))).
Proof.
  intros Hs Hf Hn. unfold stage. destruct (decide (istate f = st)) as [E|E]; [|by left].
  right. split; [done|]. destruct (exec_await f s Hs Hf Hn) as (f' & s' & l & r & Ex & Ht & Hl & Hr).
  rewrite exec_bind, Ex. cbn [mbind outcome_bind]. eexists f', s', (l ++ []), _.
  split; [done|]. rewrite app_nil_r. split_and!; try done.
  destruct Hr as [(? & -> & ?)|(-> & ?)]; [by left|by right].
Qed.

(** ** Any input: every round of the loop takes a byte *)

(** A frame context between its stages. *)
Definition wf_in (f : frame_in) : Prop :=
  err_ok f /\
  match istate f with
  | RECV_HEADER1 => ireqread f = 2
  | RECV_EXT_PAYLOADLEN => ireqread f = 2 \/ ireqread f = 8
  | RECV_MASKKEY => ireqread f = 4 /\ ipayloadoff f = 0 /\ 0 <= ipayloadlen f
  | RECV_PAYLOAD => 0 <= ipayloadoff f <= ipayloadlen f /\ 0 <= ireqread f <= 8
  | _ => False
  end.

(** Between two calls: a payload begun is not complete. *)
Definition idle_in (f : frame_in) : Prop :=
  wf_in f /\ (istate f = RECV_PAYLOAD -> ipayloadoff f < ipayloadlen f).

Definition room (f : frame_in) (s : Shared) : nat := (length (ibuf f) + length (avail s))%nat.

Lemma took_room f s f' s' : took f s f' s' -> room f' s' = room f s.
Proof. intros (_ & _ & E & _). apply (f_equal length) in E. rewrite !length_app in E. exact E. Qed.

Lemma took_wf f s f' s' : took f s f' s' -> wf_in f -> wf_in f'.
Proof. intros (_ & _ & _ & [e ->] & He) [_ H]. by split. Qed.

Lemma wf_ireqread f : wf_in f -> 0 <= ireqread f <= 8.
Proof. intros [_ H]. destruct (istate f); try done; lia. Qed.

(** The order of the stages. *)
Definition rank (st : frame_state) : nat :=
  match st with
  | RECV_EXT_PAYLOADLEN => 1
  | RECV_MASKKEY => 2
  | RECV_PAYLOAD => 3
  | _ => 0
  end.

(** A stage on the bytes it waits for. *)
Definition advances (st : frame_state) (body : frame_in -> frame_in * option Z) : Prop :=
  forall f, wf_in f -> istate f = st -> ireqread f <= zlen (ibuf f) ->
  exists f' r, body f = (f', r) /\ err_ok f' /\ (length (ibuf f') < length (ibuf f))%nat /\
    ((r = None /\ wf_in f' /\ (rank st < rank (istate f'))%nat) \/ r = Some WSLAY_ERR_PROTO).

Lemma after_length_wf f :
  err_ok f -> 0 <= ireqread f <= 8 -> ipayloadoff f = 0 -> 0 <= ipayloadlen f ->
  wf_in (after_length f) /\ (1 < rank (istate (after_length f)))%nat /\
  ibuf (after_length f) = ibuf f.
Proof.
  intros He Hr Ho Hl. unfold after_length.
  destruct (imask f =? 1); (split; [split; try done; cbn; lia|split; [cbn; lia|done]]).
Qed.

Lemma header1_advances : advances RECV_HEADER1 recv_header1.
Proof.
  intros f [He Hw] Hst Hlen. rewrite Hst in Hw. unfold recv_header1.
  destruct (ibuf f) as [|b0 [|b1 rest]] eqn:Hb; cbn in Hlen; try (unfold zlen in *; cbn in *; lia).
  destruct (_ && _); [eexists _, _; split; [done|]; split; [exact He|split; [cbn; lia|by right]]|].
  pose proof (proj1 (Z.land_nonneg b1 127)).
  destruct (_ =? 126); [|destruct (_ =? 127)]; eexists _, _; (split; [done|]);
    try (split; [exact He|split; [cbn; lia|left; split; [done|split; [split; [exact He|cbn; auto]|cbn; lia]]]]).
  match goal with |- context [after_length ?g] =>
    destruct (after_length_wf g He) as (HW & HR & HB) end;
    [cbn; lia|done|cbn; apply Z.land_nonneg; right; lia|].
  rewrite HB. split; [apply HW|split; [cbn; lia|left; split; [done|split; [done|cbn; lia]]]].
Qed.

Lemma ext_advances : advances RECV_EXT_PAYLOADLEN recv_ext_payloadlen.
Proof.
  intros f [He Hw] Hst Hlen. rewrite Hst in Hw. unfold recv_ext_payloadlen.
  set (len := be_value _). set (f1 := set_ibuf _ _).
  assert (length (ibuf f1) < length (ibuf f))%nat as Hl.
  { subst f1. cbn. rewrite length_drop. unfold zlen in *. lia. }
  destruct (if _ =? 8 then _ else _) eqn:E; eexists _, _; (split; [done|]).
  - split; [exact He|split; [done|by right]].
  - destruct (after_length_wf f1 He) as (HW & HR & HB); subst f1; cbn in *; [lia|done| |].
    { destruct (ireqread f =? 8); [apply orb_false_iff in E as [E _]|]; lia. }
    rewrite HB. split; [apply HW|split; [done|left; split; [done|split; [done|lia]]]].
Qed.

Lemma maskkey_advances : advances RECV_MASKKEY recv_maskkey.
Proof.
  intros f [He Hw] Hst Hlen. rewrite Hst in Hw. unfold recv_maskkey. eexists _, _. split; [done|].
  split; [exact He|split].
  - cbn. rewrite length_drop. unfold zlen in *. lia.
  - left. split; [done|]. split; [split; [exact He|cbn; lia]|cbn; lia].
Qed.

(** How [wslay_frame_recv] ends, fewer than [n] bytes being left after a frame. *)
Definition frame_post (n : nat) (s : Shared)
    (o : outcome unit (Shared * list call * (frame_in * (Z + frame_iocb)))) : Prop :=
  exists f' s' l r, o = Ok (s', l, (f', r)) /\ reads l /\ (exists m, s' = at_pos m s) /\ ready s' /\
    err_ok f' /\
    match r with
    | inr io => idle_in f' /\ (room f' s' < n)%nat
    | inl rc => rc = WSLAY_ERR_WANT_READ /\ avail s' = [] /\ (length (ibuf f') < 8)%nat /\ idle_in f' \/
                rc = WSLAY_ERR_PROTO
    end.

Lemma frame_post_bind {A} n s (p : prog A) k s1 l1 a :
  exec p s = Ok (s1, l1, a) -> reads l1 -> (exists m, s1 = at_pos m s) ->
  frame_post n s1 (exec (k a) s1) -> frame_post n s (exec (p ≫= k) s).
Proof.
  intros E Hl [m ->] (f' & s' & l & r & E' & Hl' & [m' ->] & H). rewrite exec_bind, E.
  cbn [mbind outcome_bind]. rewrite E'. eexists f', _, (l1 ++ l), r. split; [done|].
  split; [auto with wslay|]. split; [by eexists|exact H].
Qed.

Lemma payload_post n f s :
  ready s -> wf_in f -> istate f = RECV_PAYLOAD -> (room f s <= n)%nat ->
  (ipayloadoff f < ipayloadlen f \/ (room f s < n)%nat) ->
  frame_post n s (exec (payload_stage f) s).
Proof.
  intros Hs Hw Hst Hn Hrem. unfold payload_stage. destruct (decide _) as [_|]; [|done].
  assert (forall f1 s1, ready s1 -> wf_in f1 -> istate f1 = RECV_PAYLOAD -> (room f1 s1 <= n)%nat ->
    (0 < ipayloadlen f1 - ipayloadoff f1 -> (0 < length (ibuf f1))%nat) ->
    (ipayloadoff f1 < ipayloadlen f1 \/ (room f1 s1 < n)%nat) ->
    frame_post n s1 (exec (let '(f, io) := recv_payload f1 in mret (f, inr io)) s1)) as Hgot.
  { clear. intros f s Hs [He Hw] Hst Hn Hb Hrem. rewrite Hst in Hw. unfold recv_payload.
    set (k := if _ <? _ then length (ibuf f) else _). cbn.
    eexists _, s, [], _. split; [done|]. split; [auto with wslay|].
    split; [exists (inbound_pos s); by rewrite at_pos_same|]. split; [done|].
    assert (0 < ipayloadlen f - ipayloadoff f -> (0 < k)%nat) as Hk.
    { intros H. specialize (Hb H). subst k. destruct (_ <? _); lia. }
    assert ((k <= length (ibuf f))%nat /\ Z.of_nat k <= ipayloadlen f - ipayloadoff f) as [Hk1 Hk2].
    { subst k. unfold zlen. destruct (Z.ltb_spec (Z.of_nat (length (ibuf f))) (ipayloadlen f - ipayloadoff f)); lia. }
    destruct (Z.eqb_spec (ipayloadlen f) (ipayloadoff f + Z.of_nat k)).
    - split; [exact He|]. split; [split; [by split|done]|]. unfold room in *. cbn. rewrite length_drop. lia.
    - split; [exact He|]. split; [split; [split; [exact He|cbn; rewrite Hst; lia]|cbn; lia]|].
      unfold room in *. cbn. rewrite length_drop. lia. }
  destruct (Z.eqb_spec (zlen (ibuf f)) 0) as [Hb|Hb];
    [destruct (Z.ltb_spec 0 (ipayloadlen f - ipayloadoff f)) as [Hr|Hr]|]; cbn [andb].
  - destruct (exec_wslay_recv f s Hs ltac:(apply Hw)) as (f1 & s1 & l1 & r & E & Ht & Hl & Hr1);
      [unfold zlen in *; lia|].
    eapply frame_post_bind; [exact E|done|apply Ht|]. pose proof (took_wf _ _ _ _ Ht Hw) as Hw1.
    pose proof (took_room _ _ _ _ Ht) as Hroom.
    assert (istate f1 = RECV_PAYLOAD /\ ipayloadlen f1 = ipayloadlen f /\ ipayloadoff f1 = ipayloadoff f)
      as (Hst1 & Hl1 & Ho1) by (destruct Ht as (_ & _ & _ & [e ->] & _); done).
    destruct Hr1 as [(Ha & -> & Hi)|(Hr1 & Hlt & _)].
    + cbn. eexists f1, s1, [], _. split; [done|]. split; [auto with wslay|].
      split; [exists (inbound_pos s1); by rewrite at_pos_same|]. split; [apply Ht|].
      split; [apply Hw1|]. left. split_and!; try done; [rewrite Hi; unfold zlen in *; lia|].
      split; [done|lia].
    + destruct (Z.leb_spec r 0); [lia|]. apply Hgot; try done; [apply Ht|lia|lia|lia].
  - eapply frame_post_bind; [reflexivity|auto with wslay|exists (inbound_pos s); by rewrite at_pos_same|].
    apply Hgot; try done. lia.
  - eapply frame_post_bind; [reflexivity|auto with wslay|exists (inbound_pos s); by rewrite at_pos_same|].
    apply Hgot; try done. unfold zlen in *. lia.
Qed.

(** A stage and what follows it. *)
Lemma stage_post n st body k f s :
  advances st body -> ready s -> wf_in f ->
  st = RECV_HEADER1 \/ st = RECV_EXT_PAYLOADLEN \/ st = RECV_MASKKEY ->
  (room f s <= n)%nat -> (rank st <= rank (istate f))%nat ->
  (forall f1 s1, ready s1 -> wf_in f1 -> (rank st < rank (istate f1))%nat ->
     (f1 = f /\ s1 = s \/ (room f1 s1 < n)%nat) -> frame_post n s1 (exec (k f1) s1)) ->
  frame_post n s (exec (or_return (stage st body f) k) s).
Proof.
  intros Hadv Hs Hw Hst Hn Hrk Hk. pose proof (wf_ireqread f Hw).
  destruct (exec_stage st body f s Hs ltac:(apply Hw) ltac:(lia))
    as [[Hne E]|(Heq & f' & s' & l & r & E & Ht & Hl & Hr)]; unfold or_return.
  - eapply frame_post_bind; [exact E|auto with wslay|exists (inbound_pos s); by rewrite at_pos_same|].
    cbn. apply Hk; auto. destruct Hw as [_ Hw]. destruct Hst as [-> |[-> | ->]], (istate f); try done; cbn in *; lia.
  - pose proof (took_wf _ _ _ _ Ht Hw) as Hw'. pose proof (took_room _ _ _ _ Ht) as Hroom.
    assert (istate f' = st /\ ireqread f' = ireqread f) as [Hst' Hq']
      by (destruct Ht as (_ & _ & _ & [e ->] & _); done).
    eapply frame_post_bind; [exact E|done|apply Ht|].
    destruct Hr as [(Ha & -> & Hi)|(-> & Hi)].
    + cbn. eexists f', s', [], _. split; [done|]. split; [auto with wslay|].
      split; [exists (inbound_pos s'); by rewrite at_pos_same|]. split; [apply Ht|].
      split; [apply Hw'|]. left. split_and!; try done; [unfold zlen in *; lia|].
      split; [done|]. intros Hp. destruct Hst as [?|[?|?]]; congruence.
    + rewrite <- Hq' in Hi. destruct (Hadv f' Hw' Hst' Hi) as (f2 & r2 & -> & He2 & Hlt & Hr2).
      destruct Hr2 as [(-> & Hw2 & Hrk2)| ->].
      * apply Hk; [apply Ht|done|done|]. right. unfold room in *. lia.
      * cbn. eexists f2, s', [], _. split; [done|]. split; [auto with wslay|].
        split; [exists (inbound_pos s'); by rewrite at_pos_same|]. split; [apply Ht|].
        split; [done|by right].
Qed.


Lemma frame_recv_post f s :
  ready s -> idle_in f -> frame_post (room f s) s (exec (wslay_frame_recv f) s).
Proof.
  intros Hs [Hw Hi]. unfold wslay_frame_recv.
  apply stage_post; [apply header1_advances|done|done|auto|done|cbn; lia|]. intros f1 s1 Hs1 Hw1 Hr1 H1.
  apply stage_post; [apply ext_advances|done|done|auto| |cbn in *; lia|].
  { destruct H1 as [(-> & ->)|?]; lia. }
  intros f2 s2 Hs2 Hw2 Hr2 H2.
  apply stage_post; [apply maskkey_advances|done|done|auto| |cbn in *; lia|].
  { destruct H2 as [(-> & ->)|?], H1 as [(-> & ->)|?]; lia. }
  intros f3 s3 Hs3 Hw3 Hr3 H3.
  assert (istate f3 = RECV_PAYLOAD) as Hst by (destruct (istate f3); cbn in Hr3; try done; lia).
  assert (f3 = f /\ s3 = s \/ (room f3 s3 < room f s)%nat) as H.
  { destruct H3 as [(-> & ->)|?]; [|by right]. by destruct H2 as [(-> & ->)|?]; [|by right]. }
  apply payload_post; try done; destruct H as [(-> & ->)|?]; auto; lia.
Qed.

(** ** Programs that neither read nor send *)

Fixpoint quiet_result {A} (p : prog A) : option A :=
  match p with
  | Ret a => Some a
  | Recv _ _ | Send _ _ => None
  | FrameStart _ k | FrameChunk _ k | MsgRecv _ _ _ k => quiet_result k
  end.

(** The calls of such a program, and the control events it leaves. *)
Fixpoint quiet_calls {A} (p : prog A) : list call :=
  match p with
  | FrameStart op k => CFrameStart op :: quiet_calls k
  | FrameChunk d k => CFrameChunk d :: quiet_calls k
  | MsgRecv _ _ _ k => quiet_calls k
  | _ => []
  end.

Fixpoint quiet_events {A} (p : prog A) : list ControlEvent :=
  match p with
  | FrameStart _ k | FrameChunk _ k => quiet_events k
  | MsgRecv op sc msg k => control_events (msg_recv_cb op sc msg Shared_default) ++ quiet_events k
  | _ => []
  end.

Lemma exec_quiet {A} (p : prog A) a s :
  quiet_result p = Some a ->
  exists s', exec p s = Ok (s', quiet_calls p, a) /\ inbound s' = inbound s /\
    inbound_pos s' = inbound_pos s /\ outbound s' = outbound s /\
    control_events s' = control_events s ++ quiet_events p.
Proof.
  revert s. induction p as [a'|len k IH|d k IH|op k IH|d k IH|op sc m k IH]; intros s; cbn; try done.
  - intros [= ->]. exists s. by rewrite app_nil_r.
  - intros H. destruct (IH (frame_start_cb op s) H) as (s' & -> & ?). by exists s'.
  - intros H. destruct (IH (frame_chunk_cb d s) H) as (s' & -> & E). exists s'. split; [done|].
    unfold frame_chunk_cb in E. by destruct (cur_is_data s).
  - intros H. destruct (IH (msg_recv_cb op sc m s) H) as (s' & -> & E). exists s'. split; [done|].
    rewrite (assoc_L (++)). revert E. unfold msg_recv_cb.
    repeat case_match; cbn; rewrite ?app_nil_r; done.
Qed.

(** ** The loop of [wslay_event_recv] *)

Lemma queue_msg_code op p o :
  snd (wslay_event_queue_msg op p o) = 0 \/ snd (wslay_event_queue_msg op p o) = WSLAY_ERR_NO_MORE_MSG \/
  snd (wslay_event_queue_msg op p o) = WSLAY_ERR_INVALID_ARGUMENT /\ 125 < zlen p.
Proof.
  unfold wslay_event_queue_msg. destruct (negb _); [auto|].
  destruct (wslay_is_ctrl_frame op && (125 <? zlen p)) eqn:E; [|auto].
  apply andb_true_iff in E as [_ E]. right. right. split; [done|lia].
Qed.

Lemma queue_close_code sc r o :
  snd (wslay_event_queue_close sc r o) = 0 \/
  snd (wslay_event_queue_close sc r o) = WSLAY_ERR_NO_MORE_MSG \/
  snd (wslay_event_queue_close sc r o) = WSLAY_ERR_INVALID_ARGUMENT /\ 123 < zlen r.
Proof.
  unfold wslay_event_queue_close. destruct (negb _); [auto|].
  destruct (Z.ltb_spec 123 (zlen r)); [auto|].
  assert (zlen (close_payload sc r) <= 125) as Hlen.
  { unfold close_payload. destruct (sc =? 0); [done|]. rewrite zlen_app. unfold zlen in *. cbn. lia. }
  pose proof (queue_msg_code WSLAY_CONNECTION_CLOSE (close_payload sc r) o) as H1.
  destruct (wslay_event_queue_msg _ _ o) as [o' r']. cbn in *. destruct H1 as [|[|[]]]; auto. lia.
Qed.

(** The wrapper stops the reading. *)
Lemma queue_close_wrapper_spec sc r c :
  exists o rc, wslay_event_queue_close_wrapper sc r c =
    (mkCtx (no_buffering c) (set_read_enabled false (ein c)) o, rc) /\
    o = fst (wslay_event_queue_close sc r (eout c)) /\
    (rc = 0 \/ rc = WSLAY_ERR_INVALID_ARGUMENT /\ 123 < zlen r).
Proof.
  unfold wslay_event_queue_close_wrapper. pose proof (queue_close_code sc r (eout c)) as H.
  destruct (wslay_event_queue_close sc r (eout c)) as [o rc]. eexists o, _. split; [done|].
  split; [done|]. cbn in H. destruct H as [->|[->|[-> ?]]]; cbn; auto.
Qed.

Lemma fail_with_spec code c :
  fail_with code c =
    (mkCtx (no_buffering c) (set_read_enabled false (ein c))
       (fst (wslay_event_queue_close code [] (eout c))), Break).
Proof.
  unfold fail_with. destruct (queue_close_wrapper_spec code [] c) as (o & rc & -> & -> & [-> |[_ H]]); done.
Qed.

(** What receiving does to the half that sends: pongs and closes are queued. *)
Inductive answered : event_out -> event_out -> Prop :=
  | ans_none o : answered o o
  | ans_pong p o o' : answered (fst (wslay_event_queue_msg WSLAY_PONG p o)) o' -> answered o o'
  | ans_close sc r o o' : answered (fst (wslay_event_queue_close sc r o)) o' -> answered o o'.

Lemma answered_trans o1 o2 o3 : answered o1 o2 -> answered o2 o3 -> answered o1 o3.
Proof. induction 1; eauto using answered. Qed.

Lemma answered_close sc r o : answered o (fst (wslay_event_queue_close sc r o)).
Proof. apply (ans_close sc r), ans_none. Qed.
Lemma answered_pong p o : answered o (fst (wslay_event_queue_msg WSLAY_PONG p o)).
Proof. apply (ans_pong p), ans_none. Qed.

(** How a round ends once a frame has come, [f] being the frame context and [o] the
    half that sends. *)
Definition settled (f : frame_in) (o : event_out) (r : option (wslay_event_context * verdict)) : Prop :=
  exists c' v, r = Some (c', v) /\ answered o (eout c') /\
  (frame_ctx_in (ein c') = f \/ frame_ctx_in (ein c') = set_error 0 f) /\
  match v with
  | Continue => True
  | Break => read_enabled (ein c') = false
  | Return rc => rc <> OUT_OF_FUEL /\ read_enabled (ein c') = false
  end.

Lemma set_imsg_frame m i : frame_ctx_in (set_imsg m i) = frame_ctx_in i.
Proof. unfold set_imsg. by destruct (on_imsgs1 i). Qed.

Lemma settled_fail code c : settled (frame_ctx_in (ein c)) (eout c) (Some (fail_with code c)).
Proof.
  rewrite fail_with_spec. eexists _, _. split; [done|]. split; [apply answered_close|].
  split; [by left|done].
Qed.

Lemma next_frame_frame d i : frame_ctx_in (next_frame d i) = frame_ctx_in i.
Proof. unfold next_frame. destruct d; cbn; [apply set_imsg_frame|done]. Qed.

Lemma complete_settles (op : Z) msg c :
  let r := if op =? WSLAY_CONNECTION_CLOSE then close_complete msg c
           else if op =? WSLAY_PING then ping_complete msg c else (c, inl 0) in
  frame_ctx_in (ein (fst r)) = frame_ctx_in (ein c) /\ answered (eout c) (eout (fst r)) /\
  match snd r with
  | inl _ => True
  | inr Continue => False
  | inr Break => read_enabled (ein (fst r)) = false
  | inr (Return rc) => rc <> OUT_OF_FUEL /\ read_enabled (ein (fst r)) = false
  end.
Proof.
  cbn. destruct (op =? WSLAY_CONNECTION_CLOSE);
    [|destruct (op =? WSLAY_PING); [|split; [done|split; [constructor|done]]]].
  - assert (forall sc reason, let r :=
      let i := set_received (if sc =? 0 then WSLAY_CODE_NO_STATUS_RCVD else sc) (ein c) in
      let '(c, r) := wslay_event_queue_close_wrapper sc reason (set_ein i c) in
      (c, if r =? 0 then inl sc else inr (Return r)) in
      frame_ctx_in (ein (fst r)) = frame_ctx_in (ein c) /\ answered (eout c) (eout (fst r)) /\
      match snd r with
      | inl _ => True
      | inr Continue => False
      | inr Break => read_enabled (ein (fst r)) = false
      | inr (Return rc) => rc <> OUT_OF_FUEL /\ read_enabled (ein (fst r)) = false
      end) as Hans.
    { intros sc reason. cbn.
      match goal with |- context [wslay_event_queue_close_wrapper ?a ?b ?d] =>
        destruct (queue_close_wrapper_spec a b d) as (o & rc & -> & -> & [-> |[-> _]]) end;
        (split; [done|split; [apply answered_close|done]]). }
    unfold close_complete. destruct msg as [[|b0 [|b1 reason]]|]; try apply Hans.
    destruct (wslay_event_is_valid_status_code _); [apply Hans|].
    rewrite fail_with_spec. split; [done|split; [apply answered_close|done]].
  - unfold ping_complete. pose proof (answered_pong (default [] msg) (eout c)) as Ha. pose proof (queue_msg_code WSLAY_PONG (default [] msg) (eout c)) as H.
    destruct (wslay_event_queue_msg _ _ _) as [o rc]. cbn in *.
    destruct H as [->|[->|[-> _]]]; done.
Qed.

Lemma message_complete_settles io c :
  settled (frame_ctx_in (ein c)) (eout c) (quiet_result (message_complete io c)).
Proof.
  unfold message_complete. set (m := imsg (ein c)).
  destruct (if _ && _ then _ else _) as [msg c1] eqn:E1.
  assert (frame_ctx_in (ein c1) = frame_ctx_in (ein c) /\ eout c1 = eout c) as [F1 O1].
  { destruct (_ && _); injection E1 as <- <-; (split; [|done]); [apply set_imsg_frame|done]. }
  pose proof (complete_settles (opcode m) msg c1) as H. cbn in H.
  destruct (if opcode m =? _ then _ else _) as [c2 r]. cbn in H. destruct H as (F2 & Ha & Hr).
  rewrite O1 in Ha. destruct r as [sc|v].
  - eexists _, _. split; [reflexivity|]. split; [exact Ha|]. split; [|done]. right. cbn [ein set_ein].
    rewrite next_frame_frame. cbn. congruence.
  - eexists _, _. split; [done|]. split; [exact Ha|]. split; [left; congruence|]. by destruct v.
Qed.

Lemma frame_data_settles io c :
  settled (frame_ctx_in (ein c)) (eout c) (quiet_result (frame_data io c)).
Proof.
  unfold frame_data. set (c1 := set_ein _ c).
  assert (frame_ctx_in (ein c1) = frame_ctx_in (ein c)) as F1.
  { subst c1. cbn. unfold validate_chunk. destruct (_ || _); [apply set_imsg_frame|done]. }
  assert (eout c1 = eout c) as O1 by done. rewrite <- F1, <- O1. clearbody c1. destruct (_ =? UTF8_REJECT); [apply settled_fail|].
  cbn [quiet_result]. set (c2 := store_chunk io c1).
  assert (frame_ctx_in (ein c2) = frame_ctx_in (ein c1)) as F2.
  { subst c2. unfold store_chunk. cbn. destruct (buffers _ _); [apply set_imsg_frame|done]. }
  assert (eout c2 = eout c1) as O2 by done. rewrite <- F2, <- O2. clearbody c2.
  destruct (_ =? _); [|eexists _, _; split; [done|]; split; [constructor|split; [by left|done]]].
  unfold frame_end. destruct (_ && _); [apply settled_fail|].
  destruct (negb _); [apply message_complete_settles|].
  eexists _, _. split; [done|]. split; [constructor|split; [by left|done]].
Qed.

Lemma place_frame_frame io i i' b :
  place_frame io i = Some (i', b) -> frame_ctx_in i' = frame_ctx_in i.
Proof.
  unfold place_frame. repeat case_match; intros [= <- <-]; try done; by rewrite set_imsg_frame.
Qed.

Lemma frame_received_settles io c :
  settled (frame_ctx_in (ein c)) (eout c) (quiet_result (frame_received io c)).
Proof.
  unfold frame_received. destruct (frame_refused io); [apply settled_fail|].
  destruct (place_frame io (ein c)) as [[i []]|] eqn:E; [| |apply settled_fail];
    apply place_frame_frame in E; rewrite <- E.
  - destruct (_ <? _); [exact (settled_fail _ (set_ein i c))|].
    cbn [quiet_result].
    set (c1 := append_chunk _ _).
    assert (frame_ctx_in (ein c1) = frame_ctx_in i) as F1.
    { subst c1. unfold append_chunk.
      destruct (buffers _ _); [exact (set_imsg_frame _ _)|done]. }
    assert (eout c1 = eout c) as O1 by (subst c1; unfold append_chunk; by destruct (buffers _ _)).
    rewrite <- F1, <- O1. apply frame_data_settles.
  - exact (frame_data_settles io (set_ein i c)).
Qed.

(** As long as wslay reads, it has taken all there is. *)
Definition drained (c : wslay_event_context) (s : Shared) : Prop :=
  read_enabled (ein c) = true ->
  avail s = [] /\ (length (ibuf (frame_ctx_in (ein c))) < 8)%nat /\ idle_in (frame_ctx_in (ein c)).

Lemma idle_set_error f : idle_in f -> idle_in (set_error 0 f).
Proof. intros [[_ H] Hi]. split; [split; [by left|done]|done]. Qed.

Lemma recv_once_post c s :
  ready s -> idle_in (frame_ctx_in (ein c)) ->
  exists s' l c' v, exec (recv_once c) s = Ok (s', l, (c', v)) /\ ready s' /\
    outbound s' = outbound s /\ answered (eout c) (eout c') /\
    match v with
    | Continue => idle_in (frame_ctx_in (ein c')) /\
        (room (frame_ctx_in (ein c')) s' < room (frame_ctx_in (ein c)) s)%nat
    | Break => drained c' s'
    | Return rc => rc <> OUT_OF_FUEL /\ read_enabled (ein c') = false
    end.
Proof.
  intros Hs Hi. destruct (frame_recv_post _ _ Hs Hi) as (f & s1 & l1 & r & E & Hl & [m Hm] & Hs1 & He & Hr).
  unfold recv_once. rewrite exec_bind, E. cbn [mbind outcome_bind].
  set (c1 := set_ein _ c). destruct r as [rc|io].
  - destruct Hr as [(-> & Ha & Hlen & Hi')| ->].
    + cbn [negb Z.eqb WSLAY_ERR_WANT_READ Pos.eqb orb]. destruct He as [-> | ->]; cbn;
        (eexists _, _, _, _; split; [done|split; [done|split; [by rewrite Hm|split; [constructor|by intros _]]]]).
    + cbn [negb Z.eqb WSLAY_ERR_WANT_READ WSLAY_ERR_PROTO Pos.eqb orb].
      destruct (queue_close_wrapper_spec 0 [] c1) as (o & rc & -> & -> & [-> |[_ H]]); [|done]. cbn.
      eexists _, _, _, _. split; [done|split; [done|split; [by rewrite Hm|split; [apply answered_close|done]]]].
  - destruct Hr as [Hi' Hlt]. destruct (frame_received_settles io c1) as (c' & v & Eq & Hans & Hf & Hv).
    destruct (exec_quiet _ _ s1 Eq) as (s' & Ex & E1 & E2 & E3 & _). rewrite Ex. cbn [mbind outcome_bind].
    eexists _, _, c', v. split; [done|]. split; [unfold ready; by rewrite E1, E2|].
    split; [by rewrite E3, Hm|]. split; [exact Hans|]. assert (room (frame_ctx_in (ein c')) s' = room f s1 /\ idle_in (frame_ctx_in (ein c'))) as [Hroom Hi2].
    { split.
      - unfold room, avail. rewrite E1, E2. destruct Hf as [-> | ->]; done.
      - destruct Hf as [-> | ->]; [done|]. by apply idle_set_error. }
    destruct v; [split; [done|lia]| |done]. unfold drained. by rewrite Hv.
Qed.

(** Fuel for every byte is enough, and more changes nothing. *)
Lemma recv_loop_post n c s :
  ready s -> (read_enabled (ein c) = true -> idle_in (frame_ctx_in (ein c)) /\
    (room (frame_ctx_in (ein c)) s < n)%nat) ->
  exists s' l c' rc, exec (recv_loop n c) s = Ok (s', l, (c', rc)) /\ ready s' /\
    rc <> OUT_OF_FUEL /\ drained c' s' /\ outbound s' = outbound s /\ answered (eout c) (eout c') /\
    forall m, (n <= m)%nat -> exec (recv_loop m c) s = exec (recv_loop n c) s.
Proof.
  revert c s. induction n as [|n IH]; intros c s Hs Hi.
  - destruct (read_enabled (ein c)) eqn:Hr; [destruct (Hi eq_refl); lia|].
    cbn. rewrite Hr. eexists _, _, _, _. split; [done|split; [done|split; [done|split; [by intros ?; congruence|split; [done|split; [constructor|]]]]]].
    intros [|m] _; cbn; by rewrite Hr.
  - destruct (read_enabled (ein c)) eqn:Hr; cbn [recv_loop]; rewrite Hr.
    + destruct (Hi eq_refl) as [Hi1 Hlt].
      destruct (recv_once_post c s Hs Hi1) as (s1 & l1 & c1 & v & E & Hs1 & Hob & Hans & Hv).
      rewrite exec_bind, E. cbn [mbind outcome_bind]. destruct v as [| |rc].
      * destruct (IH c1 s1 Hs1) as (s' & l & c' & rc & E' & H1 & H2 & H3 & Hob' & Ha & H4); [intros _; split; [apply Hv|lia]|].
        rewrite E'. eexists _, _, _, _. split; [done|]. split_and!; try done; [congruence|by eapply answered_trans|].
        intros [|m] Hm; [lia|]. cbn [recv_loop]. rewrite Hr, exec_bind, E. cbn [mbind outcome_bind].
        rewrite (H4 m) by lia. by rewrite E'.
      * cbn. eexists _, _, _, _. split; [done|]. split_and!; try done.
        intros [|m] Hm; [lia|]. cbn [recv_loop]. by rewrite Hr, exec_bind, E.
      * cbn. eexists _, _, _, _. split; [done|]. destruct Hv as [Hv1 Hv2]. split_and!; try done; [intros ?; congruence|].
        intros [|m] Hm; [lia|]. cbn [recv_loop]. by rewrite Hr, exec_bind, E.
    + cbn. eexists _, _, _, _. split; [done|split; [done|split; [done|split; [by intros ?; congruence|split; [done|split; [constructor|]]]]]].
      intros [|m] _; cbn; by rewrite Hr.
Qed.
