(* ===== verification/WslayStream.v ===== *)
(** * WslayStream: a client's frames through wslay

    What WslayC.v makes of the frames of a client (RFC 6455, section 5): [encode] is the
    wire form of a frame, [valid] a sequence of binary messages, whole or in
    fragments, with pings and pongs between them.  Whatever the pieces the
    stream arrives in, the callbacks see the payload of its data frames, as it
    comes. *)

From S2P Require Import Prelude Utf8 Bridge BridgeFacts WslayC WslayFacts.

(** ** Frames of a client *)

Record ws_frame := wsFrame {
  f_fin : bool;
  f_opcode : Z;
  f_key : bytes;
  f_payload : bytes;
}.

Definition f_len (f : ws_frame) : Z := zlen (f_payload f).
Definition f_data (f : ws_frame) : bool := is_data_opcode (f_opcode f).

(** The seven bits of the length, and the bytes that extend it. *)
Definition length7 (n : Z) : Z := if n <? 126 then n else if n <? 65536 then 126 else 127.
Definition ext_length (n : Z) : bytes :=
  if n <? 126 then []
  else if n <? 65536 then [Z.shiftr n 8 mod 256; n mod 256]
  else (fun i => Z.shiftr n (8 * i) mod 256) <$> [7; 6; 5; 4; 3; 2; 1; 0].

Definition f_header (f : ws_frame) : bytes :=
  [(if f_fin f then 128 else 0) + f_opcode f; 128 + length7 (f_len f)].

(** Masking is its own inverse. *)
Definition f_masked (f : ws_frame) : bytes := unmask (f_key f) 0 (f_payload f).

Definition encode (f : ws_frame) : bytes :=
  f_header f ++ ext_length (f_len f) ++ f_key f ++ f_masked f.

Definition wire (fs : list ws_frame) : bytes := concat (encode <$> fs).

(** A frame of a binary message, or a control frame. *)
Definition framed (f : ws_frame) : bool :=
  (length (f_key f) =? 4)%nat &&
  if f_data f then ((f_opcode f =? 0) || (f_opcode f =? 2)) && (f_len f <=? max_recv_msg_length)
  else is_control (f_opcode f) && f_fin f && (f_len f <=? 125).

(** One before the Close. *)
Definition legal (f : ws_frame) : bool := framed f && negb (f_opcode f =? WSLAY_CONNECTION_CLOSE).

(** A conversation; [open]: within a fragmented message. *)
Fixpoint valid (open : bool) (fs : list ws_frame) : bool :=
  match fs with
  | [] => true
  | f :: fs =>
      legal f &&
      if f_data f then eqb (f_opcode f =? 0) open && valid (negb (f_fin f)) fs else valid open fs
  end.

(** The payload of the data frames. *)
Definition payload_of (f : ws_frame) : bytes := if f_data f then f_payload f else [].
Definition data_of (fs : list ws_frame) : bytes := concat (payload_of <$> fs).

(** The bytes of a frame before its payload. *)
Definition prologue (f : ws_frame) : nat := (2 + length (ext_length (f_len f)) + 4)%nat.

(** What of the data is visible in the first [n] bytes of the stream. *)
Fixpoint visible (fs : list ws_frame) (n : nat) : bytes :=
  match fs with
  | [] => []
  | f :: fs =>
      take (n - prologue f) (payload_of f) ++ visible fs (n - length (encode f))
  end.

(** The frames that are complete in the first [n] bytes. *)
Fixpoint complete (fs : list ws_frame) (n : nat) : list ws_frame :=
  match fs with
  | [] => []
  | f :: fs => if (length (encode f) <=? n)%nat then f :: complete fs (n - length (encode f)) else []
  end.

(** ** Facts about the encoding *)

Lemma unmask_length key off l : length (unmask key off l) = length l.
Proof. revert off. induction l; intros; cbn; auto. Qed.

Lemma unmask_involutive key off l : unmask key off (unmask key off l) = l.
Proof.
  revert off. induction l as [|b l IH]; intros off; [done|]. cbn. rewrite IH. f_equal.
  by rewrite Z.lxor_assoc, Z.lxor_nilpotent, Z.lxor_0_r.
Qed.

Lemma unmask_app key off l1 l2 :
  unmask key off (l1 ++ l2) = unmask key off l1 ++ unmask key (off + zlen l1) l2.
Proof.
  revert off. induction l1 as [|b l1 IH]; intros off; cbn.
  - by rewrite Z.add_0_r.
  - rewrite IH. do 3 f_equal. rewrite zlen_cons. lia.
Qed.

(** A piece of the masked payload. *)
Lemma unmask_piece key l k n :
  (k + n <= length l)%nat ->
  unmask key (Z.of_nat k) (take n (drop k (unmask key 0 l))) = take n (drop k l).
Proof.
  intros H.
  assert (drop k (unmask key 0 l) = unmask key (Z.of_nat k) (drop k l)) as ->.
  { rewrite <- (take_drop k l) at 1. rewrite unmask_app, drop_app_length'; unfold zlen;
      rewrite ?unmask_length, length_take; [|lia]. do 2 f_equal. lia. }
  rewrite <- (take_drop n (drop k l)) at 1. rewrite unmask_app, take_app_length'.
  - apply unmask_involutive.
  - rewrite unmask_length, length_take, length_drop. lia.
Qed.

Lemma encode_length f :
  length (f_key f) = 4%nat -> length (encode f) = (prologue f + length (f_payload f))%nat.
Proof.
  intros Hk. unfold encode, prologue, f_masked. rewrite !length_app, unmask_length, Hk. cbn. lia.
Qed.

Lemma be_value_ext n :
  126 <= n < 2 ^ 63 -> be_value (ext_length n) = n /\ ext_length n <> [] /\
  (length (ext_length n) = 2%nat /\ n < 65536 \/ length (ext_length n) = 8%nat /\ 65536 <= n).
Proof.
  intros Hn. unfold ext_length. destruct (Z.ltb_spec n 126); [lia|].
  destruct (Z.ltb_spec n 65536); unfold be_value; cbn [fold_left length fmap list_fmap].
  - split; [rewrite Z.shiftr_div_pow2 by lia; zlia|split; [done|by left]].
  - split; [rewrite !Z.shiftr_div_pow2 by lia; cbn; zlia|split; [done|by right]].
Qed.

Lemma framed_key f : framed f = true -> length (f_key f) = 4%nat.
Proof. unfold framed. intros H. apply andb_true_iff in H as [H _]. lia. Qed.

Lemma framed_len f : framed f = true -> 0 <= f_len f <= max_recv_msg_length.
Proof.
  unfold framed, max_recv_msg_length. intros H. apply andb_true_iff in H as [_ H].
  pose proof (zlen_nonneg (f_payload f)). unfold f_len in *. destruct (f_data f); lia.
Qed.

Lemma framed_opcode f :
  framed f = true ->
  (f_data f = true /\ (f_opcode f = 0 \/ f_opcode f = 2)) \/
  (f_data f = false /\ (f_opcode f = 8 \/ f_opcode f = 9 \/ f_opcode f = 10) /\ f_fin f = true /\ f_len f <= 125).
Proof.
  unfold framed. intros H. apply andb_true_iff in H as [_ H]. unfold is_control in *.
  unfold WSLAY_CONNECTION_CLOSE, WSLAY_PING, WSLAY_PONG in *. destruct (f_data f); [left|right]; lia.
Qed.

Lemma legal_framed f : legal f = true -> framed f = true.
Proof. unfold legal. intros H. by apply andb_true_iff in H as [H _]. Qed.

Lemma legal_key f : legal f = true -> length (f_key f) = 4%nat.
Proof. intros H. by apply framed_key, legal_framed. Qed.

Lemma legal_len f : legal f = true -> 0 <= f_len f <= max_recv_msg_length.
Proof. intros H. by apply framed_len, legal_framed. Qed.

Lemma legal_opcode f :
  legal f = true ->
  (f_data f = true /\ (f_opcode f = 0 \/ f_opcode f = 2)) \/
  (f_data f = false /\ (f_opcode f = 9 \/ f_opcode f = 10) /\ f_fin f = true /\ f_len f <= 125).
Proof.
  unfold legal. intros H. apply andb_true_iff in H as [H Hc]. unfold WSLAY_CONNECTION_CLOSE in Hc.
  destruct (framed_opcode f H) as [?|(? & Hop & ?)]; [by left|right]. split_and!; try tauto. lia.
Qed.

(** ** wslay_frame.c on a frame *)

Section frame.
Variables (f : ws_frame) (more : bytes).
Hypothesis Hf : framed f = true.

(** The first two bytes have been understood. *)
Definition known (fi : frame_in) : Prop :=
  iom_fin fi = Z.b2z (f_fin f) /\ iom_rsv fi = 0 /\ iom_opcode fi = f_opcode f /\ imask fi = 1.

(** The frame context has consumed [c] bytes of the frame. *)
Inductive parsing (fi : frame_in) : nat -> Prop :=
  | at_header : istate fi = RECV_HEADER1 -> ireqread fi = 2 -> parsing fi 0
  | at_ext :
      istate fi = RECV_EXT_PAYLOADLEN -> ireqread fi = zlen (ext_length (f_len f)) ->
      126 <= f_len f -> known fi -> parsing fi 2
  | at_key :
      istate fi = RECV_MASKKEY -> ireqread fi = 4 -> known fi ->
      ipayloadlen fi = f_len f -> ipayloadoff fi = 0 -> parsing fi (prologue f - 4)
  | at_payload k :
      istate fi = RECV_PAYLOAD -> known fi -> ipayloadlen fi = f_len f ->
      ipayloadoff fi = Z.of_nat k -> imaskkey fi = f_key f ->
      (k < length (f_payload f))%nat \/ k = 0%nat -> parsing fi (prologue f + k).

(** What is to come: the rest of the frame, then [more]. *)
Definition stream (fut : bytes) (fi : frame_in) (s : Shared) (c : nat) : Prop :=
  ibuf fi ++ avail s ++ fut = drop c (encode f) ++ more.

Lemma parsing_took fut fi s fi' s' c :
  took fi s fi' s' -> parsing fi c -> stream fut fi s c -> parsing fi' c /\ stream fut fi' s' c.
Proof.
  intros (_ & _ & E & [e He] & _) H Hs. split.
  - rewrite He. destruct H; [by apply at_header|by apply at_ext|by apply at_key|by apply at_payload].
  - unfold stream in *. by rewrite (assoc_L (++)), E, <- (assoc_L (++)).
Qed.

(** A stage on the bytes it waits for. *)
Definition serves (st : frame_state) (body : frame_in -> frame_in * option Z) : Prop :=
  forall fut fi s c, parsing fi c -> stream fut fi s c -> istate fi = st ->
  ireqread fi <= zlen (ibuf fi) -> err_ok fi ->
  exists fi' c', body fi = (fi', None) /\ err_ok fi' /\ parsing fi' c' /\ stream fut fi' s c' /\
    (rank st < rank (istate fi'))%nat /\ (c <= prologue f)%nat /\ (c' <= prologue f)%nat.

Lemma f_masked_length : length (f_masked f) = length (f_payload f).
Proof using Type. apply unmask_length. Qed.

(** The bytes of the encoding from the end of the header on. *)
Lemma drop_header c :
  drop (2 + c) (encode f) = drop c (ext_length (f_len f) ++ f_key f ++ f_masked f).
Proof using Type. done. Qed.

Lemma header_bits :
  let b0 := (if f_fin f then 128 else 0) + f_opcode f in
  let b1 := 128 + length7 (f_len f) in
  Z.land (Z.shiftr b0 7) 1 = Z.b2z (f_fin f) /\ Z.land (Z.shiftr b0 4) 7 = 0 /\
  Z.land b0 15 = f_opcode f /\ Z.land (Z.shiftr b1 7) 1 = 1 /\ Z.land b1 127 = length7 (f_len f).
Proof using Hf.
  cbn zeta. assert (0 <= length7 (f_len f) < 128) as Hl.
  { pose proof (framed_len _ Hf). unfold length7. destruct (f_len f <? 126) eqn:?, (f_len f <? 65536); lia. }
  assert (f_opcode f = 0 \/ f_opcode f = 2 \/ f_opcode f = 8 \/ f_opcode f = 9 \/ f_opcode f = 10) as Ho
    by (destruct (framed_opcode _ Hf); naive_solver).
  split_and!; try (destruct Ho as [-> |[-> |[-> |[-> | ->]]]], (f_fin f); reflexivity).
  - rewrite (Z.land_ones _ 1), Z.shiftr_div_pow2 by lia. zlia.
  - rewrite (Z.land_ones _ 7) by lia. zlia.
Qed.

Lemma header1_serves : serves RECV_HEADER1 recv_header1.
Proof using Hf.
  intros fut fi s c Hp Hs Hst Hlen He.
  destruct Hp as [_ Hq|Hst' _ _ _|Hst' _ _ _ _|k Hst' _ _ _ _ _]; try congruence.
  unfold stream in Hs. cbn [drop encode f_header app] in Hs. unfold recv_header1.
  destruct (ibuf fi) as [|x0 [|x1 rest]] eqn:Hb; [unfold zlen in *; cbn in *; lia..|].
  cbn in Hs. injection Hs as -> -> Hs. destruct header_bits as (E1 & E2 & E3 & E4 & E5).
  rewrite E1, E2, E3, E4, E5. pose proof (framed_len _ Hf) as Hl0.
  assert (wslay_is_ctrl_frame (f_opcode f) && ((125 <? length7 (f_len f)) || (Z.b2z (f_fin f) =? 0))
    = false) as ->.
  { destruct (framed_opcode _ Hf) as [(_ & [-> | ->])|(_ & [-> |[-> | ->]] & -> & Hl)]; try done;
      unfold length7; cbn; destruct (Z.ltb_spec (f_len f) 126); lia. }
  unfold length7, prologue. destruct (Z.ltb_spec (f_len f) 126) as [H1|H1].
  - destruct (Z.eqb_spec (f_len f) 126); [lia|]. destruct (Z.eqb_spec (f_len f) 127); [lia|].
    assert (ext_length (f_len f) = []) as Ex by (unfold ext_length; by destruct (Z.ltb_spec (f_len f) 126); [|lia]).
    eexists _, 2%nat. split; [reflexivity|]. split; [exact He|]. split; [|split; [|split; [cbn; lia|lia]]].
    + replace 2%nat with (prologue f - 4)%nat by (unfold prologue; rewrite Ex; done).
      by apply at_key.
    + exact Hs.
  - assert (forall fi', istate fi' = RECV_EXT_PAYLOADLEN -> ireqread fi' = zlen (ext_length (f_len f)) ->
      known fi' -> parsing fi' 2) as Hext by (intros; by apply at_ext).
    assert (f_len f < 2 ^ 63) as H63 by (unfold max_recv_msg_length in *; lia).
    destruct (be_value_ext (f_len f) ltac:(lia)) as (_ & _ & Hel).
    destruct (Z.ltb_spec (f_len f) 65536); cbn [Z.eqb Pos.eqb];
      (eexists _, 2%nat; split; [reflexivity|]; split; [exact He|]; split;
        [apply Hext; try done; unfold zlen; cbn; lia|split; [exact Hs|split; [cbn; lia|lia]]]).
Qed.

Lemma ext_serves : serves RECV_EXT_PAYLOADLEN recv_ext_payloadlen.
Proof using Hf.
  intros fut fi s c Hp Hs Hst Hlen He.
  destruct Hp as [Hst' _|_ Hq H126 Hkn|Hst' _ _ _ _|k Hst' _ _ _ _ _]; try congruence.
  unfold stream in Hs. rewrite (drop_header 0 : drop 2 _ = _), drop_0, <- !(assoc_L (++)) in Hs.
  pose proof (framed_len _ Hf) as Hl.
  assert (f_len f < 2 ^ 63) as H63 by (unfold max_recv_msg_length in *; lia).
  destruct (be_value_ext (f_len f) ltac:(lia)) as (Hv & Hne & Hel). set (ext := ext_length _) in *.
  assert (take (Z.to_nat (ireqread fi)) (ibuf fi) = ext /\
    drop (Z.to_nat (ireqread fi)) (ibuf fi) ++ avail s ++ fut = f_key f ++ f_masked f ++ more) as [Ht Hd].
  { rewrite Hq. unfold zlen at 1 2. rewrite Nat2Z.id. assert (length ext <= length (ibuf fi))%nat as Hle by (unfold zlen in *; lia).
    rewrite <- (take_drop (length ext) (ibuf fi)), <- (assoc_L (++)) in Hs.
    apply app_inj_1 in Hs; [done|]. rewrite length_take. lia. }
  unfold recv_ext_payloadlen. rewrite Ht, Hv. cbn [ireqread set_ibuf set_ipayload].
  match goal with |- context [if ?b then (?x, Some WSLAY_ERR_PROTO) else _] => assert (b = false) as -> end.
  { rewrite Hq. unfold zlen. destruct Hel as [[-> H]|[-> H]].
    - change (Z.of_nat 2 =? 8) with false. cbn iota. lia.
    - change (Z.of_nat 8 =? 8) with true. cbn iota. rewrite Z.bits_above_log2; [lia|lia|]. apply Z.log2_lt_pow2; lia. }
  unfold after_length. cbn [imask set_ibuf set_ipayload]. destruct Hkn as (K1 & K2 & K3 & K4).
  rewrite K4. cbn [Z.eqb Pos.eqb]. eexists _, (prologue f - 4)%nat.
  split; [reflexivity|]. split; [exact He|]. split; [by apply at_key|].
  split; [|split; [cbn; lia|unfold prologue; lia]]. unfold stream, prologue.
  replace (2 + length (ext_length (f_len f)) + 4 - 4)%nat with (2 + length ext)%nat by (subst ext; lia).
  rewrite drop_header. subst ext. by rewrite drop_app_length, <- (assoc_L (++)).
Qed.

Lemma maskkey_serves : serves RECV_MASKKEY recv_maskkey.
Proof using Hf.
  intros fut fi s c Hp Hs Hst Hlen He.
  destruct Hp as [Hst' _|Hst' _ _ _|_ Hq Hkn Hpl Hpo|k Hst' _ _ _ _ _]; try congruence.
  pose proof (framed_key _ Hf) as Hkey. unfold stream in Hs.
  assert (prologue f - 4 = 2 + length (ext_length (f_len f)))%nat as Hpr by (unfold prologue; lia).
  rewrite Hpr, drop_header, drop_app_length, <- (assoc_L (++)) in Hs.
  assert (take 4 (ibuf fi) = f_key f /\ drop 4 (ibuf fi) ++ avail s ++ fut = f_masked f ++ more) as [Ht Hd].
  { rewrite <- (take_drop 4 (ibuf fi)), <- (assoc_L (++)) in Hs.
    apply app_inj_1 in Hs; [done|]. rewrite length_take. unfold zlen in *. lia. }
  unfold recv_maskkey. eexists _, (prologue f + 0)%nat. split; [reflexivity|]. split; [exact He|].
  split; [apply at_payload; try done; by right|].
  split; [|split; [cbn; lia|unfold prologue; lia]]. unfold stream. cbn [ibuf set_istate set_ibuf].
  rewrite Hd. f_equal. replace (prologue f + 0)%nat with (2 + (length (ext_length (f_len f)) + 4))%nat
    by (unfold prologue; lia).
  rewrite drop_header, <- drop_drop, drop_app_length, <- Hkey. by rewrite drop_app_length.
Qed.

(** The frame context awaits bytes. *)
Definition waiting (fi : frame_in) : Prop :=
  match istate fi with RECV_PAYLOAD => ibuf fi = [] | _ => zlen (ibuf fi) < ireqread fi end.

Definition at_start (fi : frame_in) : Prop := istate fi = RECV_HEADER1 /\ ireqread fi = 2.

(** The piece of [n] bytes of the payload from the [k]th on. *)
Definition piece (k n : nat) : frame_iocb :=
  mkIocb (Z.b2z (f_fin f)) 0 (f_opcode f) (f_len f) 1 (take n (drop k (f_payload f))).

(** How [wslay_frame_recv] ends, [k] bytes of the payload having been seen. *)
Definition conv_post (fut : bytes) (k : nat) (s : Shared)
    (o : outcome unit (Shared * list call * (frame_in * (Z + frame_iocb)))) : Prop :=
  exists fi' s' l r, o = Ok (s', l, (fi', r)) /\ reads l /\ (exists m, s' = at_pos m s) /\ ready s' /\
    err_ok fi' /\
    match r with
    | inl rc => rc = WSLAY_ERR_WANT_READ /\ avail s' = [] /\ waiting fi' /\
        exists c', parsing fi' c' /\ stream fut fi' s' c' /\ (c' - prologue f)%nat = k
    | inr io => exists n, io = piece k n /\ (k + n <= length (f_payload f))%nat /\
        ((0 < n)%nat \/ f_payload f = []) /\ ((k + n = length (f_payload f))%nat \/ ibuf fi' = []) /\
        stream fut fi' s' (prologue f + (k + n)) /\
        (if decide (k + n = length (f_payload f))%nat then at_start fi'
         else parsing fi' (prologue f + (k + n)))
    end.

Lemma conv_bind {A} fut k s (p : prog A) h s1 l1 a :
  exec p s = Ok (s1, l1, a) -> reads l1 -> (exists m, s1 = at_pos m s) ->
  conv_post fut k s1 (exec (h a) s1) -> conv_post fut k s (exec (p ≫= h) s).
Proof using Type.
  intros E Hl [m ->] (f' & s' & l & r & E' & Hl' & [m' ->] & H). rewrite exec_bind, E.
  cbn [mbind outcome_bind]. rewrite E'. eexists f', _, (l1 ++ l), r. split; [done|].
  split; [auto with wslay|]. split; [by eexists|exact H].
Qed.

Lemma piece_conv fut k fi s :
  ready s -> err_ok fi -> parsing fi (prologue f + k) -> istate fi = RECV_PAYLOAD ->
  stream fut fi s (prologue f + k) -> (ibuf fi <> [] \/ f_payload f = []) ->
  conv_post fut k s (exec (let '(f, io) := recv_payload fi in mret (f, inr io)) s).
Proof using Hf.
  intros Hs He Hp Hst Hstr Hne. inversion Hp as [Hst'|Hst'|Hst'|k' Hst' Hkn Hl Ho Hk Hk' Hc]; try congruence. assert (k' = k) as -> by lia. clear Hc. destruct Hkn as (K1 & K2 & K3 & K4).
  pose proof (framed_key _ Hf) as Hkey. pose proof (encode_length f Hkey) as Henc.
  assert (drop (prologue f + k) (encode f) = drop k (f_masked f)) as Hdrop.
  { unfold prologue. rewrite <- (Nat.add_assoc (2 + _)), <- (Nat.add_assoc 2), drop_header.
    rewrite (Nat.add_assoc (length _)), <- !drop_drop, drop_app_length, <- Hkey. by rewrite drop_app_length. }
  unfold recv_payload.
  cbn [iom_fin iom_rsv iom_opcode imask imaskkey ipayloadlen ipayloadoff set_ibuf set_ipayload ibuf].
  rewrite K1, K2, K3, K4, Hl, Ho, Hk. cbn [Z.eqb Pos.eqb].
  set (n := if _ <? _ then _ else _).
  assert (k + n <= length (f_payload f) /\ n <= length (ibuf fi) /\ (0 < n \/ f_payload f = []) /\
    (k + n = length (f_payload f) \/ n = length (ibuf fi)))%nat as (Hn1 & Hn2 & Hn3 & Hn4).
  { assert (f_payload f = [] \/ (0 < length (ibuf fi) /\ k < length (f_payload f))%nat) as Hnil.
    { destruct (decide (f_payload f = [])) as [|Hnn]; [by left|right].
      destruct Hne as [Hne|]; [|done]. destruct (ibuf fi), (f_payload f); cbn in *; try done; lia. }
    subst n. unfold f_len, zlen.
    destruct (Z.ltb_spec (Z.of_nat (length (ibuf fi))) (Z.of_nat (length (f_payload f)) - Z.of_nat k));
      (split; [lia|split; [lia|split; [|lia]]]); (destruct Hnil as [|[]]; [by right|left; lia]). }
  clearbody n.
  assert (take n (ibuf fi) = take n (drop k (f_masked f)) /\
    drop n (ibuf fi) ++ avail s ++ fut = drop (k + n) (f_masked f) ++ more) as [Ht Hd].
  { unfold stream in Hstr. rewrite Hdrop in Hstr.
    assert (n <= length (drop k (f_masked f)))%nat as Hle by (rewrite length_drop, f_masked_length; lia).
    rewrite <- (take_drop n (ibuf fi)), <- (take_drop n (drop k (f_masked f))), <- !(assoc_L (++)) in Hstr.
    apply app_inj_1 in Hstr; [|rewrite !length_take; lia]. by rewrite drop_drop in Hstr. }
  rewrite Ht. unfold f_masked at 1. rewrite unmask_piece by lia.
  eexists _, s, [], _. split; [reflexivity|]. split; [auto with wslay|].
  split; [exists (inbound_pos s); by rewrite at_pos_same|]. split; [done|].
  assert (drop (prologue f + (k + n)) (encode f) = drop (k + n) (f_masked f)) as Hdrop'.
  { by rewrite (Nat.add_assoc (prologue f)), <- (drop_drop (encode f)), Hdrop, drop_drop. }
  cbn [ipayloadlen ipayloadoff set_ibuf set_ipayload]. unfold f_len, zlen.
  destruct (Z.eqb_spec (Z.of_nat (length (f_payload f))) (Z.of_nat k + Z.of_nat n)) as [Eq|Ne].
  - split; [exact He|]. exists n. split; [done|split; [done|split; [done|split; [|split]]]].
    + destruct Hn4 as [?| ->]; [by left|right; apply drop_all].
    + unfold stream. by rewrite Hdrop'.
    + destruct (decide _) as [_|Hx]; [done|lia].
  - split; [exact He|]. exists n. split; [done|split; [done|split; [done|split; [|split]]]].
    + destruct Hn4 as [?| ->]; [by left|right; apply drop_all].
    + unfold stream. by rewrite Hdrop'.
    + destruct (decide _) as [Hx|_]; [lia|]. apply at_payload; try done; cbn; lia.
Qed.

Lemma payload_conv fut k fi s :
  ready s -> err_ok fi -> parsing fi (prologue f + k) -> istate fi = RECV_PAYLOAD ->
  stream fut fi s (prologue f + k) -> conv_post fut k s (exec (payload_stage fi) s).
Proof using Hf.
  intros Hs He Hp Hst Hstr. unfold payload_stage. destruct (decide _) as [_|]; [|done].
  assert (ipayloadlen fi = f_len f /\ ipayloadoff fi = Z.of_nat k /\ ((k < length (f_payload f))%nat \/ k = 0%nat))
    as (Hl & Ho & Hk).
  { inversion Hp as [| | |k' ? ? ? ? ? ? Hc]; try congruence. by replace k with k' by lia. }
  rewrite Hl, Ho. destruct (Z.eqb_spec (zlen (ibuf fi)) 0) as [Hb|Hb];
    [destruct (Z.ltb_spec 0 (f_len f - Z.of_nat k)) as [Hr|Hr]|]; cbn [andb].
  - destruct (exec_wslay_recv fi s Hs He) as (f1 & s1 & l1 & r & E & Ht & Hlr & Hr1);
      [unfold zlen in *; lia|].
    destruct (parsing_took _ _ _ _ _ _ Ht Hp Hstr) as [Hp1 Hstr1].
    assert (istate f1 = RECV_PAYLOAD) as Hst1 by (destruct Ht as (_ & _ & _ & [e ->] & _); done).
    eapply conv_bind; [exact E|done|apply Ht|]. destruct Hr1 as [(Ha & -> & Hi)|(Hr1 & Hlt & _)].
    + cbn. eexists f1, s1, [], _. split; [done|]. split; [auto with wslay|].
      split; [exists (inbound_pos s1); by rewrite at_pos_same|]. split; [apply Ht|]. split; [apply Ht|].
      split_and!; try done.
      * unfold waiting. rewrite Hst1, Hi. apply nil_length_inv. unfold zlen in *. lia.
      * exists (prologue f + k)%nat. split_and!; try done. lia.
    + destruct (Z.leb_spec r 0); [lia|]. apply piece_conv; try done; [apply Ht|apply Ht|].
      left. intros Hnil. rewrite Hnil in Hlt. cbn in Hlt. lia.
  - eapply conv_bind; [reflexivity|auto with wslay|exists (inbound_pos s); by rewrite at_pos_same|].
    apply piece_conv; try done. right. apply nil_length_inv. unfold f_len, zlen in *. lia.
  - eapply conv_bind; [reflexivity|auto with wslay|exists (inbound_pos s); by rewrite at_pos_same|].
    apply piece_conv; try done. left. by intros Hnil; rewrite Hnil in Hb.
Qed.

Lemma stage_conv fut k st body h fi s c :
  serves st body -> ready s -> err_ok fi -> parsing fi c -> stream fut fi s c ->
  st = RECV_HEADER1 \/ st = RECV_EXT_PAYLOADLEN \/ st = RECV_MASKKEY ->
  (rank st <= rank (istate fi))%nat -> (c - prologue f)%nat = k ->
  (forall fi1 s1 c1, ready s1 -> err_ok fi1 -> parsing fi1 c1 -> stream fut fi1 s1 c1 ->
     (rank st < rank (istate fi1))%nat -> (c1 - prologue f)%nat = k -> conv_post fut k s1 (exec (h fi1) s1)) ->
  conv_post fut k s (exec (or_return (stage st body fi) h) s).
Proof using Hf.
  intros Hsv Hs He Hp Hstr Hst Hrk Hc Hh.
  assert (0 <= ireqread fi <= 4096 \/ istate fi = RECV_PAYLOAD) as Hq.
  { destruct Hp as [_ ->|_ -> H126 _|_ -> _ _ _|k' -> _ _ _ _ _]; try (left; lia); [|by right].
    left. unfold zlen. pose proof (framed_len _ Hf). unfold max_recv_msg_length in *.
    destruct (be_value_ext (f_len f)) as (_ & _ & [[-> _]|[-> _]]); lia. }
  destruct (decide (istate fi = st)) as [Heq|Hne]; unfold or_return.
  - destruct Hq as [Hq|Hq]; [|destruct Hst as [?|[?|?]]; congruence].
    destruct (exec_stage st body fi s Hs He Hq) as [[Hne _]|(_ & f' & s' & l & r & E & Ht & Hl & Hr)];
      [done|]. destruct (parsing_took _ _ _ _ _ _ Ht Hp Hstr) as [Hp' Hstr'].
    assert (istate f' = st /\ ireqread f' = ireqread fi) as [Hst' Hq']
      by (destruct Ht as (_ & _ & _ & [e ->] & _); done).
    eapply conv_bind; [exact E|done|apply Ht|]. destruct Hr as [(Ha & -> & Hi)|(-> & Hi)].
    + cbn. eexists f', s', [], _. split; [done|]. split; [auto with wslay|].
      split; [exists (inbound_pos s'); by rewrite at_pos_same|]. split; [apply Ht|]. split; [apply Ht|].
      split; [done|split; [done|split]].
      * unfold waiting. rewrite Hst', Hq'. by destruct Hst as [-> |[-> | ->]].
      * by exists c.
    + rewrite <- Hq' in Hi. destruct (Hsv fut f' s' c Hp' Hstr' Hst' Hi ltac:(apply Ht))
        as (f2 & c2 & -> & He2 & Hp2 & Hstr2 & Hrk2 & Hc1 & Hc2).
      apply (Hh f2 s' c2); try done; [apply Ht|lia].
  - unfold stage. destruct (decide _) as [|_]; [done|].
    eapply conv_bind; [reflexivity|auto with wslay|exists (inbound_pos s); by rewrite at_pos_same|].
    apply (Hh fi s c); try done.
    destruct Hp as [Hi _|Hi _ _ _|Hi _ _ _ _|k' Hi _ _ _ _ _]; rewrite Hi in Hrk, Hne |- *;
      destruct Hst as [-> |[-> | ->]]; cbn in *; try done; lia.
Qed.

Lemma frame_recv_conv fut fi s c :
  ready s -> err_ok fi -> parsing fi c -> stream fut fi s c ->
  conv_post fut (c - prologue f) s (exec (wslay_frame_recv fi) s).
Proof using Hf.
  intros Hs He Hp Hstr. unfold wslay_frame_recv.
  eapply stage_conv; [apply header1_serves|done|done|exact Hp|done|auto|cbn; lia|done|].
  intros f1 s1 c1 Hs1 He1 Hp1 Hstr1 Hr1 Hc1.
  eapply stage_conv; [apply ext_serves|done|done|exact Hp1|done|auto|cbn in *; lia|done|].
  intros f2 s2 c2 Hs2 He2 Hp2 Hstr2 Hr2 Hc2.
  eapply stage_conv; [apply maskkey_serves|done|done|exact Hp2|done|auto|cbn in *; lia|done|].
  intros f3 s3 c3 Hs3 He3 Hp3 Hstr3 Hr3 Hc3.
  assert (istate f3 = RECV_PAYLOAD /\ c3 = prologue f + (c - prologue f))%nat as [Hst ->].
  { destruct Hp3 as [Hi _|Hi _ _ _|Hi _ _ _ _|k' Hi _ _ _ _ _]; rewrite Hi in Hr3; cbn in Hr3;
      [lia..|]. split; [done|lia]. }
  by apply payload_conv.
Qed.
End frame.

(** ** wslay_event.c on a frame *)

(** No message, or a binary message whose next fragment is to come. *)
Definition idle_msg (m : wslay_event_imsg) : Prop := exists b r l, m = mkImsg b r 0xff UTF8_ACCEPT [] l.
Definition open_msg (m : wslay_event_imsg) : Prop := exists b, m = mkImsg b 0 2 UTF8_ACCEPT [] 0.

(** Between two frames. *)
Definition boundary (open : bool) (i : event_in) : Prop :=
  exists fr m0 m1 sc, i = mkEventIn fr true m0 m1 false 0 0 sc false /\
    (if open then open_msg m0 else idle_msg m0) /\ idle_msg m1.

(** [k] bytes of the payload of [f] have been seen. *)
Definition midway (open : bool) (f : ws_frame) (k : nat) (i : event_in) : Prop :=
  if f_data f then
    exists fr m1 sc, i = mkEventIn fr true (mkImsg (Z.b2z (f_fin f)) 0 2 UTF8_ACCEPT [] 0) m1 false
      (f_len f) (Z.of_nat k) sc false /\ idle_msg m1
  else
    let m := mkImsg 1 0 (f_opcode f) UTF8_ACCEPT (take k (f_payload f)) (f_len f) in
    exists fr m0 m1 sc, i = mkEventIn fr true m0 m1 open (f_len f) (Z.of_nat k) sc false /\
      if open then open_msg m0 /\ m1 = m else m0 = m /\ idle_msg m1.

(** Whether a message is open after [f]. *)
Definition open_after (open : bool) (f : ws_frame) : bool := if f_data f then negb (f_fin f) else open.

(** What a complete control frame leaves: the event and the answer. *)
Definition event_of (f : ws_frame) : list ControlEvent :=
  if f_opcode f =? 9 then [EvPing (f_payload f)]
  else if f_opcode f =? 10 then [EvPong (f_payload f)] else [].
Definition answer (f : ws_frame) (o : event_out) : event_out :=
  if f_opcode f =? 9 then fst (wslay_event_queue_msg WSLAY_PONG (f_payload f) o) else o.

(** Once [k] bytes have been seen, wslay being in the middle or done. *)
Definition seen (open : bool) (f : ws_frame) (k : nat) (o : event_out) (p : prog (wslay_event_context * verdict))
    (fr : frame_in) : Prop :=
  exists c', quiet_result p = Some (c', Continue) /\ no_buffering c' = true /\
    (frame_ctx_in (ein c') = fr \/ frame_ctx_in (ein c') = set_error 0 fr) /\
    if decide (k = length (f_payload f)) then
      boundary (open_after open f) (ein c') /\ eout c' = answer f o /\ quiet_events p = event_of f
    else midway open f k (ein c') /\ eout c' = o /\ quiet_events p = [].

Lemma piece_length f k n :
  (k + n <= length (f_payload f))%nat -> zlen (take n (drop k (f_payload f))) = Z.of_nat n.
Proof. unfold zlen. rewrite length_take, length_drop. lia. Qed.

(** A piece of a data frame. *)
Lemma data_piece open f k n c :
  legal f = true -> f_data f = true -> no_buffering c = true -> midway open f k (ein c) ->
  (k + n <= length (f_payload f))%nat ->
  seen open f (k + n) (eout c) (frame_data (piece f k n) c) (frame_ctx_in (ein c)) /\
  quiet_calls (frame_data (piece f k n) c) = [CFrameChunk (take n (drop k (f_payload f)))].
Proof.
  intros Hf Hd Hnb Hm Hn. pose proof (piece_length _ _ _ Hn) as Hlen.
  destruct c as [nb i o]. cbn in Hnb. subst nb. unfold midway in Hm. rewrite Hd in Hm.
  destruct Hm as (fr & m1 & sc & Ei & Hm1). cbn in Ei. subst i.
  set (c2 := mkCtx true (mkEventIn fr true (mkImsg (Z.b2z (f_fin f)) 0 2 UTF8_ACCEPT [] 0) m1 false
    (f_len f) (Z.of_nat (k + n)) sc false) o).
  assert (forall op, op = 0 \/ op = 2 -> buffers (mkCtx true (ein c2) o) op = false) as Hbuf
    by (by intros op [-> | ->]).
  assert (f_opcode f = 0 \/ f_opcode f = 2) as Hop
    by (destruct (legal_opcode _ Hf) as [[_ ?]|[? _]]; [done|congruence]).
  assert (frame_data (piece f k n) (mkCtx true (mkEventIn fr true (mkImsg (Z.b2z (f_fin f)) 0 2 UTF8_ACCEPT [] 0)
    m1 false (f_len f) (Z.of_nat k) sc false) o) = FrameChunk (take n (drop k (f_payload f)))
      (if Z.of_nat (k + n) =? f_len f then frame_end (piece f k n) c2 else mret (c2, Continue))) as ->.
  { unfold frame_data, store_chunk. cbn [ein set_ein].
    change (validate_chunk _ ?i) with i. cbn [utf8state imsg on_imsgs1 imsgs0].
    change (UTF8_ACCEPT =? UTF8_REJECT) with false. cbn iota.
    change (buffers _ _) with (buffers (mkCtx true (ein c2) o) (f_opcode f)). rewrite Hbuf by done.
    cbn [piece io_data]. rewrite Hlen. unfold set_e_ipayload. cbn. by rewrite <- Nat2Z.inj_add. }
  unfold seen. cbn [quiet_result quiet_calls quiet_events].
  assert (Z.of_nat (k + n) =? f_len f = bool_decide (k + n = length (f_payload f))%nat) as ->.
  { unfold f_len, zlen. destruct (bool_decide_reflect (k + n = length (f_payload f))%nat); lia. }
  destruct (decide _) as [Heq|Hne].
  - rewrite bool_decide_eq_true_2 by done. unfold frame_end, open_after, event_of, answer. rewrite Hd.
    assert (f_opcode f =? 9 = false /\ f_opcode f =? 10 = false) as [-> ->] by lia.
    cbn [c2 ein imsg on_imsgs1 imsgs0 fin]. destruct (f_fin f); cbn [Z.b2z Z.eqb negb andb orb opcode].
    + unfold message_complete. rewrite Hbuf by done. cbn. split; [|done].
      eexists _. split; [reflexivity|]. split; [done|]. split; [by right|]. split; [|done].
      unfold boundary. cbn. eexists _, _, _, _. split; [reflexivity|]. split; [|done]. by eexists _, _, _.
    + split; [|done]. eexists _. split; [reflexivity|]. split; [done|]. split; [by left|]. split; [|done].
      unfold boundary. cbn. eexists _, _, _, _. split; [reflexivity|]. split; [|done]. by eexists _.
  - rewrite bool_decide_eq_false_2 by done. cbn. split; [|done]. eexists _. split; [reflexivity|].
    split; [done|]. split; [by left|]. split; [|done]. unfold midway. rewrite Hd. cbn. by eexists _, _, _.
Qed.

(** A ping or a pong that is complete. *)
Lemma control_complete f (msg : option bytes) c :
  legal f = true -> f_data f = false -> default [] msg = f_payload f ->
  (if f_opcode f =? WSLAY_CONNECTION_CLOSE then close_complete msg c
   else if f_opcode f =? WSLAY_PING then ping_complete msg c else (c, inl 0)) =
  (set_eout (answer f (eout c)) c, inl 0) /\
  control_events (msg_recv_cb (f_opcode f) 0 msg Shared_default) = event_of f.
Proof.
  intros Hf Hd Hmsg. destruct (legal_opcode _ Hf) as [[? _]|(_ & Hop & _ & Hmax)]; [congruence|].
  split.
  - unfold answer. destruct Hop as [-> | ->]; cbn; [|by destruct c]. unfold ping_complete. rewrite Hmsg.
    destruct (queue_msg_code WSLAY_PONG (f_payload f) (eout c)) as [H|[H|[_ H]]]; [..|unfold f_len in *; lia];
      destruct (wslay_event_queue_msg _ _ _) as [o rc]; cbn in *; by subst rc.
  - unfold event_of. rewrite <- Hmsg. destruct Hop as [-> | ->]; destruct msg; done.
Qed.

(** A piece of a ping or a pong. *)
Lemma control_piece open f k n c :
  legal f = true -> f_data f = false -> no_buffering c = true -> midway open f k (ein c) ->
  (k + n <= length (f_payload f))%nat ->
  seen open f (k + n) (eout c) (frame_data (piece f k n) c) (frame_ctx_in (ein c)) /\
  quiet_calls (frame_data (piece f k n) c) = [CFrameChunk (take n (drop k (f_payload f)))].
Proof.
  intros Hf Hd Hnb Hm Hn. pose proof (piece_length _ _ _ Hn) as Hlen.
  destruct c as [nb i o]. cbn in Hnb. subst nb. unfold midway in Hm. rewrite Hd in Hm.
  destruct Hm as (fr & m0 & m1 & sc & Ei & Hm). cbn in Ei. subst i.
  assert ((f_opcode f = 9 \/ f_opcode f = 10) /\ f_fin f = true /\ f_len f <= 125) as (Hop & Hfin & Hmax)
    by (destruct (legal_opcode _ Hf) as [[? _]|[_ ?]]; [congruence|done]).
  set (m' := mkImsg 1 0 (f_opcode f) UTF8_ACCEPT (take (k + n) (f_payload f)) (f_len f)).
  set (c2 := mkCtx true (mkEventIn fr true (if open then m0 else m') (if open then m' else m1) open
    (f_len f) (Z.of_nat (k + n)) sc false) o).
  assert (imsg (ein c2) = m') as Him by (subst c2; destruct open; done).
  assert (wslay_is_ctrl_frame (f_opcode f) = true) as Hctl by (by destruct Hop as [-> | ->]).
  assert (frame_data (piece f k n) (mkCtx true (mkEventIn fr true m0 m1 open (f_len f) (Z.of_nat k) sc false) o)
    = FrameChunk (take n (drop k (f_payload f)))
      (if Z.of_nat (k + n) =? f_len f then frame_end (piece f k n) c2 else mret (c2, Continue))) as ->.
  { set (c0 := mkCtx _ _ _).
    assert (imsg (ein c0) = mkImsg 1 0 (f_opcode f) UTF8_ACCEPT (take k (f_payload f)) (f_len f)) as Hi0
      by (subst c0; destruct open; cbn; apply Hm).
    assert (validate_chunk (piece f k n) (ein c0) = ein c0) as Hv.
    { unfold validate_chunk. rewrite Hi0. cbn [rsv opcode]. by destruct Hop as [-> | ->]. }
    assert (store_chunk (piece f k n) c0 = c2) as Hst.
    { unfold store_chunk. rewrite Hi0. unfold buffers. cbn [piece io_opcode io_data]. rewrite Hctl, Hlen.
      cbn [no_buffering c0 negb orb fin rsv opcode utf8state chunks msg_length ein].
      rewrite take_take_drop. subst c2 m'.
      destruct open, Hm as [Hm1 Hm2]; rewrite ?Hm2; unfold set_imsg, set_e_ipayload, set_ein; cbn;
        by rewrite <- Nat2Z.inj_add. }
    unfold frame_data. rewrite Hv. change (set_ein (ein c0) c0) with c0. rewrite Hi0, Hst. done. }
  unfold seen. cbn [quiet_result quiet_calls quiet_events].
  assert (Z.of_nat (k + n) =? f_len f = bool_decide (k + n = length (f_payload f))%nat) as ->.
  { unfold f_len, zlen. destruct (bool_decide_reflect (k + n = length (f_payload f))%nat); lia. }
  destruct (decide _) as [Heq|Hne].
  - rewrite bool_decide_eq_true_2 by done.
    assert (frame_end (piece f k n) c2 = message_complete (piece f k n) c2) as ->.
    { unfold frame_end. rewrite Him. subst m'. cbn [fin opcode utf8state]. by destruct Hop as [-> | ->]. }
    assert (buffers c2 (f_opcode f) && negb (msg_length m' =? 0) = negb (f_len f =? 0)) as Hbuf
      by (unfold buffers; rewrite Hctl; done).
    assert (boundary open (next_frame true (set_frame_in (set_error 0 fr) (ein c2)))) as Hb.
    { unfold boundary, next_frame. subst c2. destruct open; cbn;
        (eexists _, _, _, _; split; [reflexivity|]; split; [try apply Hm|]); try apply Hm; by eexists _, _, _. }
    assert (exists msg c3, (if buffers c2 (f_opcode f) && negb (msg_length m' =? 0)
        then (Some (chunks m'), set_ein (set_imsg (mkImsg (fin m') (rsv m') (opcode m') (utf8state m') []
               (msg_length m')) (ein c2)) c2) else (None, c2)) = (msg, c3) /\
      default [] msg = f_payload f /\ eout c3 = o /\ no_buffering c3 = true /\ frame_ctx_in (ein c3) = fr /\
      next_frame true (set_frame_in (set_error 0 fr) (ein c3)) =
        next_frame true (set_frame_in (set_error 0 fr) (ein c2))) as (msg & c3 & E3 & Hmsg & Ho3 & Hnb3 & Hf3 & Hn3).
    { rewrite Hbuf. unfold f_len. destruct (Z.eqb_spec (zlen (f_payload f)) 0) as [E|]; cbn [negb].
      - eexists None, c2. split; [done|]. split_and!; try done. cbn. symmetry. apply nil_length_inv.
        unfold zlen in E. lia.
      - eexists (Some _), _. split; [done|]. subst m'. cbn [chunks default]. rewrite Heq, firstn_all.
        subst c2. split_and!; try done; by destruct open. }
    unfold message_complete. rewrite Him. cbn [piece io_opcode]. rewrite E3.
    change (opcode m') with (f_opcode f). destruct (control_complete f msg c3 Hf Hd Hmsg) as [-> Hev].
    cbn [quiet_result quiet_calls quiet_events mret prog_ret]. split; [|done].
    eexists _. split; [reflexivity|]. split; [exact Hnb3|]. cbn [ein set_ein set_eout eout]. rewrite Hf3, Ho3.
    split; [right; apply next_frame_frame|]. unfold open_after. rewrite Hd.
    split; [by rewrite Hn3|]. split; [done|]. by rewrite app_nil_r.
  - rewrite bool_decide_eq_false_2 by done. cbn. split; [|done]. eexists _. split; [reflexivity|].
    split; [done|]. split; [by left|]. split; [|done]. unfold midway. rewrite Hd. cbn.
    eexists _, _, _, _. split; [reflexivity|]. destruct open; split; try done; apply Hm.
Qed.

Lemma frame_data_piece open f k n c :
  legal f = true -> no_buffering c = true -> midway open f k (ein c) ->
  (k + n <= length (f_payload f))%nat ->
  seen open f (k + n) (eout c) (frame_data (piece f k n) c) (frame_ctx_in (ein c)) /\
  quiet_calls (frame_data (piece f k n) c) = [CFrameChunk (take n (drop k (f_payload f)))].
Proof. intros Hf. destruct (f_data f) eqn:Hd; [by apply data_piece|by apply control_piece]. Qed.

(** [f] may come next. *)
Definition follows (open : bool) (f : ws_frame) : bool :=
  legal f && (negb (f_data f) || eqb (f_opcode f =? 0) open).

Lemma follows_legal open f : follows open f = true -> legal f = true.
Proof. unfold follows. by intros [? _]%andb_true_iff. Qed.

Lemma valid_cons open f fs :
  valid open (f :: fs) = true <-> follows open f = true /\ valid (open_after open f) fs = true.
Proof.
  unfold follows, open_after. cbn. rewrite !andb_true_iff. destruct (f_data f); cbn; rewrite ?andb_true_iff; tauto.
Qed.

(** The first piece of a control frame. *)
Lemma control_begins open f n c :
  framed f = true -> f_data f = false -> no_buffering c = true -> boundary open (ein c) ->
  exists c1, frame_received (piece f 0 n) c = FrameStart (f_opcode f) (frame_data (piece f 0 n) c1) /\
    no_buffering c1 = true /\ midway open f 0 (ein c1) /\ eout c1 = eout c /\
    frame_ctx_in (ein c1) = frame_ctx_in (ein c).
Proof.
  intros Hf Hd Hnb Hb. destruct c as [nb i o]. cbn in Hnb, Hb. subst nb.
  destruct Hb as (fr & m0 & m1 & sc & -> & Hm0 & Hm1). unfold frame_received.
  assert (frame_refused (piece f 0 n) = false) as -> by done.
  destruct (framed_opcode _ Hf) as [(? & _)|(_ & Hop & Hfin & _)]; [congruence|].
  pose proof (framed_len _ Hf) as Hlen.
  set (m := mkImsg 1 0 (f_opcode f) UTF8_ACCEPT [] 0).
  set (i1 := mkEventIn fr true (if open then m0 else m) (if open then m else m1) open 0 0 sc false).
  assert (place_frame (piece f 0 n) (mkEventIn fr true m0 m1 false 0 0 sc false) = Some (i1, true)) as E1.
  { unfold place_frame, piece. rewrite Hfin. destruct Hm1 as (b1 & r1 & l1 & ->).
    destruct open; [destruct Hm0 as [b ->]|destruct Hm0 as (b & r & l & ->)]; subst i1 m;
      destruct Hop as [Ho|[Ho|Ho]]; rewrite Ho in *; done. }
  cbn [ein]. rewrite E1. assert (imsg i1 = m) as Him by (by destruct open). rewrite Him.
  destruct (Z.ltb_spec max_recv_msg_length (msg_length m + io_payload_length (piece f 0 n)));
    [cbn in *; lia|]. cbn zeta.
  set (m' := mkImsg 1 0 (f_opcode f) UTF8_ACCEPT [] (f_len f)).
  assert (append_chunk (piece f 0 n) (set_ein (set_e_ipayload (io_payload_length (piece f 0 n))
    (e_ipayloadoff i1) i1) (set_ein i1 (mkCtx true (mkEventIn fr true m0 m1 false 0 0 sc false) o))) =
    mkCtx true (mkEventIn fr true (if open then m0 else m') (if open then m' else m1) open
      (f_len f) 0 sc false) o) as ->.
  { unfold append_chunk, buffers, piece, set_imsg. subst i1 m m'.
    destruct open, Hop as [Ho|[Ho|Ho]]; cbn; rewrite Ho; done. }
  eexists _. split; [reflexivity|]. split; [done|]. split; [|done]. unfold midway. rewrite Hd.
  eexists _, _, _, _. split; [reflexivity|]. by destruct open.
Qed.

(** The first piece of a frame. *)
Lemma frame_begins open f n c :
  follows open f = true -> no_buffering c = true -> boundary open (ein c) ->
  exists c1, frame_received (piece f 0 n) c = FrameStart (f_opcode f) (frame_data (piece f 0 n) c1) /\
    no_buffering c1 = true /\ midway open f 0 (ein c1) /\ eout c1 = eout c /\
    frame_ctx_in (ein c1) = frame_ctx_in (ein c).
Proof.
  intros Hfo Hnb Hb. pose proof (follows_legal _ _ Hfo) as Hf.
  destruct (legal_opcode _ Hf) as [(Hd & Hop)|(Hd & _)]; [|by apply control_begins; [apply legal_framed|..]].
  destruct c as [nb i o]. cbn in Hnb, Hb. subst nb.
  destruct Hb as (fr & m0 & m1 & sc & -> & Hm0 & Hm1). unfold frame_received.
  pose proof (legal_len _ Hf) as Hlen.
  assert (frame_refused (piece f 0 n) = false) as -> by done.
  set (i1 := mkEventIn fr true (mkImsg (Z.b2z (f_fin f)) 0 2 UTF8_ACCEPT [] 0) m1 false 0 0 sc false).
  assert (place_frame (piece f 0 n) (mkEventIn fr true m0 m1 false 0 0 sc false) = Some (i1, true)) as E1.
  { unfold follows in Hfo. rewrite Hf, Hd in Hfo. unfold place_frame, piece.
    destruct open; [destruct Hm0 as [b ->]|destruct Hm0 as (b & r & l & ->)];
      destruct Hop as [Ho|Ho]; rewrite Ho in *; cbn in *; done. }
  cbn [ein]. rewrite E1. change (imsg i1) with (imsgs0 i1).
  destruct (Z.ltb_spec max_recv_msg_length (msg_length (imsgs0 i1) + io_payload_length (piece f 0 n)));
    [cbn in *; lia|]. cbn zeta.
  assert (append_chunk (piece f 0 n) (set_ein (set_e_ipayload (io_payload_length (piece f 0 n))
    (e_ipayloadoff i1) i1) (set_ein i1 (mkCtx true (mkEventIn fr true m0 m1 false 0 0 sc false) o))) =
    mkCtx true (set_e_ipayload (f_len f) 0 i1) o) as ->.
  { unfold append_chunk, buffers, piece. cbn. by destruct Hop as [-> | ->]. }
  eexists _. split; [reflexivity|]. split; [done|]. split; [|done]. unfold midway. rewrite Hd.
  by eexists _, _, _.
Qed.

(** The further pieces. *)
Lemma frame_goes_on open f k n c :
  legal f = true -> midway open f k (ein c) -> (0 < k)%nat ->
  frame_received (piece f k n) c = frame_data (piece f k n) c.
Proof.
  intros Hf Hm Hk. unfold frame_received.
  assert (frame_refused (piece f k n) = false) as -> by done.
  assert (place_frame (piece f k n) (ein c) = Some (ein c, false)) as ->; [|by destruct c].
  unfold midway in Hm. unfold place_frame.
  destruct (legal_opcode _ Hf) as [(Hd & Hop)|(Hd & Hop & Hfin & Hmax)]; rewrite Hd in Hm.
  - destruct Hm as (fr & m1 & sc & -> & _). cbn.
    destruct (Z.eqb_spec (Z.of_nat k) 0); [lia|]. by rewrite andb_false_r.
  - destruct Hm as (fr & m0 & m1 & sc & -> & Hm).
    assert (forall i, imsg i = mkImsg 1 0 (f_opcode f) UTF8_ACCEPT (take k (f_payload f)) (f_len f) ->
      e_ipayloadoff i = Z.of_nat k -> (opcode (imsg i) =? 255) = false /\
      (e_ipayloadlen i =? 0) && (e_ipayloadoff i =? 0) = false) as Hi.
    { intros i -> ->. split; [cbn; by destruct Hop as [-> | ->]|].
      destruct (Z.eqb_spec (Z.of_nat k) 0); [lia|]. by rewrite andb_false_r. }
    match goal with |- context [opcode (imsg ?i)] => destruct (Hi i) as [-> ->] end; [|done|done].
    by destruct open; destruct Hm.
Qed.

(** [k] bytes of [f] have been seen, the frame not being complete. *)
Definition position (open : bool) (f : ws_frame) (k : nat) (i : event_in) : Prop :=
  if decide (k = 0)%nat then boundary open i else midway open f k i.

Lemma frame_received_piece open f k n c :
  follows open f = true -> no_buffering c = true -> position open f k (ein c) ->
  (k + n <= length (f_payload f))%nat ->
  seen open f (k + n) (eout c) (frame_received (piece f k n) c) (frame_ctx_in (ein c)) /\
  quiet_calls (frame_received (piece f k n) c) =
    (if decide (k = 0)%nat then [CFrameStart (f_opcode f)] else []) ++
    [CFrameChunk (take n (drop k (f_payload f)))].
Proof.
  intros Hfo Hnb Hp Hn. pose proof (follows_legal _ _ Hfo) as Hf. unfold position in Hp.
  destruct (decide (k = 0)%nat) as [->|Hk].
  - destruct (frame_begins open f n c Hfo Hnb Hp) as (c1 & -> & Hnb1 & Hm1 & Ho1 & Hf1).
    destruct (frame_data_piece open f 0 n c1 Hf Hnb1 Hm1 Hn) as [H1 H2].
    rewrite Ho1, Hf1 in H1. split; [exact H1|]. cbn [quiet_calls]. by rewrite H2.
  - rewrite (frame_goes_on open) by (done || lia). by apply frame_data_piece.
Qed.

(** ** The stream *)

Lemma wire_cons f fs : wire (f :: fs) = encode f ++ wire fs.
Proof. done. Qed.

Lemma payloads_app fs1 fs2 : data_of (fs1 ++ fs2) = data_of fs1 ++ data_of fs2.
Proof. unfold data_of. by rewrite fmap_app, concat_app. Qed.

Lemma wire_app fs1 fs2 : wire (fs1 ++ fs2) = wire fs1 ++ wire fs2.
Proof. unfold wire. by rewrite fmap_app, concat_app. Qed.

(** The bytes of the payload among the first [cc] bytes of the frame. *)
Definition offset (cc : nat) (fs : list ws_frame) : nat :=
  match fs with [] => 0 | f :: _ => (cc - prologue f)%nat end.
Definition shown (k : nat) (fs : list ws_frame) : bytes :=
  match fs with [] => [] | f :: _ => take k (payload_of f) end.

(** wslay stands before the frames [fs], [cc] bytes into the first; [fut] has not arrived. *)
Record conv (open : bool) (fs : list ws_frame) (cc : nat) (fut : bytes) (c : wslay_event_context)
    (s : Shared) : Prop := {
  conv_valid : valid open fs = true;
  conv_nb : no_buffering c = true;
  conv_ready : ready s;
  conv_idle : idle_in (frame_ctx_in (ein c));
  conv_stream : ibuf (frame_ctx_in (ein c)) ++ avail s ++ fut = drop cc (wire fs);
  conv_at :
    match fs with
    | [] => at_start (frame_ctx_in (ein c)) /\ cc = 0%nat /\ boundary open (ein c)
    | f :: _ => parsing f (frame_ctx_in (ein c)) cc /\ position open f (cc - prologue f) (ein c) /\
        (cc <= length (encode f))%nat /\ ((0 < cc - prologue f)%nat -> cur_is_data s = f_data f)
    end;
}.

Lemma conv_enabled open fs cc fut c s :
  conv open fs cc fut c s -> read_enabled (ein c) = true /\ close_received (ein c) = false.
Proof.
  intros [_ _ _ _ _ H]. assert (forall i, boundary open i -> read_enabled i = true /\ close_received i = false) as Hb
    by (by intros i (? & ? & ? & ? & -> & _)).
  destruct fs as [|f fs]; [by apply (Hb (ein c)), H|]. destruct H as (_ & H & _). unfold position in H.
  destruct (decide _); [by apply Hb|]. unfold midway in H.
  destruct (f_data f).
  - destruct H as (fr & m1 & sc & E & _). by rewrite E.
  - cbn zeta in H. destruct H as (fr & m0 & m1 & sc & E & _). by rewrite E.
Qed.

Lemma boundary_frame open fr i : boundary open i -> boundary open (set_frame_in fr i).
Proof. intros (? & m0 & m1 & sc & -> & H). by exists fr, m0, m1, sc. Qed.

Lemma position_frame open f k fr i : position open f k i -> position open f k (set_frame_in fr i).
Proof.
  unfold position. destruct (decide _); [apply boundary_frame|]. unfold midway. destruct (f_data f).
  - intros (? & m1 & sc & -> & H). by exists fr, m1, sc.
  - intros (? & m0 & m1 & sc & -> & H). by exists fr, m0, m1, sc.
Qed.

Lemma parsing_set_error f fi e c : parsing f fi c -> parsing f (set_error e fi) c.
Proof. intros []; [by apply at_header|by apply at_ext|by apply at_key|by apply at_payload]. Qed.

(** What a round does that finds no more: it takes what there is. *)
Lemma recv_once_waits c f s s1 l r :
  exec (wslay_frame_recv (frame_ctx_in (ein c))) s = Ok (s1, l, (f, r)) ->
  r = inl WSLAY_ERR_WANT_READ -> err_ok f ->
  exec (recv_once c) s = Ok (s1, l, (set_ein (set_frame_in f (ein c)) c, Break)).
Proof.
  intros E -> He. unfold recv_once. rewrite exec_bind, E. cbn [mbind outcome_bind].
  change (WSLAY_ERR_WANT_READ =? WSLAY_ERR_WANT_READ) with true. cbn [negb orb].
  destruct He as [-> | ->]; cbn; by rewrite app_nil_r.
Qed.

Lemma recv_once_goes c f s s1 l io c' v :
  exec (wslay_frame_recv (frame_ctx_in (ein c))) s = Ok (s1, l, (f, inr io)) ->
  let p := frame_received io (set_ein (set_frame_in f (ein c)) c) in
  quiet_result p = Some (c', v) ->
  exists s', exec (recv_once c) s = Ok (s', l ++ quiet_calls p, (c', v)) /\ inbound s' = inbound s1 /\
    inbound_pos s' = inbound_pos s1 /\ outbound s' = outbound s1 /\
    control_events s' = control_events s1 ++ quiet_events p.
Proof.
  intros E p Hp. unfold recv_once. rewrite exec_bind, E. cbn [mbind outcome_bind].
  destruct (exec_quiet p _ s1 Hp) as (s' & Ex & H). subst p. rewrite Ex. by exists s'.
Qed.

Definition answers (fs : list ws_frame) (o : event_out) : event_out :=
  fold_left (fun o f => answer f o) fs o.
Definition events_of (fs : list ws_frame) : list ControlEvent := concat (event_of <$> fs).

(** From before [fs] to before what remains of them, of which [R] holds: the frames
    [done] are complete, and the callbacks have seen what has come of the payload. *)
Definition advanced (R : list ws_frame -> Prop) (open : bool) (fs : list ws_frame) (cc : nat) (fut : bytes)
    (c : wslay_event_context) (s : Shared) (l : list call) (c' : wslay_event_context) (s' : Shared) : Prop :=
  exists open' done fs' cc', fs = done ++ fs' /\ conv open' fs' cc' fut c' s' /\
    shown (offset cc fs) fs ++ payload (cur_is_data s) l = data_of done ++ shown (offset cc' fs') fs' /\
    eout c' = answers done (eout c) /\
    control_events s' = control_events s ++ events_of done /\ R fs'.

(** Nothing can be done with what has come. *)
Definition at_rest (f : frame_in) (fs : list ws_frame) : Prop :=
  match fs with [] => ibuf f = [] | _ => waiting f end.

Lemma exec_cur {A} (p : prog A) s s' l a :
  ready s -> exec p s = Ok (s', l, a) -> cur_is_data s' = cur_after (cur_is_data s) l.
Proof.
  intros Hs E. destruct (exec_passes p s Hs) as (s1 & l1 & a1 & E1 & H). rewrite E in E1.
  injection E1 as <- <- <-. apply H.
Qed.

Lemma at_start_none f s :
  ready s -> err_ok f -> at_start f -> ibuf f ++ avail s = [] ->
  exists f' s' l, exec (wslay_frame_recv f) s = Ok (s', l, (f', inl WSLAY_ERR_WANT_READ)) /\
    took f s f' s' /\ reads l /\ avail s' = [] /\ ibuf f' = [].
Proof.
  intros Hs He [Hst Hq] Hnil.
  destruct (exec_stage RECV_HEADER1 recv_header1 f s Hs He) as [[? _]|(_ & f' & s' & l & r & E & Ht & Hl & Hr)];
    [lia|done|].
  assert (ibuf f' = [] /\ avail s' = []) as [Hb Ha].
  { destruct Ht as (_ & _ & Eq & _). rewrite Hnil in Eq. by apply app_nil in Eq. }
  destruct Hr as [(_ & -> & _)|(_ & Hlen)]; [|rewrite Hb, Hq in Hlen; unfold zlen in Hlen; cbn in Hlen; lia].
  exists f', s', (l ++ []). split; [|rewrite app_nil_r; by split_and!]. unfold wslay_frame_recv, or_return at 1.
  rewrite exec_bind, E. cbn. done.
Qed.

Lemma shown_waits f cc cc' :
  (cc' - prologue f)%nat = (cc - prologue f)%nat -> forall fs, shown (offset cc' (f :: fs)) (f :: fs) =
  shown (offset cc (f :: fs)) (f :: fs).
Proof. intros E fs. unfold shown, offset. by rewrite E. Qed.

(** The calls of a piece. *)
Lemma piece_calls f k n cur l1 l :
  reads l1 -> ((0 < k)%nat -> cur = f_data f) ->
  l = (if decide (k = 0)%nat then [CFrameStart (f_opcode f)] else []) ++
      [CFrameChunk (take n (drop k (f_payload f)))] ->
  take k (payload_of f) ++ payload cur (l1 ++ l) = take (k + n) (payload_of f) /\
  cur_after cur (l1 ++ l) = f_data f.
Proof.
  intros Hl1 Hcur ->. rewrite payload_app, cur_after_app, !reads_cur, reads_payload by done.
  unfold payload_of. destruct (decide (k = 0)%nat) as [->|Hk]; cbn.
  - fold (f_data f). destruct (f_data f); [by rewrite app_nil_r, take_0, drop_0|by rewrite !take_nil].
  - rewrite Hcur by lia. destruct (f_data f); [by rewrite app_nil_r, take_take_drop|by rewrite !take_nil].
Qed.

(** A piece of the first frame moves wslay on, to the next frame when it is the last. *)
Lemma piece_advances open f fs cc fut c s l1 f1 n c' s' p :
  follows open f = true -> valid (open_after open f) fs = true -> reads l1 ->
  let k := (cc - prologue f)%nat in
  ((0 < k)%nat -> cur_is_data s = f_data f) -> (k + n <= length (f_payload f))%nat ->
  (0 < n)%nat \/ f_payload f = [] ->
  ready s' -> idle_in (frame_ctx_in (ein c')) ->
  ibuf (frame_ctx_in (ein c')) ++ avail s' ++ fut = drop (prologue f + (k + n)) (encode f) ++ wire fs ->
  (if decide (k + n = length (f_payload f))%nat then at_start f1 else parsing f f1 (prologue f + (k + n))) ->
  seen open f (k + n) (eout c) p f1 -> quiet_result p = Some (c', Continue) ->
  quiet_calls p = (if decide (k = 0)%nat then [CFrameStart (f_opcode f)] else []) ++
    [CFrameChunk (take n (drop k (f_payload f)))] ->
  cur_is_data s' = cur_after (cur_is_data s) (l1 ++ quiet_calls p) ->
  control_events s' = control_events s ++ quiet_events p ->
  advanced (fun _ => True) open (f :: fs) cc fut c s (l1 ++ quiet_calls p) c' s'.
Proof.
  intros Hfo Hv Hl1 k Hcur Hn Hn0 Hs' Hi' Hstr Hend Hseen Hres Hcalls Hcur' Hev.
  pose proof (follows_legal _ _ Hfo) as Hf. pose proof (encode_length f (legal_key _ Hf)) as Hel.
  destruct (piece_calls f k n (cur_is_data s) l1 _ Hl1 Hcur Hcalls) as [Hpay Hca].
  destruct Hseen as (c1 & Hres1 & Hnb' & Hfr & Hseen). rewrite Hres in Hres1. injection Hres1 as <-.
  destruct (decide (k + n = length (f_payload f))%nat) as [Heq|Hne].
  - destruct Hseen as (Hb & Ho & He). rewrite Heq in Hstr, Hpay.
    rewrite drop_ge in Hstr by lia. exists (open_after open f), [f], fs, 0%nat.
    split; [done|]. split.
    + split; try done. assert (at_start (frame_ctx_in (ein c'))) as Hst by (by destruct Hfr as [-> | ->]).
      destruct fs as [|f2 fs]; [done|]. split; [by apply at_header; apply Hst|]. split; [exact Hb|].
      split; [lia|lia].
    + cbn [shown offset]. fold k. rewrite Hpay, He, Ho in *. unfold data_of, events_of. cbn.
      rewrite !app_nil_r, take_ge by (unfold payload_of; destruct (f_data f); cbn; lia).
      split; [|done]. destruct fs; cbn; by rewrite app_nil_r.
  - destruct Hseen as (Hm & Ho & He).
    exists open, [], (f :: fs), (prologue f + (k + n))%nat. split; [done|].
    assert (prologue f + (k + n) - prologue f = k + n)%nat as Ek by lia. split.
    + split; try done; [by apply valid_cons|rewrite wire_cons, drop_app_le by lia; exact Hstr|].
      rewrite Ek. split; [|split; [|split; [lia|by rewrite Hcur', Hca]]].
      * destruct Hfr as [-> | ->]; [done|by apply parsing_set_error].
      * unfold position. destruct (decide (k + n = 0)%nat); [|done]. destruct Hn0 as [?|Hnil]; [lia|].
        rewrite Hnil in Hn, Hne. cbn in *. lia.
    + cbn [shown offset]. rewrite Ek. fold k. rewrite Hpay. split; [done|]. split; [done|].
      cbn. by rewrite Hev, He.
Qed.

(** One round. *)
Lemma recv_once_conv open fs cc fut c s :
  conv open fs cc fut c s ->
  exists s' l c' v, exec (recv_once c) s = Ok (s', l, (c', v)) /\
    ((v = Continue /\ (room (frame_ctx_in (ein c')) s' < room (frame_ctx_in (ein c)) s)%nat /\
      advanced (fun _ => True) open fs cc fut c s l c' s') \/
     (v = Break /\ avail s' = [] /\
      advanced (at_rest (frame_ctx_in (ein c'))) open fs cc fut c s l c' s')).
Proof.
  intros HC. pose proof HC as [Hv Hnb Hs Hi Hstr Hat].
  pose proof (recv_once_post c s Hs Hi) as (sp & lp & cp & vp & Ep & Hsp & Hpost).
  pose proof (conv_enabled _ _ _ _ _ _ HC) as [Hen _].
  assert (forall s1 l f1, exec (wslay_frame_recv (frame_ctx_in (ein c))) s = Ok (s1, l, (f1, inl WSLAY_ERR_WANT_READ)) ->
    err_ok f1 -> idle_in f1 /\ ready s1) as Hidle.
  { intros s1 l f1 E He. rewrite (recv_once_waits c _ _ _ _ _ E eq_refl He) in Ep. injection Ep as <- <- <- <-.
    split; [|done]. by apply Hpost. }
  destruct fs as [|f fs].
  - destruct Hat as (Hst & -> & Hb).
    assert (ibuf (frame_ctx_in (ein c)) ++ avail s = [] /\ fut = []) as [Hnil ->].
    { rewrite (assoc_L (++)) in Hstr. by apply app_nil in Hstr. }
    destruct (at_start_none _ s Hs ltac:(apply Hi) Hst Hnil) as (f' & s' & l & E & Ht & Hl & Ha & Hbuf).
    destruct (Hidle _ _ _ E ltac:(apply Ht)) as [Hi' Hs'].
    exists s', l, (set_ein (set_frame_in f' (ein c)) c), Break.
    split; [by apply (recv_once_waits c _ _ _ _ _ E eq_refl), Ht|].
    destruct Ht as ([n ->] & _ & _ & [e He] & _). right. split; [done|split; [done|]].
    exists open, [], [], 0%nat. split_and!; try done.
    + split; try done; [change (ibuf f' ++ avail (at_pos n s) ++ [] = []); by rewrite Ha, Hbuf|]. split; [rewrite He; exact Hst|]. split; [done|].
      by apply boundary_frame.
    + cbn. by rewrite reads_payload.
    + cbn. by rewrite app_nil_r.
  - destruct Hat as (Hp & Hpos & Hcc & Hcur). apply valid_cons in Hv as [Hfo Hv].
    pose proof (follows_legal _ _ Hfo) as Hf. rewrite wire_cons, drop_app_le in Hstr by done.
    destruct (frame_recv_conv f (wire fs) (legal_framed _ Hf) fut _ s cc Hs ltac:(apply Hi) Hp Hstr)
      as (f1 & s1 & l1 & r & E & Hl1 & [m ->] & Hs1 & He1 & Hr).
    pose proof (encode_length f (legal_key _ Hf)) as Hel.
    destruct r as [rc|io].
    + destruct Hr as (-> & Ha & Hw & cc' & Hp' & Hstr' & Hk).
      destruct (Hidle _ _ _ E He1) as [Hi' Hs'].
      exists (at_pos m s), l1, (set_ein (set_frame_in f1 (ein c)) c), Break.
      split; [by apply (recv_once_waits c _ _ _ _ _ E eq_refl)|]. right. split; [done|split; [done|]].
      assert (cc' <= length (encode f))%nat as Hcc'.
      { destruct Hp'; unfold prologue in *; lia. }
      exists open, [], (f :: fs), cc'. split_and!; try done.
      * split; try done; [by apply valid_cons| |].
        -- rewrite wire_cons, drop_app_le by done. exact Hstr'.
        -- split; [exact Hp'|]. rewrite Hk. split; [by apply position_frame|]. split; [done|].
           exact Hcur.
      * cbn [data_of fmap list_fmap concat app]. rewrite (reads_payload _ _ Hl1), app_nil_r.
        by rewrite (shown_waits f cc cc' Hk).
      * cbn. by rewrite app_nil_r.
    + destruct Hr as (n & -> & Hn & Hn0 & _ & Hstr' & Hend). set (k := (cc - prologue f)%nat) in *.
      set (c1 := set_ein (set_frame_in f1 (ein c)) c).
      destruct (frame_received_piece open f k n c1 Hfo Hnb (position_frame _ _ _ _ _ Hpos) Hn) as [Hseen Hcalls].
      destruct Hseen as (c' & Hres & Hnb' & Hfr & Hseen).
      destruct (recv_once_goes c _ _ _ _ _ _ _ E Hres) as (s' & Ex & I1 & I2 & I3 & I4).
      pose proof (exec_cur _ _ _ _ _ Hs Ex) as Hcur'.
      rewrite Ex in Ep. injection Ep as <- <- <- <-. destruct Hpost as (_ & _ & Hi' & Hroom).
      exists s', (l1 ++ quiet_calls (frame_received (piece f k n) c1)), c', Continue.
      split; [exact Ex|]. left. split; [done|split; [done|]].
      apply (piece_advances _ _ _ _ _ _ _ _ f1 n); try done; [|by exists c'].
      unfold avail. rewrite I1, I2. unfold stream in Hstr'. destruct Hfr as [-> | ->]; exact Hstr'.
Qed.

Lemma advanced_trans R open fs cc fut c s l c1 s1 l1 c2 s2 :
  advanced (fun _ => True) open fs cc fut c s l c1 s1 ->
  cur_is_data s1 = cur_after (cur_is_data s) l ->
  (forall open1 fs1 cc1, conv open1 fs1 cc1 fut c1 s1 -> advanced R open1 fs1 cc1 fut c1 s1 l1 c2 s2) ->
  advanced R open fs cc fut c s (l ++ l1) c2 s2.
Proof.
  intros (o1 & d1 & fs1 & cc1 & -> & HC1 & Hp1 & Ho1 & He1 & _) Hcur H.
  destruct (H _ _ _ HC1) as (o2 & d2 & fs2 & cc2 & -> & HC2 & Hp2 & Ho2 & He2 & HR).
  exists o2, (d1 ++ d2), fs2, cc2. split; [by rewrite (assoc_L (++))|]. split; [done|].
  rewrite payload_app, (assoc_L (++)), Hp1, <- Hcur, <- (assoc_L (++)), Hp2.
  rewrite payloads_app, Ho2, Ho1, He2, He1. unfold answers, events_of.
  rewrite fold_left_app, fmap_app, concat_app, !(assoc_L (++)). done.
Qed.

(** The loop goes through all that has come. *)
Lemma recv_loop_conv n open fs cc fut c s :
  conv open fs cc fut c s -> (room (frame_ctx_in (ein c)) s < n)%nat ->
  exists s' l c', exec (recv_loop n c) s = Ok (s', l, (c', 0)) /\ avail s' = [] /\
    advanced (at_rest (frame_ctx_in (ein c'))) open fs cc fut c s l c' s'.
Proof.
  revert open fs cc c s. induction n as [|n IH]; intros open fs cc c s HC Hn; [lia|].
  cbn [recv_loop]. rewrite (proj1 (conv_enabled _ _ _ _ _ _ HC)).
  destruct (recv_once_conv _ _ _ _ _ _ HC) as (s1 & l1 & c1 & v & E & [(-> & Hroom & Hadv)|(-> & Ha & Hadv)]).
  - pose proof (exec_cur _ _ _ _ _ (conv_ready _ _ _ _ _ _ HC) E) as Hcur.
    assert (exists open1 fs1 cc1, conv open1 fs1 cc1 fut c1 s1) as (o1 & fs1 & cc1 & HC1).
    { destruct Hadv as (o1 & d1 & fs1 & cc1 & _ & HC1 & _). by eexists _, _, _. }
    destruct (IH _ _ _ c1 s1 HC1 ltac:(lia)) as (s2 & l2 & c2 & E2 & Ha & _).
    exists s2, (l1 ++ l2), c2. split; [by apply (exec_then _ _ _ _ _ _ _ _ _ E)|]. split; [done|].
    eapply advanced_trans; [exact Hadv|exact Hcur|]. intros o' fs' cc' HC'.
    destruct (IH _ _ _ c1 s1 HC' ltac:(lia)) as (s3 & l3 & c3 & E3 & _ & Hadv3).
    rewrite E2 in E3. by injection E3 as <- <- <-.
  - exists s1, (l1 ++ []), c1. split; [by apply (exec_then _ _ _ _ _ _ _ _ _ E)|]. by rewrite app_nil_r.
Qed.

(** ** How far the stream has come *)

Lemma visible_0 fs : visible fs 0 = [].
Proof. induction fs as [|f fs IH]; [done|]. cbn [visible]. by rewrite !Nat.sub_0_l, IH. Qed.

(** At rest, what has been shown is what is visible in the bytes that came. *)
Lemma at_rest_visible open done fs cc fut c s n :
  conv open fs cc fut c s -> avail s = [] -> at_rest (frame_ctx_in (ein c)) fs ->
  (n + length fut = length (wire (done ++ fs)))%nat -> valid open fs = true ->
  Forall (fun f => legal f = true) done ->
  data_of done ++ shown (offset cc fs) fs = visible (done ++ fs) n.
Proof.
  intros HC Ha Hr Hn Hv Hd. revert n Hn. induction Hd as [|f done Hf _ IH]; intros n Hn.
  - cbn [app data_of fmap list_fmap concat] in *. destruct HC as [_ _ _ _ Hstr Hat]. rewrite Ha in Hstr. cbn in Hstr.
    destruct fs as [|f fs]; [done|]. destruct Hat as (Hp & _ & Hcc & _).
    apply valid_cons in Hv as [Hfo _]. pose proof (follows_legal _ _ Hfo) as Hf.
    pose proof (encode_length f (legal_key _ Hf)) as Hel. pose proof (legal_len _ Hf) as Hlen.
    apply (f_equal length) in Hstr. rewrite length_drop, !length_app in Hstr. rewrite wire_cons, length_app in Hn, Hstr.
    cbn [shown offset visible].
    assert (n - length (encode f) = 0 /\ cc - prologue f = n - prologue f)%nat as [En Ek].
    { unfold at_rest, waiting in Hr. unfold f_len, zlen in *.
      destruct Hp as [Hi Hq|Hi Hq _ _|Hi Hq _ _ _|k Hi _ _ _ _ Hk]; rewrite Hi in Hr; rewrite ?Hq in Hr; unfold prologue in *; unfold zlen in *; try lia.
      rewrite Hr in Hstr. cbn [length Nat.add] in Hstr. lia. }
    by rewrite En, Ek, visible_0, app_nil_r.
  - cbn [app visible]. change (data_of (f :: done)) with (payload_of f ++ data_of done).
    pose proof (encode_length f (legal_key _ Hf)) as Hel.
    assert (length (encode f) <= n)%nat as Hle.
    { destruct HC as [_ _ _ _ Hstr _]. rewrite Ha in Hstr. cbn [app] in Hstr. apply (f_equal length) in Hstr.
      rewrite length_drop, length_app in Hstr. cbn [app] in Hn.
      rewrite wire_cons, length_app, wire_app, length_app in Hn. lia. }
    rewrite take_ge by (unfold payload_of; destruct (f_data f); cbn [length]; lia).
    rewrite <- (assoc_L (++)). f_equal. apply IH. cbn [app] in Hn. rewrite wire_cons, length_app in Hn. lia.
Qed.

(** At rest, the frame under way is not complete. *)
Lemma at_rest_incomplete open f fs cc fut c s :
  conv open (f :: fs) cc fut c s -> at_rest (frame_ctx_in (ein c)) (f :: fs) ->
  (cc + length (ibuf (frame_ctx_in (ein c))) < length (encode f))%nat.
Proof.
  intros [Hv _ _ Hi _ (Hp & _)] Hr. apply valid_cons in Hv as [Hfo _].
  pose proof (encode_length f (legal_key _ (follows_legal _ _ Hfo))) as Hel.
  unfold at_rest, waiting in Hr. unfold zlen in *.
  destruct Hp as [Hst Hq|Hst Hq _ _|Hst Hq _ _ _|k Hst _ Hl Ho _ _]; rewrite Hst in Hr;
    rewrite ?Hq in Hr; rewrite Hel; unfold prologue, zlen in *; [lia..|].
  destruct Hi as [_ Hi]. specialize (Hi Hst). rewrite Hl, Ho in Hi. rewrite Hr. unfold f_len, zlen in Hi. cbn [length]. lia.
Qed.

(** At rest, the frames that are done are those that are complete in the bytes that came. *)
Lemma at_rest_complete open done fs cc fut c s n :
  conv open fs cc fut c s -> avail s = [] -> at_rest (frame_ctx_in (ein c)) fs ->
  (n + length fut = length (wire (done ++ fs)))%nat -> complete (done ++ fs) n = done.
Proof.
  intros HC Ha Hr. revert n. pose proof (conv_stream _ _ _ _ _ _ HC) as Hstr. rewrite Ha in Hstr. cbn in Hstr.
  assert (fs = [] \/ exists f fs', fs = f :: fs' /\
    (cc + length (ibuf (frame_ctx_in (ein c))) < length (encode f))%nat) as Hinc.
  { destruct fs as [|f fs]; [by left|right]. exists f, fs. split; [done|]. by eapply at_rest_incomplete. }
  assert (length (wire fs) = cc + length (ibuf (frame_ctx_in (ein c))) + length fut)%nat as Hlen.
  { apply (f_equal length) in Hstr. rewrite length_app, length_drop in Hstr.
    destruct fs as [|f fs]; [cbn in *; destruct (conv_at _ _ _ _ _ _ HC) as (_ & -> & _); lia|].
    destruct (conv_at _ _ _ _ _ _ HC) as (_ & _ & Hcc & _). rewrite wire_cons, length_app in *. lia. }
  induction done as [|f done IH]; intros n Hn; cbn [app] in *.
  - destruct Hinc as [-> |(f & fs' & -> & Hlt)]; [done|]. cbn [complete].
    destruct (Nat.leb_spec (length (encode f)) n); [lia|done].
  - cbn [complete]. rewrite wire_cons, length_app in Hn. pose proof (length_app (wire done) (wire fs)) as E.
    rewrite <- wire_app in E. destruct (Nat.leb_spec (length (encode f)) n); [|lia]. f_equal. apply IH. lia.
Qed.
