(* ===== verification/WslaySend.v ===== *)
(** * WslaySend: the frames wslay sends

    What [wslay_event_send] of WslayC.v makes of the queued messages: each is one
    unmasked frame ([server_frame]), control frames first, and after a Close nothing. *)

From S2P Require Import Prelude Utf8 Bridge BridgeFacts WslayC WslayFacts WslayStream.

(** ** Programs that only send *)

Fixpoint only_sends {A} (p : prog A) : Prop :=
  match p with
  | Ret _ => True
  | Send _ k => forall n, only_sends (k n)
  | _ => False
  end.

Lemma only_sends_bind {A B} (p : prog A) (f : A -> prog B) :
  only_sends p -> (forall a, only_sends (f a)) -> only_sends (p ≫= f).
Proof.
  intros Hp Hf. induction p as [a| |d k IH| | | ]; try done.
  - exact (Hf a).
  - intros n. apply IH, Hp.
Qed.

(** [data] is appended to [outbound]. *)
Definition push (data : bytes) (s : Shared) : Shared :=
  mkShared (inbound s) (inbound_pos s) (outbound s ++ data) (to_peer s) (cur_is_data s) (control_events s).

Definition sends (l : list call) : Prop := Forall (fun c => exists d, c = CSend d) l.

Lemma sends_payload cur l : sends l -> payload cur l = [].
Proof. by induction 1 as [|c l [d ->] _ IH]. Qed.
Lemma sends_cur cur l : sends l -> cur_after cur l = cur.
Proof. by induction 1 as [|c l [d ->] _ IH]. Qed.

Lemma exec_only_sends {A} (p : prog A) s :
  only_sends p -> exists l a, exec p s = Ok (push (sent l) s, l, a) /\ sends l.
Proof.
  revert s. induction p as [a| |d k IH| | | ]; intros s Hp; try done.
  - exists [], a. split; [|constructor]. unfold push. cbn. rewrite app_nil_r. by destruct s.
  - cbn. set (s1 := mkShared _ _ _ _ _ _). destruct (IH (zlen d) s1 (Hp _)) as (l & a & -> & Hl).
    exists (CSend d :: l), a. cbn [mbind outcome_bind]. split.
    + unfold push. subst s1. cbn [inbound inbound_pos outbound to_peer cur_is_data control_events].
      by rewrite <- (assoc_L (++)).
    + constructor; [by eexists|done].
Qed.

Lemma frame_send_only_sends fin rsv op len data f :
  only_sends (wslay_frame_send fin rsv op len data f).
Proof.
  unfold wslay_frame_send. destruct (_ <? _); [done|]. destruct (if decide _ then _ else _) as [f1|]; [|done].
  apply only_sends_bind.
  - destruct (decide _); [|done]. intros n. by repeat case_match.
  - intros [f2 [r|]]; [done|]. destruct (decide _); [|done]. apply only_sends_bind.
    + destruct data; [done|]. intros n. by repeat case_match.
    + intros [f3 r]. by case_match.
Qed.

Lemma send_loop_only_sends n err o : only_sends (send_loop n err o).
Proof.
  revert o. induction n as [|n IH]; intros o; cbn [send_loop]; destruct (_ && _); try done.
  apply only_sends_bind.
  - unfold send_once. destruct (omsg _); [|done]. apply only_sends_bind; [apply frame_send_only_sends|].
    intros [fo r]. by repeat case_match.
  - intros [o' [| |r]]; [apply IH|done|done].
Qed.

(** [wslay_event_send] leaves the half that receives alone. *)
Lemma exec_event_send c s :
  exists l o rc, exec (wslay_event_send c) s = Ok (push (sent l) s, l, (set_eout o c, rc)) /\ sends l.
Proof.
  unfold wslay_event_send.
  destruct (exec_only_sends (send_loop (pending (eout c)) (error (frame_ctx_in (ein c))) (eout c)) s
    (send_loop_only_sends _ _ _)) as (l & [o rc] & E & Hl).
  exists l, o, rc. split; [|done]. rewrite exec_bind, E. cbn. by rewrite app_nil_r.
Qed.

(** ** One message, one frame *)

(** A frame of a server (RFC 6455, section 5.2): final, unmasked. *)
Definition server_frame (m : wslay_event_omsg) : bytes :=
  [128 + o_opcode m; length7 (zlen (o_data m))] ++ ext_length (zlen (o_data m)) ++ o_data m.

(** A message that can be one. *)
Definition sendable (m : wslay_event_omsg) : Prop :=
  0 <= o_opcode m < 16 /\ o_rsv m = 0 /\ zlen (o_data m) < 2 ^ 63 /\
  (wslay_is_ctrl_frame (o_opcode m) = true -> zlen (o_data m) <= 125).

Lemma make_header_server m :
  sendable m -> exists h, make_header 1 (o_rsv m) (o_opcode m) (zlen (o_data m)) = Some h /\
    h ++ o_data m = server_frame m /\ h <> [].
Proof.
  intros (Hop & Hr & Hlen & Hctl). unfold make_header. rewrite Hr.
  assert (Z.lor (Z.lor (Z.land (Z.shiftl 1 7) 128) (Z.land (Z.shiftl 0 4) 112)) (Z.land (o_opcode m) 15)
    = 128 + o_opcode m) as Hb.
  { change (Z.lor (Z.land (Z.shiftl 1 7) 128) (Z.land (Z.shiftl 0 4) 112)) with (Z.shiftl 1 7).
    rewrite (Z.land_ones _ 4), Z.mod_small by lia. rewrite lor_add_disjoint; lia. }
  rewrite Hb. pose proof (zlen_nonneg (o_data m)) as H0.
  assert (wslay_is_ctrl_frame (o_opcode m) && (125 <? zlen (o_data m)) = false) as ->.
  { destruct (wslay_is_ctrl_frame (o_opcode m)); [|done]. specialize (Hctl eq_refl). cbn. lia. }
  unfold server_frame, length7, ext_length. destruct (zlen (o_data m) <? 126); [by eexists|].
  destruct (zlen (o_data m) <? 65536); [by eexists|].
  destruct (Z.ltb_spec (zlen (o_data m)) (2 ^ 63)); [by eexists|lia].
Qed.

(** [wslay_frame_send] at the start of a frame, the callback taking all it is given. *)
Lemma exec_frame_send m f s :
  sendable m -> ostate f = PREP_HEADER ->
  exists l f', exec (wslay_frame_send 1 (o_rsv m) (o_opcode m) (zlen (o_data m)) (o_data m) f) s
    = Ok (push (server_frame m) s, l, (f', zlen (o_data m))) /\ sent l = server_frame m /\
    ostate f' = PREP_HEADER.
Proof.
  intros Hm Hst. destruct (make_header_server m Hm) as (h & Eh & Ef & Hne). unfold wslay_frame_send.
  rewrite Z.ltb_irrefl. destruct (decide _) as [_|]; [|done]. rewrite Eh.
  destruct h as [|x h]; [done|]. set (h' := x :: h) in *.
  assert (0 < zlen h') as Hlen by (subst h'; rewrite zlen_cons; pose proof (zlen_nonneg h); lia).
  rewrite exec_bind. cbn [ostate]. destruct (decide (SEND_HEADER = SEND_HEADER)) as [_|]; [|done].
  cbn [exec oheader send_cb]. destruct (Z.leb_spec (zlen h') 0); [lia|]. rewrite Z.ltb_irrefl, Z.eqb_refl.
  cbn [exec mret prog_ret mbind outcome_bind ostate]. destruct (decide _) as [_|]; [|done].
  rewrite exec_bind. destruct (o_data m) as [|y d] eqn:Ed.
  - rewrite app_nil_r in Ef. rewrite <- Ef. exists [CSend h'], (mkFrameOut [] 0 0 PREP_HEADER).
    split; [done|split; [|done]]. exact (app_nil_r h').
  - rewrite <- Ed in *. assert (0 < zlen (o_data m)) as Hd by (rewrite Ed, zlen_cons; pose proof (zlen_nonneg d); lia).
    cbn [exec send_cb]. destruct (Z.leb_spec (zlen (o_data m)) 0); [lia|]. rewrite Z.ltb_irrefl.
    cbn [exec mret prog_ret mbind outcome_bind opayloadoff opayloadlen Z.add].
    destruct (Z.ltb_spec (zlen (o_data m)) 0); [lia|]. rewrite Z.eqb_refl.
    cbn [exec mret prog_ret mbind outcome_bind].
    exists [CSend h'; CSend (o_data m)], (mkFrameOut [] (zlen (o_data m)) (zlen (o_data m)) PREP_HEADER).
    rewrite <- Ef. split; [unfold push; rewrite (assoc_L (++) (outbound s)); reflexivity|split; [|done]].
    change (sent _) with (h' ++ o_data m ++ []). by rewrite app_nil_r.
Qed.

Definition frames (ms : list wslay_event_omsg) : bytes := concat (server_frame <$> ms).

Lemma frames_app l1 l2 : frames (l1 ++ l2) = frames l1 ++ frames l2.
Proof. unfold frames. by rewrite fmap_app, concat_app. Qed.

Definition is_close (m : wslay_event_omsg) : bool := o_opcode m =? WSLAY_CONNECTION_CLOSE.

(** Between two calls no message is under way; a queued Close is the last of its queue. *)
Record sender (o : event_out) : Prop := {
  snd_state : ostate (frame_ctx_out o) = PREP_HEADER;
  snd_omsg : omsg o = None;
  snd_queue : Forall (fun m => sendable m /\ o_opcode m = WSLAY_BINARY_FRAME) (send_queue o);
  snd_ctrl : Forall (fun m => sendable m /\ is_control (o_opcode m) = true) (send_ctrl_queue o);
  snd_close : write_enabled o = true ->
    exists l, Forall (fun m => is_close m = false) l /\
    if close_queued o then exists m, send_ctrl_queue o = l ++ [m] /\ is_close m = true
    else send_ctrl_queue o = l;
}.

(** What [wslay_event_send] sends. *)
Definition emitted (o : event_out) : list wslay_event_omsg :=
  if write_enabled o then
    if close_queued o then match fst (pop_close (send_ctrl_queue o)) with Some m => [m] | None => [] end
    else send_ctrl_queue o ++ send_queue o
  else [].

Lemma pop_close_last l m :
  Forall (fun m => is_close m = false) l -> is_close m = true -> pop_close (l ++ [m]) = (Some m, []).
Proof.
  intros Hl Hm. unfold is_close in *. induction Hl as [|m' l E _ IH]; cbn; [by rewrite Hm|by rewrite E].
Qed.

(** One round: the message [m] goes out. *)
Lemma exec_send_once err o m s :
  sendable m -> omsg (next_omsg o) = Some m -> e_opayloadlen (next_omsg o) = zlen (o_data m) ->
  e_opayloadoff (next_omsg o) = 0 -> ostate (frame_ctx_out (next_omsg o)) = PREP_HEADER ->
  exists l o', exec (send_once err o) s = Ok (push (server_frame m) s, l, (o', Continue)) /\
    sent l = server_frame m /\ ostate (frame_ctx_out o') = PREP_HEADER /\ omsg o' = None /\
    send_queue o' = send_queue (next_omsg o) /\ send_ctrl_queue o' = send_ctrl_queue (next_omsg o) /\
    write_enabled o' = (if is_close m then false else write_enabled (next_omsg o)) /\
    close_queued o' = close_queued (next_omsg o).
Proof.
  intros Hm Ho Hl H0 Hst. unfold send_once. rewrite Ho, Hl, H0, drop_0.
  destruct (exec_frame_send m (frame_ctx_out (next_omsg o)) s Hm Hst) as (l & f' & E & Hsent & Hst').
  rewrite exec_bind, E. cbn [mbind outcome_bind].
  destruct (Z.leb_spec 0 (zlen (o_data m))) as [_|]; [|pose proof (zlen_nonneg (o_data m)); lia].
  cbn [e_opayloadoff e_opayloadlen]. rewrite Z.add_0_l, Z.eqb_refl.
  eexists (l ++ []), _. split; [reflexivity|]. rewrite app_nil_r. by split_and!.
Qed.

Lemma push_nil s : push [] s = s.
Proof. destruct s. unfold push. cbn. by rewrite app_nil_r. Qed.
Lemma push_push d1 d2 s : push d2 (push d1 s) = push (d1 ++ d2) s.
Proof. unfold push. cbn. by rewrite (assoc_L (++)). Qed.

(** The end of the loop. *)
Definition sent_all (o : event_out) (s : Shared) (ms : list wslay_event_omsg)
    (r : outcome unit (Shared * list call * (event_out * Z))) : Prop :=
  exists l o', r = Ok (push (frames ms) s, l, (o', 0)) /\ sent l = frames ms /\ sender o' /\
    write_enabled o' = write_enabled o && negb (close_queued o) /\ close_queued o' = close_queued o /\
    (write_enabled o' = true -> send_queue o' = [] /\ send_ctrl_queue o' = []) /\
    (send_queue o = [] -> send_queue o' = []).

Lemma sent_none o s :
  sender o -> close_queued o = false \/ write_enabled o = false ->
  (write_enabled o = true -> send_queue o = [] /\ send_ctrl_queue o = []) ->
  sent_all o s [] (exec (mret (o, 0)) s).
Proof.
  intros Hs Hc Hq. exists [], o. rewrite push_nil. split_and!; try done.
  destruct Hc as [-> | ->]; [by rewrite andb_true_r|done].
Qed.

(** One message, then the others. *)
Lemma sent_one n err o m ms s :
  sendable m -> omsg (next_omsg o) = Some m -> e_opayloadlen (next_omsg o) = zlen (o_data m) ->
  e_opayloadoff (next_omsg o) = 0 -> ostate (frame_ctx_out (next_omsg o)) = PREP_HEADER ->
  (forall o' s', ostate (frame_ctx_out o') = PREP_HEADER -> omsg o' = None ->
     send_queue o' = send_queue (next_omsg o) -> send_ctrl_queue o' = send_ctrl_queue (next_omsg o) ->
     write_enabled o' = (if is_close m then false else write_enabled (next_omsg o)) ->
     close_queued o' = close_queued (next_omsg o) ->
     sent_all o s' ms (exec (send_loop n err o') s')) ->
  sent_all o s (m :: ms) (exec ('(o, v) ← send_once err o;
    match v with
    | Continue => send_loop n err o
    | Break => mret (o, 0)
    | Return r => mret (o, r)
    end) s).
Proof.
  intros Hm Ho Hl H0 Hst Hrest.
  destruct (exec_send_once err o m s Hm Ho Hl H0 Hst) as (l & o1 & E & Hsent & R1 & R2 & R3 & R4 & R5 & R6).
  destruct (Hrest o1 (push (server_frame m) s) R1 R2 R3 R4 R5 R6) as (l2 & o2 & E2 & Hsent2 & Hrest2).
  rewrite exec_bind, E. cbn [mbind outcome_bind]. rewrite E2. cbn [mbind outcome_bind].
  rewrite push_push. exists (l ++ l2), o2. split; [done|]. by rewrite sent_app, Hsent, Hsent2.
Qed.

Lemma next_omsg_popped o m sq scq :
  omsg o = None ->
  (send_ctrl_queue o = [] /\ send_queue o = m :: sq /\ scq = []) \/
  (send_ctrl_queue o <> [] /\ wslay_event_send_ctrl_queue_pop o = (Some m, scq) /\ sq = send_queue o) ->
  next_omsg o = popped (Some m) sq scq o.
Proof.
  intros Ho H. unfold next_omsg. rewrite Ho. destruct H as [(-> & -> & ->)|(Hne & -> & ->)]; [done|].
  by destruct (send_ctrl_queue o).
Qed.

(** The message that is next goes out, and the rest as [send_loop] sends it from there. *)
Lemma sent_next n err o m sq scq s :
  sender o -> write_enabled o = true -> next_omsg o = popped (Some m) sq scq o -> sendable m ->
  is_close m = false -> close_queued o = false ->
  Forall (fun m => sendable m /\ o_opcode m = WSLAY_BINARY_FRAME) sq ->
  Forall (fun m => sendable m /\ is_control (o_opcode m) = true) scq ->
  Forall (fun m => is_close m = false) scq ->
  (forall o' s', sender o' -> send_queue o' = sq -> send_ctrl_queue o' = scq ->
     write_enabled o' = true -> close_queued o' = false ->
     sent_all o' s' (emitted o') (exec (send_loop n err o') s')) ->
  sent_all o s (m :: scq ++ sq) (exec ('(o, v) ← send_once err o;
    match v with
    | Continue => send_loop n err o
    | Break => mret (o, 0)
    | Return r => mret (o, r)
    end) s).
Proof.
  intros Hs Hw Hnext Hm Hcl Hcq Hsq Hscq Hncl Hrest.
  apply sent_one; rewrite ?Hnext; try done; [by cbn; rewrite (snd_state _ Hs)|].
  intros o' s' R1 R2 R3 R4 R5 R6. cbn in R3, R4, R5, R6. rewrite Hcl, Hw in R5. rewrite Hcq in R6.
  assert (sender o') as Hs'.
  { split; try done; [by rewrite R3|by rewrite R4|]. intros _. exists scq. by rewrite R6. }
  destruct (Hrest o' s' Hs' R3 R4 R5 R6) as (l & o2 & E & Hl & H1 & H2 & H3 & H4 & _).
  assert (emitted o' = scq ++ sq) as Hem by (unfold emitted; by rewrite R5, R6, R3, R4).
  rewrite R5, R6 in H2. cbn in H2. rewrite Hem in *. exists l, o2.
  split_and!; try done; rewrite ?H2, ?H3, ?R6, ?Hw, ?Hcq; try done. intros _. by apply H4.
Qed.

Lemma send_loop_spec n err o s :
  sender o -> (pending o <= n)%nat -> sent_all o s (emitted o) (exec (send_loop n err o) s).
Proof.
  revert o s. induction n as [|n IH]; intros o s Hs Hn; cbn [send_loop];
    pose proof Hs as [H1 H2 H3 H4 H5]; unfold pending in *; rewrite H2 in *; cbn [Nat.add] in *;
    unfold emitted; destruct (write_enabled o) eqn:Hw; cbn [andb];
    try (apply sent_none; [done|by right|congruence]);
    destruct (H5 eq_refl) as (lc & Hlc & Hc); destruct (close_queued o) eqn:Hcq;
    try (destruct Hc as (m & Hc & Hm); rewrite Hc in *; rewrite length_app in *; cbn in Hn).
  - lia.
  - destruct (send_queue o) eqn:Eq; [|cbn in Hn; lia]. destruct (send_ctrl_queue o) eqn:Ec; [|cbn in Hn; lia].
    apply sent_none; auto.
  - destruct (Nat.eqb_spec (length (send_queue o) + (length lc + length [m])) 0) as [H|_]; [cbn in H; lia|].
    cbn [negb]. rewrite (pop_close_last lc m Hlc Hm). cbn [fst].
    apply Forall_app in H4 as [_ H4]. apply Forall_singleton in H4 as [Hsm _].
    assert (next_omsg o = popped (Some m) (send_queue o) [] o) as Hnext.
    { apply next_omsg_popped; [done|]. right. split; [rewrite Hc; by destruct lc|]. split; [|done].
      unfold wslay_event_send_ctrl_queue_pop. by rewrite Hcq, Hc, pop_close_last. }
    apply sent_one; rewrite ?Hnext; try done.
    intros o' s' R1 R2 R3 R4 R5 R6. cbn in R3, R4, R5, R6. rewrite Hm in R5.
    assert (exec (send_loop n err o') s' = Ok (s', [], (o', 0))) as ->.
    { destruct n; cbn [send_loop]; by rewrite R5. }
    exists [], o'. rewrite push_nil, R5, R6, Hw, Hcq. split_and!; try done; [|by rewrite R3]. split; try done.
    + by rewrite R3.
    + by rewrite R4.
    + by rewrite R5.
  - destruct (send_ctrl_queue o) as [|m scq] eqn:Ec; [destruct (send_queue o) as [|m sq] eqn:Eq|].
    + apply sent_none; auto.
    + cbn [negb length Nat.add Nat.eqb app]. apply Forall_cons in H3 as [[Hsm Hnc] H3].
      apply (sent_next n err o m sq []); try done.
      * apply next_omsg_popped; [done|]. by left.
      * unfold is_close. by rewrite Hnc.
      * intros o' s' Hs' R3 R4 _ _. apply IH; [done|]. unfold pending.
        rewrite (snd_omsg _ Hs'), R3, R4. cbn in *. lia.
    + destruct (Nat.eqb_spec (length (send_queue o) + length (m :: scq)) 0) as [H|_]; [cbn in H; lia|].
      cbn [negb app]. apply Forall_cons in H4 as [[Hsm _] H4]. subst lc. apply Forall_cons in Hlc as [Hcl Hlc].
      apply (sent_next n err o m (send_queue o) scq); try done.
      * apply next_omsg_popped; [done|]. right. rewrite Ec. split; [done|]. split; [|done].
        unfold wslay_event_send_ctrl_queue_pop. by rewrite Hcq, Ec.
      * intros o' s' Hs' R3 R4 _ _. apply IH; [done|]. unfold pending.
        rewrite (snd_omsg _ Hs'), R3, R4. cbn in *. lia.
Qed.

(** ** Queueing *)

Definition queueable (op : Z) (p : bytes) : bool := negb (wslay_is_ctrl_frame op) || (zlen p <=? 125).

(** [m] is queued, or nothing is. *)
Lemma queue_msg_emitted op p o :
  sender o -> op = WSLAY_BINARY_FRAME \/ op = WSLAY_PING \/ op = WSLAY_PONG ->
  (op = WSLAY_BINARY_FRAME -> zlen p < 2 ^ 63) ->
  send_queue o = [] \/ op = WSLAY_BINARY_FRAME ->
  let o' := fst (wslay_event_queue_msg op p o) in
  sender o' /\ write_enabled o' = write_enabled o /\ close_queued o' = close_queued o /\
  (op <> WSLAY_BINARY_FRAME -> send_queue o' = send_queue o) /\
  emitted o' = emitted o ++
    (if write_enabled o && negb (close_queued o) && queueable op p then [mkOmsg op 0 p] else []).
Proof.
  intros Hs Hop Hlen Hq.
  assert (wslay_is_ctrl_frame op = true /\ is_control op = true /\ is_close (mkOmsg op 0 p) = false /\
      op <> WSLAY_BINARY_FRAME \/ wslay_is_ctrl_frame op = false /\ op = WSLAY_BINARY_FRAME) as Hk
    by (destruct Hop as [->|[->| ->]]; auto; left; split_and!; done).
  assert (0 <= op < 16) as Hr by (destruct Hop as [->|[->| ->]]; done). unfold wslay_event_queue_msg, wslay_event_is_msg_queueable, queueable.
  destruct (write_enabled o) eqn:Hw; [destruct (close_queued o) eqn:Hc|]; cbn [andb negb fst];
    rewrite ?app_nil_r; try done.
  destruct Hk as [(-> & Hctl & Hnc & Hne)|(-> & ->)]; cbn [andb negb orb].
  - destruct (Z.ltb_spec 125 (zlen p)); destruct (Z.leb_spec (zlen p) 125); try lia; cbn [fst];
      rewrite ?app_nil_r; try done.
    destruct Hs as [H1 H2 H3 H4 H5]. split.
    + split; try done; cbn.
      * apply Forall_app_2; [done|]. apply Forall_singleton. split; [|done].
        split_and!; try done; cbn; lia.
      * rewrite Hc, Hw in *. intros _. destruct (H5 eq_refl) as (l & Hl & ->). eexists. split; [|done].
        apply Forall_app_2; [done|]. by apply Forall_singleton.
    + split_and!; try done. unfold emitted. cbn. rewrite Hw, Hc.
      destruct Hq as [-> |]; [|done]. by rewrite !app_nil_r.
  - destruct Hs as [H1 H2 H3 H4 H5]. cbn [fst]. split.
    + split; try done; cbn; [|rewrite Hc, Hw in *; done].
      apply Forall_app_2; [done|]. apply Forall_singleton. split; [|done]. split_and!; try done;
        cbn [o_opcode o_data]; auto; lia.
    + split_and!; try done. unfold emitted. cbn. rewrite Hw, Hc. by rewrite (assoc_L (++)).
Qed.

Lemma queue_close_emitted sc r o :
  sender o ->
  let o' := fst (wslay_event_queue_close sc r o) in
  let m := mkOmsg WSLAY_CONNECTION_CLOSE 0 (close_payload sc r) in
  sender o' /\ write_enabled o' = write_enabled o /\
  if write_enabled o && negb (close_queued o) && (zlen r <=? 123)
  then close_queued o' = true /\ emitted o' = [m] else o' = o.
Proof.
  intros Hs. cbn zeta. unfold wslay_event_queue_close, wslay_event_is_msg_queueable.
  destruct (write_enabled o) eqn:Hw; [destruct (close_queued o) eqn:Hc|]; cbn [andb negb fst]; try done.
  destruct (Z.ltb_spec 123 (zlen r)); destruct (Z.leb_spec (zlen r) 123); try lia; [done|].
  assert (zlen (close_payload sc r) <= 125) as Hlen.
  { unfold close_payload. destruct (sc =? 0); [done|]. rewrite zlen_app. unfold zlen in *. cbn. lia. }
  unfold wslay_event_queue_msg, wslay_event_is_msg_queueable. rewrite Hw, Hc. cbn [andb negb].
  change (wslay_is_ctrl_frame WSLAY_CONNECTION_CLOSE) with true.
  destruct (Z.ltb_spec 125 (zlen (close_payload sc r))); [lia|]. cbn [andb fst Z.eqb].
  destruct Hs as [S1 S2 S3 S4 S5]. rewrite Hc, Hw in *. destruct (S5 eq_refl) as (l & Hl & Hcq). split.
  - split; try done; cbn.
    + apply Forall_app_2; [done|]. apply Forall_singleton. split; [|done]. split_and!; try done. cbn. lia.
    + intros _. exists l. split; [done|]. eexists. rewrite Hcq. split; [done|]. done.
  - split; [done|]. split; [done|]. unfold emitted. cbn. by rewrite Hcq, pop_close_last.
Qed.

(** What is sent when no data is queued. *)
Lemma emitted_control o :
  sender o -> send_queue o = [] ->
  Forall (fun m => sendable m /\ is_control (o_opcode m) = true) (emitted o) /\
  (write_enabled o = true ->
     if close_queued o then exists m, emitted o = [m] /\ is_close m = true
     else Forall (fun m => is_close m = false) (emitted o)).
Proof.
  intros [_ _ _ S4 S5] Hq. unfold emitted. destruct (write_enabled o); [|by split].
  destruct (S5 eq_refl) as (l & Hl & Hc). destruct (close_queued o).
  - destruct Hc as (m & Hc & Hm). rewrite Hc in *. rewrite pop_close_last by done. cbn.
    apply Forall_app in S4 as [_ S4]. split; [done|]. intros _. by exists m.
  - rewrite Hq, app_nil_r, Hc in *. by split.
Qed.

(** Receiving queues no data. *)
Lemma answered_sender o o' :
  answered o o' -> sender o -> send_queue o = [] ->
  sender o' /\ send_queue o' = [] /\ write_enabled o' = write_enabled o.
Proof.
  induction 1 as [o|p o o' _ IH|sc r o o' _ IH]; intros Hs Hq; [done| |].
  - destruct (Z.leb_spec (zlen p) 125).
    + destruct (queue_msg_emitted WSLAY_PONG p o Hs) as (H1 & H2 & _ & H4 & _); [auto|done|auto|].
      rewrite <- H2. apply IH; [done|]. by rewrite H4.
    + replace (fst (wslay_event_queue_msg WSLAY_PONG p o)) with o in IH; [auto|].
      unfold wslay_event_queue_msg. destruct (negb _); [done|]. cbn.
      by destruct (Z.ltb_spec 125 (zlen p)); [|lia].
  - destruct (queue_close_emitted sc r o Hs) as (H1 & H2 & _). rewrite <- H2. apply IH; [done|].
    unfold wslay_event_queue_close, wslay_event_queue_msg. by repeat case_match; simplify_eq/=.
Qed.

(** ** The frames can be told apart *)

Lemma length7_ext n1 n2 :
  0 <= n1 < 2 ^ 63 -> 0 <= n2 < 2 ^ 63 -> length7 n1 = length7 n2 ->
  length (ext_length n1) = length (ext_length n2) /\ (ext_length n1 = ext_length n2 -> n1 = n2).
Proof.
  intros H1 H2 E. assert (n1 < 126 -> n1 = n2) as Hs.
  { intros ?. revert E. unfold length7. destruct (Z.ltb_spec n1 126); [|lia].
    destruct (n2 <? 126); [done|]. destruct (n2 <? 65536); lia. }
  destruct (Z.ltb_spec n1 126); [by rewrite Hs|].
  assert (126 <= n2) as H3.
  { revert E. unfold length7. destruct (Z.ltb_spec n2 126); [|lia].
    destruct (Z.ltb_spec n1 126); [lia|]. destruct (n1 <? 65536); lia. }
  destruct (be_value_ext n1 ltac:(lia)) as (V1 & _ & L1). destruct (be_value_ext n2 ltac:(lia)) as (V2 & _ & L2).
  split; [|congruence]. revert E. unfold length7.
  destruct (Z.ltb_spec n1 126); [lia|]. destruct (Z.ltb_spec n2 126); [lia|].
  destruct L1 as [[-> B1]|[-> B1]], L2 as [[-> B2]|[-> B2]]; try done;
    destruct (Z.ltb_spec n1 65536), (Z.ltb_spec n2 65536); lia.
Qed.

Lemma server_frame_inj m1 m2 x1 x2 :
  sendable m1 -> sendable m2 -> server_frame m1 ++ x1 = server_frame m2 ++ x2 -> m1 = m2 /\ x1 = x2.
Proof.
  destruct m1 as [o1 r1 d1], m2 as [o2 r2 d2]. intros (_ & R1 & L1 & _) (_ & R2 & L2 & _). unfold server_frame.
  cbn [o_opcode o_rsv o_data] in *. subst. pose proof (zlen_nonneg d1). pose proof (zlen_nonneg d2).
  cbn [app]. intros [= Eo El E]. rewrite <- !(assoc_L (++)) in E.
  destruct (length7_ext (zlen d1) (zlen d2) ltac:(lia) ltac:(lia) El) as [Hl Hi].
  apply app_inj_1 in E as [Ee E]; [|done]. apply Hi in Ee.
  apply app_inj_1 in E as [-> ->]; [|unfold zlen in Ee; lia]. split; [|done]. f_equal. lia.
Qed.

(** The bytes determine the messages. *)
Lemma frames_inj ms1 ms2 :
  Forall sendable ms1 -> Forall sendable ms2 -> frames ms1 = frames ms2 -> ms1 = ms2.
Proof.
  intros H1. revert ms2. induction H1 as [|m1 ms1 Hm1 _ IH]; intros ms2 H2 E.
  - destruct ms2; [done|discriminate E].
  - destruct H2 as [|m2 ms2 Hm2 H2]; [discriminate E|].
    change (server_frame m1 ++ frames ms1 = server_frame m2 ++ frames ms2) in E.
    apply server_frame_inj in E as [-> E]; try done. f_equal. by apply IH.
Qed.
