(* ===== verification/WslayClose.v ===== *)
(** * WslayClose: how a client's Close is received

    The UTF-8 automaton of WslayC.v against the definition of Utf8.v, and
    [wslay_event_recv] on a Close frame that has come whole. *)

From S2P Require Import Prelude Utf8 Bridge BridgeFacts WslayC WslayFacts WslayStream WslaySend.

(** ** The UTF-8 automaton *)

(** The table, read by states. *)
Definition decoded (state b : Z) : Z :=
  if state =? 0 then
    if b <? 128 then 0 else if b <? 194 then 12 else if b <? 224 then 24 else if b =? 224 then 48
    else if b =? 237 then 60 else if b <? 240 then 36 else if b =? 240 then 72 else if b <? 244 then 84
    else if b =? 244 then 96 else 12
  else if state =? 24 then if is_cont b then 0 else 12
  else if state =? 36 then if is_cont b then 24 else 12
  else if state =? 48 then if between 160 191 b then 24 else 12
  else if state =? 60 then if between 128 159 b then 24 else 12
  else if state =? 72 then if between 144 191 b then 36 else 12
  else if state =? 84 then if is_cont b then 36 else 12
  else if between 128 143 b then 36 else 12.

Definition utf8_states : list Z := [0; 24; 36; 48; 60; 72; 84; 96].

Lemma decode_decoded state b : In state utf8_states -> is_u8 b -> decode state b = decoded state b.
Proof.
  intros Hs Hb. apply Z.eqb_eq. revert b Hb.
  apply (u8_forall (fun b => decode state b =? decoded state b)).
  cbn in Hs. repeat destruct Hs as [<-|Hs]; try done; by vm_compute.
Qed.

Lemma validate_cons state b l :
  In state utf8_states -> is_u8 b ->
  validate state (b :: l) = if decoded state b =? 12 then 12 else validate (decoded state b) l.
Proof. intros Hs Hb. cbn [validate]. by rewrite decode_decoded. Qed.

(** The lead bytes. *)
Lemma decoded_2 b : between 194 223 b = true -> decoded 0 b = 24.
Proof. unfold decoded, between. cbn. repeat case_match; lia. Qed.

Lemma decoded_3 b0 b1 :
  between 224 239 b0 = true ->
  decoded 0 b0 <> 12 /\ In (decoded 0 b0) utf8_states /\ decoded 0 b0 <> 0 /\
  decoded (decoded 0 b0) b1 = if second3 b0 b1 then 24 else 12.
Proof.
  intros H. assert (b0 = 224 \/ b0 = 237 \/ (decoded 0 b0 = 36 /\ b0 <> 224 /\ b0 <> 237)) as [-> |[-> |(-> & ? & ?)]].
  { unfold decoded, between in *. cbn. repeat case_match; lia. }
  all: split; [done|split; [cbn; tauto|split; [done|]]]; unfold decoded; cbn [Z.eqb Pos.eqb Z.ltb Z.compare Pos.compare Pos.compare_cont];
    repeat case_match; between_lia.
Qed.

Lemma decoded_4 b0 b1 :
  between 240 244 b0 = true ->
  decoded 0 b0 <> 12 /\ In (decoded 0 b0) utf8_states /\ decoded 0 b0 <> 0 /\
  decoded (decoded 0 b0) b1 = if second4 b0 b1 then 36 else 12.
Proof.
  intros H. assert (b0 = 240 \/ b0 = 244 \/ (decoded 0 b0 = 84 /\ 240 < b0 < 244)) as [-> |[-> |(-> & ?)]].
  { unfold decoded, between in *. cbn. repeat case_match; lia. }
  all: split; [done|split; [cbn; tauto|split; [done|]]]; unfold decoded; cbn [Z.eqb Pos.eqb Z.ltb Z.compare Pos.compare Pos.compare_cont];
    repeat case_match; between_lia.
Qed.

Lemma decoded_other b :
  is_u8 b -> b <? 128 = false -> between 194 223 b = false -> between 224 239 b = false ->
  between 240 244 b = false -> decoded 0 b = 12.
Proof. unfold decoded, between, is_u8. cbn. intros. repeat case_match; lia. Qed.

Lemma validate_24 b l : is_u8 b -> validate 24 (b :: l) = if is_cont b then validate 0 l else 12.
Proof. intros. rewrite validate_cons by (done || cbn; tauto). unfold decoded. cbn. by destruct (is_cont b). Qed.
Lemma validate_36 b l : is_u8 b -> validate 36 (b :: l) = if is_cont b then validate 24 l else 12.
Proof. intros. rewrite validate_cons by (done || cbn; tauto). unfold decoded. cbn. by destruct (is_cont b). Qed.

Lemma validate_1 b l : is_u8 b -> b <? 128 = true -> validate 0 (b :: l) = validate 0 l.
Proof. intros ? E. rewrite validate_cons by (done || cbn; tauto). unfold decoded. cbn. by rewrite E. Qed.
Lemma validate_2 b l : is_u8 b -> between 194 223 b = true -> validate 0 (b :: l) = validate 24 l.
Proof. intros ? E. rewrite validate_cons by (done || cbn; tauto). by rewrite decoded_2. Qed.
Lemma validate_3 b0 b1 l :
  is_u8 b0 -> is_u8 b1 -> between 224 239 b0 = true ->
  validate 0 (b0 :: b1 :: l) = if second3 b0 b1 then validate 24 l else 12.
Proof.
  intros H0 H1 E. destruct (decoded_3 b0 b1 E) as (E1 & E2 & _ & E3).
  rewrite validate_cons by (done || cbn; tauto). rewrite (proj2 (Z.eqb_neq _ _) E1).
  rewrite validate_cons by done. rewrite E3. by destruct (second3 b0 b1).
Qed.
Lemma validate_4 b0 b1 l :
  is_u8 b0 -> is_u8 b1 -> between 240 244 b0 = true ->
  validate 0 (b0 :: b1 :: l) = if second4 b0 b1 then validate 36 l else 12.
Proof.
  intros H0 H1 E. destruct (decoded_4 b0 b1 E) as (E1 & E2 & _ & E3).
  rewrite validate_cons by (done || cbn; tauto). rewrite (proj2 (Z.eqb_neq _ _) E1).
  rewrite validate_cons by done. rewrite E3. by destruct (second4 b0 b1).
Qed.
Lemma validate_open b : is_u8 b -> b <? 128 = false -> validate 0 [b] <> 0.
Proof.
  intros H E. rewrite validate_cons by (done || cbn; tauto). unfold decoded. cbn. rewrite E.
  repeat case_match; done.
Qed.

Lemma validate_valid l : utf8_valid l -> validate 0 l = 0.
Proof.
  intros H. pose proof (utf8_valid_bytes_ok l H) as Hok. unfold bytes_ok in *.
  induction H as [|b0 l H0 H IH|b0 b1 l H0 H1 H IH|b0 b1 b2 l H0 H1 H2 H IH|b0 b1 b2 b3 l H0 H1 H2 H3 H IH];
    [done|..]; repeat (apply Forall_cons in Hok as [? Hok]); specialize (IH Hok).
  - rewrite validate_1; [done..|lia].
  - by rewrite validate_2, validate_24, H1.
  - by rewrite validate_3, H1, validate_24, H2.
  - by rewrite validate_4, H1, validate_36, H2, validate_24, H3.
Qed.

Lemma valid_validate l : bytes_ok l -> validate 0 l = 0 -> utf8_valid l.
Proof.
  remember (length l) as n eqn:Hn. revert l Hn. induction (lt_wf n) as [n _ IH]. intros l -> Hok.
  assert (forall l', (length l' < length l)%nat -> bytes_ok l' -> validate 0 l' = 0 -> utf8_valid l')
    as IH' by (intros; by eapply IH).
  clear IH. destruct Hok as [|b0 l1 H0 Hok]; [constructor|].
  destruct (b0 <? 128) eqn:E1.
  { rewrite validate_1 by done. intros H. apply utf8_1; [unfold is_u8 in *; lia|]. apply IH'; [cbn; lia|done|done]. }
  destruct Hok as [|b1 l2 H1 Hok]; [intros H; by apply validate_open in H|].
  destruct (between 194 223 b0) eqn:E2.
  { rewrite validate_2, validate_24 by done. destruct (is_cont b1) eqn:C1; [|done]. intros H.
    apply utf8_2; try done. apply IH'; [cbn; lia|done|done]. }
  destruct (between 224 239 b0) eqn:E3.
  { rewrite validate_3 by done. destruct (second3 b0 b1) eqn:C1; [|done].
    destruct Hok as [|b2 l3 H2 Hok]; [done|]. rewrite validate_24 by done. destruct (is_cont b2) eqn:C2; [|done].
    intros H. apply utf8_3; try done. apply IH'; [cbn; lia|done|done]. }
  destruct (between 240 244 b0) eqn:E4.
  { rewrite validate_4 by done. destruct (second4 b0 b1) eqn:C1; [|done].
    destruct Hok as [|b2 l3 H2 Hok]; [done|]. rewrite validate_36 by done. destruct (is_cont b2) eqn:C2; [|done].
    destruct Hok as [|b3 l4 H3 Hok]; [done|]. rewrite validate_24 by done. destruct (is_cont b3) eqn:C3; [|done].
    intros H. apply utf8_4; try done. apply IH'; [cbn; lia|done|done]. }
  rewrite validate_cons by (done || cbn; tauto). by rewrite decoded_other.
Qed.

Lemma validate_app state l1 l2 :
  state <> UTF8_REJECT -> validate state (l1 ++ l2) =
  if validate state l1 =? UTF8_REJECT then UTF8_REJECT else validate (validate state l1) l2.
Proof.
  revert state. induction l1 as [|b l1 IH]; intros state Hs; cbn [app validate].
  - by destruct (Z.eqb_spec state UTF8_REJECT).
  - destruct (Z.eqb_spec (decode state b) UTF8_REJECT); [done|]. by apply IH.
Qed.

(** The chunks of a message, the loop ending with the first that is rejected. *)
Definition validate_chunks (cs : list bytes) : Z :=
  fold_left (fun state c => if state =? UTF8_REJECT then state else validate state c) cs UTF8_ACCEPT.

Lemma validate_chunks_from state cs :
  state <> UTF8_REJECT ->
  fold_left (fun state c => if state =? UTF8_REJECT then state else validate state c) cs state =
  validate state (concat cs).
Proof.
  assert (forall cs, fold_left (fun state c => if state =? UTF8_REJECT then state else validate state c)
    cs UTF8_REJECT = UTF8_REJECT) as Hrej by (clear; by induction 0).
  revert state. induction cs as [|c cs IH]; intros state Hs; [done|]. cbn [fold_left concat].
  destruct (Z.eqb_spec state UTF8_REJECT) as [|_]; [done|]. rewrite validate_app by done.
  destruct (Z.eqb_spec (validate state c) UTF8_REJECT) as [->|Hne]; [apply Hrej|by apply IH].
Qed.

(** C19: The UTF-8 automaton of wslay accepts a message, in whatever chunks it comes, if
    and only if its bytes are well-formed UTF-8 as the standard library has it. *)
Theorem utf8_automaton_exact cs :
  bytes_ok (concat cs) -> validate_chunks cs = UTF8_ACCEPT <-> utf8_valid (concat cs).
Proof.
  intros Hok. unfold validate_chunks. rewrite validate_chunks_from by done.
  split; [by apply valid_validate|apply validate_valid].
Qed.

(** ** A frame that has come whole *)

(** A first part that does nothing but return. *)
Lemma exec_pure {A B} (p : prog A) (h : A -> prog B) s a :
  exec p s = Ok (s, [], a) -> exec (p ≫= h) s = exec (h a) s.
Proof.
  intros E. rewrite exec_bind, E. cbn [mbind outcome_bind]. by destruct (exec (h a) s) as [[[? ?] ?]| | |].
Qed.

Section whole.
Variables (f : ws_frame) (more : bytes).
Hypothesis Hf : framed f = true.

(** All of the rest of the frame is in [ibuf]. *)
Definition loaded (fi : frame_in) (c : nat) : Prop :=
  err_ok fi /\ parsing f fi c /\ ibuf fi = drop c (encode f) ++ more /\ (c <= prologue f)%nat.

Definition got_whole (s : Shared) (o : outcome unit (Shared * list call * (frame_in * (Z + frame_iocb)))) : Prop :=
  exists fi, o = Ok (s, [], (fi, inr (piece f 0 (length (f_payload f))))) /\ at_start fi /\
    ibuf fi = more /\ err_ok fi.

Lemma loaded_length fi c : loaded fi c -> (prologue f + length (f_payload f) <= c + length (ibuf fi))%nat.
Proof using Hf.
  intros (_ & _ & -> & _). rewrite length_app, length_drop, encode_length by by apply framed_key. lia.
Qed.

Lemma loaded_reqread fi c : loaded fi c -> istate fi <> RECV_PAYLOAD -> ireqread fi <= zlen (ibuf fi).
Proof using Hf.
  intros H Hst. pose proof (loaded_length _ _ H) as Hl. destruct H as (_ & Hp & _). unfold prologue, zlen in *.
  destruct Hp as [_ Hq|_ Hq _ _|_ Hq _ _ _|k ? _ _ _ _ _]; [..|done]; rewrite Hq; unfold zlen; try lia.
  unfold prologue in *. lia.
Qed.

Lemma stage_loaded st body h s fi c :
  serves f more st body -> loaded fi c -> st <> RECV_PAYLOAD -> (rank st <= rank (istate fi))%nat ->
  st = RECV_HEADER1 \/ st = RECV_EXT_PAYLOADLEN \/ st = RECV_MASKKEY ->
  (forall fi1 c1, loaded fi1 c1 -> (rank st < rank (istate fi1))%nat -> got_whole s (exec (h fi1) s)) ->
  got_whole s (exec (or_return (stage st body fi) h) s).
Proof using Hf.
  intros Hsv Hl Hne Hrk Hst Hh. unfold or_return, stage. destruct (decide (istate fi = st)) as [Heq|Hneq].
  - pose proof (loaded_reqread _ _ Hl ltac:(congruence)) as Hreq. destruct Hl as (He & Hp & Hb & Hc).
    destruct (Hsv [] fi Shared_default c Hp) as (f2 & c2 & E2 & He2 & Hp2 & Hs2 & Hr2 & _ & Hc2); try done.
    { unfold stream. cbn. by rewrite app_nil_r. }
    rewrite (exec_pure _ _ s (f2, None)).
    + apply (Hh f2 c2); [|done]. split_and!; try done. unfold stream in Hs2. cbn in Hs2. by rewrite app_nil_r in Hs2.
    + rewrite (exec_pure _ _ s (fi, None)); [by rewrite E2|]. unfold await_ireqread.
      destruct (Z.ltb_spec (zlen (ibuf fi)) (ireqread fi)); [lia|done].
  - rewrite (exec_pure _ _ s (fi, None)) by done. apply (Hh fi c); [done|].
    destruct Hl as (_ & Hp & _). destruct Hp as [Hi _|Hi _ _ _|Hi _ _ _ _|k' Hi _ _ _ _ _];
      rewrite Hi in Hrk, Hneq |- *; destruct Hst as [-> |[-> | ->]]; cbn in *; try done; lia.
Qed.

Lemma payload_loaded s fi c :
  loaded fi c -> istate fi = RECV_PAYLOAD -> got_whole s (exec (payload_stage fi) s).
Proof using Hf.
  intros Hl Hst. pose proof (loaded_length _ _ Hl) as Hlen. destruct Hl as (He & Hp & Hb & Hc).
  unfold payload_stage. destruct (decide _) as [_|]; [|done].
  assert (ipayloadlen fi = f_len f /\ ipayloadoff fi = Z.of_nat 0 /\ c = (prologue f + 0)%nat) as (Hpl & Hpo & Hk).
  { inversion Hp as [| | |k ? ? ? ? ? ? E]; try congruence. assert (k = 0%nat) as -> by lia.
    by split_and!. }
  rewrite (exec_pure _ _ s (fi, 1)).
  2: { rewrite Hpl, Hpo. destruct (Z.eqb_spec (zlen (ibuf fi)) 0) as [E|]; [|done]. cbn [andb].
    destruct (Z.ltb_spec 0 (f_len f - Z.of_nat 0)); [|done]. unfold f_len, zlen in *. lia. }
  cbn [Z.leb Z.compare]. cbv iota.
  rewrite Hk in Hp. destruct (piece_conv f more Hf [] 0 fi Shared_default) as (fi' & s' & l & r & E & _ & _ & _ & He' & Hr);
    [unfold ready; cbn; lia|done|done|done|unfold stream; cbn; rewrite app_nil_r, Hb, Hk; done| |].
  { destruct (ibuf fi) eqn:Ei; [right; apply nil_length_inv; cbn [length] in Hlen; lia|by left]. }
  destruct (recv_payload fi) as [f' io]. injection E as <- <- <- <-.
  destruct Hr as (n & -> & Hn & _ & Hgreedy & Hs & Hend). unfold stream in Hs. cbn [avail Shared_default] in Hs.
  change (avail Shared_default ++ []) with (@nil Z) in Hs. rewrite app_nil_r in Hs.
  assert (n = length (f_payload f)) as ->.
  { destruct Hgreedy as [?|Hnil]; [lia|]. rewrite Hnil in Hs. apply (f_equal length) in Hs.
    rewrite length_app, length_drop, encode_length in Hs by by apply framed_key. cbn [length] in Hs. lia. }
  rewrite decide_True in Hend by lia. rewrite drop_ge in Hs by (rewrite encode_length; [lia|by apply framed_key]).
  exists f'. by split_and!.
Qed.

Lemma whole_loaded s fi c : loaded fi c -> got_whole s (exec (wslay_frame_recv fi) s).
Proof using Hf.
  intros Hl. unfold wslay_frame_recv.
  eapply stage_loaded; [by apply header1_serves|exact Hl|done|cbn; lia|auto|]. intros f1 c1 Hl1 Hr1.
  eapply stage_loaded; [by apply ext_serves|exact Hl1|done|cbn in *; lia|auto|]. intros f2 c2 Hl2 Hr2.
  eapply stage_loaded; [by apply maskkey_serves|exact Hl2|done|cbn in *; lia|auto|]. intros f3 c3 Hl3 Hr3.
  apply (payload_loaded s f3 c3 Hl3). destruct Hl3 as (_ & Hp & _).
  destruct Hp as [Hi _|Hi _ _ _|Hi _ _ _ _|k' Hi _ _ _ _ _]; rewrite Hi in Hr3; cbn in Hr3; [lia..|done].
Qed.
End whole.

(** The frame comes with the first read. *)
Lemma whole_read f more fi s :
  framed f = true -> ready s -> err_ok fi -> at_start fi -> ibuf fi = [] ->
  avail s = encode f ++ more -> (length (encode f) <= 4096)%nat ->
  exists fi' s' l, exec (wslay_frame_recv fi) s =
      Ok (s', l, (fi', inr (piece f 0 (length (f_payload f))))) /\
    at_start fi' /\ err_ok fi' /\ reads l /\ (exists m, s' = at_pos m s) /\ ready s' /\
    ibuf fi' ++ avail s' = more.
Proof.
  intros Hf Hs He [Hst Hq] Hnil Ha Hlen.
  assert (length (encode f) >= 2)%nat as H2 by (unfold encode, f_header; cbn; lia).
  destruct (exec_wslay_recv fi s Hs He) as (f1 & s1 & l & r & E & Ht & Hl & Hr); [rewrite Hnil; cbn; lia|].
  destruct Ht as (Hm & Hs1 & Eq & [e He1] & Hok). rewrite Hnil, Ha in Eq. cbn [app] in Eq.
  assert (istate f1 = RECV_HEADER1 /\ ireqread f1 = 2) as [Hst1 Hq1] by (rewrite He1; done).
  assert (0 < r /\ (length (encode f) <= length (ibuf f1))%nat) as [Hr0 Hle].
  { pose proof (f_equal length Eq) as El. rewrite !length_app in El.
    destruct Hr as [(Ha' & _ & Hi)|(Hr & _ & [Ha'|Hl'])]; [|split; [done|]..].
    - rewrite Ha', Hi, Hnil in El. cbn [length] in El. lia.
    - rewrite Ha' in El. cbn [length] in El. lia.
    - lia. }
  set (more1 := drop (length (encode f)) (ibuf f1)).
  assert (ibuf f1 = encode f ++ more1 /\ more1 ++ avail s1 = more) as [Hb1 Hmore].
  { rewrite <- (take_drop (length (encode f)) (ibuf f1)) in Eq at 1. fold more1 in Eq.
    rewrite <- (assoc_L (++)) in Eq. apply app_inj_1 in Eq as [Et Ed]; [|rewrite length_take; lia].
    split; [|done]. rewrite <- Et at 1. subst more1. by rewrite take_drop. }
  destruct (whole_loaded f more1 Hf s1 f1 0) as (fi' & Ew & Hst' & Hb' & He').
  { split; [done|]. split; [by apply at_header|]. split; [exact Hb1|lia]. }
  exists fi', s1, l. split; [|split_and!; try done; by rewrite Hb'].
  unfold wslay_frame_recv, or_return at 1. unfold wslay_frame_recv, or_return at 1 in Ew.
  rewrite exec_bind in Ew |- *.
  assert (zlen (ibuf f1) <? ireqread f1 = false) as Hlt by (rewrite Hq1; unfold zlen; lia).
  assert (exec (stage RECV_HEADER1 recv_header1 f1) s1 = Ok (s1, [], recv_header1 f1)) as E1.
  { unfold stage. destruct (decide _) as [_|]; [|done]. unfold await_ireqread. by rewrite Hlt. }
  assert (exec (stage RECV_HEADER1 recv_header1 fi) s = Ok (s1, l ++ [], recv_header1 f1)) as E2.
  { unfold stage. destruct (decide _) as [_|]; [|done]. apply (exec_then _ _ _ s1 l (f1, None)); [|done].
    unfold await_ireqread. rewrite Hq, Hnil. change (zlen (@nil Z) <? 2) with true. cbv iota.
    rewrite exec_bind, E. cbn [mbind outcome_bind]. destruct (Z.leb_spec r 0); [lia|].
    rewrite Hlt. cbn. by rewrite app_nil_r. }
  rewrite E1 in Ew. rewrite E2. cbn [mbind outcome_bind] in Ew |- *.
  destruct (exec _ s1) as [[[s2 l2] b]| | |]; try done. injection Ew as -> -> ->. cbn. by rewrite !app_nil_r.
Qed.

(** ** A Close *)

(** What a Close may carry: nothing, or a status code and a text. *)
Definition closing (code : Z) (reason : bytes) : Prop :=
  code = 0 /\ reason = [] \/
  wslay_event_is_valid_status_code code = true /\ utf8_valid reason /\ zlen reason <= 123.

Definition close_frame (key : bytes) (code : Z) (reason : bytes) : ws_frame :=
  wsFrame true WSLAY_CONNECTION_CLOSE key (close_payload code reason).

Lemma close_payload_length code reason : zlen (close_payload code reason) <= 2 + zlen reason.
Proof.
  unfold close_payload. pose proof (zlen_nonneg reason).
  destruct (code =? 0); [unfold zlen in *; cbn in *; lia|]. rewrite zlen_app. unfold zlen. cbn. lia.
Qed.

Lemma close_framed key code reason :
  length key = 4%nat -> closing code reason -> framed (close_frame key code reason) = true.
Proof.
  intros Hk Hc. unfold framed, f_len. change (f_data (close_frame key code reason)) with false.
  cbn [f_key f_opcode f_fin f_payload close_frame]. rewrite Hk.
  change (is_control WSLAY_CONNECTION_CLOSE) with true. cbn [Nat.eqb andb]. pose proof (close_payload_length code reason).
  destruct Hc as [[-> ->]|(_ & _ & ?)]; [done|lia].
Qed.

Lemma close_code code :
  wslay_event_is_valid_status_code code = true ->
  1000 <= code < 5000 /\ (Z.shiftr code 8 mod 256) * 256 + code mod 256 = code.
Proof.
  unfold wslay_event_is_valid_status_code. intros H. assert (1000 <= code < 5000) by lia. split; [done|].
  rewrite Z.shiftr_div_pow2 by lia. zlia.
Qed.

(** What the message of a Close holds. *)
Definition close_msg (P : bytes) : option bytes := match P with [] => None | _ => Some P end.

Lemma close_completes code reason c :
  closing code reason ->
  close_complete (close_msg (close_payload code reason)) c =
    (mkCtx (no_buffering c)
       (set_read_enabled false (set_received (if code =? 0 then WSLAY_CODE_NO_STATUS_RCVD else code) (ein c)))
       (fst (wslay_event_queue_close code reason (eout c))), inl code).
Proof.
  intros Hc. assert (zlen reason <= 123) as Hlen by (destruct Hc as [[_ ->]|(_ & _ & ?)]; done).
  assert (forall i, wslay_event_queue_close_wrapper code reason (mkCtx (no_buffering c) i (eout c)) =
    (mkCtx (no_buffering c) (set_read_enabled false i) (fst (wslay_event_queue_close code reason (eout c))), 0)) as Hw.
  { intros i. destruct (queue_close_wrapper_spec code reason (mkCtx (no_buffering c) i (eout c)))
      as (o & rc & -> & -> & [-> |[_ H]]); [done|lia]. }
  destruct Hc as [[-> ->]|(Hv & _ & _)].
  - cbn [close_payload Z.eqb close_msg close_complete]. unfold set_ein. by rewrite Hw.
  - destruct (close_code _ Hv) as [Hr Ec]. unfold close_payload.
    destruct (Z.eqb_spec code 0) as [|_]; [lia|]. cbn [app close_msg close_complete]. rewrite Ec, Hv.
    unfold set_ein at 1. rewrite Hw. destruct (Z.eqb_spec code 0); [lia|done].
Qed.

(** The event of a Close. *)
Lemma close_event code reason :
  closing code reason ->
  control_events (msg_recv_cb WSLAY_CONNECTION_CLOSE code (close_msg (close_payload code reason)) Shared_default)
  = [EvClose code reason].
Proof.
  intros [[-> ->]|(Hv & _ & _)]; [done|]. destruct (close_code _ Hv) as [Hr Ec]. unfold close_payload.
  destruct (Z.eqb_spec code 0) as [|_]; [lia|]. unfold msg_recv_cb. cbn [Z.eqb WSLAY_CONNECTION_CLOSE Pos.eqb close_msg app].
  rewrite !zlen_cons. pose proof (zlen_nonneg reason).
  destruct (Z.leb_spec 2 (1 + (1 + zlen reason))); [done|lia].
Qed.

Lemma close_validates code reason : closing code reason -> validate 0 (drop 2 (close_payload code reason)) = 0.
Proof.
  intros [[-> ->]|(Hv & Hu & _)]; [done|]. unfold close_payload. destruct (code =? 0); [done|].
  cbn [app drop]. by apply validate_valid.
Qed.

Lemma control_begins_close open key code reason n c :
  closing code reason -> no_buffering c = true -> boundary open (ein c) -> length key = 4%nat ->
  let f := close_frame key code reason in
  exists c1, frame_received (piece f 0 n) c = FrameStart WSLAY_CONNECTION_CLOSE (frame_data (piece f 0 n) c1) /\
    no_buffering c1 = true /\ midway open f 0 (ein c1) /\ eout c1 = eout c /\
    frame_ctx_in (ein c1) = frame_ctx_in (ein c).
Proof. intros Hc Hnb Hb Hk f. by apply control_begins; [apply close_framed|..]. Qed.

(** A Close between two frames is answered, and nothing is read after it. *)
Lemma close_received_whole open key code reason c :
  boundary open (ein c) -> no_buffering c = true -> closing code reason -> length key = 4%nat ->
  let p := frame_received (piece (close_frame key code reason) 0 (length (close_payload code reason))) c in
  exists c', quiet_result p = Some (c', Continue) /\
    quiet_calls p = [CFrameStart WSLAY_CONNECTION_CLOSE; CFrameChunk (close_payload code reason)] /\
    quiet_events p = [EvClose code reason] /\
    read_enabled (ein c') = false /\ close_received (ein c') = true /\
    eout c' = fst (wslay_event_queue_close code reason (eout c)).
Proof.
  intros Hb Hnb Hc Hk p. subst p.
  destruct (control_begins_close open key code reason (length (close_payload code reason)) c Hc Hnb Hb Hk)
    as (c1 & -> & Hnb1 & Hm & Ho & _).
  set (f := close_frame key code reason) in *. set (P := close_payload code reason).
  set (io := piece f 0 (length P)).
  assert (io_data io = P) as Hio by (cbn; apply take_ge; done).
  assert (wslay_is_ctrl_frame (io_opcode io) = true) as Hctl by done.
  clear Hb. destruct c1 as [nb i o]. cbn in Hnb1. subst nb. cbn in Ho. subst o.
  destruct Hm as (fr & m0 & m1 & sc & Ei & Hm). cbn in Ei. subst i.
  set (m' := mkImsg 1 0 WSLAY_CONNECTION_CLOSE UTF8_ACCEPT P (f_len f)).
  set (c2 := mkCtx true (mkEventIn fr true (if open then m0 else m') (if open then m' else m1) open
    (f_len f) (f_len f) sc false) (eout c)).
  assert (imsg (ein c2) = m') as Him by (subst c2; by destruct open).
  match goal with |- context [frame_data io ?x] => set (c0 := x) end.
  assert (imsg (ein c0) = mkImsg 1 0 WSLAY_CONNECTION_CLOSE UTF8_ACCEPT [] (f_len f)) as Hi0
    by (subst c0; destruct open; cbn; apply Hm).
  assert (validate_chunk io (ein c0) = ein c0) as Hv.
  { unfold validate_chunk. rewrite Hi0, Hio. cbn [rsv opcode utf8state].
    change (WSLAY_CONNECTION_CLOSE =? WSLAY_CONNECTION_CLOSE) with true. rewrite orb_true_r.
    change UTF8_ACCEPT with 0. subst P. rewrite (close_validates _ _ Hc).
    subst c0. unfold set_imsg. cbn. destruct open; cbn; destruct Hm as [? ?]; by subst. }
  assert (store_chunk io c0 = c2) as Hst.
  { unfold store_chunk. rewrite Hi0, Hio. unfold buffers. rewrite Hctl.
    subst c0 c2. unfold set_imsg, set_e_ipayload. cbn. destruct open; cbn; destruct Hm as [? ?]; by subst. }
  assert (frame_data io c0 = FrameChunk P (frame_end io c2)) as ->.
  { unfold frame_data. rewrite Hv, Hio. change (set_ein (ein c0) c0) with c0. rewrite Hi0.
    change (utf8state _ =? UTF8_REJECT) with false. cbn iota zeta. rewrite Hst.
    change (e_ipayloadoff (ein c2) =? e_ipayloadlen (ein c2)) with (f_len f =? f_len f). by rewrite Z.eqb_refl. }
  cbn [quiet_result quiet_calls quiet_events]. unfold frame_end. rewrite Him. cbn [fin opcode utf8state m' Z.eqb negb andb].
  change (UTF8_ACCEPT =? UTF8_ACCEPT) with true. rewrite andb_false_r.
  unfold message_complete. rewrite Him.
  match goal with |- context [if buffers c2 (io_opcode io) && _ then ?x else ?y] =>
    assert (exists c3, (if buffers c2 (io_opcode io) && negb (msg_length m' =? 0) then x else y) = (close_msg P, c3) /\
      eout c3 = eout c) as (c3 & -> & Ho3) end.
  { unfold buffers. rewrite Hctl, orb_true_r. cbn [andb m' msg_length chunks].
    change (f_len f) with (zlen P). destruct P as [|x P']; [by eexists|]. rewrite zlen_cons.
    pose proof (zlen_nonneg P'). destruct (Z.eqb_spec (1 + zlen P') 0); [lia|]. by eexists. }
  cbn [m' opcode]. change (WSLAY_CONNECTION_CLOSE =? WSLAY_CONNECTION_CLOSE) with true. cbv iota.
  subst P. rewrite (close_completes code reason c3 Hc). rewrite Ho3. cbn [quiet_result quiet_calls quiet_events].
  eexists. split; [reflexivity|]. split; [done|]. rewrite (close_event _ _ Hc). split; [done|].
  unfold next_frame, set_imsg. cbn. by destruct (on_imsgs1 (ein c3)).
Qed.

(** [wslay_event_recv] between two frames, when a Close is what comes next. *)
Lemma recv_close open key code reason more c s :
  boundary open (ein c) -> no_buffering c = true -> ready s -> err_ok (frame_ctx_in (ein c)) ->
  at_start (frame_ctx_in (ein c)) -> ibuf (frame_ctx_in (ein c)) = [] ->
  closing code reason -> length key = 4%nat -> avail s = encode (close_frame key code reason) ++ more ->
  exists s' l c', exec (wslay_event_recv c) s = Ok (s', l, (c', 0)) /\
    close_received (ein c') = true /\
    eout c' = fst (wslay_event_queue_close code reason (eout c)) /\
    control_events s' = control_events s ++ [EvClose code reason] /\ to_peer s' = to_peer s.
Proof.
  intros Hb Hnb Hs He Hst Hnil Hc Hk Ha. pose proof (close_framed key code reason Hk Hc) as Hf.
  set (f := close_frame key code reason) in *.
  assert (length (encode f) <= 4096)%nat as Hlen.
  { rewrite encode_length by done. destruct (framed_opcode _ Hf) as [(? & _)|(_ & _ & _ & Hl)]; [done|].
    unfold prologue. assert (ext_length (f_len f) = []) as ->.
    { unfold ext_length. by destruct (Z.ltb_spec (f_len f) 126); [|lia]. }
    unfold f_len, zlen in *. cbn [length]. lia. }
  destruct (whole_read f more _ s Hf Hs He Hst Hnil Ha Hlen) as (fi & s1 & l & E & _ & _ & Hl & [m ->] & Hs1 & _).
  destruct (close_received_whole open key code reason (set_ein (set_frame_in fi (ein c)) c)
    (boundary_frame _ _ _ Hb) Hnb Hc Hk) as (c' & Hres & Hcalls & Hev & Hr & Hcr & Ho).
  destruct (recv_once_goes c _ _ _ _ _ _ _ E Hres) as (s' & Ex & I1 & I2 & I3 & I4).
  destruct (exec_passes (recv_once c) s Hs) as (s2 & l2 & a2 & E2 & Hp). rewrite Ex in E2. injection E2 as <- <- <-.
  exists s', ((l ++ [CFrameStart WSLAY_CONNECTION_CLOSE; CFrameChunk (close_payload code reason)]) ++ []), c'.
  split; [|split; [exact Hcr|split; [exact Ho|split]]].
  - unfold wslay_event_recv. assert (exists n, RECV_FUEL = S n) as [n ->].
    { exists (Nat.pred RECV_FUEL). unfold RECV_FUEL, READ_CHUNK. lia. }
    cbn [recv_loop]. destruct Hb as (? & ? & ? & ? & -> & _). cbn [read_enabled].
    rewrite <- Hcalls. apply (exec_then _ _ _ _ _ _ _ _ _ Ex). destruct n; cbn [recv_loop]; by rewrite Hr.
  - exact (eq_trans I4 (f_equal (app _) Hev)).
  - destruct Hp as (_ & _ & _ & _ & -> & _). change (f_payload f) with (close_payload code reason). subst f.
    rewrite payload_app, (reads_payload _ _ Hl), (reads_cur _ _ Hl).
    match goal with |- context [payload _ ?q] => replace q with
      [CFrameStart WSLAY_CONNECTION_CLOSE; CFrameChunk (close_payload code reason)] by (symmetry; exact Hcalls) end.
    cbn. by rewrite app_nil_r.
Qed.

Lemma utf8_automaton_exact_witness :
  validate_chunks [[240; 159]; [152]; [128; 65]] = UTF8_ACCEPT <->
  utf8_valid (concat [[240; 159]; [152]; [128; 65]]).
Proof. apply (utf8_automaton_exact [[240; 159]; [152]; [128; 65]]). repeat constructor; discriminate. Defined.
