(* ===== verification/Tunnel.v ===== *)
(** * Tunnel: the bridge over its wslay

    The bridge of Bridge.v with the wslay of WslayC.v, in any interleaving of its
    directions: what of the client's frames reaches the peer, and which frames carry
    what the peer sends. *)

From S2P Require Import Prelude Utf8 Bridge BridgeFacts WslayC WslayFacts WslayStream WslaySend.

(** ** What a step does to wslay, for every wslay *)

Section ledger.
Context {Ctx : Type} `{WS : Wslay Ctx} {IoError : Type} (error_text : IoError -> bytes).
Variable config : BridgeConfig.

Notation state := (@t Ctx IoError).

(** The part of the state that only the sections change. *)
Record ledger := mkLedger {
  l_core : core Ctx;
  l_in : bytes;  (* read from the socket *)
  l_peer : bytes;  (* read from the peer *)
  l_taken : list (dir * bytes);  (* the blocks taken for the socket *)
}.

Definition out_of (l : list (dir * bytes)) : bytes := concat (snd <$> l).
#[local] Arguments out_of : simpl never.

Definition ledger_of (s : state) : ledger :=
  mkLedger (wslay s) (ws_in s) (peer_in s) (taken s).

(** The messages that are not the peer's data. *)
Definition control_queue (k : core Ctx -> core Ctx) : Prop :=
  (exists op p, k = queue_msg op p /\ (op = WSLAY_PING \/ op = WSLAY_PONG)) \/
  (exists code reason, k = queue_close code reason).

(** A section.  Of directions 2 to 4, and the close after a failed peer write. *)
Inductive section : ledger -> ledger -> Prop :=
  | sec_feed c i p tk data c' tp block closed evs :
      data <> [] -> zlen data <= READ_CHUNK -> feed data c = Ok (c', tp, block, closed, evs) ->
      section (mkLedger c i p tk) (mkLedger c' (i ++ data) p (tk ++ [(WsToPeer, block)]))
  | sec_data c i p tk data c' block :
      data <> [] -> zlen data <= READ_CHUNK -> flush (queue_msg WSLAY_BINARY_FRAME data) c = Ok (c', block) ->
      section (mkLedger c i p tk) (mkLedger c' i (p ++ data) (tk ++ [(PeerToWs, block)]))
  | sec_control c i p tk d k c' block :
      control_queue k -> flush k c = Ok (c', block) ->
      d <> WsToPeer \/ (exists code reason, k = queue_close code reason) ->
      section (mkLedger c i p tk) (mkLedger c' i p (tk ++ [(d, block)])).

Lemma mine_dir1 block : mine [(WsToPeer, block)] = block.
Proof. unfold mine. rewrite filter_cons_True by done. apply app_nil_r. Qed.
Lemma mine_other d block : d <> WsToPeer -> mine [(d, block)] = [].
Proof. intros Hd. unfold mine. by rewrite filter_cons_False. Qed.

Lemma after_write_ledger d r (s : state) :
  ledger_of (after_write error_text config d r s) = ledger_of s.
Proof.
  unfold after_write, finish.
  destruct d; [destruct (d1 s)|destruct (d2 s)|destruct (d3 s)|destruct (d4 s), (keepalive config)];
    try done; destruct r; try done; by destruct closed.
Qed.

Lemma write_ws_ledger d block (s : state) :
  ledger_of (write_ws error_text config d block s) = ledger_of s.
Proof. destruct block; [apply after_write_ledger|done]. Qed.

Lemma after_peer_write_ledger outbound closed evs (s : state) :
  ledger_of (after_peer_write error_text config outbound closed evs s) = ledger_of s.
Proof.
  unfold after_peer_write. destruct (on_events_hooks config evs s None) as (h & pc & ->).
  by rewrite write_ws_ledger.
Qed.

(** Nothing changes, or a section is run. *)
Definition moves (s s' : state) : Prop :=
  ledger_of s' = ledger_of s \/ section (ledger_of s) (ledger_of s').

Lemma control_section d k f (s s' : state) :
  control_queue k -> d <> WsToPeer \/ (exists code reason, k = queue_close code reason) ->
  (forall s1, ledger_of (f s1) = ledger_of s1) ->
  ('(s1, block) ← flush_as d k s; Ok (write_ws error_text config d block (f s1))) = Ok s' ->
  section (ledger_of s) (ledger_of s').
Proof.
  intros Hk Hd Hf. unfold flush_as. destruct (flush k (wslay s)) as [[c block]| | |] eqn:E; cbn; try done.
  intros [= <-]. rewrite write_ws_ledger, Hf. by eapply sec_control.
Qed.

Lemma ka_check_moves ka (s s' : state) :
  ka_check error_text config ka s = Ok s' -> moves s s'.
Proof.
  unfold ka_check. destruct (_ <? _); [by intros [= <-]; left|]. intros H. right.
  eapply (control_section KeepAliveDir _ (set_d4 D4PingWrite)); [|by left|done|exact H].
  left. eexists _, _. split; [done|by left].
Qed.

Lemma ws_read_moves r (s s' : state) :
  read_fits r = true -> ws_read error_text config r s = Ok s' -> moves s s'.
Proof.
  intros Hfit. destruct r as [e|[|x data]]; cbn [ws_read]; try (intros [= <-]; by left).
  destruct (feed (x :: data) _) as [[[[[c tp] block] closed] evs]| | |] eqn:E; try done. cbn [mbind outcome_bind].
  set (s1 := set_history _ _ _ _ _). intros Hs. right.
  assert (ledger_of s' = ledger_of s1) as ->.
  { destruct tp; injection Hs as <-; [apply after_peer_write_ledger|done]. }
  subst s1. eapply sec_feed; [done| |exact E].
  unfold read_fits in Hfit. lia.
Qed.

Lemma peer_read_moves r (s s' : state) :
  read_fits r = true -> peer_read error_text config r s = Ok s' -> section (ledger_of s) (ledger_of s').
Proof.
  intros Hfit. destruct r as [e|[|x data]]; cbn [peer_read].
  - eapply (control_section PeerToWs _ (set_d2 _)); [|by left|done]. right. by eexists _, _.
  - eapply (control_section PeerToWs _ (set_d2 _)); [|by left|done]. right. by eexists _, _.
  - unfold flush_as. cbn [wslay set_history].
    destruct (flush _ (wslay s)) as [[c block]| | |] eqn:E; cbn; try done.
    intros [= <-]. rewrite write_ws_ledger. eapply sec_data; [done| |exact E]. unfold read_fits in Hfit. lia.
Qed.

Lemma step_moves e (s s' : state) : step error_text config e s = Ok s' -> moves s s'.
Proof.
  unfold step. destruct (ended s); [by intros [= <-]; left|].
  destruct e as [d|r|r| |r|cmd| | |r].
  - intros [= <-]. by left.
  - destruct (d1 s); try (intros [= <-]; by left). destruct (read_fits r) eqn:Hfit; [|intros [= <-]; by left].
    by apply ws_read_moves.
  - destruct (d1 s); try (intros [= <-]; by left). destruct r as [e|[]]; cbn [peer_wrote]; intros H.
    + right. eapply (control_section _ _
        (fun s1 => set_d1 D1ErrWrite (set_history (ws_in s1) (peer_in s1) (taken s1) true s1))); [| |done|exact H];
        right; by eexists _, _.
    + injection H as <-. left. by rewrite after_peer_write_ledger.
  - destruct (d1 s); intros [= <-]; by left.
  - destruct (d2 s); try (intros [= <-]; by left). destruct (read_fits r) eqn:Hfit; [|intros [= <-]; by left].
    intros H. right. by eapply peer_read_moves.
  - destruct (d3 s); try (intros [= <-]; by left). intros H. right.
    eapply (control_section ControlDir _ (set_d3 _)); [|by left|done|exact H].
    destruct cmd; [left|left|right]; eexists _, _; (split; [done|]) || done; auto.
  - destruct (d3 s); intros [= <-]; by left.
  - destruct (keepalive config) as [ka|]; [|intros [= <-]; by left]. unfold ka_timer.
    destruct (d4 s) as [|u| |pa u|]; try (intros [= <-]; by left).
    + destruct (u <=? now s); [apply ka_check_moves|intros [= <-]; by left].
    + destruct (u <=? now s); [|intros [= <-]; by left].
      destruct (_ <=? _); [|apply ka_check_moves]. intros H. right.
      eapply (control_section KeepAliveDir _ (set_d4 _)); [|by left|done|exact H]. right. by eexists _, _.
  - destruct (lock s) as [|[d block] rest]; intros [= <-]; left; [done|]. by rewrite after_write_ledger.
Qed.

(** What holds at the start and through every section holds in every run. *)
Lemma run_ledger (P : ledger -> Prop) es s0 s :
  (forall c, server_init = Some c -> P (mkLedger (mkCore (set_no_buffering c) Shared_default []) [] [] [])) ->
  (forall l l', P l -> section l l' -> P l') ->
  start error_text config = Ok s0 -> run_from error_text config es s0 = Ok s -> P (ledger_of s).
Proof.
  intros H0 HP Hs Hr.
  assert (forall s s', P (ledger_of s) -> moves s s' -> P (ledger_of s')) as Hm.
  { intros s1 s2 H1 [->|H2]; [done|by eapply HP]. }
  assert (P (ledger_of s0)) as Hs0.
  { unfold start in Hs. destruct server_init as [c|]; [|done]. fold (initial (IoError := IoError) config c) in Hs.
    assert (P (ledger_of (initial (IoError := IoError) config c))) as Hi by (by apply H0).
    destruct (keepalive config) as [ka|]; [|by injection Hs as <-].
    eapply Hm; [exact Hi|]. by eapply ka_check_moves. }
  clear Hs H0. revert s0 Hs0 Hr. induction es as [|e es IH]; intros s0 Hs0 Hr; [by injection Hr as <-|].
  cbn [run_from] in Hr. apply bind_Ok in Hr as (s1 & E & Hr). eapply (IH s1); [|exact Hr].
  eapply Hm; [exact Hs0|]. by eapply step_moves.
Qed.
End ledger.

(** ** Down the tunnel: what is sent to the client *)

Notation wcore := (core wslay_event_context).
Notation wledger := (@ledger wslay_event_context).

Definition binary_of (ms : list wslay_event_omsg) : bytes :=
  concat (o_data <$> filter (fun m => o_opcode m = WSLAY_BINARY_FRAME) ms).

Definition outgoing (m : wslay_event_omsg) : Prop :=
  sendable m /\ (o_opcode m = WSLAY_BINARY_FRAME \/ is_control (o_opcode m) = true).

(** The messages [ms] sent: the peer's data is in the binary ones, all of it as long as
    wslay sends ([open]); a Close is the last. *)
Definition carries (open : bool) (peer : bytes) (ms : list wslay_event_omsg) : Prop :=
  Forall outgoing ms /\ binary_of ms `prefix_of` peer /\
  if open then binary_of ms = peer /\ Forall (fun m => is_close m = false) ms
  else exists ms0 m, ms = ms0 ++ [m] /\ Forall (fun m => is_close m = false) ms0 /\ is_close m = true.

(** Blocks of whole frames. *)
Notation blocks := (list (dir * list wslay_event_omsg)).
Definition block_bytes (b : dir * list wslay_event_omsg) : dir * bytes := (fst b, frames (snd b)).
Definition messages (bs : blocks) : list wslay_event_omsg := concat (snd <$> bs).

Lemma messages_app b1 b2 : messages (b1 ++ b2) = messages b1 ++ messages b2.
Proof. unfold messages. by rewrite fmap_app, concat_app. Qed.

Lemma messages_snoc bs d ms : messages (bs ++ [(d, ms)]) = messages bs ++ ms.
Proof. rewrite messages_app. unfold messages at 2. cbn. by rewrite app_nil_r. Qed.

Lemma out_blocks bs : out_of (block_bytes <$> bs) = frames (messages bs).
Proof.
  induction bs as [|b bs IH]; [done|]. unfold out_of, messages in *. cbn [fmap list_fmap concat].
  by rewrite IH, frames_app.
Qed.

Lemma binary_of_app l1 l2 : binary_of (l1 ++ l2) = binary_of l1 ++ binary_of l2.
Proof. unfold binary_of. by rewrite filter_app, fmap_app, concat_app. Qed.

Lemma binary_of_control ms :
  Forall (fun m => sendable m /\ is_control (o_opcode m) = true) ms -> binary_of ms = [].
Proof.
  induction 1 as [|m ms [_ Hm] _ IH]; [done|]. unfold binary_of in *. rewrite filter_cons_False; [done|].
  intros E. by rewrite E in Hm.
Qed.

Lemma outgoing_control ms :
  Forall (fun m => sendable m /\ is_control (o_opcode m) = true) ms -> Forall outgoing ms.
Proof. intros H. eapply Forall_impl; [exact H|]. intros m [? ?]. split; auto. Qed.

Lemma carries_more peer ms new data :
  carries true peer ms -> Forall outgoing new -> Forall (fun m => is_close m = false) new ->
  binary_of new = data -> carries true (peer ++ data) (ms ++ new).
Proof.
  intros (H1 & H2 & H3 & H4) Hn Hc <-. unfold carries. rewrite binary_of_app, H3.
  by split_and!; [apply Forall_app_2| | |apply Forall_app_2].
Qed.

Lemma carries_close peer ms m data :
  carries true peer ms -> outgoing m -> is_close m = true -> carries false (peer ++ data) (ms ++ [m]).
Proof.
  intros (H1 & H2 & H3 & H4) Hm Hc.
  assert (binary_of [m] = []) as Hb.
  { apply binary_of_control, Forall_singleton. split; [apply Hm|].
    unfold is_close in Hc. apply Z.eqb_eq in Hc. by rewrite Hc. }
  unfold carries. rewrite binary_of_app, Hb, app_nil_r, H3. split_and!.
  - apply Forall_app_2; [done|]. by apply Forall_singleton.
  - by exists data.
  - by exists ms, m.
Qed.

Lemma carries_shut peer ms data : carries false peer ms -> carries false (peer ++ data) ms.
Proof. intros (H1 & H2 & H3). split; [done|]. split; [|done]. by apply prefix_app_r. Qed.

(** The state of wslay between two sections. *)
Record settled_core (c : wcore) : Prop := {
  sc_sender : sender (eout (ctx c));
  sc_empty : outbound (shared c) = [];
  sc_idle : write_enabled (eout (ctx c)) = true ->
    send_queue (eout (ctx c)) = [] /\ send_ctrl_queue (eout (ctx c)) = [] /\ close_queued (eout (ctx c)) = false;
  sc_queue : send_queue (eout (ctx c)) = [];
  sc_ready : inbound_pos (shared c) = 0%nat;
  sc_peer : to_peer (shared c) = [];
  sc_events : control_events (shared c) = [];
  sc_drained : drained (ctx c) (shared c);
}.

(** [wslay_event_send] on a sender. *)
Lemma run_send (c : wcore) :
  sender (eout (ctx c)) ->
  exists o' l, run_wslay event_send c =
      Ok (mkCore (set_eout o' (ctx c)) (push (frames (emitted (eout (ctx c)))) (shared c)) (calls c ++ l), 0) /\
    sends l /\ sender o' /\
    write_enabled o' = write_enabled (eout (ctx c)) && negb (close_queued (eout (ctx c))) /\
    close_queued o' = close_queued (eout (ctx c)) /\
    (write_enabled o' = true -> send_queue o' = [] /\ send_ctrl_queue o' = []) /\
    (send_queue (eout (ctx c)) = [] -> send_queue o' = []).
Proof.
  intros Hs. destruct (send_loop_spec (pending (eout (ctx c))) (error (frame_ctx_in (ein (ctx c))))
    (eout (ctx c)) (shared c) Hs ltac:(done)) as (l & o' & E & Hl & H1 & H2 & H3 & H4 & H5).
  destruct (exec_only_sends _ (shared c) (send_loop_only_sends (pending (eout (ctx c)))
    (error (frame_ctx_in (ein (ctx c)))) (eout (ctx c)))) as (l' & a' & E' & Hl').
  rewrite E in E'. injection E' as E1 <- <-. exists o', l. split; [|by split_and!].
  unfold run_wslay. cbn [event_send wslay_c]. unfold wslay_event_send. rewrite exec_bind, E.
  cbn. by rewrite app_nil_r.
Qed.

(** A section that queues, sends and takes. *)
Lemma flush_settled k (c : wcore) :
  settled_core c -> let o1 := eout (ctx (k c)) in
  shared (k c) = shared c -> ein (ctx (k c)) = ein (ctx c) -> no_buffering (ctx (k c)) = no_buffering (ctx c) ->
  sender o1 -> send_queue o1 = [] \/ write_enabled o1 = true /\ close_queued o1 = false ->
  exists c', flush k c = Ok (c', frames (emitted o1)) /\ settled_core c' /\
    ein (ctx c') = ein (ctx c) /\ no_buffering (ctx c') = no_buffering (ctx c) /\ shared c' = shared c /\
    write_enabled (eout (ctx c')) = write_enabled o1 && negb (close_queued o1) /\
    exists l, calls c' = calls (k c) ++ l /\ sends l.
Proof.
  intros Hc o1 Hsh Hein Hnb Hs Hq. subst o1. destruct (run_send (k c) Hs) as (o' & l & E & Hl & H1 & H2 & H3 & H4 & H5).
  unfold flush. rewrite E. cbn [mbind outcome_bind].
  destruct Hc as [C1 C2 C3 C4 C5 C7 C8 C6].
  exists (mkCore (set_eout o' (ctx (k c))) (shared c) (calls (k c) ++ l)). split.
  { unfold take_outbound, push. cbn [shared outbound ctx calls]. rewrite Hsh, C2.
    destruct (shared c). cbn in *. by subst. }
  cbn [ctx eout set_eout ein no_buffering calls shared].
  split; [|split_and!; try done; by exists l]. split; cbn; try done.
  - intros Hw. rewrite H2 in Hw. apply andb_true_iff in Hw as [Hw Hcq]. apply negb_true_iff in Hcq.
    destruct (H4 ltac:(by rewrite H2, Hw, Hcq)). by rewrite H3.
  - destruct Hq as [Hq|[Hw Hcq]]; [by apply H5|]. apply H4. by rewrite H2, Hw, Hcq.
  - intros Hr. cbn in *. rewrite Hein in *. by apply C6.
Qed.

(** The section of direction 1, in its parts. *)
Lemma feed_settled data (c : wcore) :
  settled_core c -> zlen data <= READ_CHUNK ->
  let s0 := mkShared (inbound (shared c) ++ data) (inbound_pos (shared c)) (outbound (shared c))
    (to_peer (shared c)) (cur_is_data (shared c)) (control_events (shared c)) in
  exists s1 l1 c1 rc c', exec (wslay_event_recv (ctx c)) s0 = Ok (s1, l1, (c1, rc)) /\
    rc <> OUT_OF_FUEL /\ answered (eout (ctx c)) (eout c1) /\ sender (eout c1) /\ send_queue (eout c1) = [] /\
    write_enabled (eout c1) = write_enabled (eout (ctx c)) /\
    feed data c = Ok (c', to_peer s1, frames (emitted (eout c1)),
      negb (rc =? 0) || close_received (ein c1), control_events s1) /\
    settled_core c' /\ ein (ctx c') = ein c1 /\ no_buffering (ctx c') = no_buffering c1 /\
    shared c' = mkShared (avail s1) 0 [] [] (cur_is_data s1) [] /\
    write_enabled (eout (ctx c')) = write_enabled (eout c1) && negb (close_queued (eout c1)) /\
    (exists l2, calls c' = (calls c ++ l1) ++ l2 /\ sends l2) /\
    forall m, (RECV_FUEL <= m)%nat -> exec (recv_loop m (ctx c)) s0 = exec (recv_loop RECV_FUEL (ctx c)) s0.
Proof.
  intros Hc Hlen s0. pose proof Hc as [C1 C2 C3 C4 C5 C7 C8 C6].
  destruct (recv_loop_post RECV_FUEL (ctx c) s0) as (s1 & l1 & c1 & rc & E & Hs1 & Hrc & Hdr & Hob & Hans & Hfuel).
  { unfold ready. cbn. rewrite C5. lia. }
  { intros Hr. destruct (C6 Hr) as (Ha & Hb & Hi). split; [done|]. unfold room, avail, RECV_FUEL in *. cbn [inbound s0 inbound_pos].
    rewrite drop_app_le, Ha by (rewrite C5; lia). unfold zlen in *. cbn [app]. unfold READ_CHUNK in *. lia. }
  destruct (answered_sender _ _ Hans C1 C4) as (S1 & S2 & S3).
  destruct (run_send (mkCore c1 s1 (calls c ++ l1)) S1) as (o' & l2 & E2 & Hl2 & H1 & H2 & H3 & H4 & H5).
  assert (run_wslay event_recv (mkCore (ctx c) s0 (calls c)) = Ok (mkCore c1 s1 (calls c ++ l1), rc)) as Er.
  { unfold run_wslay. cbn [ctx shared calls]. change (event_recv (ctx c)) with (recv_loop RECV_FUEL (ctx c)).
    by rewrite E. }
  cbn [ctx shared calls] in *.
  exists s1, l1, c1, rc. eexists. split; [exact E|]. split; [done|]. split; [done|]. split; [done|].
  split; [done|]. split; [done|]. split.
  { unfold feed. fold s0. rewrite Er. cbn [mbind outcome_bind]. rewrite E2. cbn [mbind outcome_bind].
    unfold push. cbn [shared ctx outbound]. rewrite Hob. change (outbound s0) with (outbound (shared c)).
    rewrite C2. reflexivity. }
  cbn [ctx shared calls eout ein set_eout no_buffering]. split; [|split_and!; try done; by exists l2].
  split; cbn; try done; [|by auto].
  intros Hw. rewrite H2 in Hw. apply andb_true_iff in Hw as [Hw Hcq]. apply negb_true_iff in Hcq.
  destruct (H4 ltac:(by rewrite H2, Hw, Hcq)). by rewrite H3.
Qed.

Lemma settled_emitted (c : wcore) : settled_core c -> emitted (eout (ctx c)) = [].
Proof.
  intros [_ _ C3 _ _ _ _ _]. unfold emitted. destruct (write_enabled _); [|done].
  destruct (C3 eq_refl) as (-> & -> & ->). done.
Qed.

(** What is queued on a settled wslay. *)
Lemma control_ready k (c : wcore) :
  settled_core c -> control_queue k ->
  sender (eout (ctx (k c))) /\ send_queue (eout (ctx (k c))) = [] /\
  write_enabled (eout (ctx (k c))) = write_enabled (eout (ctx c)) /\ shared (k c) = shared c /\
  ein (ctx (k c)) = ein (ctx c) /\ no_buffering (ctx (k c)) = no_buffering (ctx c).
Proof.
  intros Hc [(op & q & -> & Hop)|(cd & rs & ->)]; cbn.
  - destruct (queue_msg_emitted op q (eout (ctx c)) (sc_sender _ Hc)) as (Q1 & Q2 & _ & Q4 & _);
      [tauto|by destruct Hop as [-> | ->]|left; apply (sc_queue _ Hc)|].
    split_and!; try done. rewrite Q4; [apply (sc_queue _ Hc)|by destruct Hop as [-> | ->]].
  - destruct (answered_sender _ _ (answered_close cd rs (eout (ctx c))) (sc_sender _ Hc) (sc_queue _ Hc))
      as (Q1 & Q2 & Q3). by split_and!.
Qed.

Lemma data_ready data (c : wcore) :
  settled_core c -> zlen data <= READ_CHUNK -> let o1 := eout (ctx (queue_msg WSLAY_BINARY_FRAME data c)) in
  let open := write_enabled (eout (ctx c)) in
  sender o1 /\ (send_queue o1 = [] \/ write_enabled o1 = true /\ close_queued o1 = false) /\
  write_enabled o1 && negb (close_queued o1) = open /\
  emitted o1 = if open then [mkOmsg WSLAY_BINARY_FRAME 0 data] else [].
Proof.
  intros Hc Hlen. cbn.
  destruct (queue_msg_emitted WSLAY_BINARY_FRAME data (eout (ctx c)) (sc_sender _ Hc)) as (Q1 & Q2 & Q3 & _ & Q5);
    [auto|unfold READ_CHUNK in *; intros _; lia|auto|].
  rewrite (settled_emitted _ Hc) in Q5. rewrite Q2, Q3, Q5. split; [done|].
  destruct (write_enabled (eout (ctx c))) eqn:Hw.
  - destruct (sc_idle _ Hc Hw) as (_ & _ & ->). split; [by right|done].
  - split; [left|done]. unfold wslay_event_queue_msg, wslay_event_is_msg_queueable. rewrite Hw.
    apply (sc_queue _ Hc).
Qed.

(** Control frames are sent. *)
Lemma carries_control o peer ms :
  sender o -> send_queue o = [] -> carries (write_enabled o) peer ms ->
  carries (write_enabled o && negb (close_queued o)) peer (ms ++ emitted o) /\ binary_of (emitted o) = [].
Proof.
  intros Hs Hq Hc. destruct (emitted_control o Hs Hq) as [He Hcl]. split; [|by apply binary_of_control].
  destruct (write_enabled o) eqn:Hw; cbn [andb].
  - specialize (Hcl eq_refl). destruct (close_queued o); cbn [negb].
    + destruct Hcl as (m & Em & Hm). rewrite Em in *. apply Forall_singleton in He as [Hsm Hctl].
      rewrite <- (app_nil_r peer). apply carries_close; [exact Hc|by split; [|right]|done].
    + rewrite <- (app_nil_r peer).
      by apply carries_more; [exact Hc|apply outgoing_control| |apply binary_of_control].
  - unfold emitted. rewrite Hw, app_nil_r. done.
Qed.

(** What holds of a ledger in every run: the blocks are whole frames, and only those of
    direction 2 hold data. *)
Definition outbox (l : wledger) : Prop :=
  settled_core (l_core l) /\
  exists bs, l_taken l = block_bytes <$> bs /\
    carries (write_enabled (eout (ctx (l_core l)))) (l_peer l) (messages bs) /\
    Forall (fun b => fst b <> PeerToWs -> binary_of (snd b) = []) bs.

(** A section whose block holds no data. *)
Lemma outbox_control bs c c' p d o :
  Forall (fun b => fst b <> PeerToWs -> binary_of (snd b) = []) bs ->
  carries (write_enabled (eout (ctx c))) p (messages bs) -> settled_core c' ->
  sender o -> send_queue o = [] -> write_enabled o = write_enabled (eout (ctx c)) ->
  write_enabled (eout (ctx c')) = write_enabled o && negb (close_queued o) ->
  forall i tk, tk = block_bytes <$> bs ->
  outbox (mkLedger c' i p (tk ++ [(d, frames (emitted o))])).
Proof.
  intros Hbs Hc Hc' Hs Hq Hw Hw' i tk ->. split; [done|]. exists (bs ++ [(d, emitted o)]).
  rewrite <- Hw in Hc. destruct (carries_control o p (messages bs) Hs Hq Hc) as [H1 H2].
  cbn [l_core l_taken l_peer]. rewrite fmap_app, messages_snoc, Hw'. split; [done|]. split; [done|].
  apply Forall_app_2; [done|]. by constructor.
Qed.

Lemma outbox_section l l' : outbox l -> section l l' -> outbox l'.
Proof.
  intros (Hc & bs & Etk & Hms & Hbs) Hs. destruct Hs as [c i p tk data c' tp block closed evs Hne Hlen E
    |c i p tk data c' block Hne Hlen E|c i p tk d k c' block Hk E _]; cbn [l_core l_taken l_peer] in *.
  - destruct (feed_settled data c Hc Hlen) as (s1 & l1 & c1 & rc & c2 & _ & _ & _ & S1 & S2 & S3 & E2 & Hc2 & _ & _ & _ & Hw & _).
    rewrite E in E2. injection E2 as <- _ -> _ _. by eapply outbox_control.
  - destruct (data_ready data c Hc Hlen) as (Q1 & Q2 & Q3 & Q4).
    destruct (flush_settled (queue_msg WSLAY_BINARY_FRAME data) c Hc) as (c2 & E2 & Hc2 & _ & _ & _ & Hw & _); try done.
    rewrite E, Q4 in E2. rewrite Q3 in Hw. injection E2 as <- ->. split; [done|].
    exists (bs ++ [(PeerToWs, if write_enabled (eout (ctx c)) then [mkOmsg WSLAY_BINARY_FRAME 0 data] else [])]).
    cbn [l_core l_taken l_peer]. rewrite fmap_app, messages_snoc, Hw, Etk. split; [done|].
    split; [|by apply Forall_app_2; [|constructor]]. destruct (write_enabled (eout (ctx c))).
    + apply carries_more; [exact Hms| | |]; [apply Forall_singleton|by apply Forall_singleton|].
      * split; [|by left]. split_and!; try done. cbn. unfold READ_CHUNK in *. lia.
      * unfold binary_of. rewrite filter_cons_True by done. exact (app_nil_r data).
    + rewrite app_nil_r. by apply carries_shut.
  - destruct (control_ready k c Hc Hk) as (K1 & K2 & K3 & K4 & K5 & K6).
    destruct (flush_settled k c Hc) as (c2 & E2 & Hc2 & _ & _ & _ & Hw & _); auto.
    rewrite E in E2. injection E2 as <- ->. by eapply outbox_control.
Qed.

(** ** Up the tunnel: what reaches the peer *)

Lemma conv_same open fs cc fut c c' s s' :
  conv open fs cc fut c s -> ein c' = ein c -> no_buffering c' = no_buffering c -> ready s' ->
  avail s' = avail s -> cur_is_data s' = cur_is_data s -> conv open fs cc fut c' s'.
Proof.
  intros [H1 H2 H3 H4 H5 H6] E1 E2 Hr E3 E4. split; rewrite ?E1, ?E2, ?E3; try done.
  destruct fs; by rewrite ?E4.
Qed.

(** The answers to the pings. *)
Definition pongs (fs : list ws_frame) : list wslay_event_omsg :=
  (fun f => mkOmsg WSLAY_PONG 0 (f_payload f)) <$> filter (fun f => f_opcode f = WSLAY_PING) fs.

Lemma pongs_app l1 l2 : pongs (l1 ++ l2) = pongs l1 ++ pongs l2.
Proof. unfold pongs. by rewrite filter_app, fmap_app. Qed.

Lemma emitted_answers fs o :
  Forall (fun f => legal f = true) fs -> sender o -> send_queue o = [] -> write_enabled o = true ->
  close_queued o = false ->
  emitted (answers fs o) = emitted o ++ pongs fs /\ write_enabled (answers fs o) = true /\
  close_queued (answers fs o) = false.
Proof.
  intros Hfs. revert o. induction Hfs as [|f fs Hf _ IH]; intros o Hs Hq Hw Hc.
  - cbn. by rewrite app_nil_r.
  - change (answers (f :: fs) o) with (answers fs (answer f o)). change (pongs (f :: fs)) with (pongs ([f] ++ fs)). rewrite pongs_app.
    unfold answer, pongs at 1. destruct (Z.eqb_spec (f_opcode f) 9) as [E|E].
    + rewrite filter_cons_True by done. cbn [fmap list_fmap filter list_filter].
      destruct (queue_msg_emitted WSLAY_PONG (f_payload f) o Hs) as (Q1 & Q2 & Q3 & Q4 & Q5); [auto|done|auto|].
      destruct (IH _ Q1) as (I1 & I2 & I3); [by rewrite Q4|congruence|congruence|].
      rewrite I1, Q5, Hw, Hc, <- (assoc_L (++)). split; [|done]. do 2 f_equal.
      destruct (legal_opcode _ Hf) as [(_ & ?)|(_ & _ & _ & Hlen)]; [lia|]. unfold f_len in Hlen.
      assert (queueable WSLAY_PONG (f_payload f) = true) as -> by (unfold queueable; cbn; lia). done.
    + rewrite filter_cons_False by done. by apply IH.
Qed.

(** What has come is the beginning of the conversation [fs]: its payload has been seen,
    its pings are answered. *)
Definition inbox (fs : list ws_frame) (l : wledger) : Prop :=
  let c := l_core l in
  settled_core c /\ cur_is_data (shared c) = cur_after false (calls c) /\
  forall fut, l_in l ++ fut = wire fs ->
  exists open done fs' cc, fs = done ++ fs' /\ conv open fs' cc fut (ctx c) (shared c) /\
    at_rest (frame_ctx_in (ein (ctx c))) fs' /\
    payload false (calls c) = data_of done ++ shown (offset cc fs') fs' /\
    (write_enabled (eout (ctx c)) = true -> mine (l_taken l) = frames (pongs done)).

Lemma conv_push open fs cc data fut (c : wcore) :
  conv open fs cc (data ++ fut) (ctx c) (shared c) -> settled_core c ->
  conv open fs cc fut (ctx c) (mkShared (inbound (shared c) ++ data) (inbound_pos (shared c))
    (outbound (shared c)) (to_peer (shared c)) (cur_is_data (shared c)) (control_events (shared c))).
Proof.
  intros HC [_ _ _ _ C5 _ _ C6]. destruct (C6 (proj1 (conv_enabled _ _ _ _ _ _ HC))) as (Ha & _ & _).
  destruct HC as [H1 H2 H3 H4 H5 H6]. split; try done.
  - unfold ready. cbn. rewrite C5. lia.
  - rewrite Ha in H5. unfold avail in *. cbn. rewrite C5, drop_0 in *. by rewrite Ha.
Qed.

Lemma reading_room open fs cc fut (c : wcore) data :
  conv open fs cc fut (ctx c) (shared c) -> settled_core c -> zlen data <= READ_CHUNK ->
  (room (frame_ctx_in (ein (ctx c))) (mkShared (inbound (shared c) ++ data) (inbound_pos (shared c))
    (outbound (shared c)) (to_peer (shared c)) (cur_is_data (shared c)) (control_events (shared c))) < RECV_FUEL)%nat.
Proof.
  intros HC [_ _ _ _ C5 _ _ C6] Hlen. destruct (C6 (proj1 (conv_enabled _ _ _ _ _ _ HC))) as (Ha & Hb & _).
  unfold room, avail, RECV_FUEL in *. cbn. rewrite C5, drop_0 in *. rewrite Ha.
  unfold zlen, READ_CHUNK in *. cbn [app]. lia.
Qed.

Lemma queue_calls k (c : wcore) :
  control_queue k \/ (exists data, k = queue_msg WSLAY_BINARY_FRAME data) ->
  exists x, calls (k c) = calls c ++ [x] /\ (forall cur, payload cur [x] = []) /\ forall cur, cur_after cur [x] = cur.
Proof.
  intros [[(op & p & -> & _)|(cd & r & ->)]|[data ->]]; cbn; eexists; (split; [done|split; done]).
Qed.

(** A section that leaves wslay sending has not sent a Close. *)
Lemma close_not_sent k (c c' : wcore) block :
  settled_core c -> (exists code reason, k = queue_close code reason) -> flush k c = Ok (c', block) ->
  write_enabled (eout (ctx c')) = true -> block = [].
Proof.
  intros Hc (code & reason & ->) E Hw.
  destruct (control_ready _ c Hc (or_intror (ex_intro _ code (ex_intro _ reason eq_refl)))) as (K1 & K2 & K3 & K4 & K5 & K6).
  destruct (flush_settled _ c Hc K4 K5 K6 K1 (or_introl K2)) as (c2 & E2 & _ & _ & _ & _ & Hw2 & _).
  rewrite E in E2. injection E2 as <- ->. rewrite Hw2 in Hw. apply andb_true_iff in Hw as [_ Hcq].
  destruct (queue_close_emitted code reason (eout (ctx c)) (sc_sender _ Hc)) as (_ & _ & H).
  cbn [queue_close ctx] in Hcq |- *. cbn in Hcq |- *. destruct (_ && _) in H.
  - destruct H as [H _]. by rewrite H in Hcq.
  - rewrite H. by rewrite (settled_emitted _ Hc).
Qed.

(** A section of directions 2 to 4 is not seen by the half that receives. *)
Lemma inbox_flush fs k (c c' : wcore) i p tk d block p' :
  inbox fs (mkLedger c i p tk) ->
  control_queue k \/ (exists data, k = queue_msg WSLAY_BINARY_FRAME data /\ zlen data <= READ_CHUNK) ->
  flush k c = Ok (c', block) -> d <> WsToPeer \/ (exists code reason, k = queue_close code reason) ->
  inbox fs (mkLedger c' i p' (tk ++ [(d, block)])).
Proof.
  intros (Hc & Hcur & H) Hk E Hm. cbn [l_core l_in l_taken] in *.
  assert (sender (eout (ctx (k c))) /\ (send_queue (eout (ctx (k c))) = [] \/
      write_enabled (eout (ctx (k c))) = true /\ close_queued (eout (ctx (k c))) = false) /\
    shared (k c) = shared c /\ ein (ctx (k c)) = ein (ctx c) /\
    no_buffering (ctx (k c)) = no_buffering (ctx c) /\
    write_enabled (eout (ctx (k c))) = write_enabled (eout (ctx c))) as (K1 & K2 & K4 & K5 & K6 & K7).
  { destruct Hk as [Hk|(data & -> & Hlen)].
    - destruct (control_ready k c Hc Hk) as (? & ? & ? & ? & ? & ?). split_and!; auto.
    - destruct (data_ready data c Hc Hlen) as (? & ? & _). split_and!; try done.
      destruct (queue_msg_emitted WSLAY_BINARY_FRAME data (eout (ctx c)) (sc_sender _ Hc)) as (_ & Q & _);
        [auto|unfold READ_CHUNK in *; lia|auto|done]. }
  destruct (flush_settled k c Hc) as (c2 & E2 & Hc2 & F1 & F2 & F3 & F6 & l & F4 & F5); auto.
  pose proof E as E'. rewrite E in E2. injection E2 as <- Eb.
  destruct (queue_calls k c) as (x & Ex & Px & Cx); [destruct Hk as [?|(data & ? & _)]; eauto|].
  split; [done|]. cbn [l_core l_in l_taken]. rewrite F3.
  assert (payload false (calls c') = payload false (calls c) /\
    cur_after false (calls c') = cur_after false (calls c)) as [-> ->].
  { rewrite F4, Ex, !cur_after_app, !payload_app, Cx, Px, (sends_payload _ l), (sends_cur _ l) by done.
    by rewrite !app_nil_r. }
  split; [done|]. intros fut Hfut. destruct (H fut Hfut) as (op & dn & fs' & cc & E0 & HC & Hr & Hp & Hpong).
  exists op, dn, fs', cc. rewrite F1. split; [done|]. split; [|split; [done|split; [done|]]].
  - apply (conv_same _ _ _ _ _ _ _ _ HC); try done. apply HC.
  - intros Hw. assert (mine (tk ++ [(d, block)]) = mine tk) as ->.
    { rewrite mine_app. destruct Hm as [Hd|Hcl]; [by rewrite mine_other, app_nil_r|].
      rewrite (close_not_sent k c c' block Hc Hcl E' Hw). by destruct (decide (d = WsToPeer)) as [->|?];
        [rewrite mine_dir1|rewrite mine_other by done]; rewrite app_nil_r. }
    apply Hpong. rewrite <- K7. rewrite F6 in Hw. by apply andb_true_iff in Hw as [? _].
Qed.

(** The section of direction 1 goes through all that has come, and reports no end. *)
Lemma feed_conv open fs cc data fut (c : wcore) :
  settled_core c -> conv open fs cc (data ++ fut) (ctx c) (shared c) -> zlen data <= READ_CHUNK ->
  exists c' tp block evs l l2, feed data c = Ok (c', tp, block, false, evs) /\ settled_core c' /\
    calls c' = (calls c ++ l) ++ l2 /\ sends l2 /\ to_peer (shared c') = [] /\
    cur_is_data (shared c') = cur_after (cur_is_data (shared c)) l /\
    exists open' done fs' cc', fs = done ++ fs' /\ conv open' fs' cc' fut (ctx c') (shared c') /\
      at_rest (frame_ctx_in (ein (ctx c'))) fs' /\
      shown (offset cc fs) fs ++ payload (cur_is_data (shared c)) l = data_of done ++ shown (offset cc' fs') fs' /\
      block = frames (emitted (answers done (eout (ctx c)))) /\
      evs = control_events (shared c) ++ events_of done.
Proof.
  intros Hc HC Hlen. pose proof (conv_push _ _ _ _ _ _ HC Hc) as HC0.
  pose proof (reading_room _ _ _ _ _ data HC Hc Hlen) as Hroom.
  destruct (recv_loop_conv RECV_FUEL _ _ _ _ _ _ HC0 Hroom) as (s1 & l & c1 & E & Ha & Hadv).
  destruct (feed_settled data c Hc Hlen) as (s1' & l1 & c1' & rc & c2 & E1 & _ & _ & _ & _ & _ & E2 & Hc2 & F1 & F2 & F3 & _ & (l2 & F4 & F5) & _).
  change (wslay_event_recv (ctx c)) with (recv_loop RECV_FUEL (ctx c)) in E1. rewrite E in E1. injection E1 as <- <- <- <-.
  pose proof (exec_cur _ _ _ _ _ (conv_ready _ _ _ _ _ _ HC0) E) as Hcur.
  destruct Hadv as (o' & dn & fs' & cc' & E0 & HC1 & Hp & Ho & He & Hr).
  destruct (conv_enabled _ _ _ _ _ _ HC1) as [_ Hcl]. rewrite Hcl in E2.
  eexists c2, _, _, _, l, l2. split; [exact E2|]. split; [done|]. split; [done|]. split; [done|].
  split; [by rewrite F3|]. split; [rewrite F3; exact Hcur|].
  exists o', dn, fs', cc'. rewrite F1. split_and!; try done.
  - apply (conv_same _ _ _ _ _ _ _ _ HC1); rewrite ?F3; try done. unfold ready. cbn. lia.
  - by rewrite <- Ho.
Qed.

Lemma valid_legal open fs : valid open fs = true -> Forall (fun f => legal f = true) fs.
Proof.
  revert open. induction fs as [|f fs IH]; intros open Hv; [constructor|].
  apply valid_cons in Hv as [Hf Hv]. constructor; [by eapply follows_legal|by eapply IH].
Qed.

(** The block of a section after which wslay still sends. *)
Lemma answers_block done (c : wcore) :
  settled_core c -> Forall (fun f => legal f = true) done -> write_enabled (eout (ctx c)) = true ->
  frames (emitted (answers done (eout (ctx c)))) = frames (pongs done).
Proof.
  intros Hc Hd Hw. destruct (sc_idle _ Hc Hw) as (Hq & _ & Hcq).
  destruct (emitted_answers done (eout (ctx c)) Hd (sc_sender _ Hc) Hq Hw Hcq) as (-> & _).
  by rewrite (settled_emitted _ Hc).
Qed.

Lemma inbox_feed fs data (c c' : wcore) i p tk tp block closed evs p' :
  inbox fs (mkLedger c i p tk) -> data <> [] -> zlen data <= READ_CHUNK ->
  feed data c = Ok (c', tp, block, closed, evs) -> inbox fs (mkLedger c' (i ++ data) p' (tk ++ [(WsToPeer, block)])).
Proof.
  intros (Hc & Hcur & H) Hne Hlen E. cbn [l_core l_in l_taken] in *.
  destruct (feed_settled data c Hc Hlen) as (s1 & l1 & c1 & rc & c2 & E1 & _ & _ & _ & _ & F0 & E2 & Hc2 & _ & _ & F3 & F6 & (l2 & F4 & F5) & _).
  pose proof E as E'. rewrite E in E2. injection E2 as <- _ _ _ _.
  assert (ready (mkShared (inbound (shared c) ++ data) (inbound_pos (shared c)) (outbound (shared c))
    (to_peer (shared c)) (cur_is_data (shared c)) (control_events (shared c)))) as Hrdy
    by (unfold ready; cbn; rewrite (sc_ready _ Hc); lia).
  pose proof (exec_cur _ _ _ _ _ Hrdy E1) as Hcur1. cbn in Hcur1.
  split; [done|]. cbn [l_core l_in l_taken]. rewrite F3.
  assert (payload false (calls c') = payload false (calls c ++ l1) /\
    cur_after false (calls c') = cur_after (cur_is_data (shared c)) l1) as [-> ->].
  { by rewrite F4, Hcur, payload_app, (sends_payload _ l2), app_nil_r, cur_after_app,
      (sends_cur _ l2), cur_after_app by done. }
  split; [exact Hcur1|]. intros fut Hfut. rewrite <- (assoc_L (++)) in Hfut.
  destruct (H (data ++ fut) Hfut) as (op & dn & fs1 & cc & E0 & HC & Hr & Hp & Hpong).
  destruct (feed_conv op fs1 cc data fut c Hc HC Hlen)
    as (c3 & tp3 & b3 & e3 & l & l3 & E3 & _ & G1 & G2 & _ & _ & o1 & dn1 & fs2 & cc2 & E4 & HC2 & Hr2 & Hp2 & Hb2 & _).
  rewrite E' in E3. injection E3 as <- _ -> _ _.
  assert (l1 ++ l2 = l ++ l3) as Hl.
  { rewrite F4, <- !(assoc_L (++)) in G1. by apply app_inv_head in G1. }
  assert (payload (cur_is_data (shared c)) l1 = payload (cur_is_data (shared c)) l) as Hpl.
  { apply (f_equal (payload (cur_is_data (shared c)))) in Hl. rewrite !payload_app in Hl.
    by rewrite (sends_payload _ l2), (sends_payload _ l3), !app_nil_r in Hl. }
  exists o1, (dn ++ dn1), fs2, cc2. split; [by rewrite <- (assoc_L (++)), <- E4|]. rewrite F3 in HC2.
  split; [exact HC2|split; [exact Hr2|split]].
  - rewrite payload_app, Hp, <- Hcur, Hpl, <- (assoc_L (++)), Hp2, payloads_app. by rewrite (assoc_L (++)).
  - intros Hw. rewrite F6, F0 in Hw. apply andb_true_iff in Hw as [Hw _].
    rewrite mine_app, mine_dir1, pongs_app, frames_app, (Hpong Hw), Hb2. f_equal. apply answers_block; [done| |done].
    pose proof (valid_legal _ _ (conv_valid _ _ _ _ _ _ HC)) as Hl1. rewrite E4 in Hl1.
    by apply Forall_app in Hl1 as [? _].
Qed.

Lemma inbox_section fs l l' : inbox fs l -> section l l' -> inbox fs l'.
Proof.
  intros H Hs. destruct Hs as [c i p tk data c' tp block closed evs Hne Hlen E
    |c i p tk data c' block Hne Hlen E|c i p tk d k c' block Hk E Hm].
  - by eapply inbox_feed.
  - eapply inbox_flush; [exact H|right; by exists data|exact E|by left].
  - eapply inbox_flush; [exact H|by left|exact E|exact Hm].
Qed.

Definition fresh : wcore :=
  mkCore (wslay_event_config_set_no_buffering wslay_event_context_server_init) Shared_default [].

Lemma fresh_settled : settled_core fresh.
Proof.
  split; try done.
  - split; try done. intros _. by exists [].
  - intros _. split; [done|]. split; [cbn; lia|]. split; [split; [by left|done]|done].
Qed.

Lemma fresh_inbox fs : valid false fs = true -> inbox fs (mkLedger fresh [] [] []).
Proof.
  intros Hv. split; [apply fresh_settled|]. split; [done|]. intros fut Hfut.
  cbn in Hfut. exists false, [], fs, 0%nat. split; [done|]. split; [split|split].
  - done.
  - done.
  - unfold ready. cbn. lia.
  - by apply (sc_drained _ fresh_settled).
  - exact Hfut.
  - assert (boundary false (ein (ctx fresh))) as Hb.
    { eexists _, _, _, _. split; [reflexivity|]. split; by eexists _, _, _. }
    destruct fs as [|f fs]; [done|]. split; [by apply at_header|]. split; [done|]. split; [lia|].
    intros H. cbn in H. lia.
  - by destruct fs.
  - split; [|done]. destruct fs as [|f fs]; [done|]. cbn. by rewrite take_0.
Qed.

Section tunnel.
Context {IoError : Type} (error_text : IoError -> bytes).
Variable config : BridgeConfig.

(** Every run goes on. *)
Lemma tunnel_run es :
  exists s0 s, start (Ctx := wslay_event_context) error_text config = Ok s0 /\
    run_from error_text config es s0 = Ok s /\ relays [] s.
Proof.
  pose proof (start_relays (Ctx := wslay_event_context) error_text config) as Hs.
  destruct (start error_text config) as [s0| | |]; try done. destruct Hs as [H HL].
  destruct (run_relays error_text config es s0 H HL) as (s & E & H' & _). by exists s0, s.
Qed.

Lemma run_tunnel es s0 (s : @t wslay_event_context IoError) :
  start error_text config = Ok s0 -> run_from error_text config es s0 = Ok s -> relays [] s.
Proof.
  intros Hs Hr. destruct (tunnel_run es) as (s0' & s' & E0 & E & HR).
  rewrite Hs in E0. injection E0 as <-. rewrite Hr in E. by injection E as <-.
Qed.

(** Where in the conversation a run has come. *)
Lemma run_inbox fs es s0 (s : @t wslay_event_context IoError) :
  valid false fs = true -> start error_text config = Ok s0 -> run_from error_text config es s0 = Ok s ->
  inbox fs (ledger_of s).
Proof.
  intros Hv Hs Hr. apply (run_ledger error_text config (inbox fs) es s0 s); try done.
  { intros c [= <-]. by apply fresh_inbox. }
  { intros l l'. apply inbox_section. }
Qed.

Lemma run_position fs es s0 (s : @t wslay_event_context IoError) fut :
  valid false fs = true -> start error_text config = Ok s0 -> run_from error_text config es s0 = Ok s ->
  ws_in s ++ fut = wire fs ->
  payload false (calls (wslay s)) = visible fs (length (ws_in s)) /\
  (write_enabled (eout (ctx (wslay s))) = true ->
    mine (taken s) = frames (pongs (complete fs (length (ws_in s))))).
Proof.
  intros Hv Hs Hr Hfut. destruct (run_inbox fs es s0 s Hv Hs Hr) as (Hc & _ & H).
  cbn [l_core l_in l_taken ledger_of] in *.
  destruct (H fut Hfut) as (op & dn & fs' & cc & -> & HC & Hrest & -> & Hpong).
  assert (avail (shared (wslay s)) = []) as Ha by (apply (sc_drained _ Hc); by eapply conv_enabled).
  assert (length (ws_in s) + length fut = length (wire (dn ++ fs')))%nat as Hn by by rewrite <- Hfut, length_app.
  split.
  - apply (at_rest_visible _ _ _ _ _ _ _ _ HC); try done; [apply HC|].
    pose proof (valid_legal _ _ Hv) as Hl. by apply Forall_app in Hl as [? _].
  - intros Hw. rewrite (Hpong Hw). by rewrite (at_rest_complete _ _ _ _ _ _ _ _ HC Ha Hrest Hn).
Qed.

(** C11: Up the tunnel: in every interleaving of the bridge's directions and whatever the
    pieces the socket delivers, if what has come is the beginning of a client's
    conversation (binary messages, whole or in fragments, with pings and pongs between
    them, masked as RFC 6455 has it), then what the peer has been given is exactly the
    payload of the data frames in it, up to the last byte that has come; a failed peer
    has lost an end of it. *)
Theorem tunnel_up fs es s0 s fut :
  valid false fs = true -> start error_text config = Ok s0 -> run_from error_text config es s0 = Ok s ->
  ws_in s ++ fut = wire fs ->
  exists lost, peer_out s ++ held s ++ lost = visible fs (length (ws_in s)) /\
    (peer_failed s = false -> lost = []).
Proof.
  intros Hv Hs Hr Hfut. destruct (run_inbox fs es s0 s Hv Hs Hr) as (Hc & _).
  destruct (relays_peer s (run_tunnel es s0 s Hs Hr)) as (lost & Hl & Hp). cbn [l_core ledger_of] in *.
  rewrite (sc_peer _ Hc), app_nil_r in Hl. exists lost. split; [|done].
  rewrite Hl. by apply (run_position fs es s0 s fut).
Qed.

(** C15: Pings are answered: as long as wslay sends, what direction 1 has taken for the
    socket is, frame by frame, one pong for each ping that has come whole, with its
    payload, in order, and nothing else. *)
Theorem tunnel_pongs fs es s0 s fut :
  valid false fs = true -> start error_text config = Ok s0 -> run_from error_text config es s0 = Ok s ->
  ws_in s ++ fut = wire fs -> write_enabled (eout (ctx (wslay s))) = true ->
  mine (taken s) = frames (pongs (complete fs (length (ws_in s)))).
Proof. intros Hv Hs Hr Hfut. by apply (run_position fs es s0 s fut). Qed.

(** What is taken for the socket in a run. *)
Lemma run_outbox es s0 (s : @t wslay_event_context IoError) :
  start error_text config = Ok s0 -> run_from error_text config es s0 = Ok s -> outbox (ledger_of s).
Proof.
  intros Hs Hr. apply (run_ledger error_text config outbox es s0 s); try done.
  { intros c [= <-]. split; [apply fresh_settled|]. exists []. by split_and!. }
  { intros l l'. apply outbox_section. }
Qed.

(** C12: Down the tunnel: in every run, whatever the client sends and however the
    directions interleave, the bytes wslay gives out for the socket are a sequence of
    server frames; their binary payload is what the peer has sent, in order and all of
    it until a Close is sent; the other frames are pings, pongs and at most one Close,
    which is the last; and the bytes determine the messages. *)
Theorem tunnel_down es :
  exists s0 s bs, start (Ctx := wslay_event_context) error_text config = Ok s0 /\
    run_from error_text config es s0 = Ok s /\ taken s = block_bytes <$> bs /\
    carries (write_enabled (eout (ctx (wslay s)))) (peer_in s) (messages bs) /\
    forall ms, Forall sendable ms -> out_of (taken s) = frames ms -> ms = messages bs.
Proof.
  destruct (tunnel_run es) as (s0 & s & Hs & Hr & _).
  destruct (run_outbox es s0 s Hs Hr) as (_ & bs & Et & Hms & _). cbn in Et, Hms.
  exists s0, s, bs. split_and!; try done. intros ms Hf E. rewrite Et, out_blocks in E.
  apply frames_inj; [done| |done]. eapply Forall_impl; [apply Hms|]. by intros m [? _].
Qed.
End tunnel.

(** ** A run *)

Module Run.

Definition text (e : unit) : bytes := [].
Definition after (es : list (@event unit)) : outcome unit (@t wslay_event_context unit) :=
  s ← start text BridgeConfig_default; run_from text BridgeConfig_default es s.

(** A message in two fragments, a ping between them. *)
Definition frames_in : list ws_frame :=
  [wsFrame false 2 [1; 2; 3; 4] [10; 20; 30]; wsFrame true 9 [5; 6; 7; 8] [65];
   wsFrame true 0 [9; 8; 7; 6] [40; 50]].

End Run.

Lemma tunnel_up_witness :
  exists s0 s, start Run.text BridgeConfig_default = Ok s0 /\
    run_from Run.text BridgeConfig_default
      [WsRead (inr (take 8 (wire Run.frames_in))); PeerWrote (inr tt);
       WsRead (inr (take 15 (drop 8 (wire Run.frames_in)))); PeerWrote (inr tt); WsWrote (inr tt)] s0 = Ok s /\
    peer_out s = [10; 20; 30; 40] /\
    exists lost, peer_out s ++ held s ++ lost = visible Run.frames_in (length (ws_in s)) /\
      (peer_failed s = false -> lost = []).
Proof.
  eexists _, _. split; [reflexivity|]. split; [vm_compute; reflexivity|]. split; [reflexivity|].
  eapply (tunnel_up Run.text BridgeConfig_default Run.frames_in
    [WsRead (inr (take 8 (wire Run.frames_in))); PeerWrote (inr tt);
     WsRead (inr (take 15 (drop 8 (wire Run.frames_in)))); PeerWrote (inr tt); WsWrote (inr tt)]
    _ _ (drop 23 (wire Run.frames_in)));
    [reflexivity|reflexivity|vm_compute; reflexivity|vm_compute; reflexivity].
Defined.

Lemma tunnel_pongs_witness :
  exists s0 s, start Run.text BridgeConfig_default = Ok s0 /\
    run_from Run.text BridgeConfig_default
      [WsRead (inr (take 15 (wire Run.frames_in))); PeerWrote (inr tt);
       WsRead (inr (drop 15 (wire Run.frames_in)))] s0 = Ok s /\
    mine (taken s) = [128 + 10; 1; 65] /\
    mine (taken s) = frames (pongs (complete Run.frames_in (length (ws_in s)))).
Proof.
  eexists _, _. split; [reflexivity|]. split; [vm_compute; reflexivity|]. split; [reflexivity|].
  eapply (tunnel_pongs Run.text BridgeConfig_default Run.frames_in
    [WsRead (inr (take 15 (wire Run.frames_in))); PeerWrote (inr tt);
     WsRead (inr (drop 15 (wire Run.frames_in)))] _ _ []);
    [reflexivity|reflexivity|vm_compute; reflexivity|vm_compute; reflexivity|reflexivity].
Defined.
