(* ===== verification/TunnelEnds.v ===== *)
(** * TunnelEnds: how the tunnel ends

    The bridge over its wslay at the end of a connection: the loops of wslay return,
    a Close of the client is echoed and reported, and what happens after a frame wslay
    refuses. *)

From S2P Require Import Prelude Utf8 Bridge BridgeFacts WslayC WslayFacts WslayStream WslaySend.
From S2P Require Import WslayClose Tunnel.

(** ** Fuel *)

(** More fuel for [send_loop] changes nothing. *)
Lemma send_loop_more n m err o s s' l o' rc :
  exec (send_loop n err o) s = Ok (s', l, (o', rc)) -> rc <> OUT_OF_FUEL -> (n <= m)%nat ->
  exec (send_loop m err o) s = exec (send_loop n err o) s.
Proof.
  revert m o s s' l. induction n as [|n IH]; intros m o s s' l E Hrc Hm.
  - cbn [send_loop] in *. destruct (write_enabled o && negb (pending o =? 0)%nat) eqn:Hp.
    + injection E as _ _ _ <-. done.
    + destruct m; cbn [send_loop]; by rewrite Hp.
  - destruct m as [|m]; [lia|]. cbn [send_loop] in *.
    destruct (write_enabled o && negb (pending o =? 0)%nat); [|done].
    rewrite exec_bind in E. rewrite !exec_bind.
    destruct (exec (send_once err o) s) as [[[s1 l1] [o1 v]]| | |]; [|done..].
    cbn [mbind outcome_bind] in *. destruct v as [| |r]; [|done..].
    destruct (exec (send_loop n err o1) s1) as [[[s2 l2] [o2 r2]]| | |] eqn:E2; [|done..].
    injection E as _ _ <- <-. rewrite (IH m o1 s1 s2 l2 E2 Hrc) by lia. by rewrite E2.
Qed.

(** [Shared] with what has been read from the socket. *)
Definition fed (data : bytes) (s : Shared) : Shared :=
  mkShared (inbound s ++ data) (inbound_pos s) (outbound s) (to_peer s) (cur_is_data s) (control_events s).

(** ** A conversation that has come to a boundary *)

Lemma at_rest_all open fs cc c s :
  conv open fs cc [] c s -> avail s = [] -> at_rest (frame_ctx_in (ein c)) fs -> fs = [].
Proof.
  intros HC Ha Hr. destruct fs as [|f fs]; [done|]. exfalso.
  pose proof (at_rest_incomplete _ _ _ _ _ _ _ HC Hr) as Hlt.
  pose proof (conv_stream _ _ _ _ _ _ HC) as Hs. rewrite Ha in Hs. cbn [app] in Hs.
  apply (f_equal length) in Hs. rewrite app_nil_r, length_drop, wire_cons, length_app in Hs. lia.
Qed.

(** The section of direction 1 on a Close. *)
Lemma feed_close open key code reason more (c : wcore) :
  settled_core c -> boundary open (ein (ctx c)) -> no_buffering (ctx c) = true ->
  at_start (frame_ctx_in (ein (ctx c))) -> ibuf (frame_ctx_in (ein (ctx c))) = [] ->
  write_enabled (eout (ctx c)) = true ->
  closing code reason -> length key = 4%nat ->
  zlen (encode (close_frame key code reason) ++ more) <= READ_CHUNK ->
  exists c', feed (encode (close_frame key code reason) ++ more) c =
    Ok (c', [], frames [mkOmsg WSLAY_CONNECTION_CLOSE 0 (close_payload code reason)], true, [EvClose code reason]).
Proof.
  intros Hc Hb Hnb Hst Hnil Hw Hcl Hk Hlen. set (data := encode _ ++ more) in *.
  destruct (feed_settled data c Hc Hlen) as (s1 & l1 & c1 & rc & c' & E & _ & _ & _ & _ & _ & Ef & _).
  assert (read_enabled (ein (ctx c)) = true) as Hr by (by destruct Hb as (? & ? & ? & ? & -> & _)).
  destruct (sc_drained _ Hc Hr) as (Ha & _ & [[He _] _]).
  destruct (recv_close open key code reason more (ctx c) (fed data (shared c)) Hb Hnb) as
    (s2 & l2 & c2 & E2 & H1 & H2 & H3 & H4); try done.
  { unfold ready. cbn. rewrite (sc_ready _ Hc). lia. }
  { unfold avail in *. cbn. rewrite (sc_ready _ Hc), drop_0 in *. by rewrite Ha. }
  unfold fed in E2. rewrite E in E2. injection E2 as -> -> -> ->.
  exists c'. rewrite Ef, H1, H3, H4. cbn [fed to_peer control_events]. rewrite (sc_peer _ Hc), (sc_events _ Hc).
  destruct (sc_idle _ Hc Hw) as (_ & _ & Hcq).
  destruct (queue_close_emitted code reason (eout (ctx c)) (sc_sender _ Hc)) as (_ & _ & Hem).
  assert (zlen reason <= 123) as Hl by (destruct Hcl as [[_ ->]|(_ & _ & ?)]; done).
  rewrite Hw, Hcq in Hem. destruct (Z.leb_spec (zlen reason) 123); [|lia]. cbn [andb negb] in Hem.
  destruct Hem as [_ Hem]. by rewrite H2, Hem.
Qed.

(** Once reading is disabled, wslay neither takes nor gives. *)
Lemma settled_stopped (c : wcore) :
  settled_core c -> read_enabled (ein (ctx c)) = false -> close_received (ein (ctx c)) = false ->
  stopped (ctx c).
Proof.
  intros Hc Hr Hcl. split; [|split; [|done]].
  - cbn. unfold wslay_event_recv. destruct RECV_FUEL; cbn [recv_loop]; by rewrite Hr.
  - cbn. unfold wslay_event_send. set (o := eout (ctx c)).
    assert (write_enabled o && negb (pending o =? 0)%nat = false) as Hn.
    { subst o. destruct (write_enabled (eout (ctx c))) eqn:Hw; [|done].
      destruct (sc_idle _ Hc Hw) as (Hq & Hq' & _). unfold pending.
      by rewrite Hq, Hq', (snd_omsg _ (sc_sender _ Hc)). }
    destruct (pending o) eqn:Hp; cbn [send_loop]; rewrite Hp, ?Hn.
    all: try (rewrite andb_false_r); try rewrite Hn; subst o; by destruct (ctx c).
Qed.

(** The section that queues a Close: its frame, unless one has been sent. *)
Lemma flush_close code reason (c : wcore) :
  settled_core c -> zlen reason <= 123 ->
  exists c', flush (queue_close code reason) c = Ok (c',
    if write_enabled (eout (ctx c))
    then server_frame (mkOmsg WSLAY_CONNECTION_CLOSE 0 (close_payload code reason)) else []).
Proof.
  intros Hc Hlen.
  destruct (control_ready (queue_close code reason) c Hc) as (K1 & K2 & K3 & K4 & K5 & K6); [right; by exists code, reason|].
  destruct (flush_settled (queue_close code reason) c Hc) as (c' & E & _); auto.
  exists c'. rewrite E. do 2 f_equal. pose proof (queue_close_emitted code reason (eout (ctx c)) (sc_sender _ Hc)) as (_ & _ & Hem).
  change (eout (ctx (queue_close code reason c))) with (fst (wslay_event_queue_close code reason (eout (ctx c)))).
  destruct (write_enabled (eout (ctx c))) eqn:Hw.
  - destruct (sc_idle _ Hc Hw) as (_ & _ & Hcq). rewrite Hcq in Hem. destruct (Z.leb_spec (zlen reason) 123); [|lia].
    cbn [andb negb] in Hem. destruct Hem as [_ ->]. apply app_nil_r.
  - cbn [andb] in Hem. rewrite Hem, (settled_emitted _ Hc). done.
Qed.

Section ends.
Context {IoError : Type} (error_text : IoError -> bytes).
Variable config : BridgeConfig.

Notation state := (@t wslay_event_context IoError).

(** What holds of wslay in every run. *)
Lemma run_settled es s0 (s : state) :
  start error_text config = Ok s0 -> run_from error_text config es s0 = Ok s -> settled_core (wslay s).
Proof.
  intros Hs Hr. by destruct (run_outbox error_text config es s0 s Hs Hr) as [H _].
Qed.

(** C18: The loops of wslay end: in every run, whatever the next read delivers,
    [wslay_event_recv] and the [wslay_event_send] after it return within the rounds
    they are given, and more rounds would change nothing. *)
Theorem tunnel_terminates es s0 s data :
  start error_text config = Ok s0 -> run_from error_text config es s0 = Ok s -> zlen data <= READ_CHUNK ->
  let x := ctx (wslay s) in
  let sh := fed data (shared (wslay s)) in
  exists s1 l1 x1 rc, exec (wslay_event_recv x) sh = Ok (s1, l1, (x1, rc)) /\ rc <> OUT_OF_FUEL /\
    (forall n, (RECV_FUEL <= n)%nat -> exec (recv_loop n x) sh = exec (wslay_event_recv x) sh) /\
    exists s2 l2 x2, exec (wslay_event_send x1) s1 = Ok (s2, l2, (x2, 0)) /\
    forall n, (pending (eout x1) <= n)%nat ->
      exec (send_loop n (error (frame_ctx_in (ein x1))) (eout x1)) s1 = Ok (s2, l2, (eout x2, 0)).
Proof.
  intros Hs Hr Hlen x sh. pose proof (run_settled es s0 s Hs Hr) as Hc.
  destruct (feed_settled data (wslay s) Hc Hlen)
    as (s1 & l1 & x1 & rc & c' & E & Hrc & _ & S1 & _ & _ & _ & _ & _ & _ & _ & _ & _ & Hm).
  exists s1, l1, x1, rc. split; [exact E|]. split; [done|]. split; [exact Hm|].
  destruct (send_loop_spec (pending (eout x1)) (error (frame_ctx_in (ein x1))) (eout x1) s1 S1 ltac:(done))
    as (l2 & o' & E2 & _).
  exists (push (frames (emitted (eout x1))) s1), (l2 ++ []), (set_eout o' x1). split.
  - unfold wslay_event_send. by apply (exec_then _ _ _ _ _ _ _ _ _ E2).
  - intros n Hn. rewrite app_nil_r. rewrite (send_loop_more _ n _ _ _ _ _ _ _ E2 ltac:(done) Hn). exact E2.
Qed.

(** The bridge on a section that reports the end: the answer [x :: l] is written, the peer
    shut down. *)
Lemma bridge_closes (s : state) data c' x l code reason :
  ended s = None -> d1 s = D1Read -> lock s = [] -> data <> [] -> zlen data <= READ_CHUNK ->
  feed data (wslay s) = Ok (c', [], x :: l, true, [EvClose code reason]) ->
  let cf := closeFrame (if code =? 0 then 1005 else code) (decode_utf8 reason) in
  exists s', run_from error_text config [WsRead (inr data); WsWrote (inr tt); PeerShut] s = Ok s' /\
    ended s' = Some (inr (PeerClose cf)) /\ written s' = written s ++ [(WsToPeer, x :: l)] /\
    peer_out s' = peer_out s /\ hooks s' = hooks s ++ (if on_close config then [OnClose cf] else []).
Proof.
  intros He Hd Hl Hne Hlen Ef cf.
  assert (exists s1, step error_text config (WsRead (inr data)) s = Ok s1 /\ ended s1 = None /\
    d1 s1 = D1WsWrite true (Some cf) /\ lock s1 = [(WsToPeer, x :: l)] /\
    written s1 = written s /\ peer_out s1 = peer_out s /\ hooks s1 = hooks s) as (s1 & E1 & R1 & R2 & R3 & R4 & R5 & R6).
  { unfold step. rewrite He, Hd. unfold read_fits. destruct (Z.leb_spec (zlen data) READ_CHUNK); [|lia].
    unfold ws_read. destruct data as [|y data]; [done|]. cbn [wslay set_time]. rewrite Ef. cbn [mbind outcome_bind].
    unfold after_peer_write. cbn [fold_left on_event fst snd write_ws].
    eexists. split; [reflexivity|]. cbn. by rewrite Hl. }
  assert (exists s2, step error_text config (WsWrote (inr tt)) s1 = Ok s2 /\ ended s2 = None /\
    d1 s2 = D1Shutdown (PeerClose cf) /\ written s2 = written s1 ++ [(WsToPeer, x :: l)] /\
    peer_out s2 = peer_out s1 /\ hooks s2 = hooks s1) as (s2 & E2 & Q1 & Q2 & Q3 & Q4 & Q5).
  { unfold step. rewrite R1, R3. unfold after_write. cbn [d1 set_lock]. rewrite R2. by eexists. }
  cbn [run_from]. rewrite E1. cbn [mbind outcome_bind]. rewrite E2. cbn [mbind outcome_bind].
  unfold step. rewrite Q1, Q2. eexists. split; [reflexivity|]. cbn. by rewrite Q3, Q4, Q5, R4, R5, R6.
Qed.

(** C16: The closing handshake: when the client sends a Close (empty, or a valid status
    code and text) after whole frames and it comes whole, wslay echoes it, nothing of it
    reaches the peer, the peer's stream is shut down, and the bridge ends with the code
    and the reason of the client, the hook [on_close] being told. *)
Theorem tunnel_close fs es s0 s key code reason more :
  valid false fs = true -> start error_text config = Ok s0 -> run_from error_text config es s0 = Ok s ->
  ws_in s = wire fs -> ended s = None -> d1 s = D1Read -> lock s = [] ->
  write_enabled (eout (ctx (wslay s))) = true ->
  closing code reason -> length key = 4%nat ->
  let data := encode (close_frame key code reason) ++ more in
  let cf := closeFrame (if code =? 0 then 1005 else code) reason in
  zlen data <= READ_CHUNK ->
  exists s', run_from error_text config [WsRead (inr data); WsWrote (inr tt); PeerShut] s = Ok s' /\
    ended s' = Some (inr (PeerClose cf)) /\
    written s' = written s ++
      [(WsToPeer, server_frame (mkOmsg WSLAY_CONNECTION_CLOSE 0 (close_payload code reason)))] /\
    peer_out s' = peer_out s /\
    hooks s' = hooks s ++ (if on_close config then [OnClose cf] else []).
Proof.
  intros Hv Hs Hr Hin He Hd Hl Hw Hcl Hk data cf Hlen.
  destruct (run_ledger error_text config (inbox fs) es s0 s) as (Hc & _ & H); try done.
  { intros c [= <-]. by apply fresh_inbox. }
  { intros l l'. apply inbox_section. }
  cbn [l_core l_in ledger_of] in *. destruct (H []) as (op & dn & fs' & cc & _ & HC & Hrest & _); [by rewrite app_nil_r|].
  destruct (conv_enabled _ _ _ _ _ _ HC) as [Hre _]. destruct (sc_drained _ Hc Hre) as (Ha & _).
  assert (fs' = []) as -> by (by eapply at_rest_all).
  destruct (conv_at _ _ _ _ _ _ HC) as (Hst & _ & Hb).
  destruct (feed_close op key code reason more (wslay s) Hc Hb (conv_nb _ _ _ _ _ _ HC) Hst Hrest Hw Hcl Hk Hlen) as (c' & Ef).
  fold data in Ef.
  assert (decode_utf8 reason = reason) as Hu.
  { apply decode_utf8_valid. destruct Hcl as [[_ ->]|(_ & ? & _)]; [constructor|done]. }
  set (m := mkOmsg WSLAY_CONNECTION_CLOSE 0 (close_payload code reason)) in *.
  assert (frames [m] = server_frame m) as Em by apply app_nil_r. rewrite Em in Ef.
  pose proof (bridge_closes s data c' _ _ code reason He Hd Hl ltac:(done) Hlen Ef) as Hb'.
  cbn zeta in Hb'. rewrite Hu in Hb'. exact Hb'.
Qed.

(** ** The end of the peer *)

(** The writes ahead in the queue are made, none of them by a direction that closes. *)
Lemma writes_drain l rest (s : state) :
  lock s = l ++ rest -> ended s = None -> PeerToWs ∉ fst <$> l ->
  d1 s <> D1ErrWrite -> d4 s <> D4CloseWrite ->
  exists s', run_from error_text config (replicate (length l) (WsWrote (inr tt))) s = Ok s' /\
    lock s' = rest /\ ended s' = None /\ d2 s' = d2 s /\ written s' = written s ++ l /\ hooks s' = hooks s.
Proof.
  revert s. induction l as [|[d block] l IH]; intros s Hl He Hn H1 H4.
  { exists s. by rewrite app_nil_r. }
  rewrite fmap_cons, not_elem_of_cons in Hn. destruct Hn as [Hd Hn]. cbn [fst] in Hd.
  cbn [length replicate run_from].
  assert (exists s2, step error_text config (WsWrote (inr tt)) s = Ok s2 /\ lock s2 = l ++ rest /\
    ended s2 = None /\ d1 s2 <> D1ErrWrite /\ d4 s2 <> D4CloseWrite /\ d2 s2 = d2 s /\
    written s2 = written s ++ [(d, block)] /\ hooks s2 = hooks s) as (s2 & E & A1 & A2 & A3 & A4 & A5 & A6 & A7).
  { unfold step. rewrite He, Hl. cbn [app]. eexists. split; [reflexivity|]. unfold after_write.
    destruct d; [| |by destruct (d3 s) eqn:E3; cbn; rewrite E3|]; try done.
    - cbn. destruct (d1 s) as [| | |[] ?|] eqn:E1; cbn; rewrite ?E1; by split_and!.
    - cbn. destruct (d4 s) eqn:E4, (keepalive config); cbn; rewrite ?E4; by split_and!. }
  rewrite E. cbn [mbind outcome_bind]. destruct (IH s2 A1 A2 Hn A3 A4) as (s' & E' & B1 & B2 & B3 & B4 & B5).
  exists s'. split; [exact E'|]. split_and!; [done|done|congruence| |congruence].
  by rewrite B4, A6, <- app_assoc.
Qed.

(** The direction of the peer is not writing: no block of it is queued. *)
Lemma run_locked es s0 (s : state) :
  start error_text config = Ok s0 -> run_from error_text config es s0 = Ok s ->
  ended s = None -> d2 s = D2Read -> PeerToWs ∉ fst <$> lock s.
Proof.
  intros Hs Hr He Hd. pose proof (start_relays (Ctx := wslay_event_context) error_text config) as H.
  rewrite Hs in H. destruct H as [H HL]. destruct (run_relays error_text config es s0 H HL) as (s' & E & _ & HL').
  rewrite Hr in E. injection E as <-. destruct (HL' He) as (_ & Hq & _). rewrite Hq. cbn. by rewrite Hd.
Qed.

(** The end of the peer's stream, whatever was queued. *)
Lemma peer_ends es s0 s r w :
  start error_text config = Ok s0 -> run_from error_text config es s0 = Ok s ->
  ended s = None -> d2 s = D2Read -> d1 s <> D1ErrWrite -> d4 s <> D4CloseWrite ->
  match r with inr (_ :: _) => False | _ => True end ->
  let cf := match r with inr _ => close config | inl _ => error_close config end in
  zlen (reason cf) <= 123 ->
  exists s', ended s' = Some (inr (LocalClose cf)) /\
    hooks s' = hooks s ++ (if on_close config then [OnClose cf] else []) /\
    if write_enabled (eout (ctx (wslay s))) then
      run_from error_text config (PeerRead r :: replicate (length (lock s)) (WsWrote (inr tt)) ++ [WsWrote w]) s = Ok s' /\
      written s' = written s ++ lock s ++
        if w then [] else [(PeerToWs, server_frame (mkOmsg WSLAY_CONNECTION_CLOSE 0 (close_payload (code cf) (reason cf))))]
    else run_from error_text config [PeerRead r] s = Ok s' /\ written s' = written s.
Proof.
  intros Hs Hr He Hd H1 H4 Hend cf Hlen. pose proof (run_settled es s0 s Hs Hr) as Hc.
  pose proof (run_locked es s0 s Hs Hr He Hd) as Hl.
  destruct (flush_close (code cf) (reason cf) (wslay s) Hc Hlen) as (c' & Ef).
  set (block := if write_enabled _ then _ else _) in Ef.
  assert (step error_text config (PeerRead r) s = Ok (write_ws error_text config PeerToWs block (set_d2 (D2CloseWrite cf)
    (set_history (ws_in s) (peer_in s) (taken s ++ [(PeerToWs, block)]) (peer_failed s) (set_wslay c' s))))) as E.
  { unfold step. rewrite He, Hd. destruct r as [e|[|? ?]]; [| |done]; cbn [read_fits];
      unfold peer_read, flush_as; subst cf; rewrite Ef; done. }
  cbn [run_from]. rewrite E. clear E. cbn [mbind outcome_bind]. subst block.
  set (s1 := set_d2 _ _). destruct (write_enabled _).
  - destruct (server_frame _) as [|b block] eqn:Eb; [done|]. cbn [write_ws].
    destruct (writes_drain (lock s) [(PeerToWs, b :: block)] (set_lock (lock s1 ++ [(PeerToWs, b :: block)]) (written s1) s1))
      as (s2 & E2 & B1 & B2 & B3 & B4 & B5); try done.
    set (frame := if w then [] else [(PeerToWs, b :: block)]).
    exists (finish error_text config (inr (LocalClose cf)) (set_lock [] (written s2 ++ frame) s2)).
    split; [done|]. split; [cbn; by rewrite B5|]. split; [|cbn; by rewrite B4, <- app_assoc].
    rewrite bridge_run_app, E2. cbn [mbind outcome_bind run_from]. unfold step. rewrite B2, B1.
    unfold after_write. cbn [d2 set_lock mbind outcome_bind]. by rewrite B3.
  - exists (finish error_text config (inr (LocalClose cf)) s1). by split_and!.
Qed.

(** C17: The end of the peer.  In every run, when the peer's stream ends or fails while
    the bridge reads it, and the writes queued ahead are made: a Close with the
    configured code and reason (that for errors if it failed) is the next frame
    written, and the bridge ends reporting it.  If a Close has been sent already, the bridge
    ends at once, and whatever is still queued, an echo of the client's Close included,
    is not written. *)
Theorem peer_end_closes es s0 s r w :
  start error_text config = Ok s0 -> run_from error_text config es s0 = Ok s ->
  ended s = None -> d2 s = D2Read -> d1 s <> D1ErrWrite -> d4 s <> D4CloseWrite ->
  match r with inr (_ :: _) => False | _ => True end ->
  let cf := match r with inr _ => close config | inl _ => error_close config end in
  zlen (reason cf) <= 123 ->
  exists s', ended s' = Some (inr (LocalClose cf)) /\
    hooks s' = hooks s ++ (if on_close config then [OnClose cf] else []) /\
    if write_enabled (eout (ctx (wslay s))) then
      run_from error_text config (PeerRead r :: replicate (length (lock s)) (WsWrote (inr tt)) ++ [WsWrote w]) s = Ok s' /\
      written s' = written s ++ lock s ++
        if w then [] else [(PeerToWs, server_frame (mkOmsg WSLAY_CONNECTION_CLOSE 0 (close_payload (code cf) (reason cf))))]
    else run_from error_text config [PeerRead r] s = Ok s' /\ written s' = written s.
Proof. apply peer_ends. Qed.

(** C31: After a protocol violation the bridge hoards: in every run in which wslay has
    stopped reading without having received a Close, whatever the client goes on sending
    is appended to the input buffer, without bound, and each read counts as activity for
    the keepalive. *)
Theorem violation_hoards es s0 s datas :
  start error_text config = Ok s0 -> run_from error_text config es s0 = Ok s ->
  ended s = None -> d1 s = D1Read -> read_enabled (ein (ctx (wslay s))) = false ->
  close_received (ein (ctx (wslay s))) = false ->
  Forall (fun data => data <> [] /\ zlen data <= READ_CHUNK) datas ->
  exists s', run_from error_text config ((fun data => WsRead (inr data)) <$> datas) s = Ok s' /\
    inbound (shared (wslay s')) = inbound (shared (wslay s)) ++ concat datas /\ ended s' = None /\
    (datas <> [] -> last_activity s' = now s').
Proof.
  intros Hs Hr He Hd Hre Hcl Hdatas. pose proof (run_settled es s0 s Hs Hr) as Hc.
  apply bridge_hoards; [|done]. split; [done|split; [done|split]].
  - by apply settled_stopped.
  - exists (cur_is_data (shared (wslay s))). destruct Hc as [_ C2 _ _ C5 C7 C8 _].
    destruct (shared (wslay s)). cbn in *. by subst.
Qed.
End ends.

(** ** Runs *)

Definition begun : list (@event unit) := [WsRead (inr (take 8 (wire Run.frames_in)))].

Lemma tunnel_terminates_witness :
  exists s0 s, start Run.text BridgeConfig_default = Ok s0 /\
    run_from Run.text BridgeConfig_default begun s0 = Ok s /\
    exists s1 l1 x1 rc, exec (wslay_event_recv (ctx (wslay s))) (fed [29] (shared (wslay s))) = Ok (s1, l1, (x1, rc)) /\
      rc <> OUT_OF_FUEL.
Proof.
  eexists _, _. split; [reflexivity|]. split; [vm_compute; reflexivity|].
  match goal with |- context [shared (wslay ?s)] =>
    unshelve epose proof (tunnel_terminates Run.text BridgeConfig_default begun _ s [29] eq_refl _ _)
      as (s1 & l1 & x1 & rc & E & H & _); [vm_compute; reflexivity|vm_compute; discriminate|] end.
  exists s1, l1, x1, rc. split; [exact E|exact H].
Defined.

Definition boundary_run : list (@event unit) :=
  [WsRead (inr (wire (take 2 Run.frames_in))); PeerWrote (inr tt); WsWrote (inr tt)].

Lemma tunnel_close_witness :
  exists s0 s, start Run.text BridgeConfig_default = Ok s0 /\
    run_from Run.text BridgeConfig_default boundary_run s0 = Ok s /\
    exists s', run_from Run.text BridgeConfig_default
      [WsRead (inr (encode (close_frame [1; 2; 3; 4] 1000 (str "bye")) ++ [7])); WsWrote (inr tt); PeerShut] s = Ok s' /\
    ended s' = Some (inr (PeerClose (closeFrame 1000 (str "bye")))).
Proof.
  eexists _, _. split; [reflexivity|]. split; [vm_compute; reflexivity|].
  match goal with |- context [run_from _ _ _ ?s] =>
    unshelve epose proof (tunnel_close Run.text BridgeConfig_default (take 2 Run.frames_in) boundary_run _ s
      [1; 2; 3; 4] 1000 (str "bye") [7] eq_refl eq_refl _ _ eq_refl eq_refl eq_refl eq_refl _ eq_refl _)
      as (s' & E & H & _); [vm_compute; reflexivity|vm_compute; reflexivity| |vm_compute; discriminate|] end.
  - right. split; [reflexivity|]. split; [apply utf8_valid_ascii; repeat constructor; discriminate|vm_compute; discriminate].
  - exists s'. split; [exact E|exact H].
Defined.

(** A frame that is not masked. *)
Definition unmasked_run : list (@event unit) := [WsRead (inr [130; 1; 65]); WsWrote (inr tt)].

Lemma violation_hoards_witness :
  exists s0 s, start Run.text BridgeConfig_default = Ok s0 /\
    run_from Run.text BridgeConfig_default unmasked_run s0 = Ok s /\
    written s = [(WsToPeer, [136; 2; 3; 234])] /\
    exists s', run_from Run.text BridgeConfig_default [WsRead (inr [1]); WsRead (inr [2; 3])] s = Ok s' /\
    inbound (shared (wslay s')) = [1; 2; 3] /\ ended s' = None.
Proof.
  eexists _, _. split; [reflexivity|]. split; [vm_compute; reflexivity|]. split; [reflexivity|].
  match goal with |- context [run_from _ _ _ ?s] =>
    unshelve epose proof (violation_hoards Run.text BridgeConfig_default unmasked_run _ s [[1]; [2; 3]]
      eq_refl _ eq_refl eq_refl eq_refl eq_refl _) as (s' & E & H1 & H2 & _);
      [vm_compute; reflexivity|repeat constructor; discriminate|] end.
  exists s'. split; [exact E|split; [exact H1|exact H2]].
Defined.

(** Each piece of a Close is validated from its third byte on: a Close that a read cuts
    inside a character of its text is refused with 1007, and not taken as received. *)
Definition accented : bytes := encode (close_frame [1; 2; 3; 4] 1000 [195; 169]).

Lemma close_cut_refused :
  exists s0 s, start Run.text BridgeConfig_default = Ok s0 /\
    run_from Run.text BridgeConfig_default
      [WsRead (inr (take 9 accented)); WsRead (inr (drop 9 accented)); WsWrote (inr tt)] s0 = Ok s /\
    written s = [(WsToPeer, server_frame (mkOmsg WSLAY_CONNECTION_CLOSE 0 (close_payload 1007 [])))] /\
    close_received (ein (ctx (wslay s))) = false /\ ended s = None /\ d1 s = D1Read.
Proof. eexists _, _. split; [reflexivity|]. split; [vm_compute; reflexivity|]. by vm_compute. Qed.

(** A pong is being written when the origin fails; [h2ts-proxy]'s configuration. *)
Definition gateway : BridgeConfig :=
  bridgeConfig CloseFrame_default (closeFrame 1014 (str "bad gateway")) None false true false false.
Definition ponging : list (@event unit) := [WsRead (inr (encode (wsFrame true 9 [5; 6; 7; 8] [65])))].

Lemma peer_end_closes_witness :
  exists s0 s, start Run.text gateway = Ok s0 /\ run_from Run.text gateway ponging s0 = Ok s /\
    lock s = [(WsToPeer, [138; 1; 65])] /\
    exists s', run_from Run.text gateway [PeerRead (inl tt); WsWrote (inr tt); WsWrote (inr tt)] s = Ok s' /\
      ended s' = Some (inr (LocalClose (closeFrame 1014 (str "bad gateway")))) /\
      written s' = [(WsToPeer, [138; 1; 65]); (PeerToWs, [136; 13; 3; 246] ++ str "bad gateway")].
Proof.
  eexists _, _. split; [reflexivity|]. split; [vm_compute; reflexivity|]. split; [reflexivity|].
  match goal with |- context [run_from _ _ _ ?s] =>
    unshelve epose proof (peer_end_closes Run.text gateway ponging _ s (inl tt) (inr tt)
      eq_refl _ eq_refl eq_refl _ _ I _) as (s' & H1 & _ & H2);
      [vm_compute; reflexivity|discriminate|discriminate|vm_compute; discriminate|] end.
  destruct H2 as [H2 H3]. exists s'. split; [exact H2|]. split; [exact H1|exact H3].
Defined.

(** The origin ends while the echo of the client's Close is being written: the echo is
    cut, and the end is reported as one of this side, with a Close that was not sent. *)
Example close_echo_cut :
  exists s, (s0 ← start Run.text gateway;
    run_from Run.text gateway
      [WsRead (inr (encode (close_frame [1; 2; 3; 4] 1001 []))); PeerRead (inr [])] s0) = Ok s /\
    written s = [] /\ hooks s = [OnClose (closeFrame 1000 [])].
Proof. eexists. split; [vm_compute; reflexivity|]. split; reflexivity. Qed.
