(* ===== verification/Control.v ===== *)
(** * Control: control frames sent into a running bridge

    Models [control_channel], [WsControl] and [ControlReceiver] of
    [rust/crates/h2ts-server/src/wslay.rs], with direction 3 of the bridge at the other
    end: tokio's unbounded channel keeps what is sent until direction 3 receives it, and
    refuses once the receiver, which the bridge owns, is gone.  Sends, drops
    and the events of the bridge of Bridge.v over the wslay of WslayC.v interleave in any
    order. *)

From S2P Require Import Prelude Utf8 Bridge BridgeFacts WslayC WslayFacts WslayStream WslaySend.
From S2P Require Import WslayClose Tunnel TunnelEnds.

(** ** The channel *)

Record channel := mkChannel {
  queue : list ControlCmd;
  senders : bool;  (* some [WsControl] is left *)
  receiver : bool;
}.

Definition control_channel : channel := mkChannel [] true true.

(** [WsControl::send]; [false] is the [BrokenPipe] error. *)
Definition send (cmd : ControlCmd) (ch : channel) : channel * bool :=
  if receiver ch then (mkChannel (queue ch ++ [cmd]) (senders ch) true, true) else (ch, false).

Definition ping (payload : bytes) := send (CmdPing payload).
Definition pong (payload : bytes) := send (CmdPong payload).
Definition close (code : Z) (reason : bytes) := send (CmdClose (closeFrame code reason)).

Section control.
Context {IoError : Type} (error_text : IoError -> bytes).
Variable config : BridgeConfig.

Notation bridge := (@Bridge.t wslay_event_context IoError).

(** [sent]: the commands whose [send] returned [Ok]; [taken_in]: those direction 3 has
    received. *)
Record t := mk {
  tunnel : bridge;
  chan : channel;
  sent : list ControlCmd;
  taken_in : list ControlCmd;
}.

Inductive event :=
  | Sends (cmd : ControlCmd)  (* a holder of a [WsControl], one of its three methods *)
  | DropSenders
  | Receives  (* direction 3, at [rx.recv().await], is polled *)
  | Bridges (e : @Bridge.event IoError).

Definition is_recv (e : @Bridge.event IoError) : bool :=
  match e with Command _ | CommandsGone => true | _ => false end.

(** The bridge drops the receiver when it ends. *)
Definition settle (b : bridge) (ch : channel) : channel :=
  if ended b then mkChannel [] (senders ch) false else ch.

Definition step (e : event) (s : t) : outcome unit t :=
  match e with
  | Sends cmd =>
      if senders (chan s) then
        let '(ch, ok) := send cmd (chan s) in
        Ok (mk (tunnel s) ch (if ok then sent s ++ [cmd] else sent s) (taken_in s))
      else Ok s
  | DropSenders => Ok (mk (tunnel s) (mkChannel (queue (chan s)) false (receiver (chan s))) (sent s) (taken_in s))
  | Receives =>
      match ended (tunnel s), d3 (tunnel s) with
      | None, D3Recv =>
          match queue (chan s) with
          | cmd :: rest =>
              b ← Bridge.step error_text config (Command cmd) (tunnel s);
              Ok (mk b (settle b (mkChannel rest (senders (chan s)) (receiver (chan s)))) (sent s)
                    (taken_in s ++ [cmd]))
          | [] =>
              if senders (chan s) then Ok s
              else
                b ← Bridge.step error_text config CommandsGone (tunnel s);
                Ok (mk b (chan s) (sent s) (taken_in s))
          end
      | _, _ => Ok s
      end
  | Bridges e =>
      if is_recv e then Ok s
      else
        b ← Bridge.step error_text config e (tunnel s);
        Ok (mk b (settle b (chan s)) (sent s) (taken_in s))
  end.

Fixpoint run_from (es : list event) (s : t) : outcome unit t :=
  match es with
  | [] => Ok s
  | e :: es => s ← step e s; run_from es s
  end.

Definition start : outcome unit t :=
  b ← Bridge.start error_text config;
  Ok (mk b control_channel [] []).

(** ** The frames of the commands *)

(** What a command puts on the wire while wslay sends: nothing when it is too long. *)
Definition frame_of (cmd : ControlCmd) : bytes :=
  match cmd with
  | CmdPing p => if zlen p <=? 125 then server_frame (mkOmsg WSLAY_PING 0 p) else []
  | CmdPong p => if zlen p <=? 125 then server_frame (mkOmsg WSLAY_PONG 0 p) else []
  | CmdClose cf =>
      if zlen (reason cf) <=? 123
      then server_frame (mkOmsg WSLAY_CONNECTION_CLOSE 0 (close_payload (code cf) (reason cf))) else []
  end.

(** The blocks taken by a direction. *)
Definition own (d : dir) (l : list (dir * bytes)) : list bytes := snd <$> filter (fun x => fst x = d) l.

Lemma own_snoc d l d' block : own d (l ++ [(d', block)]) = own d l ++ if decide (d' = d) then [block] else [].
Proof using Type.
  unfold own. rewrite filter_app, fmap_app. f_equal. by destruct (decide _) as [H|H];
    [rewrite filter_cons_True|rewrite filter_cons_False].
Qed.

Notation enabled c := (write_enabled (eout (ctx c))).

Definition queue_cmd (cmd : ControlCmd) : core wslay_event_context -> core wslay_event_context :=
  match cmd with
  | CmdPing p => queue_msg WSLAY_PING p
  | CmdPong p => queue_msg WSLAY_PONG p
  | CmdClose cf => queue_close (code cf) (reason cf)
  end.

Lemma queue_cmd_control cmd : control_queue (queue_cmd cmd).
Proof using Type.
  destruct cmd as [p|p|cf]; [left; exists WSLAY_PING, p; auto|left; exists WSLAY_PONG, p; auto|].
  right. by exists (code cf), (reason cf).
Qed.

(** The section of direction 3. *)
Lemma flush_cmd cmd (c : core wslay_event_context) :
  settled_core c ->
  exists c', flush (queue_cmd cmd) c = Ok (c', if enabled c then frame_of cmd else []) /\
    (enabled c' = true -> enabled c = true).
Proof using Type.
  intros Hc. destruct (control_ready (queue_cmd cmd) c Hc (queue_cmd_control cmd)) as (K1 & K2 & K3 & K4 & K5 & K6).
  destruct (flush_settled (queue_cmd cmd) c Hc) as (c' & E & _ & _ & _ & _ & Hw & _); auto.
  exists c'. split; [|rewrite Hw, K3; by intros [? _]%andb_true_iff].
  rewrite E. do 2 f_equal. clear E.
  assert (enabled c = true -> close_queued (eout (ctx c)) = false) as Hcq by (intros H; by apply (sc_idle _ Hc)).
  pose proof (settled_emitted c Hc) as Hem.
  assert (forall op p, op = WSLAY_PING \/ op = WSLAY_PONG ->
    frames (emitted (eout (ctx (queue_msg op p c)))) =
    if enabled c then (if zlen p <=? 125 then server_frame (mkOmsg op 0 p) else []) else []) as Hmsg.
  { intros op p Hop. destruct (queue_msg_emitted op p (eout (ctx c)) (sc_sender _ Hc)) as (_ & _ & _ & _ & H);
      [tauto|by destruct Hop as [-> | ->]|left; apply (sc_queue _ Hc)|].
    cbn in H |- *. rewrite H, Hem. cbn [app]. destruct (enabled c); [|done]. rewrite Hcq by done.
    unfold queueable. replace (wslay_is_ctrl_frame op) with true by by destruct Hop as [-> | ->].
    cbn [andb negb]. destruct (Z.leb_spec (zlen p) 125), (Z.ltb_spec 125 (zlen p)); try lia;
      cbn [orb negb]; [apply app_nil_r|done]. }
  destruct cmd as [p|p|cf]; cbn [queue_cmd frame_of]; [apply Hmsg; auto|apply Hmsg; auto|].
  destruct (queue_close_emitted (code cf) (reason cf) (eout (ctx c)) (sc_sender _ Hc)) as (_ & _ & H).
  cbn in H |- *. destruct (enabled c).
  - rewrite Hcq in H by done. cbn [andb negb] in H. destruct (zlen (reason cf) <=? 123).
    + destruct H as [_ ->]. apply app_nil_r.
    + by rewrite H, Hem.
  - cbn [andb] in H. by rewrite H, Hem.
Qed.

(** ** What the other directions leave alone *)

Lemma flush_as_taken d k (b b' : bridge) block :
  flush_as d k b = Ok (b', block) -> taken b' = taken b ++ [(d, block)].
Proof using Type. unfold flush_as. intros E. apply bind_Ok in E as ([c blk] & _ & [= <- <-]). done. Qed.

Lemma write_ws_taken d block (b : bridge) : taken (write_ws error_text config d block b) = taken b.
Proof using Type. apply (f_equal l_taken (write_ws_ledger error_text config d block b)). Qed.

Lemma after_write_taken d r (b : bridge) : taken (after_write error_text config d r b) = taken b.
Proof using Type. apply (f_equal l_taken (after_write_ledger error_text config d r b)). Qed.

Lemma after_peer_write_taken outbound closed evs (b : bridge) :
  taken (after_peer_write error_text config outbound closed evs b) = taken b.
Proof using Type. apply (f_equal l_taken (after_peer_write_ledger error_text config outbound closed evs b)). Qed.

(** Blocks of other directions are added. *)
Definition adds (b b' : bridge) : Prop :=
  taken b' = taken b \/ exists d block, d <> ControlDir /\ taken b' = taken b ++ [(d, block)].

Lemma adds_own (b b' : bridge) : adds b b' -> own ControlDir (taken b') = own ControlDir (taken b).
Proof using Type.
  intros [-> |(d & block & Hd & ->)]; [done|]. by rewrite own_snoc, decide_False, app_nil_r.
Qed.

Lemma section_adds d k f (b b' : bridge) :
  d <> ControlDir -> (forall b block, taken (f block b) = taken b) ->
  ('(b, block) ← flush_as d k b; Ok (f block b)) = Ok b' -> adds b b'.
Proof using Type.
  intros Hd Hf E0. apply bind_Ok in E0 as ([b2 block] & E1 & [= <-]). right.
  exists d, block. rewrite Hf. split; [done|]. by eapply flush_as_taken.
Qed.

Lemma ka_check_adds ka (b b' : bridge) : ka_check error_text config ka b = Ok b' -> adds b b'.
Proof using Type.
  unfold ka_check. destruct (_ <? _); [intros [= <-]; by left|].
  apply (section_adds KeepAliveDir _ (fun block b => write_ws error_text config KeepAliveDir block (set_d4 D4PingWrite b))); [done|].
  intros b2 block. by rewrite write_ws_taken.
Qed.

Lemma start_own (b : bridge) :
  Bridge.start error_text config = Ok b -> own ControlDir (taken b) = [] /\ ended b = None.
Proof using Type.
  intros Hs. unfold Bridge.start in Hs. cbn [server_init wslay_c] in Hs.
  destruct (keepalive config) as [ka|] eqn:Hka; [|by injection Hs as <-].
  rewrite (adds_own _ _ (ka_check_adds ka _ b Hs)).
  by destruct (ka_check_spec error_text config ka _ b Hka Hs) as (-> & _).
Qed.

(** Every event but a command adds blocks of other directions. *)
Lemma step_taken e (b b' : bridge) :
  Bridge.step error_text config e b = Ok b' -> (forall cmd, e <> Command cmd) ->
  adds b b'.
Proof using Type.
  intros E Hcmd. unfold Bridge.step in E. destruct (ended b); [injection E as <-; by left|].
  destruct e as [d|r|r| |r|cmd| | |r]; try (injection E as <-; by left).
  - destruct (d1 b); try (injection E as <-; by left). destruct (read_fits r); [|injection E as <-; by left].
    destruct r as [e|[|x data]]; cbn [ws_read] in E; [injection E as <-; by left..|].
    apply bind_Ok in E as ([[[[c tp] outbound] closed] evs] & _ & E). right.
    exists WsToPeer, outbound. split; [done|]. destruct tp; injection E as <-; [by rewrite after_peer_write_taken|done].
  - destruct (d1 b) as [|tp outbound closed evs| | |]; try (injection E as <-; by left).
    destruct r as [e|[]]; cbn [peer_wrote] in E; [|injection E as <-; left; by rewrite after_peer_write_taken].
    revert E. apply (section_adds WsToPeer _ (fun block b => write_ws error_text config WsToPeer block
      (set_d1 D1ErrWrite (set_history (ws_in b) (peer_in b) (taken b) true b)))); [done|].
    intros b2 block. by rewrite write_ws_taken.
  - destruct (d1 b); injection E as <-; by left.
  - destruct (d2 b); try (injection E as <-; by left). destruct (read_fits r); [|injection E as <-; by left].
    destruct r as [e|[|x data]]; cbn [peer_read] in E; revert E.
    + apply (section_adds PeerToWs _ (fun block b => write_ws error_text config PeerToWs block (set_d2 (D2CloseWrite (error_close config)) b)));
        [done|]. intros b2 block. by rewrite write_ws_taken.
    + apply (section_adds PeerToWs _ (fun block b => write_ws error_text config PeerToWs block (set_d2 (D2CloseWrite (Bridge.close config)) b)));
        [done|]. intros b2 block. by rewrite write_ws_taken.
    + apply (section_adds PeerToWs _ (fun block b => write_ws error_text config PeerToWs block (set_d2 D2WsWrite b)) (set_history _ _ _ _ b));
        [done|]. intros b2 block. by rewrite write_ws_taken.
  - by destruct (Hcmd cmd).
  - destruct (d3 b); injection E as <-; by left.
  - destruct (keepalive config) as [ka|]; [|injection E as <-; by left]. unfold ka_timer in E.
    destruct (d4 b); try (injection E as <-; by left); (destruct (_ <=? now b); [|injection E as <-; by left]).
    + by apply (ka_check_adds ka).
    + destruct (_ <=? _); [|by apply (ka_check_adds ka)]. revert E.
      apply (section_adds KeepAliveDir _ (fun block b => write_ws error_text config KeepAliveDir block (set_d4 D4CloseWrite b))); [done|].
      intros b2 block. by rewrite write_ws_taken.
  - destruct (lock b) as [|[d block] rest]; injection E as <-; left; [done|]. by rewrite after_write_taken.
Qed.

(** wslay does not start to send again. *)
Lemma step_enabled e (b b' : bridge) :
  settled_core (wslay b) -> Bridge.step error_text config e b = Ok b' ->
  enabled (wslay b') = true -> enabled (wslay b) = true.
Proof using Type.
  intros Hc E. destruct (step_moves error_text config e b b' E) as [Hl|Hs].
  { apply (f_equal l_core) in Hl. cbn in Hl. by rewrite Hl. }
  change (enabled (l_core (ledger_of b')) = true -> enabled (l_core (ledger_of b)) = true).
  change (settled_core (l_core (ledger_of b))) in Hc.
  destruct Hs as [c i p tk data c' tp block closed evs Hne Hlen Ef|c i p tk data c' block Hne Hlen Ef|c i p tk d k c' block Hk Ef _];
    cbn [l_core] in *.
  - destruct (feed_settled data c Hc Hlen) as (s1 & l1 & c1 & rc & c2 & _ & _ & _ & _ & _ & Hw & E2 & _ & _ & _ & _ & Hw2 & _).
    rewrite Ef in E2. injection E2 as <- _ _ _ _. rewrite Hw2, Hw. by intros [? _]%andb_true_iff.
  - destruct (data_ready data c Hc Hlen) as (Q1 & Q2 & Q3 & _).
    destruct (flush_settled (queue_msg WSLAY_BINARY_FRAME data) c Hc) as (c2 & E2 & _ & _ & _ & _ & Hw & _); try done.
    rewrite Ef in E2. injection E2 as <- _. by rewrite Hw, Q3.
  - destruct (control_ready k c Hc Hk) as (K1 & K2 & K3 & K4 & K5 & K6).
    destruct (flush_settled k c Hc) as (c2 & E2 & _ & _ & _ & _ & Hw & _); auto.
    rewrite Ef in E2. injection E2 as <- _. rewrite Hw, K3. by intros [? _]%andb_true_iff.
Qed.

(** ** Runs *)

Definition runs (b : bridge) : Prop :=
  exists es b0, Bridge.start error_text config = Ok b0 /\ Bridge.run_from error_text config es b0 = Ok b.

Lemma runs_step e (b : bridge) : runs b -> exists b', Bridge.step error_text config e b = Ok b' /\ runs b'.
Proof using Type.
  intros (es & b0 & Hs & Hr). destruct (tunnel_run error_text config (es ++ [e])) as (b0' & b' & E0 & E & _).
  rewrite Hs in E0. injection E0 as <-. exists b'. split; [|by exists (es ++ [e]), b0].
  rewrite bridge_run_app, Hr in E. cbn in E. by destruct (Bridge.step error_text config e b).
Qed.

Lemma runs_settled (b : bridge) : runs b -> settled_core (wslay b).
Proof using Type. intros (es & b0 & Hs & Hr). by eapply run_settled. Qed.

Lemma runs_start : exists b, Bridge.start (Ctx := wslay_event_context) error_text config = Ok b /\ runs b.
Proof using Type.
  destruct (tunnel_run error_text config []) as (b & _ & E & _). exists b. split; [exact E|]. by exists [], b.
Qed.

(** One block for each command: its frame, or nothing once a Close has been sent. *)
Definition carried (cmds : list ControlCmd) (open : bool) (blocks : list bytes) : Prop :=
  exists cmds1 cmds2, cmds = cmds1 ++ cmds2 /\
    blocks = (frame_of <$> cmds1) ++ replicate (length cmds2) [] /\ (open = true -> cmds2 = []).

Record control_ok (s : t) : Prop := {
  ct_runs : runs (tunnel s);
  ct_carried : carried (taken_in s) (enabled (wslay (tunnel s))) (own ControlDir (taken (tunnel s)));
  ct_live : ended (tunnel s) = None -> receiver (chan s) = true /\ sent s = taken_in s ++ queue (chan s);
  ct_dead : ended (tunnel s) <> None -> receiver (chan s) = false;
  ct_sent : taken_in s `prefix_of` sent s;
}.

Lemma carried_less cmds (o o' : bool) blocks : (o' = true -> o = true) -> carried cmds o blocks -> carried cmds o' blocks.
Proof using Type. intros H (c1 & c2 & H1 & H2 & H3). exists c1, c2. auto. Qed.

Lemma carried_more cmds cmd (o o' : bool) blocks :
  (o' = true -> o = true) -> carried cmds o blocks ->
  carried (cmds ++ [cmd]) o' (blocks ++ [if o then frame_of cmd else []]).
Proof using Type.
  intros Ho (c1 & c2 & -> & -> & H3). destruct o.
  - rewrite (H3 eq_refl), app_nil_r. exists (c1 ++ [cmd]), []. by rewrite fmap_app, !app_nil_r.
  - exists c1, (c2 ++ [cmd]). rewrite <- !app_assoc. split; [done|]. split; [|intros H; by specialize (Ho H)].
    f_equal. rewrite length_app. cbn. by rewrite replicate_add.
Qed.

(** An event of the bridge other than a command. *)
Lemma bridges_ok e s :
  (forall cmd, e <> Command cmd) -> control_ok s ->
  exists b, Bridge.step error_text config e (tunnel s) = Ok b /\
    control_ok (mk b (settle b (chan s)) (sent s) (taken_in s)).
Proof using Type.
  intros He [H1 H2 H3 H4 H5]. destruct (runs_step e (tunnel s) H1) as (b & E & Hb). exists b. split; [exact E|].
  split; cbn [tunnel chan sent taken_in]; [done| | | |done].
  - apply (carried_less _ (enabled (wslay (tunnel s)))).
    { apply (step_enabled e _ _ (runs_settled _ H1) E). }
    by rewrite (adds_own _ _ (step_taken e _ _ E He)).
  - intros Hn. unfold settle. rewrite Hn. apply H3. destruct (ended (tunnel s)) as [x|] eqn:Ex; [|done].
    unfold Bridge.step in E. rewrite Ex in E. injection E as <-. congruence.
  - intros Hn. unfold settle. by destruct (ended b).
Qed.

Lemma receives_ok cmd rest s :
  ended (tunnel s) = None -> d3 (tunnel s) = D3Recv -> queue (chan s) = cmd :: rest -> control_ok s ->
  exists b, Bridge.step error_text config (Command cmd) (tunnel s) = Ok b /\
    control_ok (mk b (settle b (mkChannel rest (senders (chan s)) (receiver (chan s)))) (sent s) (taken_in s ++ [cmd])).
Proof using Type.
  intros He Hd Hq [H1 H2 H3 H4 H5]. destruct (runs_step (Command cmd) (tunnel s) H1) as (b & E & Hb).
  exists b. split; [exact E|]. destruct (H3 He) as [Hr Hsent]. rewrite Hq in Hsent.
  split; cbn [tunnel chan sent taken_in]; [done| | | |].
  - unfold Bridge.step in E. rewrite He, Hd in E.
    change (command error_text config cmd (tunnel s)) with
      ('(s, block) ← flush_as ControlDir (queue_cmd cmd) (tunnel s);
       Ok (write_ws error_text config ControlDir block (set_d3 D3WsWrite s))) in E.
    destruct (flush_cmd cmd (wslay (tunnel s)) (runs_settled _ H1)) as (c' & Ef & Hen).
    unfold flush_as in E. rewrite Ef in E. cbn [mbind outcome_bind] in E. injection E as <-.
    rewrite write_ws_taken. cbn [taken set_d3 set_history]. rewrite own_snoc, decide_True by done.
    apply carried_more; [|done]. intros Hw. apply Hen.
    match type of Hw with enabled (wslay (write_ws _ _ _ ?bl ?x)) = true =>
      pose proof (f_equal l_core (write_ws_ledger error_text config ControlDir bl x)) as Hl end.
    cbn [l_core ledger_of] in Hl. rewrite Hl in Hw. exact Hw.
  - intros Hn. unfold settle. rewrite Hn. cbn. by rewrite Hsent, <- app_assoc.
  - intros Hn. unfold settle. by destruct (ended b).
  - exists rest. by rewrite Hsent, <- app_assoc.
Qed.

Lemma control_step_ok e s : control_ok s -> exists s', step e s = Ok s' /\ control_ok s'.
Proof using Type.
  intros Hs. pose proof Hs as [H1 H2 H3 H4 H5]. destruct e as [cmd| | |e]; cbn [step].
  - destruct (senders (chan s)) eqn:Hse; [|by exists s]. unfold send. destruct (receiver (chan s)) eqn:Hr.
    + eexists. split; [reflexivity|]. split; cbn [tunnel chan sent taken_in queue receiver]; try done.
      * intros He. destruct (H3 He) as [_ ->]. by rewrite <- app_assoc.
      * by apply prefix_app_r.
    + eexists. split; [reflexivity|]. split; cbn [tunnel chan sent taken_in]; rewrite ?Hr; try done.
  - eexists. split; [reflexivity|]. by split.
  - destruct (ended (tunnel s)) eqn:He; [by exists s|]. destruct (d3 (tunnel s)) eqn:Hd; try by exists s.
    destruct (queue (chan s)) as [|cmd rest] eqn:Hq.
    + destruct (senders (chan s)) eqn:Hse; [by exists s|].
      destruct (bridges_ok CommandsGone s ltac:(done) Hs) as (b & E & Hb). rewrite E. eexists. split; [reflexivity|].
      unfold Bridge.step in E. rewrite He, Hd in E. injection E as <-. unfold settle in Hb. cbn [ended set_d3] in Hb.
      by rewrite He in Hb.
    + destruct (receives_ok cmd rest s He Hd Hq Hs) as (b & -> & Hb). by eexists.
  - destruct (is_recv e) eqn:Hr; [by exists s|].
    destruct (bridges_ok e s) as (b & -> & Hb); [by intros cmd ->|done|]. by eexists.
Qed.

(** C32: Control frames keep their order.  In every run of the bridge with a control channel, whatever
    is sent, received, read, written or dropped, and in whatever order: [send] fails if and only
    if the bridge has ended; what direction 3 has received is a beginning of what
    was sent with success, and all that is not still queued while the bridge runs; and the blocks
    it took for the socket are, one for each command and in order, the frames of
    the commands (nothing for one that is too long), until a Close is sent: from then on
    nothing. *)
Theorem control_in_order es :
  exists s0 s, start = Ok s0 /\ run_from es s0 = Ok s /\
    (forall cmd, snd (send cmd (chan s)) = true <-> ended (tunnel s) = None) /\
    taken_in s `prefix_of` sent s /\
    (ended (tunnel s) = None -> sent s = taken_in s ++ queue (chan s)) /\
    carried (taken_in s) (enabled (wslay (tunnel s))) (own ControlDir (taken (tunnel s))).
Proof using Type.
  destruct runs_start as (b & Eb & Hb). set (s0 := mk b control_channel [] []).
  assert (control_ok s0) as H0.
  { split; try done.
    - exists [], []. split; [done|]. by split; [apply start_own|].
    - intros He. by destruct (start_own b Eb) as [_ ?]. }
  exists s0. assert (exists s, run_from es s0 = Ok s /\ control_ok s) as (s & E & [H1 H2 H3 H4 H5]).
  { clearbody s0. revert s0 H0. induction es as [|e es IH]; intros s0 H0; [by exists s0|]. cbn.
    destruct (control_step_ok e s0 H0) as (s1 & -> & Hs1). by apply IH. }
  exists s. split; [unfold start; by rewrite Eb|]. split; [exact E|]. split; [|split; [done|split; [|done]]].
  - intros cmd. unfold send. destruct (ended (tunnel s)) as [x|].
    + rewrite H4 by done. by split.
    + destruct (H3 eq_refl) as [-> _]. by split.
  - intros He. by apply H3.
Qed.
End control.
