(* ===== verification/Proxy.v ===== *)
(** * Proxy: the h2ts-proxy binary

    Models [rust/crates/h2ts-server/src/bin/h2ts-proxy.rs]: the command line, the
    handler of one request, and what the task it spawns bridges.  The parser of
    socket addresses is a parameter; the sockets themselves are outside. *)

From S2P Require Import Prelude Text Handshake Bridge.

(** ** The command line *)

(** [str::parse::<u64>]: an optional plus sign and at least one digit, no overflow. *)
Definition is_digit (b : Z) : bool := (48 <=? b) && (b <=? 57).

Fixpoint parse_digits (acc : Z) (l : bytes) : option Z :=
  match l with
  | [] => Some acc
  | b :: l =>
      if is_digit b && (acc * 10 + (b - 48) <? 2 ^ 64) then parse_digits (acc * 10 + (b - 48)) l
      else None
  end.

Definition parse_u64 (l : bytes) : option Z :=
  match l with
  | [] => None
  | b :: l' =>
      if b =? 43 then match l' with [] => None | _ => parse_digits 0 l' end
      else parse_digits 0 l
  end.

Definition ALLOW_IMPLICIT_CODEC : bytes := str "--allow-implicit-codec".
Definition NO_KEEPALIVE : bytes := str "--no-keepalive".
Definition ALLOWED_ORIGIN : bytes := str "--allowed-origin".

(** The loop over the arguments: the allowed origins and the positional ones. *)
Fixpoint scan (raw : list bytes) : list bytes * list bytes :=
  match raw with
  | [] => ([], [])
  | a :: raw' =>
      if bool_decide (a = ALLOW_IMPLICIT_CODEC \/ a = NO_KEEPALIVE) then scan raw'
      else if bool_decide (a = ALLOWED_ORIGIN) then
        match raw' with
        | v :: raw'' => let '(os, ps) := scan raw'' in (v :: os, ps)
        | [] => ([], [])
        end
      else let '(os, ps) := scan raw' in (os, a :: ps)
  end.

Record Config (Addr : Type) := proxyConfig {
  listen : Addr;
  upstream : bytes;
  proxy_keepalive : option KeepAlive;
  proxy_implicit_codec : bool;
  proxy_origins : option (list bytes);
}.
Arguments proxyConfig {Addr} _ _ _ _ _.
Arguments listen {Addr} _.
Arguments upstream {Addr} _.
Arguments proxy_keepalive {Addr} _.
Arguments proxy_implicit_codec {Addr} _.
Arguments proxy_origins {Addr} _.

(** The third positional argument, in seconds ([Duration::from_secs]). *)
Definition keepalive_arg (arg : option bytes) : option KeepAlive :=
  match arg with
  | Some s =>
      match parse_u64 s with
      | Some n => if 0 <? n then Some (KeepAlive_new (n * 1000) (n * 1000)) else None
      | None => None
      end
  | None => Some KeepAlive_default
  end.

Section proxy.
Context {Addr AddrError : Type} (parse_addr : bytes -> AddrError + Addr).

(** [main] up to the listener; an address that does not parse ends it. *)
Definition configure (raw : list bytes) : AddrError + Config Addr :=
  let allow_implicit_codec := bool_decide (ALLOW_IMPLICIT_CODEC ∈ raw) in
  let no_keepalive := bool_decide (NO_KEEPALIVE ∈ raw) in
  let '(allowed_origins, args) := scan raw in
  let allowed_origins :=
    match allowed_origins with [] => None | _ => Some allowed_origins end in
  match parse_addr (default (str "127.0.0.1:8091") (args !! 0%nat)) with
  | inl e => inl e
  | inr listen =>
      inr (proxyConfig listen (default (str "127.0.0.1:8000") (args !! 1%nat))
             (if no_keepalive then None else keepalive_arg (args !! 2%nat))
             allow_implicit_codec allowed_origins)
  end.

(** ** One request *)

(** What the spawned task bridges once the connection to the upstream is settled. *)
Inductive task :=
  | BridgeEmpty (config : BridgeConfig)  (* no upstream: an empty peer *)
  | BridgeUpstream (config : BridgeConfig).

Definition BAD_GATEWAY : CloseFrame := closeFrame 1014 (str "bad gateway").

Context `{HT : Http} `{DG : Digests} {HyperError Upgraded IoError Tcp : Type}.

(** The response, and the task of an accepted request: it waits for the upgrade, and
    returns if that fails; then for the connection to the upstream. *)
Definition handle (config : Config Addr) (req : Request)
    : outcome unit (Response * option (HyperError + Upgraded -> option (IoError + Tcp -> task))) :=
  match accept_with_options (HyperError:=HyperError) (Upgraded:=Upgraded) req (fun _ => None)
          {| allow_implicit_codec := proxy_implicit_codec config;
             allowed_origins := proxy_origins config |} with
  | Ok (resp, ws_fut) =>
      Ok (resp, Some (fun on_upgrade =>
         match ws_fut on_upgrade with
         | inl _ => None
         | inr _ =>
             Some (fun connect =>
               match connect with
               | inl _ =>
                   BridgeEmpty (bridgeConfig BAD_GATEWAY (error_close BridgeConfig_default) None
                     false false false false)
               | inr _ =>
                   BridgeUpstream (bridgeConfig (close BridgeConfig_default) BAD_GATEWAY
                     (proxy_keepalive config) false true false false)
               end)
         end))
  | Err err => Ok (rejection_response err, None)
  | Panic => Panic
  | OutOfFuel => OutOfFuel
  end.
End proxy.

(** ** Well-formed command lines *)

Inductive item :=
  | ImplicitCodec
  | NoKeepAlive
  | Origin (o : bytes)
  | Positional (a : bytes).

#[export] Instance item_eq_dec : EqDecision item.
Proof. solve_decision. Defined.

Definition render (i : item) : list bytes :=
  match i with
  | ImplicitCodec => [ALLOW_IMPLICIT_CODEC]
  | NoKeepAlive => [NO_KEEPALIVE]
  | Origin o => [ALLOWED_ORIGIN; o]
  | Positional a => [a]
  end.

Definition is_flag (a : bytes) : bool :=
  bool_decide (a = ALLOW_IMPLICIT_CODEC \/ a = NO_KEEPALIVE \/ a = ALLOWED_ORIGIN).

(** The values are not flags themselves. *)
Definition well_formed (i : item) : bool :=
  match i with Origin o => negb (is_flag o) | Positional a => negb (is_flag a) | _ => true end.

Definition origins (l : list item) : list bytes :=
  l ≫= fun i => match i with Origin o => [o] | _ => [] end.
Definition positionals (l : list item) : list bytes :=
  l ≫= fun i => match i with Positional a => [a] | _ => [] end.

Lemma not_flag a :
  is_flag a = false -> a <> ALLOW_IMPLICIT_CODEC /\ a <> NO_KEEPALIVE /\ a <> ALLOWED_ORIGIN.
Proof. unfold is_flag. rewrite bool_decide_eq_false. tauto. Qed.

Lemma scan_render l :
  forallb well_formed l = true -> scan (l ≫= render) = (origins l, positionals l).
Proof.
  induction l as [|i l IH]; [done|]. cbn [forallb]. intros [Hi Hl]%andb_true_iff.
  specialize (IH Hl). destruct i as [| |o|a]; cbn [mbind list_bind render app] in *.
  - cbn. exact IH.
  - cbn. exact IH.
  - change (scan (ALLOWED_ORIGIN :: o :: (l ≫= render)) = (o :: origins l, positionals l)).
    cbn [scan]. rewrite bool_decide_eq_false_2 by (intros [E|E]; discriminate E).
    rewrite bool_decide_eq_true_2 by done. by rewrite IH.
  - change (scan (a :: (l ≫= render)) = (origins l, a :: positionals l)).
    apply negb_true_iff, not_flag in Hi as (H1 & H2 & H3).
    cbn [scan]. rewrite bool_decide_eq_false_2 by tauto. rewrite bool_decide_eq_false_2 by done.
    by rewrite IH.
Qed.

Lemma implicit_render l :
  forallb well_formed l = true -> ALLOW_IMPLICIT_CODEC ∈ l ≫= render <-> ImplicitCodec ∈ l.
Proof.
  intros Hl. rewrite list_elem_of_bind. split; [|intros H; exists ImplicitCodec; split; [by left|done]].
  intros (j & Hf & Hj). rewrite forallb_forall in Hl. specialize (Hl j (proj1 (list_elem_of_In _ _) Hj)).
  destruct j as [| |o|a]; cbn in Hl, Hf; [done|exfalso..].
  - apply list_elem_of_singleton in Hf. discriminate Hf.
  - apply negb_true_iff, not_flag in Hl as (H1 & _).
    apply elem_of_cons in Hf as [E|Hf%list_elem_of_singleton]; [discriminate E|done].
  - apply negb_true_iff, not_flag in Hl as (H1 & _). by apply list_elem_of_singleton in Hf.
Qed.

Lemma no_keepalive_render l :
  forallb well_formed l = true -> NO_KEEPALIVE ∈ l ≫= render <-> NoKeepAlive ∈ l.
Proof.
  intros Hl. rewrite list_elem_of_bind. split; [|intros H; exists NoKeepAlive; split; [by left|done]].
  intros (j & Hf & Hj). rewrite forallb_forall in Hl. specialize (Hl j (proj1 (list_elem_of_In _ _) Hj)).
  destruct j as [| |o|a]; cbn in Hl, Hf; [exfalso|done|exfalso..].
  - apply list_elem_of_singleton in Hf. discriminate Hf.
  - apply negb_true_iff, not_flag in Hl as (_ & H1 & _).
    apply elem_of_cons in Hf as [E|Hf%list_elem_of_singleton]; [discriminate E|done].
  - apply negb_true_iff, not_flag in Hl as (_ & H1 & _). by apply list_elem_of_singleton in Hf.
Qed.

Section gate.
Context {Addr AddrError : Type} (parse_addr : bytes -> AddrError + Addr).
Context `{HT : Http} `{DG : Digests} {HyperError Upgraded IoError Tcp : Type}.

Lemma configure_render l :
  forallb well_formed l = true ->
  configure parse_addr (l ≫= render) =
  match parse_addr (default (str "127.0.0.1:8091") (positionals l !! 0%nat)) with
  | inl e => inl e
  | inr listen =>
      inr (proxyConfig listen (default (str "127.0.0.1:8000") (positionals l !! 1%nat))
             (if bool_decide (NoKeepAlive ∈ l) then None
              else keepalive_arg (positionals l !! 2%nat))
             (bool_decide (ImplicitCodec ∈ l))
             (match origins l with [] => None | _ => Some (origins l) end))
  end.
Proof.
  intros Hl. unfold configure. rewrite (scan_render l Hl).
  rewrite (bool_decide_ext _ _ (implicit_render l Hl)).
  by rewrite (bool_decide_ext _ _ (no_keepalive_render l Hl)).
Qed.

(** The request's origin is one of the list, which may be empty for none required. *)
Definition origin_allowed (l : list bytes) (req : Request) : Prop :=
  l = [] \/ exists o a, text req ORIGIN o /\ a ∈ l /\ eq_ignore_ascii_case a o = true.

(** C24: The gate the command line sets: flags and their values are recognised anywhere
    among the arguments, the others are the listener, the upstream and the keepalive
    in order; and with that configuration a request is answered 101, and bridged, if
    and only if it is a WebSocket upgrade, from an allowed origin when origins are
    listed, offering h2ts unless implicit codecs are allowed. *)
Theorem proxy_gate `{!HttpLaws HT, !DigestsLaws DG} l :
  forallb well_formed l = true ->
  match configure parse_addr (l ≫= render) with
  | inl e => parse_addr (default (str "127.0.0.1:8091") (positionals l !! 0%nat)) = inl e
  | inr c =>
      parse_addr (default (str "127.0.0.1:8091") (positionals l !! 0%nat)) = inr (listen c) /\
      upstream c = default (str "127.0.0.1:8000") (positionals l !! 1%nat) /\
      proxy_keepalive c =
        (if decide (NoKeepAlive ∈ l) then None else keepalive_arg (positionals l !! 2%nat)) /\
      forall req, exists resp task,
        handle (HyperError:=HyperError) (Upgraded:=Upgraded) (IoError:=IoError) (Tcp:=Tcp) c req
          = Ok (resp, task) /\
        (status resp = 101 <->
          upgrade_wanted req /\ origin_allowed (origins l) req /\
          (ImplicitCodec ∈ l \/
           exists o, offers req o /\ eq_ignore_ascii_case o DEFAULT_SUBPROTOCOL = true)) /\
        (is_Some task <-> status resp = 101)
  end.
Proof.
  intros Hl. rewrite (configure_render l Hl). destruct (parse_addr _) as [e|a]; [done|].
  cbn [listen upstream proxy_keepalive]. split_and!; [done|done| |].
  { by destruct (decide (NoKeepAlive ∈ l)) as [H|H]; [rewrite bool_decide_eq_true_2|rewrite bool_decide_eq_false_2]. }
  intros req. unfold handle. cbn [proxy_implicit_codec proxy_origins].
  set (options := {| allow_implicit_codec := _; allowed_origins := _ |}).
  assert (origin_admitted req options <-> origin_allowed (origins l) req) as Horigin.
  { unfold origin_admitted, origin_allowed. subst options. cbn. destruct (origins l); [by split; [left|]|].
    split; [by right|]. by intros [?|?]. }
  assert (allow_implicit_codec options = true <-> ImplicitCodec ∈ l) as Himp by apply bool_decide_eq_true.
  setoid_rewrite <- Horigin. setoid_rewrite <- Himp.
  pose proof (accept_verdict (E:=HyperError) (U:=Upgraded) req (fun _ => None) options) as HV. unfold verdict_ok in HV.
  destruct (accept_with_options req (fun _ => None) options) as [[resp fut]|[| | |e]| |]; try done.
  - destruct HV as (Hu & Ho & Hs & _ & _ & _ & Hc). eexists _, _. split; [done|].
    rewrite Hs. split; [|by split; [|by eexists]]. split; [intros _|done]. split_and!; try done.
    destruct Hc as [(p & o & _ & [=] & _)|[(_ & l1 & p & l2 & _ & E & Hp & _)|(_ & _ & Hc & _)]]; [right|by left].
    exists p. split; [|exact Hp]. apply offered_spec. rewrite E. apply elem_of_app. right. by left.
  - eexists _, _. split; [done|]. cbn [status rejection_response]. split; [|by split; [intros []|]]. split; [done|tauto].
  - destruct HV as (Hu & Ho & Hi & Hoff & _). eexists _, _. split; [done|]. cbn [status rejection_response].
    split; [|by split; [intros []|]]. split; [done|]. intros (_ & _ & [Hi'|(o & Ho' & E)]);
      [congruence|]. exfalso. rewrite Forall_forall in Hoff. by apply (Hoff o); [apply offered_spec|].
  - destruct HV as [Hu Ho]. eexists _, _. split; [done|]. cbn [status rejection_response]. split; [|by split; [intros []|]].
    split; [done|tauto].
Qed.
End gate.

(** A flag without its value is dropped, and no allowlist is left: any origin passes. *)
Example dangling_origin :
  exists c, configure (AddrError:=False) inr [str "127.0.0.1:80"; ALLOWED_ORIGIN] = inr c /\
  proxy_origins c = None.
Proof. eexists. split; reflexivity. Qed.

(** A keepalive that is not a number turns the keepalive off. *)
Example keepalive_typo : keepalive_arg (Some (str "30s")) = None.
Proof. reflexivity. Qed.

Import Concrete.

Lemma proxy_gate_witness :
  exists c resp task,
    configure (AddrError:=False) inr
      [str "127.0.0.1:80"; ALLOWED_ORIGIN; str "https://a.example"; ALLOW_IMPLICIT_CODEC] = inr c /\
    handle (HyperError:=False) (Upgraded:=unit) (IoError:=False) (Tcp:=unit) c (asks (str "binary"))
      = Ok (resp, task) /\
    status resp <> 101.
Proof.
  pose proof (proxy_gate (AddrError:=False) inr (HyperError:=False) (Upgraded:=unit)
    (IoError:=False) (Tcp:=unit)
    [Positional (str "127.0.0.1:80"); Origin (str "https://a.example"); ImplicitCodec]
    ltac:(vm_compute; reflexivity)) as H.
  remember (configure _ _) as r eqn:Hr in H. vm_compute in Hr. subst r.
  destruct H as (_ & _ & _ & H). destruct (H (asks (str "binary"))) as (resp & task & E & Hs & _).
  eexists _, resp, task. split; [vm_compute; reflexivity|]. split; [exact E|].
  intros H101. apply Hs in H101 as (_ & [Hn|(o & a & (v & Hv & _) & _)] & _).
  - vm_compute in Hn. discriminate Hn.
  - discriminate Hv.
Defined.
