(* ===== verification/Gateway.v ===== *)
(** * Gateway: the proxy as a process

    The accept loop of [main] in [rust/crates/h2ts-server/src/bin/h2ts-proxy.rs], the
    connections it serves and the tasks that [handle] spawns, run together: the
    request handler of Proxy.v, the bridge of Bridge.v over the wslay of WslayC.v.  An
    event is what one of the tasks was waiting for; hyper's HTTP/1 connection is outside,
    and so are the sockets.  [origin_gone] is the invariant of the bridge to the empty
    peer, for an origin that is not reached. *)

From S2P Require Import Prelude Text Handshake Bridge BridgeFacts WslayC WslayFacts WslayStream.
From S2P Require Import WslaySend Tunnel TunnelEnds Proxy.

Section gateway.
Context `{HT : Http} `{DG : Digests} {Addr HyperError Upgraded IoError Tcp : Type}.
Variable error_text : IoError -> bytes.
Variable config : Config Addr.

(** ** The tasks *)

(** The accept loop: at [listener.accept()], or in the sleep after a failed one. *)
Inductive acceptor :=
  | Accepting
  | BackingOff (until : Z).

(** A spawned task: at [ws_fut.await], at [TcpStream::connect], in [bridge_with]. *)
Inductive tunnel :=
  | AwaitUpgrade (f : HyperError + Upgraded -> option (IoError + Tcp -> task))
  | Connecting (f : IoError + Tcp -> task)
  | Bridging (what : task) (s : @Bridge.t wslay_event_context IoError)
  | Returned.

(** A connection being served, and what the service answered on it. *)
Record connection := mkConnection {
  serving : bool;
  responses : list Response;
}.

Record gateway := mkGateway {
  clock : Z;
  accept_loop : acceptor;
  connections : list connection;
  tunnels : list tunnel;
}.

Definition listening : gateway := mkGateway 0 Accepting [] [].

Definition config_of (what : task) : BridgeConfig :=
  match what with BridgeEmpty c | BridgeUpstream c => c end.

(** [tokio::io::empty()]: reads are at the end, writes succeed. *)
Definition possible (what : task) (e : @Bridge.event IoError) : bool :=
  match what, e with
  | BridgeEmpty _, PeerRead (inr []) => true
  | BridgeEmpty _, PeerRead _ => false
  | BridgeEmpty _, PeerWrote (inl _) => false
  | _, _ => true
  end.

Inductive happening :=
  | Later (d : Z)
  | Accepted (r : IoError + unit)
  | SleepOver
  | Requested (k : nat) (req : Request)
  | Served (k : nat) (r : HyperError + unit)
  | UpgradeDone (j : nat) (r : HyperError + Upgraded)
  | Connected (j : nat) (r : IoError + Tcp)
  | Bridged (j : nat) (e : @Bridge.event IoError).

Definition set_tunnel (j : nat) (x : tunnel) (s : gateway) : gateway :=
  mkGateway (clock s) (accept_loop s) (connections s) (<[j := x]> (tunnels s)).

(** An event no task is waiting for changes nothing. *)
Definition happen (e : happening) (s : gateway) : outcome unit gateway :=
  match e with
  | Later d => Ok (mkGateway (clock s + Z.max 0 d) (accept_loop s) (connections s) (tunnels s))
  | Accepted r =>
      match accept_loop s with
      | Accepting =>
          Ok match r with
             | inr _ => mkGateway (clock s) Accepting (connections s ++ [mkConnection true []]) (tunnels s)
             | inl _ => mkGateway (clock s) (BackingOff (clock s + 50)) (connections s) (tunnels s)
             end
      | BackingOff _ => Ok s
      end
  | SleepOver =>
      Ok match accept_loop s with
         | BackingOff until =>
             if until <=? clock s then mkGateway (clock s) Accepting (connections s) (tunnels s) else s
         | Accepting => s
         end
  | Requested k req =>
      match connections s !! k with
      | Some (mkConnection true rs) =>
          '(resp, f) ← handle config req;
          Ok (mkGateway (clock s) (accept_loop s) (<[k := mkConnection true (rs ++ [resp])]> (connections s))
                (tunnels s ++ match f with Some f => [AwaitUpgrade f] | None => [] end))
      | _ => Ok s
      end
  | Served k _ =>
      Ok match connections s !! k with
         | Some c => mkGateway (clock s) (accept_loop s) (<[k := mkConnection false (responses c)]> (connections s))
                       (tunnels s)
         | None => s
         end
  | UpgradeDone j r =>
      Ok match tunnels s !! j with
         | Some (AwaitUpgrade f) =>
             set_tunnel j match f r with Some g => Connecting g | None => Returned end s
         | _ => s
         end
  | Connected j r =>
      match tunnels s !! j with
      | Some (Connecting g) =>
          match start error_text (config_of (g r)) with
          | Ok b => Ok (set_tunnel j (Bridging (g r) b) s)
          | Err _ => Ok (set_tunnel j Returned s)
          | Panic => Panic
          | OutOfFuel => OutOfFuel
          end
      | _ => Ok s
      end
  | Bridged j e =>
      match tunnels s !! j with
      | Some (Bridging what b) =>
          if possible what e then
            b ← step error_text (config_of what) e b; Ok (set_tunnel j (Bridging what b) s)
          else Ok s
      | _ => Ok s
      end
  end.

Fixpoint happens (es : list happening) (s : gateway) : outcome unit gateway :=
  match es with
  | [] => Ok s
  | e :: es => s ← happen e s; happens es s
  end.

(** ** What holds in every run *)

Lemma happens_app es1 es2 s : happens (es1 ++ es2) s = s ← happens es1 s; happens es2 s.
Proof using Type.
  revert s. induction es1 as [|e es1 IH]; intros s; [done|]. cbn. destruct (happen e s); [apply IH|done..].
Qed.

(** The two things a tunnel bridges to. *)
Definition unreachable : task :=
  BridgeEmpty (bridgeConfig BAD_GATEWAY (error_close BridgeConfig_default) None false false false false).
Definition reached : task :=
  BridgeUpstream (bridgeConfig (close BridgeConfig_default) BAD_GATEWAY (proxy_keepalive config) false true false false).

Definition connects (g : IoError + Tcp -> task) : Prop :=
  forall r, g r = match r with inl _ => unreachable | inr _ => reached end.

Definition upgrades (f : HyperError + Upgraded -> option (IoError + Tcp -> task)) : Prop :=
  forall r g, f r = Some g -> connects g.

Lemma handle_ok `{!HttpLaws HT, !DigestsLaws DG} req :
  exists resp f, handle (HyperError:=HyperError) (Upgraded:=Upgraded) (IoError:=IoError) (Tcp:=Tcp) config req
    = Ok (resp, f) /\
    match f with Some f => status resp = 101 /\ upgrades f | None => status resp <> 101 end.
Proof using Type.
  unfold handle. set (options := {| allow_implicit_codec := _; allowed_origins := _ |}).
  pose proof (accept_verdict (E:=HyperError) (U:=Upgraded) req (fun _ => None) options) as HV. unfold verdict_ok in HV.
  destruct (accept_with_options req (fun _ => None) options) as [[resp fut]|e| |]; try done.
  - destruct HV as (_ & _ & Hs & _). eexists _, _. split; [reflexivity|]. split; [done|].
    intros r g. destruct (fut r); [done|]. intros [= <-] [?|?]; reflexivity.
  - eexists _, _. split; [reflexivity|]. by destruct e.
Qed.

(** A bridge that runs is a run of the bridge, with the configuration of its task. *)
Definition tunnel_ok (x : tunnel) : Prop :=
  match x with
  | AwaitUpgrade f => upgrades f
  | Connecting g => connects g
  | Bridging what b =>
      (what = unreachable \/ what = reached) /\
      exists es b0, start error_text (config_of what) = Ok b0 /\
        run_from error_text (config_of what) es b0 = Ok b /\
        Forall (fun e => possible what e = true) es
  | Returned => True
  end.

Definition switched (rs : list Response) : nat := length (filter (fun r => status r = 101) rs).

Lemma switched_snoc rs r : switched (rs ++ [r]) = (switched rs + if decide (status r = 101%Z) then 1 else 0)%nat.
Proof using Type.
  unfold switched. rewrite filter_app, length_app. f_equal. by destruct (decide _) as [H|H];
    [rewrite filter_cons_True|rewrite filter_cons_False].
Qed.

Record gateway_ok (s : gateway) : Prop := {
  gw_accept : match accept_loop s with BackingOff until => until <= clock s + 50 | Accepting => True end;
  gw_tunnels : Forall tunnel_ok (tunnels s);
  gw_count : length (tunnels s) = sum_list_with (fun c => switched (responses c)) (connections s);
}.

Lemma set_tunnel_ok j x s : tunnel_ok x -> gateway_ok s -> gateway_ok (set_tunnel j x s).
Proof using Type.
  intros Hx [H1 H2 H3]. split; cbn; [done| |by rewrite length_insert]. by apply Forall_insert.
Qed.

Lemma start_tunnel c : exists b, start (Ctx := wslay_event_context) error_text c = Ok b.
Proof using Type. destruct (tunnel_run error_text c []) as (b & _ & E & _). by exists b. Qed.

Lemma bridge_run_snoc c es e (b0 b : @Bridge.t wslay_event_context IoError) :
  start error_text c = Ok b0 -> run_from error_text c es b0 = Ok b ->
  exists b', step error_text c e b = Ok b' /\ run_from error_text c (es ++ [e]) b0 = Ok b'.
Proof using Type.
  intros Hs Hr. destruct (tunnel_run error_text c (es ++ [e])) as (b0' & b' & E0 & E & _).
  rewrite Hs in E0. injection E0 as <-. exists b'. split; [|exact E].
  rewrite bridge_run_app, Hr in E. cbn in E. by destruct (step error_text c e b).
Qed.

Lemma sum_insert {A} (f : A -> nat) k x y l :
  l !! k = Some x -> (sum_list_with f (<[k := y]> l) + f x = sum_list_with f l + f y)%nat.
Proof using Type.
  revert k. induction l as [|z l IH]; intros [|k] Hk; [done..| |].
  - injection Hk as ->. cbn. lia.
  - change (<[S k:=y]> (z :: l)) with (z :: <[k:=y]> l). cbn [sum_list_with]. specialize (IH k Hk). lia.
Qed.

Lemma happen_ok `{!HttpLaws HT, !DigestsLaws DG} e s :
  gateway_ok s -> exists s', happen e s = Ok s' /\ gateway_ok s'.
Proof using Type.
  intros Hs. pose proof Hs as [H1 H2 H3]. destruct e as [d|r| |k req|k r|j r|j r|j e]; cbn [happen].
  - eexists. split; [reflexivity|]. split; cbn; try done. destruct (accept_loop s); [done|]. lia.
  - destruct (accept_loop s) eqn:Ea; [|by exists s]. eexists. split; [reflexivity|].
    destruct r; split; cbn; try done; rewrite ?sum_list_with_app; cbn; lia.
  - eexists. split; [reflexivity|]. destruct (accept_loop s); [done|].
    destruct (_ <=? _); [by split|done].
  - destruct (connections s !! k) as [[[] rs]|] eqn:Hk; [|by exists s|by exists s].
    destruct (handle_ok req) as (resp & f & -> & Hf). eexists. split; [reflexivity|].
    pose proof (sum_insert (fun c => switched (responses c)) k _ (mkConnection true (rs ++ [resp])) _ Hk) as E.
    cbn [responses] in E. rewrite switched_snoc in E.
    split; cbn; [done| |]; destruct f as [f|].
    + apply Forall_app_2; [done|]. apply Forall_singleton, Hf.
    + by rewrite app_nil_r.
    + destruct Hf as [Hf _]. rewrite length_app, decide_True in * by done. cbn. lia.
    + rewrite decide_False in E by done. rewrite app_nil_r. lia.
  - destruct (connections s !! k) as [c|] eqn:Hk; [|by exists s]. eexists. split; [reflexivity|].
    pose proof (sum_insert (fun c => switched (responses c)) k _ (mkConnection false (responses c)) _ Hk) as E.
    cbn [responses] in E. split; cbn [connections tunnels accept_loop clock]; try done. lia.
  - destruct (tunnels s !! j) as [[f|g|what b|]|] eqn:Hj; [|by exists s..]. eexists. split; [reflexivity|].
    apply set_tunnel_ok; [|done]. pose proof (Forall_lookup_1 _ _ _ _ H2 Hj) as Hf.
    destruct (f r) as [g|] eqn:Eg; [by eapply Hf|done].
  - destruct (tunnels s !! j) as [[f|g|what b|]|] eqn:Hj; [by exists s| |by exists s..].
    pose proof (Forall_lookup_1 _ _ _ _ H2 Hj r) as Hg.
    destruct (start_tunnel (config_of (g r))) as [b Eb]. rewrite Eb. eexists. split; [reflexivity|].
    apply set_tunnel_ok; [|done]. split; [rewrite Hg; destruct r; auto|]. by exists [], b.
  - destruct (tunnels s !! j) as [[f|g|what b|]|] eqn:Hj; [by exists s..| |by exists s|by exists s].
    destruct (possible what e) eqn:Hp; [|by exists s].
    destruct (Forall_lookup_1 _ _ _ _ H2 Hj) as (Hw & es & b0 & E0 & E & Hes).
    destruct (bridge_run_snoc _ es e b0 b E0 E) as (b' & -> & E'). eexists. split; [reflexivity|].
    apply set_tunnel_ok; [|done]. split; [done|]. exists (es ++ [e]), b0. split_and!; try done.
    apply Forall_app_2; [done|]. by apply Forall_singleton.
Qed.

Lemma happens_ok `{!HttpLaws HT, !DigestsLaws DG} es s :
  gateway_ok s -> exists s', happens es s = Ok s' /\ gateway_ok s'.
Proof using Type.
  revert s. induction es as [|e es IH]; intros s Hs; [by exists s|]. cbn.
  destruct (happen_ok e s Hs) as (s1 & -> & H1). by apply IH.
Qed.

Lemma listening_ok : gateway_ok listening.
Proof using Type. by split; [|constructor|]. Qed.

(** C25: The gateway keeps serving, and each of its tunnels is a bridge of its own.  In every
    run, whatever is accepted, requested, fails or ends and in whatever order: nothing
    panics; there is one tunnel per request answered 101; a tunnel that bridges is
    a run of the bridge under one of two configurations, that of an origin
    that was reached or that of one that was not; and within 50 ms the
    listener is there for the next connection. *)
Theorem gateway_serves `{!HttpLaws HT, !DigestsLaws DG} es :
  exists s, happens es listening = Ok s /\
    length (tunnels s) = sum_list_with (fun c => switched (responses c)) (connections s) /\
    (forall j what b, tunnels s !! j = Some (Bridging what b) ->
       (what = unreachable \/ what = reached) /\
       exists es' b0, start error_text (config_of what) = Ok b0 /\
         run_from error_text (config_of what) es' b0 = Ok b /\
         Forall (fun e => possible what e = true) es') /\
    exists s', happens [Later 50; SleepOver; Accepted (inr tt)] s = Ok s' /\
      connections s' = connections s ++ [mkConnection true []].
Proof using Type.
  destruct (happens_ok es listening listening_ok) as (s & E & [H1 H2 H3]).
  exists s. split; [exact E|]. split; [exact H3|]. split.
  - intros j what b Hj. exact (Forall_lookup_1 _ _ _ _ H2 Hj).
  - cbn [happens happen mbind outcome_bind accept_loop clock].
    destruct (accept_loop s) as [|until]; cbn [mbind outcome_bind accept_loop]; [by eexists|].
    destruct (Z.leb_spec until (clock s + Z.max 0 50)); [|lia]. cbn [accept_loop]. by eexists.
Qed.

(** ** An origin that is not reached *)

(** Nothing is read from the empty peer but its end, and nothing written to it fails. *)
Record origin_gone (b : @Bridge.t wslay_event_context IoError) : Prop := {
  og_in : peer_in b = [];
  og_d1 : ended b = None -> d1 b <> D1ErrWrite;
  og_d2 : ended b = None -> d2 b = D2Read \/ d2 b = D2CloseWrite BAD_GATEWAY;
}.

Notation gone_config := (config_of unreachable).

Lemma gone_after_write d r b : origin_gone b -> origin_gone (after_write error_text gone_config d r b).
Proof using Type.
  intros [H1 H2 H3]. unfold after_write.
  destruct d; [destruct (d1 b) eqn:E1|destruct (d2 b) eqn:E2|destruct (d3 b) eqn:E3|destruct (d4 b) eqn:E4];
    try (by split; rewrite ?E1, ?E2); try destruct r; try case_match; split; cbn; auto; done.
Qed.

Lemma gone_write_ws d block b : origin_gone b -> origin_gone (write_ws error_text gone_config d block b).
Proof using Type. destruct block; cbn [write_ws]; [apply gone_after_write|]. by intros [H1 H2 H3]. Qed.

(** A section of a direction and its write. *)
Lemma gone_section d k f b b' :
  origin_gone b -> (forall b, origin_gone b -> origin_gone (f b)) ->
  ('(b, block) ← flush_as d k b; Ok (write_ws error_text gone_config d block (f b))) = Ok b' -> origin_gone b'.
Proof using Type.
  intros Hb Hf E. unfold flush_as in E. destruct (flush k (wslay b)) as [[c block]| | |]; try done.
  injection E as <-. apply gone_write_ws, Hf. by destruct Hb.
Qed.

Lemma gone_after_peer_write outbound closed events b :
  origin_gone b -> origin_gone (after_peer_write error_text gone_config outbound closed events b).
Proof using Type.
  intros [H1 H2 H3]. unfold after_peer_write.
  destruct (on_events_hooks gone_config events b None) as (h & pc & ->). by apply gone_write_ws.
Qed.

Lemma gone_step e b b' :
  possible unreachable e = true -> step error_text gone_config e b = Ok b' -> origin_gone b -> origin_gone b'.
Proof using Type.
  intros He E Hb. unfold step in E. destruct (ended b) eqn:Hn; [by injection E as <-|].
  assert (forall b0, (Ok (E:=unit) b0 = Ok b') -> origin_gone b0 -> origin_gone b') as Hok by by intros b0 [= ->].
  assert (origin_gone b) as [H1 H2 H3] by done.
  destruct e as [d|r|r| |r|cmd| | |r].
  - by apply (Hok _ E).
  - destruct (d1 b) eqn:Hd; try by apply (Hok _ E). destruct (read_fits r); [|by apply (Hok _ E)].
    destruct r as [x|[|x data]]; cbn [ws_read] in E;
      [apply (Hok _ E); split; cbn; auto; done..|].
    destruct (feed _ _) as [[[[[c tp] block] closed] evs]| | |]; try done. cbn in E.
    destruct tp; apply (Hok _ E); [apply gone_after_peer_write; split; cbn; rewrite ?Hd; done|split; cbn; auto; done].
  - destruct (d1 b) eqn:Hd; try by apply (Hok _ E). destruct r as [x|[]]; [done|].
    apply (Hok _ E). apply gone_after_peer_write; split; cbn; rewrite ?Hd; done.
  - destruct (d1 b); apply (Hok _ E); done.
  - destruct (d2 b) eqn:Hd; try by apply (Hok _ E). destruct r as [x|[|x data]]; [done| |done].
    cbn [read_fits] in E. unfold peer_read in E.
    eapply (gone_section PeerToWs _ (set_d2 (D2CloseWrite BAD_GATEWAY))); [exact Hb| |exact E].
    intros b0 [Q1 Q2 Q3]. split; [done|done|]. by right.
  - destruct (d3 b); try by apply (Hok _ E).
    eapply (gone_section ControlDir _ (set_d3 D3WsWrite)); [exact Hb| |exact E]. by intros b0 [Q1 Q2 Q3].
  - destruct (d3 b); by apply (Hok _ E).
  - by apply (Hok _ E).
  - destruct (lock b) as [|[d block] rest]; [by apply (Hok _ E)|]. apply (Hok _ E). by apply gone_after_write.
Qed.

Lemma gone_run es b b' :
  Forall (fun e => possible unreachable e = true) es ->
  run_from error_text gone_config es b = Ok b' -> origin_gone b -> origin_gone b'.
Proof using Type.
  intros Hes. revert b. induction Hes as [|e es He _ IH]; intros b E Hb; [by injection E as <-|].
  cbn [run_from] in E. destruct (step error_text gone_config e b) as [b1| | |] eqn:E1; try done.
  apply (IH b1 E). by eapply gone_step.
Qed.

(** The events of one tunnel's bridge, in a row. *)
Lemma bridged_run what es j s b b' :
  Forall (fun e => possible what e = true) es -> tunnels s !! j = Some (Bridging what b) ->
  run_from error_text (config_of what) es b = Ok b' ->
  happens (Bridged j <$> es) s = Ok (set_tunnel j (Bridging what b') s).
Proof using Type.
  intros Hes. revert s b. induction Hes as [|e es He _ IH]; intros s b Hj E.
  { injection E as <-. cbn. f_equal. destruct s as [a c d ts]. unfold set_tunnel. cbn in *.
    by rewrite list_insert_id. }
  cbn [fmap list_fmap happens happen]. cbn [run_from] in E. rewrite Hj, He.
  destruct (step error_text (config_of what) e b) as [b1| | |]; try done. cbn [mbind outcome_bind] in E |- *.
  rewrite (IH (set_tunnel j (Bridging what b1) s) b1); [|by cbn; apply list_lookup_insert_eq; eapply lookup_lt_Some|done].
  f_equal. unfold set_tunnel. cbn. by rewrite list_insert_insert_eq.
Qed.

(** C26: An origin that cannot be reached is reported as 1014 "bad gateway".  When the
    connection of a tunnel to the origin fails, that tunnel becomes a bridge to an empty
    peer.  In every run, whatever the client sends and however the events of the bridge
    interleave: nothing is ever read from such a peer but its end, and until the bridge
    has ended it either has still to read that end, or has read it and is writing the
    Close 1014.  From any state reached in which it has still to read it: the read and
    the writes put out what was queued before, such as pongs, then the Close 1014, the
    last frame of the tunnel, and the bridge ends with it; if a Close had been sent before,
    the bridge ends at once.  The other tunnels are as they were. *)
Theorem unreachable_origin `{!HttpLaws HT, !DigestsLaws DG} es s j :
  happens es listening = Ok s ->
  (forall g e, tunnels s !! j = Some (Connecting g) ->
     exists b, happen (Connected j (inl e)) s = Ok (set_tunnel j (Bridging unreachable b) s) /\
       ended b = None /\ d2 b = D2Read /\ lock b = [] /\ written b = [] /\
       write_enabled (eout (ctx (wslay b))) = true) /\
  forall b, tunnels s !! j = Some (Bridging unreachable b) ->
    peer_in b = [] /\
    (ended b = None ->
       (d2 b = D2Read \/ d2 b = D2CloseWrite (closeFrame 1014 (str "bad gateway"))) /\
       (d2 b = D2Read ->
          let writes := if write_enabled (eout (ctx (wslay b))) then S (length (lock b)) else 0%nat in
          exists b',
            happens (Bridged j <$> PeerRead (inr []) :: replicate writes (WsWrote (inr tt))) s =
              Ok (set_tunnel j (Bridging unreachable b') s) /\
            ended b' = Some (inr (LocalClose (closeFrame 1014 (str "bad gateway")))) /\
            written b' = written b ++
              if write_enabled (eout (ctx (wslay b))) then
                lock b ++ [(PeerToWs, server_frame
                  (mkOmsg WSLAY_CONNECTION_CLOSE 0 (close_payload 1014 (str "bad gateway"))))]
              else [])).
Proof using Type.
  intros Hr. destruct (happens_ok es listening listening_ok) as (s0 & E & [_ H2 _]).
  rewrite Hr in E. injection E as <-. split.
  { intros g e Hj. pose proof (Forall_lookup_1 _ _ _ _ H2 Hj) as Hg. cbn [happen]. rewrite Hj, (Hg (inl e)).
    eexists. split; [reflexivity|]. split_and!; vm_compute; reflexivity. }
  intros b Hj. destruct (Forall_lookup_1 _ _ _ _ H2 Hj) as (_ & bes & b0 & E0 & Eb & Hbes).
  assert (origin_gone b0) as Hg0 by (cbn in E0; injection E0 as <-; split; [done|done|by left]).
  destruct (gone_run bes b0 b Hbes Eb Hg0) as [G1 G2 G3]. split; [done|].
  intros He. split; [by apply G3|]. intros Hd writes.
  assert (d4 b <> D4CloseWrite) as H4.
  { pose proof (start_relays (Ctx := wslay_event_context) error_text gone_config) as H.
    rewrite E0 in H. destruct H as [H HL]. destruct (run_relays error_text gone_config bes b0 H HL) as (b1 & E1 & _ & HL').
    rewrite Eb in E1. injection E1 as <-. destruct (HL' He) as (_ & _ & Hk). by rewrite (Hk eq_refl). }
  destruct (peer_ends error_text gone_config bes b0 b (inr []) (inr tt) E0 Eb He Hd (G2 He) H4 I ltac:(vm_compute; discriminate))
    as (b' & Hend & _ & H). exists b'. subst writes.
  destruct (write_enabled _); destruct H as [Hrun Hw].
  - split; [|split; [exact Hend|exact Hw]]. apply (bridged_run unreachable _ j s b b').
    + constructor; [done|]. by apply Forall_replicate.
    + done.
    + by rewrite replicate_S_end.
  - split; [|split; [exact Hend|by rewrite app_nil_r]]. apply (bridged_run unreachable _ j s b b'); [by repeat constructor|done..].
Qed.

End gateway.

(** ** A run *)

Import Concrete.

Definition small : Config bytes :=
  proxyConfig (str "127.0.0.1:8091") (str "127.0.0.1:8000") (Some KeepAlive_default) false None.

(** An accept fails, the next works, and its request is upgraded. *)
Definition arrival : list (@happening False unit unit unit) :=
  [Accepted (inl tt); Later 50; SleepOver; Accepted (inr tt); Requested 0 (asks (str "h2ts")); UpgradeDone 0 (inr tt)].

Lemma gateway_serves_witness :
  exists s, happens Run.text small arrival listening = Ok s /\ length (tunnels s) = 1%nat /\
  exists s', happens Run.text small [Later 50; SleepOver; Accepted (inr tt)] s = Ok s' /\
    connections s' = connections s ++ [mkConnection true []].
Proof.
  destruct (gateway_serves Run.text small arrival) as (s & E & Hn & _ & Hs).
  exists s. split; [exact E|]. split; [|exact Hs].
  rewrite Hn. clear Hs Hn. vm_compute in E. injection E as <-. reflexivity.
Defined.

(** The client pings before the end of the empty peer is read. *)
Definition refused : list (@happening False unit unit unit) :=
  arrival ++ [Connected 0 (inl tt); Bridged 0 (WsRead (inr (WslayStream.wire [wsFrame true 9 [1; 2; 3; 4] [65]])))].

Lemma unreachable_origin_witness :
  exists s b b', happens Run.text small refused listening = Ok s /\
    tunnels s !! 0%nat = Some (Bridging unreachable b) /\
    happens Run.text small
      [Bridged 0 (PeerRead (inr [])); Bridged 0 (WsWrote (inr tt)); Bridged 0 (WsWrote (inr tt))] s =
      Ok (set_tunnel 0 (Bridging unreachable b') s) /\
    written b' = [(WsToPeer, [138; 1; 65]); (PeerToWs, [136; 13; 3; 246] ++ str "bad gateway")].
Proof.
  assert (exists s b, happens Run.text small refused listening = Ok s /\
    tunnels s !! 0%nat = Some (Bridging unreachable b) /\ ended b = None /\ d2 b = D2Read /\
    lock b = [(WsToPeer, [138; 1; 65])] /\ written b = [] /\ write_enabled (eout (ctx (wslay b))) = true)
    as (s & b & E & Hj & F1 & F2 & F3 & F4 & F5)
    by (do 2 eexists; split_and!; vm_compute; reflexivity).
  destruct (unreachable_origin Run.text small refused s 0 E) as [_ H].
  destruct (H b Hj) as [_ H']. destruct (H' F1) as [_ H'']. destruct (H'' F2) as (b' & E' & _ & Hw).
  rewrite F3, F4, F5 in *. exists s, b, b'. by split_and!.
Defined.
