(* ===== verification/Serve.v ===== *)
(** * Serve: HTTP/2 over the tunnel

    Models [rust/crates/h2ts-server/src/lib.rs]: the byte stream a WebSocket is
    presented as, a pass-through to one end of tokio's in-memory pipe, and the
    three ways to serve HTTP/2 over it, which differ in their configuration only.
    hyper's connection is outside: its events are those of Idle.v. *)

From S2P Require Import Prelude Bridge Idle.

Definition DUPLEX_BUF : Z := 64 * 1024.

(** [AsyncRead] and [AsyncWrite]: each poll changes the stream and answers. *)
Class AsyncIo (S R W U : Type) := {
  poll_read : nat -> S -> S * R;
  poll_write : bytes -> S -> S * W;
  poll_flush : S -> S * U;
  poll_shutdown : S -> S * U;
}.

Record WsByteStream (Duplex : Type) := wsByteStream { ws_inner : Duplex }.
Arguments wsByteStream {Duplex} _.
Arguments ws_inner {Duplex} _.

#[export] Instance WsByteStream_AsyncIo {D R W U} `{AsyncIo D R W U} :
    AsyncIo (WsByteStream D) R W U := {
  poll_read n s := let '(d, r) := poll_read n (ws_inner s) in (wsByteStream d, r);
  poll_write b s := let '(d, r) := poll_write b (ws_inner s) in (wsByteStream d, r);
  poll_flush s := let '(d, r) := poll_flush (ws_inner s) in (wsByteStream d, r);
  poll_shutdown s := let '(d, r) := poll_shutdown (ws_inner s) in (wsByteStream d, r);
}.

(** [duplex] is [tokio::io::duplex]: two ends of a pipe of the given capacity.  The
    second end and the configuration go to the spawned bridge. *)
Definition with_config {D} (duplex : Z -> D * D) (config : BridgeConfig)
    : WsByteStream D * (D * BridgeConfig) :=
  let '(app_side, ws_side) := duplex DUPLEX_BUF in (wsByteStream app_side, (ws_side, config)).

Definition ws_new {D} (duplex : Z -> D * D) : WsByteStream D * (D * BridgeConfig) :=
  with_config duplex BridgeConfig_default.

Record ServeConfig := serveConfig {
  serve_bridge : BridgeConfig;
  serve_idle_timeout : option Z;
}.

Definition ServeConfig_default : ServeConfig := serveConfig BridgeConfig_default None.

(** The tunnel that is spawned and the state the connection is served from. *)
Definition serve_h2_with_config {D} (duplex : Z -> D * D) (config : ServeConfig)
    : WsByteStream D * (D * BridgeConfig) * Idle.sys :=
  (with_config duplex (serve_bridge config), Idle.init (serve_idle_timeout config)).

Definition serve_h2_with {D} (duplex : Z -> D * D) (config : BridgeConfig) :=
  serve_h2_with_config duplex (serveConfig config None).

Definition serve_h2 {D} (duplex : Z -> D * D) := serve_h2_with duplex BridgeConfig_default.

(** Without an idle timeout nothing is ever reaped. *)
Lemma serve_h2_never_reaps `{arch : Arch} {D} (duplex : Z -> D * D) es s :
  Idle.run_from None es (snd (serve_h2 duplex)) = Ok s ->
  server s = Plain \/ server s = Done.
Proof.
  assert (forall s0, server s0 = Plain \/ server s0 = Done ->
    Idle.run_from None es s0 = Ok s -> server s = Plain \/ server s = Done) as H.
  { induction es as [|e es IH]; intros s0 H0; cbn [Idle.run_from]; [by intros [= <-]|].
    intros (s1 & Hs & Hr)%bind_Ok. apply (IH s1); [|done].
    destruct (resumes e) eqn:He.
    - destruct e; try done. cbn [Idle.step] in Hs.
      by destruct H0 as [H0|H0]; rewrite H0 in Hs; injection Hs as <-; rewrite H0; auto.
    - destruct (step_server None e s0 s1 Hs He) as [-> | ->]; auto. }
  intros Hr. apply (H (Idle.init None)); [by left|exact Hr].
Qed.
