(* ===== verification/Driver.v ===== *)
(** * Driver: the read and write loops over the transport

    Models [drive] of [rust/crates/h2ts-client/src/connection.rs]: the read loop
    feeds the connection, the write loop moves what it queues to the transport, one
    item at a time, and its end is the driver's end.  Handles and body pumps act on
    the connection between their steps ([DOp]); the driver's steps interleave with
    theirs in every order. *)

From S2P Require Import Prelude Errors Bytes Utf8 Frames FramesFacts Hpack Flow Stream Connection.
From S2P Require Import ConnectionFacts FlowSafety Lifecycle Sending Totality Wire.

(** ** What is queued stays queued *)

Definition grows (w w' : ConnState) : Prop := sent w `prefix_of` sent w'.

#[export] Instance grows_preorder : PreOrder grows.
Proof.
  split; [intros w; exists []; by rewrite app_nil_r|].
  intros w1 w2 w3 H1 H2. unfold grows in *. by etransitivity.
Qed.

Lemma grows_same w w' : sent w' = sent w -> grows w w'.
Proof. unfold grows. by intros ->. Qed.

Create HintDb grows.
#[export] Hint Extern 1 (grows _ _) => apply grows_same; reflexivity : grows.
#[export] Hint Extern 1 (ensures _ (mret _)) => apply ensures_ret; exact _ : grows.
#[export] Hint Extern 1 (ensures _ (st_lift _)) => apply ensures_lift; exact _ : grows.
#[export] Hint Extern 1 (ensures _ (st_throw _)) => apply ensures_throw; exact _ : grows.
#[export] Hint Extern 1 (ensures _ st_panic) => apply ensures_panic; exact _ : grows.
#[export] Hint Extern 1 (ensures _ st_get) => apply ensures_get; exact _ : grows.
#[export] Hint Extern 2 (ensures _ (st_modify _)) => (apply ensures_modify; intros ?) : grows.
Ltac grows_auto := repeat ensures_step; auto with grows.

Section grows_methods.
Context {arch : Arch}.

Lemma write_raw_grows b f : ensures grows (write_raw b f).
Proof using Type.
  apply ensures_modify. intros w. destruct (closed w), (out_tx w); simpl; auto with grows.
  by exists [mkOut b f].
Qed.
Hint Resolve write_raw_grows : grows.

Lemma send_frame_grows f : ensures grows (send_frame f).
Proof using Type. unfold send_frame. grows_auto. Qed.
Lemma emit_grows l : ensures grows (emit l).
Proof using Type. unfold emit. auto with grows. Qed.
Lemma wake_all_grows l : ensures grows (wake_all l).
Proof using Type. apply emit_grows. Qed.
Hint Resolve send_frame_grows emit_grows wake_all_grows : grows.

Lemma on_stream_grows id f : ensures grows (on_stream id f).
Proof using Type. unfold on_stream. grows_auto. Qed.
Lemma take_stream_grows id f : ensures grows (take_stream id f).
Proof using Type. unfold take_stream. grows_auto. Qed.
Lemma wake_slot_waiters_grows : ensures grows wake_slot_waiters.
Proof using Type. unfold wake_slot_waiters. grows_auto. Qed.
Hint Resolve on_stream_grows take_stream_grows wake_slot_waiters_grows : grows.

Lemma retire_grows id : ensures grows (retire_if_fully_closed id).
Proof using Type. unfold retire_if_fully_closed. grows_auto. Qed.
Lemma reset_stream_grows id c : ensures grows (reset_stream id c).
Proof using Type. unfold reset_stream. grows_auto. Qed.
Lemma replenish_grows id n : ensures grows (replenish_recv_window id n).
Proof using Type. unfold replenish_recv_window. grows_auto. Qed.
Lemma guard_grows : ensures grows guard_header_block_size.
Proof using Type. unfold guard_header_block_size. grows_auto. Qed.
Lemma destroy_grows e : ensures grows (destroy e).
Proof using Type. unfold destroy. grows_auto. Qed.
Hint Resolve retire_grows reset_stream_grows replenish_grows guard_grows destroy_grows : grows.

Lemma connection_error_grows e : ensures grows (connection_error e).
Proof using Type. unfold connection_error. grows_auto. Qed.
Lemma apply_settings_grows s : ensures grows (apply_remote_settings s).
Proof using Type. unfold apply_remote_settings. grows_auto. Qed.
Lemma complete_grows : ensures grows complete_header_block.
Proof using Type.
  unfold complete_header_block. grows_auto.
  apply ensures_modify. intros w. destruct (highest_promised w <? _); auto with grows.
Qed.
Hint Resolve connection_error_grows apply_settings_grows complete_grows : grows.
Lemma open_header_block_grows pb eh : ensures grows (open_header_block pb eh).
Proof using Type. unfold open_header_block. grows_auto. Qed.
Hint Resolve open_header_block_grows : grows.
Lemma dispatch_grows now f : ensures grows (dispatch now f).
Proof using Type. unfold dispatch, receive_goaway. grows_auto. Qed.
Hint Resolve dispatch_grows : grows.
Lemma dispatch_all_grows now fs : ensures grows (dispatch_all now fs).
Proof using Type. induction fs; cbn [dispatch_all]; grows_auto. Qed.
Hint Resolve dispatch_all_grows : grows.
Lemma on_bytes_grows now c : ensures grows (on_bytes now c).
Proof using Type. unfold on_bytes. apply ensures_catch; [exact _| |auto with grows]. grows_auto. Qed.

Lemma send_continuations_grows fuel id max block offset :
  ensures grows (send_continuations fuel id max block offset).
Proof using Type.
  revert offset. induction fuel as [|fuel IH]; intros offset; cbn [send_continuations]; grows_auto.
Qed.
Hint Resolve on_bytes_grows send_continuations_grows : grows.
Lemma send_headers_grows id block es : ensures grows (send_headers id block es).
Proof using Type. unfold send_headers. grows_auto. Qed.
Lemma check_open_grows : ensures grows check_open.
Proof using Type. unfold check_open. grows_auto. Qed.
Hint Resolve send_headers_grows check_open_grows : grows.
Lemma request_open_grows up init : ensures grows (request_open up init).
Proof using Type. unfold request_open. grows_auto. Qed.
Lemma request_wait_grows k : ensures grows (request_wait k).
Proof using Type. unfold request_wait. grows_auto. Qed.
Hint Resolve request_open_grows request_wait_grows : grows.

Lemma apply_op_grows up op w : grows w (apply_op up op w).
Proof using Type.
  destruct op as [now c| | |k init|k now| |k id c o|id|id k|id]; simpl; apply ensures_at_of.
  - unfold read_chunk. grows_auto.
  - apply destroy_grows.
  - apply destroy_grows.
  - unfold request_turn. grows_auto.
  - unfold ping. grows_auto.
  - unfold close. grows_auto.
  - unfold pump_turn. grows_auto.
    destruct (negb (SendWindow.is_ready _)), (negb (SendWindow.is_ready _)); auto with grows.
  - unfold pump_finish. grows_auto.
  - unfold body_poll_next, set_recv. grows_auto.
  - unfold body_drop. grows_auto.
Qed.
End grows_methods.

(** ** The two loops *)

(** The write loop: at [out_rx.next()], in [writer.send], or over. *)
Inductive write_phase :=
  | WNext
  | WSend (b : bytes)
  | WDone (failed : bool).

Record driver := mkDriver {
  conn : ConnState;
  reading : bool;  (* the read loop is still running *)
  write : write_phase;
  taken : nat;  (* items [out_rx] has yielded *)
  wire : bytes;  (* bytes handed to the transport *)
}.

Inductive devent :=
  | DRead (now : Z) (chunk : bytes)  (* the transport delivers a chunk *)
  | DEof  (* the inbound stream ends *)
  | DTake  (* the write loop polls [out_rx] *)
  | DSent (ok : bool)  (* [writer.send] has returned *)
  | DOp (op : conn_op).  (* a handle, a body or a pump *)

Section driver.
Context {arch : Arch} (up : bytes -> bytes).

Definition drive_start (options : ConnectOptions) : driver :=
  mkDriver (connect options) true WNext 0 [].

(** The driver is polled no more once the write loop is over. *)
Definition running (d : driver) : bool := match write d with WDone _ => false | _ => true end.

Definition drive_step (e : devent) (d : driver) : driver :=
  match e with
  | DRead now chunk =>
      if running d && reading d then
        let w := apply_op up (OpRead now chunk) (conn d) in
        if closed w then
          mkDriver (apply_op up OpReadEnd w) false (write d) (taken d) (wire d)
        else mkDriver w true (write d) (taken d) (wire d)
      else d
  | DEof =>
      if running d && reading d then
        mkDriver (apply_op up OpReadEnd (conn d)) false (write d) (taken d) (wire d)
      else d
  | DTake =>
      match write d with
      | WNext =>
          match sent (conn d) !! taken d with
          | Some item => mkDriver (conn d) (reading d) (WSend (out_bytes item)) (S (taken d)) (wire d)
          | None =>
              if out_tx (conn d) then d
              else mkDriver (conn d) (reading d) (WDone false) (taken d) (wire d)
          end
      | _ => d
      end
  | DSent ok =>
      match write d with
      | WSend b =>
          if ok then mkDriver (conn d) (reading d) WNext (taken d) (wire d ++ b)
          else mkDriver (apply_op up OpWriteFailed (conn d)) (reading d) (WDone true) (taken d) (wire d)
      | _ => d
      end
  | DOp op => mkDriver (apply_op up op (conn d)) (reading d) (write d) (taken d) (wire d)
  end.

(** The loops' own operations are not [DOp]s, and the bytes are bytes. *)
Definition event_ok (e : devent) (d : driver) : Prop :=
  match e with
  | DRead _ chunk => bytes_ok chunk
  | DOp op =>
      match op with OpRead _ _ | OpReadEnd | OpWriteFailed => False | _ => op_ok op (conn d) end
  | _ => True
  end.

Inductive drive_run (options : ConnectOptions) : driver -> Prop :=
  | drive_init : drive_run options (drive_start options)
  | drive_next d e : drive_run options d -> event_ok e d -> drive_run options (drive_step e d).

(** A driven connection goes through single operations only. *)
Lemma drive_runs options d : drive_run options d -> exists fs, run up options fs (conn d).
Proof using Type.
  induction 1 as [|d e _ [fs IH] He]; [exists []; constructor|].
  destruct e as [now chunk| | |ok|op]; cbn [drive_step event_ok] in *.
  - destruct (running d && reading d); [|by exists fs].
    pose proof (run_step up options fs (conn d) (OpRead now chunk) IH He) as H.
    destruct (closed _); [|eexists; exact H]. eexists. exact (run_step up options _ _ OpReadEnd H I).
  - destruct (running d && reading d); [|by exists fs].
    eexists. exact (run_step up options _ _ OpReadEnd IH I).
  - destruct (write d); try by exists fs. destruct (sent (conn d) !! taken d); [by exists fs|].
    destruct (out_tx (conn d)); by exists fs.
  - destruct (write d); try by exists fs. destruct ok; [by exists fs|].
    eexists. exact (run_step up options _ _ OpWriteFailed IH I).
  - eexists. apply (run_step up options fs (conn d) op IH). by destruct op.
Qed.

(** ** The flush *)

Definition in_flight (d : driver) : bytes := match write d with WSend b => b | _ => [] end.

(** The bytes of the first [n] items queued. *)
Definition queue_bytes (n : nat) (w : ConnState) : bytes := concat (out_bytes <$> take n (sent w)).

Arguments queue_bytes : simpl never.

Record flushing (d : driver) : Prop := {
  fl_range : (taken d <= length (sent (conn d)))%nat;
  fl_wire : write d <> WDone true -> wire d ++ in_flight d = queue_bytes (taken d) (conn d);
  fl_prefix : wire d `prefix_of` queue_bytes (taken d) (conn d);
  fl_done : write d = WDone false ->
    taken d = length (sent (conn d)) /\ out_tx (conn d) = false;
}.

Lemma queue_bytes_grows n w w' :
  grows w w' -> (n <= length (sent w))%nat -> queue_bytes n w' = queue_bytes n w.
Proof using Type. intros [l E] Hn. unfold queue_bytes. by rewrite E, take_app_le. Qed.

(** The connection changes under the write loop. *)
Lemma flushing_conn d w' r :
  flushing d -> grows (conn d) w' ->
  (out_tx (conn d) = false -> sent w' = sent (conn d) /\ out_tx w' = false) ->
  flushing (mkDriver w' r (write d) (taken d) (wire d)).
Proof using Type.
  intros [H1 H2 H3 H4] Hg Hc. split; cbn.
  - destruct Hg as [l ->]. rewrite length_app. lia.
  - intros Hw. rewrite (queue_bytes_grows _ _ _ Hg) by done. by apply H2.
  - by rewrite (queue_bytes_grows _ _ _ Hg).
  - intros Hw. destruct (H4 Hw) as [Ht Ho]. destruct (Hc Ho) as [Hs Ho']. by rewrite Ht, Hs.
Qed.

(** No sink, nothing more queued. *)
Lemma no_sink_final w op :
  conn_ok w -> conn_ok (apply_op up op w) -> out_tx w = false ->
  sent (apply_op up op w) = sent w /\ out_tx (apply_op up op w) = false.
Proof using Type.
  intros Hok Hok' Ho.
  assert (closed w = true) as Hc.
  { destruct (closed w) eqn:E; [done|]. destruct (ok_open _ Hok E) as [E' _]. congruence. }
  destruct (apply_op_silent up op w Hc) as [Hc' Hs]. split; [done|].
  by apply (ok_closed _ Hok') in Hc' as (_ & _ & _ & ? & _).
Qed.

Lemma flushing_op d op r :
  flushing d -> conn_ok (conn d) -> conn_ok (apply_op up op (conn d)) ->
  flushing (mkDriver (apply_op up op (conn d)) r (write d) (taken d) (wire d)).
Proof using Type.
  intros H Hok Hok'. apply flushing_conn; [done|apply apply_op_grows|]. by apply no_sink_final.
Qed.

Lemma queue_bytes_S n w item :
  sent w !! n = Some item -> queue_bytes (S n) w = queue_bytes n w ++ out_bytes item.
Proof using Type.
  intros H. unfold queue_bytes. erewrite take_S_r by done.
  rewrite fmap_app, concat_app. cbn. by rewrite app_nil_r.
Qed.

Lemma drive_flushing options d : drive_run options d -> flushing d /\ conn_ok (conn d).
Proof using Type.
  induction 1 as [|d e Hd [[H1 H2 H3 H4] IH2] He].
  { split; [|exact (run_ok up options [] _ (run_connect up options))]. split; cbn; [lia|done|by eexists|done]. }
  assert (conn_ok (conn (drive_step e d))) as Hok'.
  { destruct (drive_runs options _ (drive_next options d e Hd He)) as [fs Hfs]. by eapply run_ok. }
  split; [|done]. assert (flushing d) as H by by split.
  destruct e as [now chunk| | |ok|op]; cbn [drive_step] in *.
  - destruct (running d && reading d); [|done].
    destruct (closed (apply_op up (OpRead now chunk) (conn d))); [|by apply flushing_op].
    destruct (drive_runs options d Hd) as [fs Hfs].
    assert (conn_ok (apply_op up (OpRead now chunk) (conn d))) as Hm.
    { eapply run_ok. by apply (run_step up options fs _ (OpRead now chunk)). }
    exact (flushing_op (mkDriver _ _ _ _ _) OpReadEnd false (flushing_op d _ false H IH2 Hm) Hm Hok').
  - destruct (running d && reading d); [|done]. by apply flushing_op.
  - destruct (write d) eqn:Hw; try done.
    destruct (sent (conn d) !! taken d) as [item|] eqn:Hi.
    + split; cbn; try done.
      * apply lookup_lt_Some in Hi. lia.
      * intros _. rewrite (queue_bytes_S _ _ _ Hi), <- H2 by done. unfold in_flight.
        by rewrite Hw, app_nil_r.
      * rewrite (queue_bytes_S _ _ _ Hi). by apply prefix_app_r.
    + destruct (out_tx (conn d)) eqn:Ho; [done|]. apply lookup_ge_None in Hi.
      split; cbn; try done.
      * intros _. rewrite <- H2 by done. unfold in_flight. by rewrite Hw.
      * intros _. split; [lia|done].
  - destruct (write d) eqn:Hw; try done. destruct ok.
    + assert (wire d ++ b = queue_bytes (taken d) (conn d)) as E.
      { rewrite <- H2 by done. unfold in_flight. by rewrite Hw. }
      split; cbn; rewrite ?app_nil_r, ?E; try done.
    + split; cbn [taken conn write wire]; try done.
      * pose proof (apply_op_grows up OpWriteFailed (conn d)) as [l ->]. rewrite length_app. lia.
      * by rewrite (queue_bytes_grows _ _ _ (apply_op_grows up OpWriteFailed (conn d)) H1).
  - by apply flushing_op.
Qed.
End driver.

(** ** Theorems *)

(** C21: The driver writes to the transport exactly what the connection queues, in
    order, byte for byte, whatever the handles, bodies and pumps do meanwhile; and it
    does not end before everything queued, the GOAWAY of a teardown included, has been
    written, unless a write fails. *)
Theorem driver_flushes {arch : Arch} up options d :
  drive_run up options d ->
  wire d `prefix_of` concat (out_bytes <$> sent (conn d)) /\
  (write d <> WDone true ->
     wire d ++ in_flight d = concat (out_bytes <$> take (taken d) (sent (conn d)))) /\
  (write d = WDone false ->
     closed (conn d) = true /\ wire d = concat (out_bytes <$> sent (conn d))).
Proof.
  intros H. destruct (drive_flushing up options d H) as [[H1 H2 H3 H4] Hok]. split_and!; [|done|].
  - etransitivity; [exact H3|]. unfold queue_bytes.
    rewrite <- (take_drop (taken d) (sent (conn d))) at 2. rewrite fmap_app, concat_app.
    by apply prefix_app_r.
  - intros Hw. destruct (H4 Hw) as [Ht Ho]. split.
    + destruct (closed (conn d)) eqn:Hc; [done|]. destruct (ok_open _ Hok Hc) as [E _]. congruence.
    + specialize (H2 ltac:(by rewrite Hw)). unfold in_flight, queue_bytes in H2.
      rewrite Hw, app_nil_r in H2. by rewrite H2, Ht, firstn_all.
Qed.

(** What the write loop still has to do on a closed connection. *)
Definition to_flush (d : driver) : nat :=
  match write d with
  | WDone _ => 0
  | WNext => 1 + 2 * (length (sent (conn d)) - taken d)
  | WSend _ => 2 + 2 * (length (sent (conn d)) - taken d)
  end.

(** The event the write loop waits for, when the transport accepts its writes. *)
Definition write_event (d : driver) : devent :=
  match write d with WSend _ => DSent true | _ => DTake end.

(** Once the connection is closed the driver ends: whatever else happens, each step
    of the write loop brings its end nearer by one, from twice the items left to
    write, and no other event puts it off. *)
Theorem driver_ends {arch : Arch} up options d e :
  drive_run up options d -> closed (conn d) = true -> event_ok e d -> e <> DSent false ->
  (to_flush (drive_step up e d) <= to_flush d)%nat /\
  (running d = true -> e = write_event d -> S (to_flush (drive_step up e d)) = to_flush d) /\
  (to_flush d = 0%nat <-> running d = false).
Proof.
  intros H Hc He Hf. destruct (drive_flushing up options d H) as [[H1 H2 H3 H4] Hok].
  destruct (ok_closed _ Hok Hc) as (_ & _ & _ & Ho & _).
  assert (forall op, closed (apply_op up op (conn d)) = true /\
    sent (apply_op up op (conn d)) = sent (conn d)) as Hop by (intros op; by apply apply_op_silent).
  assert (forall w r, sent w = sent (conn d) ->
    to_flush (mkDriver w r (write d) (taken d) (wire d)) = to_flush d) as Hsame.
  { intros w r E. unfold to_flush. cbn. by rewrite E. }
  split_and!.
  - destruct e as [now chunk| | |ok|op]; cbn [drive_step].
    + destruct (running d && reading d); [|done]. destruct (Hop (OpRead now chunk)) as [-> E].
      rewrite Hsame; [done|]. destruct (apply_op_silent up OpReadEnd _ (proj1 (Hop (OpRead now chunk)))) as [_ ->].
      done.
    + destruct (running d && reading d); [|done]. rewrite Hsame; [done|]. apply Hop.
    + destruct (write d) eqn:Hw; try done. unfold to_flush at 2. rewrite Hw.
      destruct (sent (conn d) !! taken d) as [item|] eqn:Hi.
      * apply lookup_lt_Some in Hi. unfold to_flush. cbn. lia.
      * rewrite Ho. unfold to_flush. cbn. lia.
    + destruct (write d) eqn:Hw; try done. destruct ok; [|done]. unfold to_flush. rewrite Hw. cbn. lia.
    + rewrite Hsame; [done|]. apply Hop.
  - intros Hr ->. unfold write_event, running in *. destruct (write d) eqn:Hw; [| |done]; cbn [drive_step]; rewrite Hw.
    + unfold to_flush at 2. rewrite Hw. destruct (sent (conn d) !! taken d) as [item|] eqn:Hi.
      * apply lookup_lt_Some in Hi. unfold to_flush. cbn. lia.
      * rewrite Ho. apply lookup_ge_None in Hi. unfold to_flush. cbn. lia.
    + unfold to_flush. rewrite Hw. cbn. lia.
  - unfold to_flush, running. destruct (write d); split; try done; lia.
Qed.

(** ** A run *)

(** Events that need no condition on the state. *)
Definition plain (e : devent) : bool :=
  match e with DTake | DSent _ | DEof | DOp OpClose => true | _ => false end.

Lemma drive_plain {arch : Arch} up options es d :
  drive_run up options d -> forallb plain es = true ->
  drive_run up options (fold_left (fun d e => drive_step up e d) es d).
Proof.
  revert d. induction es as [|e es IH]; intros d H Hes; [done|]. cbn in Hes |- *.
  apply andb_true_iff in Hes as [He Hes]. apply IH; [|done]. constructor; [done|].
  destruct e as [| | | |[]]; done.
Qed.

Definition teardown : list devent :=
  DOp OpClose :: concat (replicate 4 [DTake; DSent true]) ++ [DTake].

Lemma driver_flushes_witness :
  let d := fold_left (fun d e => drive_step (arch := host64_debug) id e d) teardown
    (drive_start (arch := host64_debug) default_options) in
  closed (conn d) = true /\ wire d = concat (out_bytes <$> sent (conn d)).
Proof.
  intros d. apply (driver_flushes (arch := host64_debug) id default_options d).
  - apply drive_plain; [constructor|reflexivity].
  - vm_compute. reflexivity.
Defined.

Lemma driver_ends_witness :
  let d := drive_step (arch := host64_debug) id (DOp OpClose)
    (drive_start (arch := host64_debug) default_options) in
  S (to_flush (drive_step (arch := host64_debug) id DTake d)) = to_flush d /\ to_flush d = 9%nat.
Proof.
  intros d. split; [|vm_compute; reflexivity].
  apply (driver_ends (arch := host64_debug) id default_options d DTake);
    [|vm_compute; reflexivity|exact I|discriminate|vm_compute; reflexivity|vm_compute; reflexivity].
  apply (drive_plain id default_options [DOp OpClose]); [constructor|reflexivity].
Defined.
