(* ===== verification/Web.v ===== *)
(** * Web: the browser's WebSocket as the transport

    Models [rust/crates/h2ts-client/src/web.rs]: [open] (a socket resolves with the
    first of its two callbacks), [websocket_transport] (the callbacks that feed the
    inbound channel, the sink that writes to the socket), and a client on it, the
    driver of Driver over this transport.  The browser is the sequence of the events
    it dispatches; what it makes of a call is the outcome the event carries. *)

From S2P Require Import Prelude Errors Bytes Utf8 Frames FramesFacts Hpack Flow Stream Connection.
From S2P Require Import ConnectionFacts FlowSafety Lifecycle Sending Totality Wire Driver.

(** ** Opening the socket *)

Module Opening.

Section opening.
Context {JsValue : Type}.
(** [JsValue::from_str], and the browser's constructor: the exception it throws. *)
Variable from_str : bytes -> JsValue.
Variable construct : bytes -> option (list bytes) -> option JsValue.

(** Waiting at [rx.await]: the sender [tx] still in its cell, the value sent. *)
Inductive state :=
  | Waiting (tx : bool) (rx : option (JsValue + unit))
  | Returned (result : JsValue + unit).

Inductive event :=
  | EvOpen  (* the browser dispatches [open] *)
  | EvError  (* ... [error] *)
  | Resume.  (* [open] is polled *)

Definition open (url : bytes) (protocols : list bytes) : state :=
  let thrown :=
    if bool_decide (protocols = []) then construct url None else construct url (Some protocols) in
  match thrown with
  | Some e => Returned (inl e)
  | None => Waiting true None
  end.

Definition failed : JsValue := from_str (str "WebSocket connection failed").
Definition canceled : JsValue := from_str (str "WebSocket open canceled").

Definition callback (value : JsValue + unit) (s : state) : state :=
  match s with
  | Waiting true _ => Waiting false (Some value)
  | s => s
  end.

Definition step (s : state) (e : event) : state :=
  match e with
  | EvOpen => callback (inr tt) s
  | EvError => callback (inl failed) s
  | Resume =>
      match s with
      | Waiting _ (Some value) => Returned value
      | Waiting true None => s
      | Waiting false None => Returned (inl canceled)
      | Returned _ => s
      end
  end.

(** What the first callback decides. *)
Fixpoint decided (es : list event) : option (JsValue + unit) :=
  match es with
  | [] => None
  | EvOpen :: _ => Some (inr tt)
  | EvError :: _ => Some (inl failed)
  | Resume :: es => decided es
  end.

Lemma steps_returned es r : fold_left step es (Returned r) = Returned r.
Proof using Type. induction es as [|[] es IH]; cbn; done. Qed.

Lemma steps_sent es v :
  fold_left step es (Waiting false (Some v)) = Waiting false (Some v) \/
  fold_left step es (Waiting false (Some v)) = Returned v.
Proof using Type.
  induction es as [|[] es IH]; cbn; [by left|done|done|]. right. apply steps_returned.
Qed.
End opening.

Arguments state : clear implicits.
End Opening.

(** ** The transport *)

(** The data of a [MessageEvent]: an [ArrayBuffer], or a string or [Blob]. *)
Inductive JsData :=
  | ArrayBuffer (buf : bytes)
  | OtherData.

(** The inbound channel: its sender in the cell the callbacks share, its receiver
    (the transport's reader), and what is queued between them. *)
Record channel := mkChannel {
  in_tx : bool;
  in_rx : bool;
  queue : list bytes;
}.

Definition websocket_transport : channel := mkChannel true true [].

(** [unbounded_send]: an error, ignored, once the receiver is dropped. *)
Definition unbounded_send (b : bytes) (ch : channel) : channel :=
  if in_rx ch then mkChannel (in_tx ch) true (queue ch ++ [b]) else ch.

Definition onmessage (data : JsData) (ch : channel) : channel :=
  match data with
  | ArrayBuffer b =>
      if negb (bool_decide (b = [])) then
        if in_tx ch then unbounded_send b ch else ch
      else ch
  | OtherData => ch
  end.

Definition onclose (ch : channel) : channel := mkChannel false (in_rx ch) (queue ch).

(** The reader polled: [Ready None] is the end of the stream. *)
Definition poll_next (ch : channel) : poll (option bytes) * channel :=
  match queue ch with
  | b :: q => (Ready (Some b), mkChannel (in_tx ch) (in_rx ch) q)
  | [] => (if in_tx ch then Pending else Ready None, ch)
  end.

Definition drop_reader (ch : channel) : channel := mkChannel (in_tx ch) false [].

(** The calls [WsSink] makes on the socket. *)
Inductive socket_call :=
  | CSend (item : bytes)
  | CClose.

Definition start_send (item : bytes) : list socket_call := [CSend item].
Definition poll_close : list socket_call := [CClose].

(** ** A client over it *)

Record client := mkClient {
  drv : driver;
  inbound : channel;
  calls : list socket_call;
  delivered : list bytes;  (* what the read loop has been given *)
}.

Inductive web_event :=
  | WMessage (data : JsData)  (* the browser dispatches [message] *)
  | WClosed  (* ... [close] *)
  | WPollRead (now : Z)  (* the read loop polls its reader *)
  | WPollWrite (ok : bool)  (* the write loop is polled; [ok]: [send] did not throw *)
  | WOp (op : conn_op).

Section web.
Context {arch : Arch} (up : bytes -> bytes).

(** The read loop owns the reader, the driver owns the loop. *)
Definition settle (d : driver) (ch : channel) (cs : list socket_call) (got : list bytes) : client :=
  mkClient d (if running d && reading d then ch else drop_reader ch) cs got.

Definition connect_websocket (options : ConnectOptions) : client :=
  mkClient (drive_start options) websocket_transport [] [].

(** [writer.send] completes in the poll that starts it: [WsSink] is always ready. *)
Definition web_step (e : web_event) (c : client) : client :=
  let d := drv c in
  match e with
  | WMessage data => mkClient d (onmessage data (inbound c)) (calls c) (delivered c)
  | WClosed => mkClient d (onclose (inbound c)) (calls c) (delivered c)
  | WPollRead now =>
      if running d && reading d then
        match poll_next (inbound c) with
        | (Ready (Some b), ch) =>
            settle (drive_step up (DRead now b) d) ch (calls c) (delivered c ++ [b])
        | (Ready None, ch) => settle (drive_step up DEof d) ch (calls c) (delivered c)
        | (Pending, _) => c
        end
      else c
  | WPollWrite ok =>
      let d := drive_step up DTake d in
      match write d with
      | WSend b =>
          settle (drive_step up (DSent ok) d) (inbound c) (calls c ++ start_send b) (delivered c)
      | _ => settle d (inbound c) (calls c) (delivered c)
      end
  | WOp op => settle (drive_step up (DOp op) d) (inbound c) (calls c) (delivered c)
  end.

(** Buffers hold bytes; operations are the application's. *)
Definition web_event_ok (e : web_event) (c : client) : Prop :=
  match e with
  | WMessage (ArrayBuffer b) => bytes_ok b
  | WOp op => event_ok (DOp op) (drv c)
  | _ => True
  end.

Inductive web_run (options : ConnectOptions) : list web_event -> client -> Prop :=
  | web_init : web_run options [] (connect_websocket options)
  | web_next es c e :
      web_run options es c -> web_event_ok e c -> web_run options (es ++ [e]) (web_step e c).

(** The binary messages that arrive before the socket closes. *)
Fixpoint arrived (es : list web_event) : list bytes :=
  match es with
  | [] => []
  | WClosed :: _ => []
  | WMessage (ArrayBuffer b) :: es => if bool_decide (b = []) then arrived es else b :: arrived es
  | _ :: es => arrived es
  end.

Definition is_closed (e : web_event) : bool := match e with WClosed => true | _ => false end.

Lemma arrived_snoc es e :
  arrived (es ++ [e]) = arrived es ++ (if existsb is_closed es then [] else arrived [e]).
Proof using Type.
  induction es as [|[[b|]| | | |] es IH]; cbn [app arrived existsb is_closed orb]; try done.
  destruct (bool_decide (b = [])); [done|]. by rewrite IH.
Qed.

(** ** What the driver sees of it *)

Lemma drive_step_grows e d : grows (conn d) (conn (drive_step up e d)).
Proof using Type.
  pose proof (apply_op_grows up) as Hop. assert (forall w : ConnState, grows w w) by reflexivity.
  destruct e as [now b| | |ok|op]; cbn [drive_step].
  - destruct (_ && _); [|done]. destruct (closed _); [|apply Hop]. etransitivity; apply Hop.
  - destruct (_ && _); [apply Hop|done].
  - destruct (write d); try done. destruct (sent _ !! _); [done|]. by destruct (out_tx _).
  - destruct (write d); try done. destruct ok; [done|apply Hop].
  - apply Hop.
Qed.

(** An operation, a read or an end leave the write loop where it is. *)
Lemma drive_step_writes e d :
  match e with DTake | DSent _ => False | _ => True end ->
  write (drive_step up e d) = write d /\ taken (drive_step up e d) = taken d.
Proof using Type.
  intros He. destruct e as [now b| | |ok|op]; cbn [drive_step]; try done.
  - destruct (_ && _); [|done]. by destruct (closed _).
  - by destruct (_ && _).
Qed.

(** One poll of the write loop: an item taken is sent in the same poll. *)
Lemma drive_step_take ok d :
  (forall b, write d <> WSend b) ->
  let d' := drive_step up DTake d in
  match write d' with
  | WSend b =>
      exists item, sent (conn d) !! taken d = Some item /\ b = out_bytes item /\ conn d' = conn d /\
        taken (drive_step up (DSent ok) d') = S (taken d) /\
        (forall b, write (drive_step up (DSent ok) d') <> WSend b)
  | _ => taken d' = taken d /\ conn d' = conn d
  end.
Proof using Type.
  intros Hw. cbn. destruct (write d) as [|b|f] eqn:E; [|by destruct (Hw b)|by rewrite E].
  destruct (sent (conn d) !! taken d) as [item|] eqn:Hi; cbn.
  - exists item. split_and!; [done|done|done| |]; by destruct ok.
  - destruct (out_tx (conn d)); [by rewrite E|done].
Qed.

(** The invariant of a client. *)
Record web_ok options (es : list web_event) (c : client) : Prop := {
  wo_drive : drive_run up options (drv c);
  wo_idle : forall b, write (drv c) <> WSend b;
  wo_calls : calls c = CSend <$> (out_bytes <$> take (taken (drv c)) (sent (conn (drv c))));
  wo_tx : in_tx (inbound c) = negb (existsb is_closed es);
  wo_rx : in_rx (inbound c) = running (drv c) && reading (drv c);
  wo_queue : in_rx (inbound c) = true -> delivered c ++ queue (inbound c) = arrived es;
  wo_prefix : delivered c `prefix_of` arrived es;
  wo_bytes : Forall bytes_ok (queue (inbound c));
}.

Lemma web_ok_settle options es c d ch cs got :
  drive_run up options d -> (forall b, write d <> WSend b) ->
  cs = CSend <$> (out_bytes <$> take (taken d) (sent (conn d))) ->
  in_tx ch = negb (existsb is_closed es) ->
  (running d && reading d = true -> in_rx ch = true /\ got ++ queue ch = arrived es) ->
  got `prefix_of` arrived es -> Forall bytes_ok (queue ch) ->
  c = settle d ch cs got -> web_ok options es c.
Proof using Type.
  intros H1 H2 H3 H4 H5 H6 H7 ->. unfold settle.
  destruct (running d && reading d) eqn:E; [|by split; cbn; rewrite ?E].
  destruct (H5 eq_refl). split; cbn; try done. congruence.
Qed.

Lemma drive_step_alive e d :
  running (drive_step up e d) && reading (drive_step up e d) = true ->
  running d && reading d = true.
Proof using Type.
  destruct e as [now b| | |ok|op]; cbn [drive_step]; try done.
  - destruct (running d && reading d) eqn:E; [done|by rewrite E].
  - destruct (running d && reading d) eqn:E; [done|by rewrite E].
  - destruct (write d) eqn:Hw; try done. unfold running. rewrite Hw.
    destruct (sent _ !! _); [done|]. destruct (out_tx _); cbn; by rewrite ?Hw.
  - destruct (write d) eqn:Hw; try done. unfold running. rewrite Hw. by destruct ok.
Qed.

(** The calls made stay those of the items taken. *)
Lemma calls_grow options d w :
  drive_run up options d -> grows (conn d) w ->
  take (taken d) (sent w) = take (taken d) (sent (conn d)).
Proof using Type.
  intros H [l ->]. destruct (drive_flushing up options d H) as [[Hr _ _ _] _]. by rewrite take_app_le.
Qed.

Lemma web_ok_init options : web_ok options [] (connect_websocket options).
Proof using Type. split; try done; constructor. Qed.

Lemma arrived_other es e :
  arrived [e] = [] -> is_closed e = false ->
  arrived (es ++ [e]) = arrived es /\ existsb is_closed (es ++ [e]) = existsb is_closed es.
Proof using Type.
  intros H1 H2. rewrite arrived_snoc, existsb_app, H1. cbn. rewrite H2, orb_false_r.
  split; [|done]. destruct (existsb is_closed es); apply app_nil_r.
Qed.

(** The read loop is given one more chunk, or the end. *)
Lemma web_ok_read options es c now :
  web_ok options es c -> web_ok options (es ++ [WPollRead now]) (web_step (WPollRead now) c).
Proof using Type.
  intros [H1 H2 H3 H4 H5 H6 H7 H8].
  destruct (arrived_other es (WPollRead now) eq_refl eq_refl) as [Ea Ec].
  assert (forall e, match e with DTake | DSent _ => False | _ => True end ->
    calls c = CSend <$> (out_bytes <$>
      take (taken (drive_step up e (drv c))) (sent (conn (drive_step up e (drv c))))) /\
    forall b, write (drive_step up e (drv c)) <> WSend b) as Hd.
  { intros e He. destruct (drive_step_writes e (drv c) He) as [-> ->]. split; [|done].
    by rewrite (calls_grow options) by (done || apply drive_step_grows). }
  cbn [web_step]. destruct (running (drv c) && reading (drv c)) eqn:Er;
    [|by split; rewrite ?Ea, ?Ec, ?Er].
  specialize (H6 H5). unfold poll_next. destruct (queue (inbound c)) as [|b q] eqn:Eq.
  - destruct (in_tx (inbound c)) eqn:Et; [split; rewrite ?Ea, ?Ec, ?Eq, ?Et, ?Er; done|].
    destruct (Hd DEof I). eapply web_ok_settle; [| | | | | | |reflexivity]; rewrite ?Ea, ?Ec, ?Et; try done.
    + by constructor.
    + intros _. by rewrite Eq.
    + by rewrite Eq.
  - inversion_clear H8 as [|? ? Hb Hq]. destruct (Hd (DRead now b) I).
    eapply web_ok_settle; [| | | | | | |reflexivity]; rewrite ?Ea, ?Ec; try done.
    + by constructor.
    + intros _. split; [done|]. by rewrite <- app_assoc.
    + exists q. by rewrite <- app_assoc.
Qed.

(** The write loop hands one item to the socket. *)
Lemma web_ok_write options es c ok :
  web_ok options es c -> web_ok options (es ++ [WPollWrite ok]) (web_step (WPollWrite ok) c).
Proof using Type.
  intros [H1 H2 H3 H4 H5 H6 H7 H8].
  destruct (arrived_other es (WPollWrite ok) eq_refl eq_refl) as [Ea Ec].
  pose proof (drive_next up options (drv c) DTake H1 I) as Hd.
  pose proof (drive_step_take ok (drv c) H2) as Ht. cbn [web_step]. cbv zeta in Ht |- *.
  assert (forall d : driver, (running d && reading d = true -> running (drv c) && reading (drv c) = true) ->
    running d && reading d = true -> in_rx (inbound c) = true /\ delivered c ++ queue (inbound c) = arrived es) as Hrx.
  { intros d Hm Ha. rewrite <- H5 in Hm. by split; [apply Hm|apply H6, Hm]. }
  pose proof (drive_step_alive DTake (drv c)) as Ha.
  destruct (write (drive_step up DTake (drv c))) as [|b|f] eqn:Ew.
  1, 3: destruct Ht as [Ht Hc]; eapply web_ok_settle; [| | | | | | |reflexivity];
    rewrite ?Ea, ?Ec, ?Ew, ?Ht, ?Hc; try done; by apply Hrx.
  destruct Ht as (item & Hi & -> & Hc & Ht & Hn).
  pose proof (drive_step_grows (DSent ok) (drive_step up DTake (drv c))) as Hg.
  eapply web_ok_settle; [| | | | | | |reflexivity]; rewrite ?Ea, ?Ec; try done.
  - by constructor.
  - rewrite Ht, H3, Hc in *. rewrite (take_S_r _ _ item), !fmap_app.
    + by rewrite (calls_grow options _ _ H1 Hg).
    + destruct Hg as [l ->]. by apply lookup_app_l_Some.
  - apply Hrx. intros H. by apply drive_step_alive, drive_step_alive in H.
Qed.

Lemma web_ok_step options es c e :
  web_ok options es c -> web_event_ok e c -> web_ok options (es ++ [e]) (web_step e c).
Proof using Type.
  intros H He. destruct e as [data| |now|ok|op]; [| |by apply web_ok_read|by apply web_ok_write|].
  - destruct H as [H1 H2 H3 H4 H5 H6 H7 H8]. cbn [web_step].
    assert (existsb is_closed (es ++ [WMessage data]) = existsb is_closed es) as Ec.
    { rewrite existsb_app. apply orb_false_r. }
    destruct data as [b|]; [|by split; cbn; rewrite ?Ec, ?(proj1 (arrived_other es (WMessage OtherData) eq_refl eq_refl))].
    unfold onmessage, unbounded_send. rewrite H4. cbn in He.
    assert (arrived (es ++ [WMessage (ArrayBuffer b)]) = arrived es ++
      (if existsb is_closed es then [] else if bool_decide (b = []) then [] else [b])) as Ea
      by apply arrived_snoc.
    destruct (bool_decide (b = [])), (existsb is_closed es), (in_rx (inbound c)) eqn:Er;
      rewrite ?app_nil_r in Ea; cbn [negb]; split; cbn; rewrite ?Ea, ?Ec, ?Er, ?H4; try done;
      rewrite ?app_assoc, ?H6; try done; try by apply prefix_app_r.
    by apply Forall_app_2; [|constructor].
  - destruct H as [H1 H2 H3 H4 H5 H6 H7 H8]. cbn [web_step].
    assert (arrived (es ++ [WClosed]) = arrived es) as Ea.
    { rewrite arrived_snoc. by destruct (existsb is_closed es); apply app_nil_r. }
    split; cbn; rewrite ?Ea; try done. rewrite existsb_app. cbn. by rewrite orb_true_r.
  - destruct H as [H1 H2 H3 H4 H5 H6 H7 H8].
    destruct (arrived_other es (WOp op) eq_refl eq_refl) as [Ea Ec].
    destruct (drive_step_writes (DOp op) (drv c) I) as [Hw Ht].
    eapply web_ok_settle; [| | | | | | |reflexivity]; rewrite ?Ea, ?Ec, ?Hw, ?Ht; try done.
    + by constructor.
    + by rewrite (calls_grow options) by (done || apply (drive_step_grows (DOp op))).
    + intros H. apply drive_step_alive in H. rewrite <- H5 in H. by auto.
Qed.

Lemma web_runs options es c : web_run options es c -> web_ok options es c.
Proof using Type. induction 1; [apply web_ok_init|by apply web_ok_step]. Qed.
End web.

(** ** Theorems *)

(** C22: A client on the browser's WebSocket is a driven connection whose read loop gets
    the non-empty binary messages that arrived before the socket closed, once each and
    in order, and sees the end of the stream exactly when the socket has closed and all
    of them are read; each item the connection queues is sent as one message of its own,
    in order, and all of them are when the driver ends well.  No run closes the socket:
    a client that was closed, and has flushed its GOAWAY, leaves it open. *)
Theorem web_tunnel {arch : Arch} up options es c :
  web_run up options es c ->
  drive_run up options (drv c) /\
  delivered c `prefix_of` arrived es /\
  (running (drv c) && reading (drv c) = true ->
     delivered c ++ queue (inbound c) = arrived es /\
     (fst (poll_next (inbound c)) = Ready None <->
        existsb is_closed es = true /\ delivered c = arrived es)) /\
  calls c = CSend <$> (out_bytes <$> take (taken (drv c)) (sent (conn (drv c)))) /\
  (write (drv c) = WDone false -> calls c = CSend <$> (out_bytes <$> sent (conn (drv c)))) /\
  CClose ∉ calls c.
Proof.
  intros H. apply web_runs in H as [H1 H2 H3 H4 H5 H6 H7 H8].
  destruct (drive_flushing up options _ H1) as [Hf _]. split_and!; [done|done| |done| |].
  - intros Ha. rewrite H5 in H6. specialize (H6 Ha). split; [done|]. unfold poll_next.
    rewrite H4. destruct (queue (inbound c)) as [|b q]; cbn.
    + rewrite app_nil_r in H6. destruct (existsb is_closed es); cbn; naive_solver.
    + split; [done|]. intros [_ E]. rewrite <- H6 in E.
      apply (f_equal length) in E. rewrite length_app in E. cbn in E. lia.
  - intros Hw. destruct (fl_done _ Hf Hw) as [Ht _]. by rewrite H3, Ht, firstn_all.
  - rewrite H3. intros Hin. apply list_elem_of_fmap in Hin as (? & ? & _). done.
Qed.

(** Opening a socket returns the constructor's exception if it throws; otherwise it
    waits for the first of the two callbacks and returns what that one decides, at its
    next poll and whatever the browser dispatches after; it is never "canceled". *)
Theorem open_settles {JsValue} (from_str : bytes -> JsValue) construct url protocols es :
  let s := fold_left (Opening.step from_str) es (Opening.open construct url protocols) in
  match construct url (if bool_decide (protocols = []) then None else Some protocols) with
  | Some e => s = Opening.Returned (inl e)
  | None =>
      match Opening.decided from_str es with
      | None => s = Opening.Waiting true None
      | Some v =>
          (s = Opening.Waiting false (Some v) \/ s = Opening.Returned v) /\
          Opening.step from_str s Opening.Resume = Opening.Returned v
      end
  end.
Proof.
  cbv zeta. unfold Opening.open.
  replace (if bool_decide (protocols = []) then construct url None else construct url (Some protocols))
    with (construct url (if bool_decide (protocols = []) then None else Some protocols))
    by by destruct (bool_decide _).
  destruct (construct _ _) as [e|]; [apply Opening.steps_returned|].
  induction es as [|[] es IH]; cbn; [done| | |exact IH];
    match goal with |- context [Opening.Waiting false (Some ?v)] =>
      destruct (Opening.steps_sent from_str es v) as [-> | ->] end; auto.
Qed.

(** ** A run *)

(** A client that is sent a message, then is closed, and writes all it has queued. *)
Definition closing : list web_event :=
  [WMessage (ArrayBuffer [0; 0; 0; 4; 1; 0; 0; 0; 0]); WPollRead 0; WMessage OtherData; WOp OpClose] ++
  replicate 6 (WPollWrite true).

Lemma web_run_fold {arch : Arch} up options es es' c :
  web_run up options es c ->
  Forall (fun e => match e with
    | WMessage (ArrayBuffer b) => bytes_ok b | WOp op => op = OpClose | _ => True end) es' ->
  web_run up options (es ++ es') (fold_left (fun c e => web_step up e c) es' c).
Proof.
  intros H He. revert es c H. induction He as [|e es' He _ IH]; intros es c H; cbn.
  { by rewrite app_nil_r. }
  rewrite cons_middle, app_assoc. apply IH. constructor; [done|].
  destruct e as [[]| | | |]; try done. by subst.
Qed.

Lemma web_tunnel_witness :
  let c := fold_left (fun c e => web_step (arch := host64_debug) id e c) closing
    (connect_websocket (arch := host64_debug) default_options) in
  running (drv c) = false /\ length (calls c) = 4%nat /\ CClose ∉ calls c /\
  calls c = CSend <$> (out_bytes <$> sent (conn (drv c))).
Proof.
  intros c. split; [vm_compute; reflexivity|]. split; [vm_compute; reflexivity|].
  destruct (web_tunnel (arch := host64_debug) id default_options closing c) as (_ & _ & _ & _ & H1 & H2).
  - apply (web_run_fold id default_options [] closing); [constructor|].
    repeat constructor; done.
  - split; [exact H2|]. apply H1. vm_compute. reflexivity.
Defined.
