(* ===== verification/Download.v ===== *)
(** * Download: a response body, from the peer's frames to [Response::bytes]

    Models [Response] of [rust/crates/h2ts-client/src/connection.rs]: its parts and
    [bytes], [text] as a task that polls the body while everything else on the
    connection takes its turns.  The invariant [downloading] follows one stream's
    body through every method of the connection: what has been delivered and what is
    queued are the DATA payloads the peer sent on the stream, and a body that has no
    stream left to feed it has ended. *)

From S2P Require Import Prelude Errors Bytes Utf8 Frames FramesFacts Hpack Flow Stream StreamFacts.
From S2P Require Import Connection ConnectionFacts FlowSafety Lifecycle Totality.

(** ** The task *)

(** [Response::bytes] at its loop: what it has collected, or what it returned. *)
Inductive bytes_task :=
  | Collecting (out : bytes)
  | Collected (r : H2Error.t + bytes).

(** One turn of the loop: [self.body.next()], then [chunk?] and [extend_from_slice]. *)
Definition collect (o : body_poll) (out : bytes) : bytes_task :=
  match o with
  | BodyChunk chunk => Collecting (out ++ chunk)
  | BodyError e => Collected (inl e)
  | BodyEnd => Collected (inr out)
  | BodyPending => Collecting out
  end.

(** [Response::text], from what [bytes] returned. *)
Definition text (r : H2Error.t + bytes) : H2Error.t + bytes :=
  match r with inr v => inr (decode_utf8 v) | inl e => inl e end.

Section download.
Context {arch : Arch}.
Variable id : Z.

Definition bytes_turn (k : waker) (t : bytes_task) : M bytes_task :=
  match t with
  | Collecting out => o ← body_poll_next id k; mret (collect o out)
  | Collected r => mret (Collected r)
  end.

(** ** The body of the stream *)

Definition body (w : ConnState) : RecvState := recv (default default_cells (cells w !! id)).

(** The payloads of the stream's DATA frames, and the frames that end it. *)
Definition data_of (fs : list Frame.t) : bytes :=
  concat ((fun f => match f with Frame.Data i d _ => if i =? id then d else [] | _ => [] end) <$> fs).

Definition ends (f : Frame.t) : Prop :=
  match f with
  | Frame.Data i _ es | Frame.Headers i _ es _ _ => i = id /\ es = true
  | _ => False
  end.

Lemma data_of_app fs1 fs2 : data_of (fs1 ++ fs2) = data_of fs1 ++ data_of fs2.
Proof using Type. unfold data_of. by rewrite fmap_app, concat_app. Qed.

(** [v] is the whole of a body: all the DATA up to a frame that ends the stream. *)
Definition whole (seen : list Frame.t) (v : bytes) : Prop :=
  exists fs1 fs2, seen = fs1 ++ fs2 /\ v = data_of fs1 /\ Exists ends fs1.

Lemma whole_app seen fs v : whole seen v -> whole (seen ++ fs) v.
Proof using Type.
  intros (fs1 & fs2 & -> & H). exists fs1, (fs2 ++ fs). by rewrite app_assoc.
Qed.

(** DATA on the stream still reaches the body; the body ended well. *)
Definition fed (w : ConnState) : Prop := ended (body w) = false /\ is_Some (streams w !! id).
Definition clean (os : list body_poll) (w : ConnState) : Prop :=
  ended (body w) = true /\ error (body w) = None /\ ~ has_error os.

(** [seen]: the frames taken in since the stream was opened; [os]: what the body's
    polls returned.  The bytes delivered and queued are the stream's DATA in some
    frames [fs1] of [seen]: all of them while the body is fed, those up to the end of
    the stream when it ended well. *)
Record downloading (seen : list Frame.t) (os : list body_poll) (w : ConnState) : Prop := {
  dl_next : id < next_stream_id w;
  dl_pending pb : pending_header_block w = Some pb -> pb_stream_id pb = id ->
    pb_end_stream pb = true -> Exists ends seen;
  dl_live : ended (body w) = false -> error (body w) = None /\ ~ has_error os;
  dl_body : exists fs1 fs2, seen = fs1 ++ fs2 /\
    concat (chunks os) ++ concat (queue (body w)) = data_of fs1 /\
    (fed w -> fs2 = []) /\ (clean os w -> Exists ends fs1);
}.

(** ** Methods that leave the body alone *)

Section silent.
Variables (seen : list Frame.t) (os : list body_poll).

Abbreviation dl := (downloading seen os).

(** What is queued stays, and nothing ends well. *)
Lemma dl_step w w' :
  next_stream_id w <= next_stream_id w' -> queue (body w') = queue (body w) ->
  (pending_header_block w' = pending_header_block w \/ pending_header_block w' = None) ->
  (ended (body w') = false -> error (body w') = error (body w) /\ ended (body w) = false) ->
  (fed w' -> fed w) -> (clean os w' -> clean os w) -> keeps dl w w'.
Proof using Type.
  intros E1 E2 E3 E4 E5 E6 [H1 H2 H3 (fs1 & fs2 & H4 & H5 & H6 & H7)]. split.
  - lia.
  - destruct E3 as [-> | ->]; [done|]. by intros pb ?.
  - intros Hn. destruct (E4 Hn) as [-> Hn']. auto.
  - exists fs1, fs2. rewrite E2. split_and!; auto.
Qed.

Lemma dl_same w w' :
  next_stream_id w' = next_stream_id w -> streams w' !! id = streams w !! id ->
  cells w' !! id = cells w !! id ->
  (pending_header_block w' = pending_header_block w \/ pending_header_block w' = None) ->
  keeps dl w w'.
Proof using Type.
  intros E1 E2 E3 E4. apply dl_step; unfold fed, clean, body; rewrite ?E1, ?E2, ?E3; auto. lia.
Qed.

(** A failed body. *)
Lemma dl_failed w w' :
  next_stream_id w' = next_stream_id w -> queue (body w') = queue (body w) ->
  ended (body w') = true -> error (body w') <> None ->
  pending_header_block w' = pending_header_block w -> keeps dl w w'.
Proof using Type.
  intros E1 E2 E3 E4 E5. apply dl_step; unfold fed, clean; rewrite ?E3; auto; [lia|done..| |];
    by intros (? & ? & ?).
Qed.
End silent.

Create HintDb download.
Hint Extern 1 (keeps (downloading _ _) _ _) => (apply dl_same; auto; reflexivity) : download.
Hint Extern 1 (ensures _ (mret _)) => apply ensures_ret; exact _ : download.
Hint Extern 1 (ensures _ (st_lift _)) => apply ensures_lift; exact _ : download.
Hint Extern 1 (ensures _ (st_throw _)) => apply ensures_throw; exact _ : download.
Hint Extern 1 (ensures _ st_panic) => apply ensures_panic; exact _ : download.
Hint Extern 1 (ensures _ st_get) => apply ensures_get; exact _ : download.
Hint Extern 1 (ensures _ (st_modify _)) => (apply ensures_modify; intros ?) : download.

Ltac dl_auto := repeat ensures_step; auto with download.

(** Stream methods that leave the buffer alone, and those that fail it. *)
Definition calm (f : StreamState.t -> Cells -> StreamState.t * Cells * list waker) : Prop :=
  forall s c, recv (f s c).1.2 = recv c.
Definition fails (f : StreamState.t -> Cells -> StreamState.t * Cells * list waker) : Prop :=
  forall s c, queue (recv (f s c).1.2) = queue (recv c) /\
    ended (recv (f s c).1.2) = true /\ error (recv (f s c).1.2) <> None.

Lemma drop_recv s c : recv (StreamState.drop s c) = recv c.
Proof using Type. unfold StreamState.drop. by destruct (StreamState.head_tx s). Qed.

Lemma fail_fails err : fails (StreamState.fail err).
Proof using Type.
  intros s c. unfold StreamState.fail. destruct (SendWindow.close _) as [win k].
  destruct (negb _); cbn; [destruct (StreamState.head_tx s)|]; cbn; by destruct (error (recv c)).
Qed.

Lemma reset_fails code : fails (StreamState.receive_reset code).
Proof using Type. intros s c. apply fail_fails. Qed.

Lemma window_calm (g : SendWindow.t -> SendWindow.t * list waker) :
  calm (fun s c =>
    let '(win, woken) := g (StreamState.send_window s) in (set_send_window win s, c, woken)).
Proof using Type. intros s c. by destruct (g _). Qed.

Lemma calm_calm (g : StreamState.t -> StreamState.t) : calm (fun s c => (g s, c, [])).
Proof using Type. done. Qed.
Hint Resolve fail_fails reset_fails window_calm calm_calm : download.

Section methods.
Variables (seen : list Frame.t) (os : list body_poll).
Abbreviation R := (keeps (downloading seen os)).

Lemma write_raw_dl b f : ensures R (write_raw b f).
Proof using Type.
  apply ensures_modify. intros w. destruct (negb (closed w)), (out_tx w); auto with download;
    by intros H.
Qed.
Lemma emit_dl l : ensures R (emit l).
Proof using Type. unfold emit. dl_auto. Qed.
Hint Resolve write_raw_dl emit_dl : download.
Lemma wake_all_dl l : ensures R (wake_all l).
Proof using Type. apply emit_dl. Qed.
Lemma send_frame_dl f : ensures R (send_frame f).
Proof using Type. unfold send_frame. dl_auto. Qed.
Hint Resolve wake_all_dl send_frame_dl : download.

Lemma on_stream_dl i f : i <> id \/ calm f -> ensures R (on_stream i f).
Proof using Type.
  intros Hf. unfold on_stream. apply ensures_get_bind. intros w.
  destruct (streams w !! i) as [s|] eqn:Hs; [|apply ensures_at_of; auto with download].
  destruct (f s _) as [[s1 c1] k] eqn:Ef. apply ensures_at_put_bind; [exact _| |auto with download].
  destruct (decide (i = id)) as [->|Hne].
  - destruct Hf as [?|Hf]; [done|]. specialize (Hf s (default default_cells (cells w !! id))).
    rewrite Ef in Hf. cbn in Hf.
    apply dl_step; unfold fed, clean, body; cbn; rewrite ?lookup_insert_eq; cbn; rewrite ?Hf, ?Hs;
      auto; [lia|]. intros [? _]. by split.
  - apply dl_same; cbn; rewrite ?lookup_insert_ne by done; auto.
Qed.

Lemma take_stream_dl i f : i <> id \/ fails f \/ calm f -> ensures R (take_stream i f).
Proof using Type.
  intros Hf. unfold take_stream. apply ensures_get_bind. intros w.
  destruct (streams w !! i) as [s|] eqn:Hs; [|apply ensures_at_of; auto with download].
  destruct (f s _) as [[s1 c1] k] eqn:Ef. apply ensures_at_put_bind; [exact _| |auto with download].
  destruct (decide (i = id)) as [->|Hne].
  - destruct Hf as [?|[Hf|Hf]]; [done| |];
      specialize (Hf s (default default_cells (cells w !! id))); rewrite Ef in Hf; cbn in Hf.
    + destruct Hf as (E1 & E2 & E3).
      apply dl_failed; unfold body; cbn; rewrite ?lookup_insert_eq; cbn; rewrite ?drop_recv; done.
    + apply dl_step; unfold fed, clean, body; cbn; rewrite ?lookup_insert_eq; cbn;
        rewrite ?drop_recv, ?Hf, ?Hs; auto; [lia|]. intros [? _]. by split.
  - apply dl_same; cbn; rewrite ?lookup_insert_ne, ?lookup_delete_ne by done; auto.
Qed.
Hint Resolve on_stream_dl take_stream_dl : download.

Lemma wake_slot_waiters_dl : ensures R wake_slot_waiters.
Proof using Type. unfold wake_slot_waiters. dl_auto. Qed.
Hint Resolve wake_slot_waiters_dl : download.
Lemma retire_dl i : ensures R (retire_if_fully_closed i).
Proof using Type. unfold retire_if_fully_closed. dl_auto. Qed.
Lemma reset_stream_dl i c : ensures R (reset_stream i c).
Proof using Type. unfold reset_stream. dl_auto. Qed.
Lemma replenish_dl i n : ensures R (replenish_recv_window i n).
Proof using Type. unfold replenish_recv_window. dl_auto. Qed.
Lemma guard_dl : ensures R guard_header_block_size.
Proof using Type. unfold guard_header_block_size. dl_auto. Qed.
Hint Resolve retire_dl reset_stream_dl replenish_dl guard_dl : download.
Lemma destroy_dl e : ensures R (destroy e).
Proof using Type. unfold destroy. dl_auto. Qed.
Hint Resolve destroy_dl : download.
Lemma connection_error_dl e : ensures R (connection_error e).
Proof using Type. unfold connection_error. dl_auto. Qed.
Lemma apply_settings_dl s : ensures R (apply_remote_settings s).
Proof using Type. unfold apply_remote_settings. dl_auto. Qed.
Hint Resolve connection_error_dl apply_settings_dl : download.
Lemma send_continuations_dl fuel i max block offset :
  ensures R (send_continuations fuel i max block offset).
Proof using Type.
  revert offset. induction fuel as [|fuel IH]; intros offset; cbn [send_continuations]; dl_auto.
Qed.
Hint Resolve send_continuations_dl : download.
Lemma send_headers_dl i block es : ensures R (send_headers i block es).
Proof using Type. unfold send_headers. dl_auto. Qed.
Lemma check_open_dl : ensures R check_open.
Proof using Type. unfold check_open. dl_auto. Qed.
Hint Resolve send_headers_dl check_open_dl : download.

(** A stream opened for another request. *)
Lemma dl_add_stream next s w :
  next_stream_id w <= next ->
  let w1 := set_next_stream_id next w in
  R w (set_cells (<[next_stream_id w := default_cells]> (cells w1))
    (set_streams (<[next_stream_id w := s]> (streams w1)) w1)).
Proof using Type.
  intros Hn w1 H. assert (next_stream_id w <> id) by (destruct H; lia). revert H.
  apply dl_step; unfold fed, clean, body; cbn; rewrite ?lookup_insert_ne by done; auto.
Qed.

Lemma request_turn_dl up k init w :
  next_stream_id w + 2 < 4294967296 -> ensures_at R (request_turn up k init) w.
Proof using Type.
  intros Hn. unfold ensures_at, request_turn. rewrite st_bind_run, request_wait_run.
  destruct (closed w); [by intros H|]. destruct (goaway_received w); [by intros H|].
  destruct (can_open_stream w); simpl; [|by apply dl_same; auto].
  rewrite st_bind_run.
  assert (ensures_at R (request_open up init) w) as H.
  { unfold request_open. apply ensures_at_bind; [exact _|by apply ensures_at_of; auto with download|].
    intros [] w' Hw'. assert (w' = w) as -> by (pose proof (check_open_state w) as E; by rewrite Hw' in E).
    change (ensures_at R (st_get ≫= ?f) w) with (ensures_at R (f w) w).
    apply ensures_at_lift_bind; [exact _|]. intros next Hnext.
    unfold u32_add in Hnext. destruct (Z.ltb_spec (next_stream_id w + 2) 4294967296); [|lia].
    injection Hnext as <-. unfold ensures_at. rewrite st_put_bind, st_modify_bind.
    match goal with |- keeps _ w (fst (?m ?a)) =>
      assert (R w a) as Hadd; [|etransitivity; [exact Hadd|]; change (ensures_at R m a)]
    end.
    - apply dl_add_stream. lia.
    - apply ensures_at_of. dl_auto. }
  unfold ensures_at in H. by destruct (request_open up init w) as [w' [i|e| |]].
Qed.

Lemma pump_turn_dl k i chunk offset : ensures R (pump_turn k i chunk offset).
Proof using Type.
  unfold pump_turn. apply ensures_get_bind. intros w.
  destruct (streams w !! i) as [s|] eqn:Hs; [|apply ensures_at_of; auto with download].
  assert (forall w1 s', cells w1 = cells w -> streams w1 = streams w ->
    next_stream_id w1 = next_stream_id w ->
    pending_header_block w1 = pending_header_block w ->
    R w (set_streams (<[i := s']> (streams w1)) w1)) as Hset.
  { intros w1 s' E1 E2 E3 E4.
    apply dl_step; unfold fed, clean, body; cbn; rewrite ?E1, ?E2, ?E3, ?E4; auto; [lia|].
    intros [? Hi]. split; [done|]. destruct (decide (i = id)) as [<-|Hne]; [by eexists|].
    by rewrite lookup_insert_ne in Hi. }
  destruct (closed w); [apply ensures_at_of; auto with download|].
  destruct (negb (_ && _)).
  { apply ensures_at_put_bind; [exact _| |auto with download].
    destruct (negb (SendWindow.is_ready (conn_send_window w))),
      (negb (SendWindow.is_ready (StreamState.send_window s))); try (by apply Hset);
      apply dl_same; auto. }
  destruct (SendWindow.is_closed _); [apply ensures_at_of; auto with download|].
  destruct (_ <=? 0); [apply ensures_at_of; auto with download|].
  apply ensures_at_put_bind; [exact _| |dl_auto].
  by apply (Hset (set_conn_send_window _ w)).
Qed.

Lemma set_recv_dl i r : i <> id -> ensures R (set_recv i r).
Proof using Type.
  intros Hi. apply ensures_modify. intros w.
  apply dl_same; cbn; rewrite ?lookup_insert_ne by done; auto.
Qed.
Hint Resolve set_recv_dl : download.

(** ** Frames *)

(** The end of the body, with its stream still there. *)
Lemma dl_end w w' :
  next_stream_id w' = next_stream_id w -> queue (body w') = queue (body w) ->
  error (body w') = error (body w) -> ended (body w') = true ->
  pending_header_block w' = pending_header_block w -> is_Some (streams w !! id) ->
  Exists ends seen -> R w w'.
Proof using Type.
  intros E1 E2 E3 E4 E5 Hs He [H1 H2 H3 (fs1 & fs2 & H4 & H5 & H6 & H7)].
  split; [lia|by rewrite E5|by rewrite E4|]. exists fs1, fs2. rewrite E2.
  split_and!; [done|done|by intros [? _]; congruence|]. intros (_ & He' & Hos).
  destruct (ended (body w)) eqn:Hw; [apply H7; split_and!; congruence|].
  rewrite (H6 (conj Hw Hs)), app_nil_r in H4. by subst.
Qed.

Lemma receive_headers_recv fields es s c :
  let c' := (StreamState.receive_headers fields es s c).1.2 in
  recv c' = recv c \/
  es = true /\ queue (recv c') = queue (recv c) /\ error (recv c') = error (recv c) /\
    ended (recv c') = true.
Proof using Type.
  assert (forall c, queue (recv (StreamState.end_body c).1) = queue (recv c) /\
    error (recv (StreamState.end_body c).1) = error (recv c) /\
    ended (recv (StreamState.end_body c).1) = true) as He.
  { intros c0. unfold StreamState.end_body. by destruct (ended (recv c0)) eqn:E. }
  unfold StreamState.receive_headers, StreamState.send_head.
  destruct (negb (StreamState.got_head s)).
  - destruct (_ && _); [by left|]. destruct es; [|by left; destruct (StreamState.head_tx s)].
    right. destruct (StreamState.head_tx s);
      match goal with |- context [StreamState.end_body ?x] =>
        destruct (He x) as (E1 & E2 & E3), (StreamState.end_body x) end; done.
  - destruct es; [|by left]. right.
    match goal with |- context [StreamState.end_body ?x] =>
      destruct (He x) as (E1 & E2 & E3), (StreamState.end_body x) end; done.
Qed.

(** A response's header block on stream [i]: its END_STREAM ends the body. *)
Lemma receive_headers_dl i fields es :
  (i = id -> es = true -> Exists ends seen) ->
  ensures R (on_stream i (fun s c =>
    let '(s, c, woken) := StreamState.receive_headers fields es s c in
    (if es then set_remote_closed s else s, c, woken))).
Proof using Type.
  intros He. destruct (decide (i = id)) as [->|]; [|by apply on_stream_dl; left].
  unfold on_stream. apply ensures_get_bind. intros w.
  destruct (streams w !! id) as [s|] eqn:Hs; [|apply ensures_at_of; auto with download].
  pose proof (receive_headers_recv fields es s (default default_cells (cells w !! id))) as Hr.
  destruct (StreamState.receive_headers _ _ _ _) as [[s1 c1] k]. cbn in Hr.
  apply ensures_at_put_bind; [exact _| |auto with download].
  destruct Hr as [Hr|(-> & E1 & E2 & E3)].
  - apply dl_step; unfold fed, clean, body; cbn; rewrite ?lookup_insert_eq; cbn; rewrite ?Hr, ?Hs;
      auto; [lia|]. intros [? _]. by split.
  - apply dl_end; unfold body; cbn; rewrite ?lookup_insert_eq; cbn; auto.
Qed.

Lemma complete_dl : ensures R complete_header_block.
Proof using Type.
  intros w Hw. unfold ensures_at, complete_header_block. rewrite st_get_bind.
  destruct (pending_header_block w) as [pb|] eqn:Hpb; [|done]. cbn [expect]. rewrite st_lift_bind.
  pose proof (dl_pending _ _ _ Hw pb Hpb) as He. rewrite st_put_bind.
  match goal with |- downloading _ _ (fst (?m ?a)) =>
    assert (downloading seen os a) as Hm by (revert Hw; apply dl_same; auto);
    revert Hm; change (ensures_at R m a); apply ensures_at_of
  end.
  repeat ensures_step; auto using receive_headers_dl with download.
  apply ensures_modify. intros w'. destruct (highest_promised w' <? _); auto with download.
Qed.

Lemma open_header_block_dl pb eh :
  (pb_stream_id pb = id -> pb_end_stream pb = true -> Exists ends seen) ->
  ensures R (open_header_block pb eh).
Proof using Type.
  intros He. unfold open_header_block. apply ensures_bind; [exact _| |].
  - apply ensures_modify. intros w [H1 H2 H3 H4]. split; [done| |done|done].
    intros pb' [= <-]. exact He.
  - intros _. apply ensures_bind; [exact _|auto with download|]. intros _.
    destruct eh; [apply complete_dl|auto with download].
Qed.

End methods.
Hint Resolve write_raw_dl emit_dl wake_all_dl send_frame_dl on_stream_dl take_stream_dl
  wake_slot_waiters_dl retire_dl reset_stream_dl replenish_dl guard_dl destroy_dl
  connection_error_dl apply_settings_dl send_headers_dl check_open_dl pump_turn_dl set_recv_dl
  complete_dl open_header_block_dl : download.

(** Frames that do not reach the body. *)
Lemma dl_skip seen fs os w :
  downloading seen os w -> ~ fed w -> downloading (seen ++ fs) os w.
Proof using Type.
  intros [H1 H2 H3 (fs1 & fs2 & -> & H5 & H6 & H7)] Hf. split; [done| |done|].
  - intros pb Hp Hi He. apply Exists_app. left. by eapply H2.
  - exists fs1, (fs2 ++ fs). by rewrite app_assoc.
Qed.

Lemma dl_other seen f os w :
  data_of [f] = [] -> downloading seen os w -> downloading (seen ++ [f]) os w.
Proof using Type.
  intros Hf H.
  destruct (decide (ended (body w) = false /\ is_Some (streams w !! id))) as [Hfed|]; [|by apply dl_skip].
  destruct H as [H1 H2 H3 (fs1 & fs2 & -> & H5 & H6 & H7)]. split; [done| |done|].
  - intros pb Hp Hi He. apply Exists_app. left. by eapply H2.
  - exists (fs1 ++ [f]), []. rewrite (H6 Hfed) in *. rewrite !app_nil_r, data_of_app, Hf, app_nil_r.
    split_and!; [done|done|done|]. intros [? _]. by destruct Hfed; congruence.
Qed.

(** DATA on the stream. *)
Lemma receive_data_recv data es c :
  let r' := recv (StreamState.receive_data data es c).1 in
  error r' = error (recv c) /\
  (ended (recv c) = true -> queue r' = queue (recv c) /\ ended r' = true) /\
  (ended (recv c) = false -> error (recv c) = None ->
     concat (queue r') = concat (queue (recv c)) ++ data /\ ended r' = es).
Proof using Type.
  unfold StreamState.receive_data. cbn.
  destruct (ended (recv c)) eqn:He, (bool_decide (data = [])) eqn:Hd, (bool_decide (error (recv c) = None)) eqn:Hn,
    es; cbn; rewrite ?He; split_and!; try done; intros _ E;
    rewrite ?concat_app; cbn; rewrite ?app_nil_r; try done;
    try (apply bool_decide_eq_true_1 in Hd as ->; by rewrite app_nil_r);
    by apply bool_decide_eq_false_1 in Hn.
Qed.

Lemma dl_data seen os w s k' data es (c := default default_cells (cells w !! id)) :
  streams w !! id = Some s -> downloading seen os w ->
  downloading (seen ++ [Frame.Data id data es]) os
    (set_cells (<[id := (StreamState.receive_data data es c).1]> (cells w))
      (set_streams (<[id := k']> (streams w)) w)).
Proof using Type.
  intros Hs H. set (w' := set_cells _ _).
  assert (body w' = recv (StreamState.receive_data data es c).1) as Hb.
  { unfold body. cbn. by rewrite lookup_insert_eq. }
  destruct (receive_data_recv data es c) as (E1 & E2 & E3). rewrite <- Hb in E1, E2, E3.
  change (recv c) with (body w) in E1, E2, E3.
  destruct (ended (body w)) eqn:He.
  - destruct (E2 eq_refl) as [E4 E5]. apply dl_skip.
    + revert H. apply dl_step; unfold fed, clean; rewrite ?E1, ?E4, ?E5, ?He; auto; try done. by intros [? _].
    + intros [? _]. congruence.
  - destruct H as [H1 H2 H3 (fs1 & fs2 & -> & H5 & H6 & H7)]. destruct (H3 He) as [Hn Ho].
    destruct (E3 eq_refl Hn) as [E4 E5].
    assert (fs2 = []) as -> by (apply H6; split; [done|by eexists]). split; [done| |by rewrite E1|].
    + intros pb Hp Hi Hb'. apply Exists_app. left. by eapply H2.
    + exists (fs1 ++ [Frame.Data id data es]), []. rewrite !app_nil_r. split_and!; [done| |done|].
      * rewrite data_of_app, <- H5, E4, app_assoc. unfold data_of. cbn. by rewrite Z.eqb_refl, app_nil_r.
      * intros (Hend & _). apply Exists_app. right. apply Exists_cons_hd. split; [done|congruence].
Qed.

(** Frames other than DATA on the stream. *)
Definition on_body (f : Frame.t) : bool :=
  match f with Frame.Data i _ _ => i =? id | _ => false end.

Lemma dispatch_keeps now f seen os :
  on_body f = false -> (ends f -> Exists ends seen) ->
  ensures (keeps (downloading seen os)) (dispatch now f).
Proof using Type.
  intros Hf He. unfold dispatch, receive_goaway. apply ensures_get_bind. intros w.
  destruct (_ && _); [apply ensures_at_of; auto with download|].
  destruct f as [i d es|i frag es eh p|i p|i code|ack st|i pid frag eh|ack d|last code dbg|
    i inc|i frag eh]; cbn [on_body ends] in *; try (dl_auto; fail).
  - apply Z.eqb_neq in Hf. apply ensures_at_of. dl_auto.
  - apply ensures_at_of, open_header_block_dl. cbn. done.
  - destruct (pending_header_block w) as [pb|] eqn:Hpb; [|apply ensures_at_of; dl_auto].
    destruct (pb_stream_id pb =? i); [|apply ensures_at_of; dl_auto].
    apply ensures_at_bind; [exact _| |intros; apply ensures_at_of; dl_auto].
    intros [H1 H2 H3 H4]. split; [done| |done|done]. intros pb' [= <-]. exact (H2 pb Hpb).
Qed.

(** DATA on the stream while it is there. *)
Lemma on_stream_data seen os w s data es :
  streams w !! id = Some s -> downloading seen os w ->
  downloading (seen ++ [Frame.Data id data es]) os
    (on_stream id (fun s c =>
       let '(c, woken) := StreamState.receive_data data es c in
       (if es then set_remote_closed s else s, c, woken)) w).1.
Proof using Type.
  intros Hs Hw. unfold on_stream. rewrite st_get_bind, Hs.
  pose proof (dl_data seen os w s (if es then set_remote_closed s else s) data es Hs Hw) as H.
  destruct (StreamState.receive_data data es _) as [c k]. cbn in H. rewrite st_put_bind.
  by apply (wake_all_dl _ os k).
Qed.

Lemma dispatch_dl now f seen os w :
  downloading seen os w ->
  downloading (seen ++ [f]) os (dispatch now f w).1 \/
  (dispatch now f w).2 <> Ok tt /\ downloading seen os (dispatch now f w).1.
Proof using Type.
  intros Hw. destruct (on_body f) eqn:Hf.
  2: { left. eapply (dispatch_keeps now f (seen ++ [f]) os Hf).
    - intros He. apply Exists_app. right. by apply Exists_cons_hd.
    - apply dl_other; [|done]. destruct f; try done. cbn in Hf. unfold data_of. cbn. by rewrite Hf. }
  destruct f as [i d es| | | | | | | | |]; try done. cbn in Hf. apply Z.eqb_eq in Hf as ->.
  unfold dispatch, receive_goaway. rewrite st_get_bind. destruct (_ && _); [by right|]. left.
  destruct (streams w !! id) as [s|] eqn:Hs.
  - rewrite bool_decide_true by by eexists. rewrite st_bind_run.
    pose proof (on_stream_data seen os w s d es Hs Hw) as H.
    destruct (on_stream id _ w) as [w1 [[]|e| |]]; cbn in H |- *; try done.
    revert H. destruct es; [apply retire_dl|done].
  - rewrite bool_decide_false by by intros [? ?].
    apply (dl_skip _ [Frame.Data id d es]) in Hw; [|intros [_ []]; congruence].
    revert Hw. match goal with |- _ -> downloading _ _ (fst (?m w)) =>
      change (ensures_at (keeps (downloading (seen ++ [Frame.Data id d es]) os)) m w) end.
    apply ensures_at_of. dl_auto.
Qed.

Lemma dispatch_all_dl now fs seen os w :
  downloading seen os w ->
  exists fs1 fs2, fs = fs1 ++ fs2 /\ downloading (seen ++ fs1) os (dispatch_all now fs w).1 /\
    ((dispatch_all now fs w).2 = Ok tt -> fs2 = []).
Proof using Type.
  revert seen w. induction fs as [|f fs IH]; intros seen w Hw; cbn [dispatch_all].
  { exists [], []. by rewrite !app_nil_r. }
  rewrite st_bind_run. pose proof (dispatch_dl now f seen os w Hw) as Hd.
  destruct (dispatch now f w) as [w1 [[]|e| |]]; cbn in Hd |- *.
  - destruct Hd as [Hd|[? _]]; [|done]. destruct (IH _ _ Hd) as (fs1 & fs2 & -> & H1 & H2).
    exists (f :: fs1), fs2. rewrite cons_middle, app_assoc. done.
  - destruct Hd as [Hd|[_ Hd]]; [exists [f], fs|exists [], (f :: fs)]; rewrite ?app_nil_r; done.
  - destruct Hd as [Hd|[_ Hd]]; [exists [f], fs|exists [], (f :: fs)]; rewrite ?app_nil_r; done.
  - destruct Hd as [Hd|[_ Hd]]; [exists [f], fs|exists [], (f :: fs)]; rewrite ?app_nil_r; done.
Qed.

(** After a connection error no stream is left. *)
Lemma connection_error_streams e w : conn_ok w -> streams (connection_error e w).1 = ∅.
Proof using Type.
  intros Hok. pose proof (connection_error_ok e w Hok) as Hok'.
  destruct (closed w) eqn:Hc.
  - destruct (connection_error_silent e w Hc) as [Hc' _]. by apply (ok_closed _ Hok').
  - unfold connection_error. rewrite st_get_bind.
    destruct (send_goaway_run (highest_promised w) (ErrorCode.value (H2Error.code e)) w Hc)
      as (b & _ & Hs); [by apply Hok|].
    rewrite (st_bind_Ok _ _ _ _ _ Hs). set (w1 := set_sent _ w).
    destruct (destroy_run e w1) as (cs & ev & H & _); [done|]. by rewrite H.
Qed.

Lemma on_bytes_dl now chunk seen os w :
  conn_ok w -> (on_bytes now chunk w).2 = Ok tt -> downloading seen os w ->
  downloading (seen ++ frames_in chunk w) os (on_bytes now chunk w).1.
Proof using Type.
  intros Hok. unfold on_bytes, st_catch, frames_in. rewrite st_get_bind.
  destruct (FrameDecoder.push chunk (frame_decoder w)) as [fd r]. rewrite st_put_bind, st_lift_bind.
  set (w1 := set_frame_decoder fd w). intros Hr Hw.
  assert (downloading seen os w1) as Hw1 by (revert Hw; apply dl_same; auto).
  assert (conn_ok w1) as Hok1 by (revert Hok; by apply ok_same).
  assert (forall e w2 fs fs', conn_ok w2 -> downloading (seen ++ fs) os w2 ->
    downloading (seen ++ fs ++ fs') os (connection_error e w2).1) as Herr.
  { intros e w2 fs fs' Hok2 H2. rewrite app_assoc. apply dl_skip; [by apply connection_error_dl|].
    intros [_ []]. by rewrite connection_error_streams in *. }
  destruct r as [frames|e| |]; cbn [snd] in *; try done.
  - destruct (dispatch_all_dl now frames seen os w1 Hw1) as (fs1 & fs2 & -> & H1 & H2).
    pose proof (dispatch_all_ok now (fs1 ++ fs2) w1 Hok1) as Hok2.
    destruct (dispatch_all now (fs1 ++ fs2) w1) as [w2 [[]|e| |]]; cbn in *; try done.
    + rewrite (H2 eq_refl), app_nil_r in *. done.
    + by apply Herr.
  - apply (Herr e w1 [] []); [done|]. by rewrite app_nil_r.
Qed.

(** ** Polls of the body *)

Lemma chunks_snoc os o : concat (chunks (os ++ [o])) =
  concat (chunks os) ++ match o with BodyChunk c => c | _ => [] end.
Proof using Type. rewrite chunks_app, concat_app. by destruct o; cbn; rewrite ?app_nil_r. Qed.

Lemma replenish_run i n w : exists w', replenish_recv_window i n w = (w', Ok tt) /\ cells w' = cells w.
Proof using Type.
  assert (forall i inc w, exists w', send_frame (Frame.WindowUpdate i inc) w = (w', Ok tt) /\
    cells w' = cells w) as Hs.
  { intros j inc w0. unfold send_frame, write_raw, st_modify. rewrite st_bind_run. cbn.
    destruct (negb (closed w0)), (out_tx w0); by eexists. }
  unfold replenish_recv_window. rewrite st_get_bind. destruct (_ || _); [by exists w|].
  destruct (bool_decide _); rewrite st_bind_run.
  - destruct (Hs i (as_u32 n) w) as (w1 & -> & <-). apply Hs.
  - cbn. apply Hs.
Qed.

Lemma body_poll_run k w :
  exists w', body_poll_next id k w = (w', Ok (recv_poll k (body w)).2) /\
    body w' = (recv_poll k (body w)).1.
Proof using Type.
  unfold body_poll_next. rewrite st_get_bind. fold (body w).
  destruct (recv_poll k (body w)) as [r o]. cbn.
  unfold set_recv. rewrite st_modify_bind.
  match goal with |- context [set_cells ?m w] => set (w1 := set_cells m w) end.
  assert (body w1 = r) as Hb by (unfold body; cbn; by rewrite lookup_insert_eq).
  destruct o as [c| | |]; try (exists w1; done).
  destruct (zlen c =? 0); [by exists w1|].
  destruct (replenish_run id (zlen c) w1) as (w2 & H & Hc). exists w2. rewrite st_bind_run, H.
  split; [done|]. unfold body in *. by rewrite Hc.
Qed.

Lemma has_error_snoc os o : has_error (os ++ [o]) <-> has_error os \/ exists e, o = BodyError e.
Proof using Type.
  unfold has_error. setoid_rewrite elem_of_app. setoid_rewrite list_elem_of_singleton. naive_solver.
Qed.

(** The three outcomes of a poll: a chunk, the error, or nothing. *)
Lemma recv_poll_cases k r : let '(r', o) := recv_poll k r in
  ended r' = ended r /\
  ((exists c, o = BodyChunk c /\ queue r = c :: queue r' /\ error r' = error r) \/
   (exists e, o = BodyError e /\ queue r = [] /\ queue r' = [] /\ error r = Some e) \/
   (o = (if ended r then BodyEnd else BodyPending) /\ queue r = [] /\ queue r' = [] /\
    error r = None /\ error r' = None)).
Proof using Type.
  unfold recv_poll. destruct (queue r) as [|c q] eqn:Eq; [destruct (error r) as [e|] eqn:Ee|].
  - split; [done|]. right. left. by exists e.
  - destruct (ended r) eqn:Ed; cbn; (split; [done|]); right; right; by split_and!.
  - split; [done|]. left. by exists c.
Qed.

(** A poll moves a chunk from the queue to what is delivered, or the error out. *)
Lemma dl_poll k seen os w w1 :
  downloading seen os w ->
  next_stream_id w1 = next_stream_id w -> streams w1 = streams w ->
  pending_header_block w1 = pending_header_block w -> body w1 = (recv_poll k (body w)).1 ->
  downloading seen (os ++ [(recv_poll k (body w)).2]) w1.
Proof using Type.
  intros [H1 H2 H3 (fs1 & fs2 & H4 & H5 & H6 & H7)] E1 E2 E3 Hb.
  pose proof (recv_poll_cases k (body w)) as Hc. destruct (recv_poll k (body w)) as [r o].
  cbn in *. subst r. destruct Hc as [He Hc].
  assert (concat (chunks (os ++ [o])) ++ concat (queue (body w1)) =
    concat (chunks os) ++ concat (queue (body w))) as Hq.
  { rewrite chunks_snoc. destruct Hc as [(c & -> & -> & _)|[(e & -> & -> & -> & _)|(-> & -> & -> & _)]].
    - cbn. by rewrite <- app_assoc.
    - by rewrite !app_nil_r.
    - destruct (ended _); by rewrite !app_nil_r. }
  split; [lia|by rewrite E3| |exists fs1, fs2; rewrite Hq; split_and!; [done|done|unfold fed; by rewrite He, E2|]].
  - rewrite He. intros Hl. destruct (H3 Hl) as [H8 H9]. rewrite has_error_snoc, Hl in *.
    destruct Hc as [(c & -> & _ & ->)|[(e & -> & _ & _ & ?)|(-> & _ & _ & _ & ->)]]; naive_solver.
  - unfold clean. rewrite He, has_error_snoc. intros (C1 & C2 & C3). apply H7. split_and!; [done| |tauto].
    destruct Hc as [(c & _ & _ & <-)|[(e & -> & _)|(_ & _ & _ & ? & _)]]; [done| |done].
    exfalso. apply C3. right. by eexists.
Qed.

Lemma body_poll_dl k seen os w :
  downloading seen os w ->
  downloading seen (os ++ [(recv_poll k (body w)).2]) (body_poll_next id k w).1.
Proof using Type.
  intros Hw. unfold body_poll_next. rewrite st_get_bind. fold (body w).
  pose proof (dl_poll k seen os w (set_recv id (recv_poll k (body w)).1 w).1 Hw eq_refl eq_refl eq_refl) as H.
  destruct (recv_poll k (body w)) as [r o]. cbn in H. rewrite st_bind_run. cbn [set_recv st_modify fst snd].
  match goal with |- downloading _ _ (fst (?m ?a)) =>
    assert (downloading seen (os ++ [o]) a) as Ha; [|revert Ha;
      change (ensures_at (keeps (downloading seen (os ++ [o]))) m a); apply ensures_at_of; dl_auto]
  end.
  apply H. unfold body. cbn. by rewrite lookup_insert_eq.
Qed.

(** ** A download *)

(** Turns of [bytes] one after the other, for the wakers [ks]. *)
Fixpoint bytes_turns (ks : list waker) (t : bytes_task) : M bytes_task :=
  match ks with
  | [] => mret t
  | k :: ks => t ← bytes_turn k t; bytes_turns ks t
  end.

Variable to_uppercase : bytes -> bytes.

(** The caller of [bytes] owns the body: nobody else polls or drops it. *)
Definition owned (op : conn_op) : Prop :=
  match op with OpBodyPoll i _ | OpBodyDrop i => i <> id | _ => True end.

(** The request is opened as stream [id]; then any operations, and the turns of
    [bytes], in any order.  The frames taken in since are recorded. *)
Inductive download (options : ConnectOptions) : list Frame.t -> ConnState -> bytes_task -> Prop :=
  | download_opened fs k init w w' :
      run to_uppercase options fs w -> op_ok (OpRequest k init) w ->
      request_turn to_uppercase k init w = (w', Ok (Some id)) ->
      (forall pb, pending_header_block w = Some pb -> pb_stream_id pb <> id) ->
      download options [] w' (Collecting [])
  | download_op seen w t op :
      download options seen w t -> op_ok op w -> owned op ->
      download options (seen ++ frames_of op w) (apply_op to_uppercase op w) t
  | download_turn seen w out w' t k :
      download options seen w (Collecting out) ->
      bytes_turn k (Collecting out) w = (w', Ok t) ->
      download options seen w' t.

Lemma download_runs options seen w t :
  download options seen w t -> exists fs, run to_uppercase options fs w.
Proof using Type.
  induction 1 as [fs k init w w' Hrun Hop Hr _|seen w t op _ [fs IH] Hop _|seen w out w' t k _ [fs IH] Ht].
  - eexists. pose proof (run_step to_uppercase options fs w _ Hrun Hop) as H.
    cbn in H. rewrite Hr in H. exact H.
  - eexists. by apply (run_step to_uppercase options fs w op).
  - eexists. pose proof (run_step to_uppercase options fs w (OpBodyPoll id k) IH I) as H.
    cbn [apply_op] in H. unfold bytes_turn in Ht. rewrite st_bind_run in Ht.
    destruct (body_poll_next id k w) as [w1 [o|e| |]]; cbn in *; try done. by injection Ht as <- _.
Qed.

(** The stream a request opens. *)
Lemma request_open_opens init w w' :
  next_stream_id w + 2 < 4294967296 ->
  (forall pb, pending_header_block w = Some pb -> pb_stream_id pb <> id) ->
  request_open to_uppercase init w = (w', Ok id) -> downloading [] [] w'.
Proof using Type.
  intros Hn Hp. unfold request_open. rewrite st_bind_run.
  pose proof (check_open_state w) as Hc. destruct (check_open w) as [w0 [[]|e| |]]; try done.
  cbn in Hc. subst w0. cbn [fst snd]. rewrite st_get_bind. unfold u32_add.
  destruct (Z.ltb_spec (next_stream_id w + 2) 4294967296); [|lia].
  rewrite st_lift_Ok, st_put_bind, st_modify_bind.
  match goal with |- ?m ?a = _ -> _ => set (w1 := a); set (mm := m) end. intros Hr.
  assert (next_stream_id w = id) as Hid.
  { revert Hr. unfold mm. rewrite st_lift_bind. destruct (HpackEncoder.encode _); try done.
    rewrite st_bind_run. destruct (send_headers _ _ _ w1) as [w2 [[]|e| |]]; try done.
    destruct (body_is_empty (init_body init)); cbn; by intros [=]. }
  assert (downloading [] [] w1) as H1.
  { unfold w1. rewrite Hid. split; unfold fed, clean, body; cbn; rewrite ?lookup_insert_eq; cbn.
    - lia.
    - intros pb Hpb E. exfalso. exact (Hp pb Hpb E).
    - intros _. split; [done|]. intros [e He]. by apply elem_of_nil in He.
    - exists [], []. repeat (split; [reflexivity|]). intros [Hf _]. discriminate Hf. }
  revert H1. replace w' with (mm w1).1 by by rewrite Hr.
  change (ensures_at (keeps (downloading [] [])) mm w1). apply ensures_at_of. unfold mm. dl_auto.
Qed.

Lemma request_turn_opens k init w w' :
  next_stream_id w + 2 < 4294967296 ->
  (forall pb, pending_header_block w = Some pb -> pb_stream_id pb <> id) ->
  request_turn to_uppercase k init w = (w', Ok (Some id)) -> downloading [] [] w'.
Proof using Type.
  intros Hn Hp. unfold request_turn. rewrite st_bind_run, request_wait_run.
  destruct (closed w); [done|]. destruct (goaway_received w); [done|].
  destruct (can_open_stream w); [|done]. cbn [fst snd]. rewrite st_bind_run.
  pose proof (request_open_opens init w) as Ho.
  destruct (request_open to_uppercase init w) as [w1 [i|e| |]]; try done.
  intros [= -> ->]. by apply Ho.
Qed.

(** An operation takes its frames in. *)
Lemma apply_op_dl op seen os w :
  conn_ok w -> (forall now chunk, bytes_ok chunk -> (on_bytes now chunk w).2 = Ok tt) ->
  op_ok op w -> owned op -> downloading seen os w ->
  downloading (seen ++ frames_of op w) os (apply_op to_uppercase op w).
Proof using Type.
  intros Hok Hret Hop Hown Hw.
  destruct op as [now c| | |k init|k now| |k i c o|i|i k|i]; cbn [frames_of apply_op];
    rewrite ?app_nil_r.
  - unfold read_chunk. destruct (negb _); [|by rewrite app_nil_r]. apply on_bytes_dl; auto.
  - by apply destroy_dl.
  - by apply destroy_dl.
  - by apply request_turn_dl.
  - revert Hw. apply (ensures_at_of (keeps (downloading seen os))). unfold ping. dl_auto.
  - revert Hw. apply (ensures_at_of (keeps (downloading seen os))). unfold close. dl_auto.
  - by apply pump_turn_dl.
  - revert Hw. apply (ensures_at_of (keeps (downloading seen os))). unfold pump_finish. dl_auto.
  - revert Hw. apply (ensures_at_of (keeps (downloading seen os))). unfold body_poll_next. dl_auto.
  - revert Hw. apply (ensures_at_of (keeps (downloading seen os))). unfold body_drop. dl_auto.
Qed.

(** What the task has is what the body delivered. *)
Definition task_ok (seen : list Frame.t) (os : list body_poll) (t : bytes_task) : Prop :=
  match t with
  | Collecting out => out = concat (chunks os) /\ ~ has_error os
  | Collected (inl _) => True
  | Collected (inr v) => whole seen v
  end.

Lemma bytes_turn_dl k seen os out w w' t :
  downloading seen os w -> task_ok seen os (Collecting out) ->
  bytes_turn k (Collecting out) w = (w', Ok t) ->
  downloading seen (os ++ [(recv_poll k (body w)).2]) w' /\
  task_ok seen (os ++ [(recv_poll k (body w)).2]) t.
Proof using Type.
  intros Hw [-> Hos] Ht. pose proof (body_poll_dl k seen os w Hw) as Hd.
  destruct (body_poll_run k w) as (w1 & Hr & Hb). rewrite Hr in Hd. cbn in Hd.
  unfold bytes_turn in Ht. rewrite (st_bind_Ok _ _ _ _ _ Hr) in Ht. injection Ht as <- <-.
  split; [done|]. pose proof (recv_poll_cases k (body w)) as Hc.
  destruct (recv_poll k (body w)) as [r o] eqn:Ep. cbn in *. destruct Hc as [He Hc].
  destruct Hc as [(c & -> & _)|[(e & -> & _)|(-> & Hq & Hq' & Hn & _)]]; [| done|].
  - cbn. rewrite chunks_snoc, has_error_snoc. split; [done|]. intros [?|[? ?]]; done.
  - destruct (ended (body w)) eqn:Ed; cbn.
    + destruct Hw as [_ _ _ (fs1 & fs2 & -> & H5 & _ & H7)]. exists fs1, fs2.
      rewrite Hq, app_nil_r in H5. split_and!; [done|done|]. by apply H7.
    + rewrite chunks_snoc, app_nil_r, has_error_snoc. split; [done|]. intros [?|[? ?]]; done.
Qed.
End download.

(** ** Theorems *)

Lemma run_inbound {arch : Arch} {arch_ok : ArchOk arch} up options fs w :
  50 <= usize_bits \/ overflow_checks = false ->
  0 <= default 4096 (opt_header_table_size options) ->
  run up options fs w -> inbound_ok w.
Proof.
  intros Hint Hopt. induction 1 as [|fs w op Hrun IH Hop]; [by apply connect_inbound|].
  by apply apply_op_inbound.
Qed.

Lemma download_ok {arch : Arch} {arch_ok : ArchOk arch} id up options seen w t :
  50 <= usize_bits \/ overflow_checks = false ->
  0 <= default 4096 (opt_header_table_size options) ->
  download id up options seen w t ->
  exists os, downloading id seen os w /\ task_ok id seen os t.
Proof.
  intros Hint Hopt. induction 1 as [fs k init w w' Hrun Hop Hr Hp|seen w t op Hd [os [IH1 IH2]] Hop Hown|
    seen w out w' t k Hd [os [IH1 IH2]] Ht].
  - exists []. split; [by eapply (request_turn_opens id up)|]. split; [done|].
    intros [e He]. by apply elem_of_nil in He.
  - exists os. destruct (download_runs id up options seen w t Hd) as [fs Hrun]. split.
    + apply apply_op_dl; [by eapply run_ok| |done..]. intros now chunk Hc.
      by apply on_bytes_inbound; [..|by eapply run_inbound].
    + destruct t as [out|[e|v]]; [done|done|by apply whole_app].
  - eexists. by eapply bytes_turn_dl.
Qed.

Lemma download_delivers {arch : Arch} {arch_ok : ArchOk arch} id up options seen w t :
  50 <= usize_bits \/ overflow_checks = false ->
  0 <= default 4096 (opt_header_table_size options) ->
  download id up options seen w t ->
  match t with
  | Collecting out => out `prefix_of` data_of id seen
  | Collected (inr v) => whole id seen v
  | Collected (inl _) => True
  end.
Proof.
  intros Hint Hopt Hd. destruct (download_ok id up options seen w t Hint Hopt Hd) as (os & H1 & H2).
  destruct t as [out|[e|v]]; [|done|done]. destruct H2 as [-> _].
  destruct (dl_body _ _ _ _ H1) as (fs1 & fs2 & -> & E & _). rewrite data_of_app, <- E, <- app_assoc.
  by apply prefix_app_r.
Qed.

(** C7: A download is what the peer sent.  From the opening of its stream on, whatever
    else happens on the connection and however the turns of [Response::bytes] fall: what
    it has collected is a prefix of the DATA the peer sent on the stream, and when it
    returns a body, that is all the DATA up to a frame with END_STREAM: a truncated body
    is never returned as a complete one. *)
Theorem download_faithful {arch : Arch} {arch_ok : ArchOk arch} id up options seen w t :
  50 <= usize_bits \/ overflow_checks = false ->
  0 <= default 4096 (opt_header_table_size options) ->
  download id up options seen w t ->
  match t with
  | Collecting out => out `prefix_of` data_of id seen
  | Collected (inr v) => whole id seen v
  | Collected (inl _) => True
  end.
Proof. apply download_delivers. Qed.

(** Once the body of the response has ended, [bytes] returns: after one turn per
    chunk still queued and one more it has the rest of the body, or the error the stream
    failed with, and no turn panics. *)
Theorem bytes_returns {arch : Arch} id ks out w :
  ended (body id w) = true -> length ks = S (length (queue (body id w))) ->
  snd (bytes_turns id ks (Collecting out) w) =
  Ok (Collected (match error (body id w) with
                 | Some e => inl e
                 | None => inr (out ++ concat (queue (body id w)))
                 end)).
Proof.
  revert out w. induction ks as [|k ks IH]; intros out w He Hk; [done|]. injection Hk as Hk.
  destruct (body_poll_run id k w) as (w' & Hr & Hb). pose proof (recv_poll_cases k (body id w)) as Hc.
  destruct (recv_poll k (body id w)) as [r o]. cbn [fst snd] in Hr, Hb. subst r.
  destruct Hc as [Hend Hc]. cbn [bytes_turns]. unfold bytes_turn at 1.
  rewrite (st_bind_Ok _ _ w w' (collect o out)) by by rewrite (st_bind_Ok _ _ _ _ _ Hr).
  destruct Hc as [(c & -> & Hq & Hn)|[(e & -> & Hq & _ & Hn)|(-> & Hq & _ & Hn & _)]].
  - cbn [collect]. rewrite IH; [|congruence|rewrite Hk, Hq; done].
    rewrite Hn, Hq. cbn [concat]. by rewrite app_assoc.
  - rewrite Hq in Hk. destruct ks; [|done]. by rewrite Hn.
  - rewrite Hq in Hk. destruct ks; [|done]. by rewrite Hn, Hq, He, app_nil_r.
Qed.

(** ** Runs *)

(** The head of a response and its whole body, in two frames on stream 1. *)
Definition sample_response : bytes :=
  [0; 0; 1; 1; 4; 0; 0; 0; 1; 0x88; 0; 0; 2; 0; 1; 0; 0; 0; 1; 104; 105].

Definition opened_client : ConnState :=
  fst (request_turn (arch := host64_debug) id 0 sample_request
    (connect (arch := host64_debug) default_options)).

Lemma sample_response_ok : bytes_ok sample_response.
Proof. repeat constructor; done. Qed.

Lemma download_faithful_witness :
  let op := OpRead 0 sample_response in
  let w1 := apply_op (arch := host64_debug) id op opened_client in
  let r1 := bytes_turn (arch := host64_debug) 1 7%nat (Collecting []) w1 in
  let r2 := bytes_turn (arch := host64_debug) 1 7%nat (Collecting (str "hi")) (fst r1) in
  snd r2 = Ok (Collected (inr (str "hi"))) /\
  whole 1 ([] ++ frames_of op opened_client) (str "hi").
Proof.
  intros op w1 r1 r2. split; [vm_compute; reflexivity|].
  apply (@download_faithful host64_debug host64_debug_ok 1 id default_options
    ([] ++ frames_of op opened_client) (fst r2) (Collected (inr (str "hi"))));
    [left; vm_compute; discriminate|vm_compute; discriminate|].
  apply (download_turn (arch := host64_debug) 1 id default_options _ (fst r1) (str "hi") _ _ 7%nat).
  - apply (download_turn (arch := host64_debug) 1 id default_options _ w1 [] _ _ 7%nat).
    + apply (download_op (arch := host64_debug) 1 id default_options []); [|exact sample_response_ok|exact I].
      apply (download_opened (arch := host64_debug) 1 id default_options [] 0 sample_request
        (connect (arch := host64_debug) default_options)); [constructor|vm_compute; reflexivity| |].
      * vm_compute. reflexivity.
      * intros pb. vm_compute. discriminate.
    + vm_compute. reflexivity.
  - vm_compute. reflexivity.
Defined.

Lemma bytes_returns_witness :
  let w := apply_op (arch := host64_debug) id (OpRead 0 sample_response) opened_client in
  snd (bytes_turns (arch := host64_debug) 1 [7%nat; 7%nat] (Collecting []) w) =
  Ok (Collected (inr (str "hi"))).
Proof.
  intros w. apply (bytes_returns (arch := host64_debug) 1 [7%nat; 7%nat] [] w);
    vm_compute; reflexivity.
Defined.

(** An interim head (100) that carries END_STREAM closes the peer's half of the stream
    but not the body: if a final head follows while the request's body is still being
    sent, the end of the upload retires the stream, and the body of the response that
    was delivered stays open for ever, even after the connection is torn down. *)
Example interim_end_stream_orphans_body :
  let init := mkInit (Some (str "POST")) None None None [] (BodyStream [[1]]) in
  let w1 := fst (request_turn (arch := host64_debug) id 0 init
    (connect (arch := host64_debug) default_options)) in
  let w2 := fold_left (fun w op => apply_op (arch := host64_debug) id op w)
    [OpRead 0 [0; 0; 5; 1; 5; 0; 0; 0; 1; 8; 3; 49; 48; 48];
     OpRead 0 [0; 0; 1; 1; 4; 0; 0; 0; 1; 0x88]; OpPumpFinish 1; OpReadEnd] w1 in
  (exists hd, head (default default_cells (cells w2 !! 1)) = HeadSent (inr hd) /\ status hd = 200) /\
  closed w2 = true /\
  snd (body_poll_next (arch := host64_debug) 1 7%nat w2) = Ok BodyPending.
Proof. vm_compute. split; [eexists; split; reflexivity|split; reflexivity]. Qed.
