(* ===== verification/Heads.v ===== *)
(** * Heads: a response head, from the peer's frames to [H2Connection::request]

    A [reader] is all that decoding the peer's header blocks needs: it puts the
    fragments together and decodes the blocks in order.  The invariant [headed] says
    that the connection, whatever else it does, agrees with the reader, and that the
    head and the trailers of a stream are those the reader finds in the blocks that
    were completed on the stream since its opening. *)

From S2P Require Import Prelude Errors Bytes Utf8 Frames FramesFacts Hpack Flow Stream StreamFacts.
From S2P Require Import Connection ConnectionFacts FlowSafety Lifecycle Totality.

(** ** The header blocks in a list of frames *)

Record block := mkBlock {
  b_stream : Z;
  b_response : bool;  (* not a push promise *)
  b_end : bool;
  b_bytes : bytes;
}.

Record reader := mkReader {
  r_decoder : HpackDecoder.t;
  r_open : option block;
  r_done : list (block * list Header);
}.

Definition close_block {arch : Arch} (b : block) (r : reader) : reader :=
  let '(d, o) := HpackDecoder.decode (b_bytes b) (r_decoder r) in
  mkReader d None (r_done r ++ match o with Ok fields => [(b, fields)] | _ => [] end).

Definition extend_block {arch : Arch} (b : block) (end_headers : bool) (r : reader) : reader :=
  if end_headers then close_block b r else mkReader (r_decoder r) (Some b) (r_done r).

Definition read_frame {arch : Arch} (r : reader) (f : Frame.t) : reader :=
  match f with
  | Frame.Headers i fragment es eh _ => extend_block (mkBlock i true es fragment) eh r
  | Frame.PushPromise i _ fragment eh => extend_block (mkBlock i false false fragment) eh r
  | Frame.Continuation _ fragment eh =>
      match r_open r with
      | Some b => extend_block (mkBlock (b_stream b) (b_response b) (b_end b) (b_bytes b ++ fragment)) eh r
      | None => r
      end
  | _ => r
  end.

Definition reader_new (options : ConnectOptions) : reader :=
  mkReader (HpackDecoder.new (default 4096 (opt_header_table_size options))) None [].

Definition read_frames {arch : Arch} (fs : list Frame.t) (r : reader) : reader := foldl read_frame r fs.

(** ** The head and the trailers among a stream's header lists *)

Definition interim (fields : list Header) : bool :=
  let st := status (collect_headers fields) in (100 <=? st) && (st <? 200).

(** The first that is not informational, and what follows it. *)
Fixpoint final (rs : list (list Header)) : option (list Header * list (list Header)) :=
  match rs with
  | [] => None
  | fields :: rs => if interim fields then final rs else Some (fields, rs)
  end.

Definition trailers_of (rest : list (list Header)) : option (gmap bytes bytes) :=
  (fun fields => headers (collect_headers fields)) <$> last rest.

Lemma final_snoc rs fields :
  final (rs ++ [fields]) =
  match final rs with
  | Some (f, rest) => Some (f, rest ++ [fields])
  | None => if interim fields then None else Some (fields, [])
  end.
Proof. induction rs as [|f rs IH]; [done|]. cbn [final app]. by destruct (interim f). Qed.

Lemma trailers_snoc rest fields :
  trailers_of (rest ++ [fields]) = Some (headers (collect_headers fields)).
Proof. unfold trailers_of. by rewrite last_snoc. Qed.

(** ** The response *)

(** [Response]: what [request] returns.  The body and the trailers are the cells of the
    stream, shared with the connection. *)
Record response := mkResponse {
  response_head : Head;
  response_stream : Z;
}.

Definition cells_of (id : Z) (w : ConnState) : Cells := default default_cells (cells w !! id).

(** [ResponseBody] and [Trailers] are handles, by stream. *)
Definition into_body (r : response) : Z := response_stream r.
Definition into_parts (r : response) : Z * Z := (response_stream r, response_stream r).

(** [Trailers::get]; [Response::trailers] is the same on its own handle. *)
Definition get_trailers (handle : Z) (w : ConnState) : option (gmap bytes bytes) :=
  trailers (cells_of handle w).

(** [request] from its await on: the head makes the response. *)
Definition request_response {arch : Arch} (id : Z) : M (poll response) :=
  o ← request_head id;
  mret match o with Ready h => Ready (mkResponse h id) | Pending => Pending end.

Section heads.
Context {arch : Arch}.
Variable id : Z.

(** The header lists completed on the stream, from the [n]-th of the connection on. *)
Definition of_stream (x : block * list Header) : bool := (b_stream x.1 =? id) && b_response x.1.
Definition responses (n : nat) (r : reader) : list (list Header) :=
  snd <$> filter of_stream (drop n (r_done r)).

Notation cells_of := (cells_of id).

(** What the cells of a stream may say once the header lists [rs] have come. *)
Definition told (rs : list (list Header)) (c : Cells) : Prop :=
  (forall h, head c = HeadSent (inr h) ->
     exists f rest, final rs = Some (f, rest) /\ h = collect_headers f) /\
  (forall m, trailers c = Some m ->
     exists f rest1 t rest2, final rs = Some (f, rest1 ++ t :: rest2) /\ m = headers (collect_headers t)).

(** What they say while the stream is open. *)
Definition tells (rs : list (list Header)) (s : StreamState.t) (c : Cells) : Prop :=
  match final rs with
  | None =>
      StreamState.got_head s = false /\ StreamState.head_tx s = true /\
      head c = HeadPending /\ trailers c = None
  | Some (f, rest) =>
      StreamState.got_head s = true /\ StreamState.head_tx s = false /\
      head c = HeadSent (inr (collect_headers f)) /\ trailers c = trailers_of rest
  end.

Definition block_of (pb : PendingHeaderBlock) : block :=
  mkBlock (pb_stream_id pb) (match pb_kind pb with Response => true | Push => false end)
    (pb_end_stream pb) (concat (pb_fragments pb)).

(** [live]: no frame has been refused; after one, the connection is torn down. *)
Record headed (live : bool) (n : nat) (r : reader) (w : ConnState) : Prop := {
  hd_next : id < next_stream_id w;
  hd_from : (n <= length (r_done r))%nat;
  hd_sync : live = true -> closed w = false -> decoder w = r_decoder r /\ block_of <$> pending_header_block w = r_open r;
  hd_told : told (responses n r) (cells_of w);
  hd_tells s : streams w !! id = Some s -> tells (responses n r) s (cells_of w);
  hd_resolved : id <> 0 -> streams w !! id = None -> head (cells_of w) <> HeadPending;
}.

Lemma told_snoc rs fields c : told rs c -> told (rs ++ [fields]) c.
Proof using Type.
  intros [H1 H2]. split.
  - intros h Hh. destruct (H1 h Hh) as (f & rest & Hf & ->). rewrite final_snoc, Hf. by eexists _, _.
  - intros m Hm. destruct (H2 m Hm) as (f & r1 & t & r2 & Hf & ->). rewrite final_snoc, Hf.
    exists f, r1, t, (r2 ++ [fields]). by rewrite <- app_assoc.
Qed.

Lemma tells_told rs s c : tells rs s c -> told rs c.
Proof using Type.
  unfold tells, told. destruct (final rs) as [[f rest]|].
  - intros (_ & _ & -> & ->). split; [intros h [= <-]; by eexists _, _|]. unfold trailers_of. intros m Hm.
    destruct (last rest) as [t|] eqn:El; [|done]. injection Hm as <-.
    apply last_Some in El as [r1 ->]. by exists f, r1, t, [].
  - intros (_ & _ & -> & ->). done.
Qed.

(** ** Methods that receive no header block *)

(** Stream methods that leave the head alone, and those after which nothing more is
    promised of it. *)
Definition calm (f : StreamState.t -> Cells -> StreamState.t * Cells * list waker) : Prop :=
  forall s c, StreamState.got_head (f s c).1.1 = StreamState.got_head s /\
    StreamState.head_tx (f s c).1.1 = StreamState.head_tx s /\
    head (f s c).1.2 = head c /\ trailers (f s c).1.2 = trailers c.
Definition loses (f : StreamState.t -> Cells -> StreamState.t * Cells * list waker) : Prop :=
  forall s c, trailers (f s c).1.2 = trailers c /\
    (forall h, head (f s c).1.2 = HeadSent (inr h) -> head c = HeadSent (inr h)) /\
    (StreamState.head_tx (f s c).1.1 = false -> head (f s c).1.2 = HeadPending ->
     StreamState.head_tx s = false /\ head c = HeadPending).

Lemma calm_loses f : calm f -> loses f.
Proof using Type. intros H s c. destruct (H s c) as (_ & -> & -> & ->). done. Qed.

Lemma fail_loses err : loses (StreamState.fail err).
Proof using Type.
  intros s c. unfold StreamState.fail. destruct (SendWindow.close _) as [win k].
  destruct (negb _); cbn; [destruct (StreamState.head_tx s)|]; cbn; split_and!; done.
Qed.

Lemma reset_loses code : loses (StreamState.receive_reset code).
Proof using Type. intros s c. apply fail_loses. Qed.

Lemma window_step_calm (g : SendWindow.t -> SendWindow.t * list waker) :
  calm (fun s c =>
    let '(win, woken) := g (StreamState.send_window s) in (set_send_window win s, c, woken)).
Proof using Type. intros s c. by destruct (g _). Qed.

Lemma local_closed_calm : calm (fun s c => (set_local_closed s, c, [])).
Proof using Type. done. Qed.

Lemma receive_data_calm data (es : bool) :
  calm (fun s c => let '(c, woken) := StreamState.receive_data data es c in
    (if es then set_remote_closed s else s, c, woken)).
Proof using Type. intros s c. unfold StreamState.receive_data. by destruct es, (take_waker _). Qed.

Section methods.
Variables (live : bool) (n : nat) (r : reader).
Abbreviation R := (keeps (headed live n r)).

(** A change to other fields. *)
Lemma hd_same w w' :
  next_stream_id w <= next_stream_id w' -> streams w' !! id = streams w !! id ->
  cells w' !! id = cells w !! id ->
  (closed w' = false -> closed w = false /\ decoder w' = decoder w /\
     pending_header_block w' = pending_header_block w) -> R w w'.
Proof using Type.
  intros E1 E2 E3 E4 [H1 Hn H2 H3 H4 H5]. unfold cells_of in *.
  split; unfold cells_of; rewrite ?E2, ?E3; auto; [lia|].
  intros Hl Hc. destruct (E4 Hc) as (Hc' & -> & ->). auto.
Qed.

(** A change to the stream. *)
Lemma hd_stream w w' s c :
  next_stream_id w' = next_stream_id w -> closed w' = closed w -> decoder w' = decoder w ->
  pending_header_block w' = pending_header_block w -> cells_of w' = c ->
  streams w' !! id = Some s -> tells (responses n r) s c -> R w w'.
Proof using Type.
  intros E1 E2 E3 E4 <- Hs Ht [H1 Hn H2 H3 H4 H5]. split.
  - lia.
  - done.
  - by rewrite E2, E3, E4.
  - by eapply tells_told.
  - intros s'. rewrite Hs. by intros [= <-].
  - by rewrite Hs.
Qed.

Lemma hd_gone w w' :
  next_stream_id w' = next_stream_id w -> closed w' = closed w -> decoder w' = decoder w ->
  pending_header_block w' = pending_header_block w -> streams w' !! id = None ->
  trailers (cells_of w') = trailers (cells_of w) ->
  (forall h, head (cells_of w') = HeadSent (inr h) -> head (cells_of w) = HeadSent (inr h)) ->
  head (cells_of w') <> HeadPending -> R w w'.
Proof using Type.
  intros E1 E2 E3 E4 Hs Et Eh Ep [H1 Hn H2 [H3 H3'] H4 H5]. split.
  - lia.
  - done.
  - by rewrite E2, E3, E4.
  - split; [intros h Hh; auto|]. by rewrite Et.
  - by rewrite Hs.
  - done.
Qed.
End methods.

Create HintDb heads.
Hint Extern 1 (keeps (headed _ _ _) _ _) =>
  (apply hd_same; [reflexivity|reflexivity|reflexivity|intros ?; by split_and!]) : heads.
Hint Extern 1 (ensures _ (mret _)) => apply ensures_ret; exact _ : heads.
Hint Extern 1 (ensures _ (st_lift _)) => apply ensures_lift; exact _ : heads.
Hint Extern 1 (ensures _ (st_throw _)) => apply ensures_throw; exact _ : heads.
Hint Extern 1 (ensures _ st_panic) => apply ensures_panic; exact _ : heads.
Hint Extern 1 (ensures _ st_get) => apply ensures_get; exact _ : heads.
Hint Extern 1 (ensures _ (st_modify _)) => (apply ensures_modify; intros ?) : heads.
Hint Resolve calm_loses fail_loses reset_loses window_step_calm local_closed_calm receive_data_calm : heads.

Ltac hd_auto := repeat ensures_step; auto with heads.

Lemma tells_calm rs s c s' c' :
  StreamState.got_head s' = StreamState.got_head s -> StreamState.head_tx s' = StreamState.head_tx s ->
  head c' = head c -> trailers c' = trailers c -> tells rs s c -> tells rs s' c'.
Proof using Type. unfold tells. by intros -> -> -> ->. Qed.

Section silent.
Variables (live : bool) (n : nat) (r : reader).
Abbreviation R := (keeps (headed live n r)).

Lemma write_raw_hd b f : ensures R (write_raw b f).
Proof using Type.
  apply ensures_modify. intros w. destruct (negb (closed w)), (out_tx w); auto with heads; by intros H.
Qed.
Lemma emit_hd l : ensures R (emit l).
Proof using Type. unfold emit. hd_auto. Qed.
Hint Resolve write_raw_hd emit_hd : heads.
Lemma wake_all_hd l : ensures R (wake_all l).
Proof using Type. apply emit_hd. Qed.
Lemma send_frame_hd f : ensures R (send_frame f).
Proof using Type. unfold send_frame. hd_auto. Qed.
Hint Resolve wake_all_hd send_frame_hd : heads.

Lemma on_stream_hd i f : i <> id \/ calm f -> ensures R (on_stream i f).
Proof using Type.
  intros Hf. unfold on_stream. apply ensures_get_bind. intros w.
  destruct (streams w !! i) as [s|] eqn:Hs; [|apply ensures_at_of; auto with heads].
  destruct (f s _) as [[s1 c1] k] eqn:Ef. apply ensures_at_put_bind; [exact _| |auto with heads].
  destruct (decide (i = id)) as [->|Hne].
  - destruct Hf as [?|Hf]; [done|]. specialize (Hf s (default default_cells (cells w !! id))).
    rewrite Ef in Hf. cbn in Hf. destruct Hf as (E1 & E2 & E3 & E4). intros Hw.
    apply (hd_stream live n r w _ s1 c1); auto; unfold cells_of; cbn.
    + by rewrite lookup_insert_eq.
    + by rewrite lookup_insert_eq.
    + by apply (tells_calm _ s (cells_of w)), (hd_tells _ _ _ _ Hw).
  - apply hd_same; cbn; rewrite ?lookup_insert_ne by done; auto; lia.
Qed.

Lemma take_stream_hd i f : i <> id \/ loses f -> ensures R (take_stream i f).
Proof using Type.
  intros Hf. unfold take_stream. apply ensures_get_bind. intros w.
  destruct (streams w !! i) as [s|] eqn:Hs; [|apply ensures_at_of; auto with heads].
  destruct (f s _) as [[s1 c1] k] eqn:Ef. apply ensures_at_put_bind; [exact _| |auto with heads].
  destruct (decide (i = id)) as [->|Hne].
  - destruct Hf as [?|Hf]; [done|]. specialize (Hf s (default default_cells (cells w !! id))).
    rewrite Ef in Hf. cbn in Hf. destruct Hf as (E1 & E2 & E3). intros Hw.
    pose proof (hd_tells _ _ _ _ Hw s Hs) as Ht. revert Hw.
    apply hd_gone; auto; [by cbn; rewrite lookup_delete_eq|..]; unfold cells_of; cbn;
      rewrite lookup_insert_eq; cbn; unfold StreamState.drop;
      destruct (StreamState.head_tx s1) eqn:Etx; try done.
    intros Hp. destruct (E3 eq_refl Hp) as [E4 E5]. unfold tells in Ht.
    destruct (final _) as [[? ?]|]; destruct Ht as (? & ? & ? & _); unfold cells_of in *; congruence.
  - apply hd_same; cbn; rewrite ?lookup_insert_ne, ?lookup_delete_ne by done; auto; lia.
Qed.
Hint Resolve on_stream_hd take_stream_hd : heads.

Lemma wake_slot_waiters_hd : ensures R wake_slot_waiters.
Proof using Type. unfold wake_slot_waiters. hd_auto. Qed.
Hint Resolve wake_slot_waiters_hd : heads.
Lemma unchanged_loses : loses (fun s c => (s, c, [])).
Proof using Type. done. Qed.
Hint Resolve unchanged_loses : heads.
Lemma retire_hd i : ensures R (retire_if_fully_closed i).
Proof using Type. unfold retire_if_fully_closed. hd_auto. Qed.
Lemma reset_stream_hd i c : ensures R (reset_stream i c).
Proof using Type. unfold reset_stream. hd_auto. Qed.
Lemma replenish_hd i k : ensures R (replenish_recv_window i k).
Proof using Type. unfold replenish_recv_window. hd_auto. Qed.
Lemma guard_hd : ensures R guard_header_block_size.
Proof using Type. unfold guard_header_block_size. hd_auto. Qed.
Hint Resolve retire_hd reset_stream_hd replenish_hd guard_hd : heads.
Lemma destroy_hd e : ensures R (destroy e).
Proof using Type. unfold destroy. hd_auto. Qed.
Hint Resolve destroy_hd : heads.
Lemma connection_error_hd e : ensures R (connection_error e).
Proof using Type. unfold connection_error. hd_auto. Qed.
Lemma apply_settings_hd s : ensures R (apply_remote_settings s).
Proof using Type. unfold apply_remote_settings. hd_auto. Qed.
Hint Resolve connection_error_hd apply_settings_hd : heads.
Lemma send_continuations_hd fuel i max block offset :
  ensures R (send_continuations fuel i max block offset).
Proof using Type.
  revert offset. induction fuel as [|fuel IH]; intros offset; cbn [send_continuations]; hd_auto.
Qed.
Hint Resolve send_continuations_hd : heads.
Lemma send_headers_hd i block es : ensures R (send_headers i block es).
Proof using Type. unfold send_headers. hd_auto. Qed.
Lemma check_open_hd : ensures R check_open.
Proof using Type. unfold check_open. hd_auto. Qed.
Hint Resolve send_headers_hd check_open_hd : heads.

(** A stream opened for another request. *)
Lemma hd_add_stream next s w :
  next_stream_id w <= next ->
  let w1 := set_next_stream_id next w in
  R w (set_cells (<[next_stream_id w := default_cells]> (cells w1))
    (set_streams (<[next_stream_id w := s]> (streams w1)) w1)).
Proof using Type.
  intros Hn w1 H. assert (next_stream_id w <> id) by (destruct H; lia). revert H.
  apply hd_same; cbn; rewrite ?lookup_insert_ne by done; auto.
Qed.

Lemma request_turn_hd up k init w :
  next_stream_id w + 2 < 4294967296 -> ensures_at R (request_turn up k init) w.
Proof using Type.
  intros Hn. unfold ensures_at, request_turn. rewrite st_bind_run, request_wait_run.
  destruct (closed w); [by intros H|]. destruct (goaway_received w); [by intros H|].
  destruct (can_open_stream w); simpl; [|by apply hd_same; auto].
  rewrite st_bind_run.
  assert (ensures_at R (request_open up init) w) as H.
  { unfold request_open. apply ensures_at_bind; [exact _|by apply ensures_at_of; auto with heads|].
    intros [] w' Hw'. assert (w' = w) as -> by (pose proof (check_open_state w) as E; by rewrite Hw' in E).
    change (ensures_at R (st_get ≫= ?f) w) with (ensures_at R (f w) w).
    apply ensures_at_lift_bind; [exact _|]. intros next Hnext.
    unfold u32_add in Hnext. destruct (Z.ltb_spec (next_stream_id w + 2) 4294967296); [|lia].
    injection Hnext as <-. unfold ensures_at. rewrite st_put_bind, st_modify_bind.
    match goal with |- keeps _ w (fst (?m ?a)) =>
      assert (R w a) as Hadd; [|etransitivity; [exact Hadd|]; change (ensures_at R m a)]
    end.
    - apply hd_add_stream. lia.
    - apply ensures_at_of. hd_auto. }
  unfold ensures_at in H. by destruct (request_open up init w) as [w' [i|e| |]].
Qed.

Lemma pump_turn_hd k i chunk offset : ensures R (pump_turn k i chunk offset).
Proof using Type.
  unfold pump_turn. apply ensures_get_bind. intros w.
  destruct (streams w !! i) as [s|] eqn:Hs; [|apply ensures_at_of; auto with heads].
  assert (forall w1 win, cells w1 = cells w -> streams w1 = streams w -> closed w1 = closed w ->
    decoder w1 = decoder w -> next_stream_id w1 = next_stream_id w ->
    pending_header_block w1 = pending_header_block w ->
    R w (set_streams (<[i := set_send_window win s]> (streams w1)) w1)) as Hset.
  { intros w1 win E1 E2 E3 E4 E5 E6. destruct (decide (i = id)) as [->|Hne].
    - intros Hw. apply (hd_stream live n r w _ (set_send_window win s) (cells_of w)); auto.
      + unfold cells_of. cbn. by rewrite E1.
      + cbn. by rewrite lookup_insert_eq.
      + by apply (tells_calm _ s (cells_of w)), (hd_tells _ _ _ _ Hw).
    - apply hd_same; cbn; rewrite ?lookup_insert_ne, ?E1, ?E2, ?E3, ?E4, ?E5, ?E6 by done; auto. lia. }
  destruct (closed w) eqn:Hc; [apply ensures_at_of; auto with heads|].
  destruct (negb (_ && _)).
  { apply ensures_at_put_bind; [exact _| |auto with heads].
    destruct (negb (SendWindow.is_ready (conn_send_window w))),
      (negb (SendWindow.is_ready (StreamState.send_window s))); try (by apply Hset);
      apply hd_same; auto; reflexivity. }
  destruct (SendWindow.is_closed _); [apply ensures_at_of; auto with heads|].
  destruct (_ <=? 0); [apply ensures_at_of; auto with heads|].
  apply ensures_at_put_bind; [exact _| |hd_auto].
  by apply (Hset (set_conn_send_window _ w)).
Qed.

Lemma set_recv_hd i v : ensures R (set_recv i v).
Proof using Type.
  apply ensures_modify. intros w. destruct (decide (i = id)) as [->|Hne].
  - intros [H1 Hn H2 H3 H4 H5]. unfold cells_of in *.
    split; unfold cells_of; cbn; rewrite ?lookup_insert_eq; auto.
  - apply hd_same; cbn; rewrite ?lookup_insert_ne by done; auto; lia.
Qed.
Hint Resolve set_recv_hd pump_turn_hd : heads.
End silent.
Hint Resolve write_raw_hd emit_hd wake_all_hd send_frame_hd on_stream_hd take_stream_hd
  wake_slot_waiters_hd retire_hd reset_stream_hd replenish_hd guard_hd destroy_hd
  connection_error_hd apply_settings_hd send_headers_hd check_open_hd pump_turn_hd set_recv_hd : heads.

(** ** Header blocks *)

(** A header list received on the open stream. *)
Lemma receive_headers_tells fields (es : bool) rs s c :
  tells rs s c ->
  let o := StreamState.receive_headers fields es s c in
  tells (rs ++ [fields]) (if es then set_remote_closed o.1.1 else o.1.1) o.1.2.
Proof using Type.
  assert (forall s c, tells (rs ++ [fields]) s c ->
    tells (rs ++ [fields]) (if es then set_remote_closed s else s) c) as Hes by by destruct es.
  assert (forall c, head (StreamState.end_body c).1 = head c /\
    trailers (StreamState.end_body c).1 = trailers c) as Hend.
  { intros c0. unfold StreamState.end_body. by destruct (negb _). }
  assert (forall s c, tells (rs ++ [fields]) s c -> let o := if es then
      let '(c, woken) := StreamState.end_body c in (s, c, woken) else (s, c, []) in
    tells (rs ++ [fields]) o.1.1 o.1.2) as Hfin.
  { intros s0 c0 H. destruct es; [|done]. destruct (Hend c0) as [E1 E2].
    destruct (StreamState.end_body c0) as [c1 k]. by apply (tells_calm _ s0 c0). }
  intros H. cbn zeta. apply Hes. unfold StreamState.receive_headers. unfold tells in H.
  destruct (final rs) as [[f rest]|] eqn:Ef.
  - destruct H as (H1 & H2 & H3 & H4). rewrite H1. cbn [negb]. apply Hfin.
    unfold tells. rewrite final_snoc, Ef. cbn [head trailers]. by rewrite trailers_snoc.
  - destruct H as (H1 & H2 & H3 & H4). rewrite H1. cbn [negb].
    change ((100 <=? status (collect_headers fields)) && (status (collect_headers fields) <? 200)) with (interim fields).
    destruct (interim fields) eqn:Ei.
    + unfold tells. by rewrite final_snoc, Ef, Ei.
    + unfold StreamState.send_head. rewrite H2. apply Hfin. unfold tells.
      by rewrite final_snoc, Ef, Ei.
Qed.

(** The reader with one more header list, or with none. *)
Lemma responses_snoc n d o r x :
  (n <= length (r_done r))%nat ->
  responses n (mkReader d o (r_done r ++ [x])) =
  responses n r ++ (if of_stream x then [x.2] else []).
Proof using Type.
  intros Hn. unfold responses. cbn [r_done]. rewrite drop_app_le, filter_app, fmap_app by done.
  destruct (of_stream x) eqn:Ex.
  - rewrite filter_cons_True; [done|by rewrite Ex].
  - rewrite filter_cons_False; [done|rewrite Ex; by intros []].
Qed.

Lemma hd_other live n r r' w :
  responses n r' = responses n r -> (n <= length (r_done r'))%nat ->
  (live = true -> closed w = false -> decoder w = r_decoder r' /\ block_of <$> pending_header_block w = r_open r') ->
  headed live n r w -> headed live n r' w.
Proof using Type. intros E Hn Hs [H1 _ _ H3 H4 H5]. split; rewrite ?E; auto. Qed.

(** After an error, and once the stream is gone. *)
Lemma hd_stale live n r w : headed live n r w -> headed false n r w.
Proof using Type. intros []. by split. Qed.

Definition delivery (fields : list Header) (es : bool) (s : StreamState.t) (c : Cells)
    : StreamState.t * Cells * list waker :=
  let '(s, c, woken) := StreamState.receive_headers fields es s c in
  (if es then set_remote_closed s else s, c, woken).

Lemma deliver_hd live n r b fields w :
  b_response b = true ->
  headed live n (mkReader (r_decoder r) None (r_done r)) w ->
  headed live n (mkReader (r_decoder r) None (r_done r ++ [(b, fields)]))
    (on_stream (b_stream b) (delivery fields (b_end b)) w).1.
Proof using Type.
  intros Hb Hw. pose proof Hw as [H1 Hn H2 H3 H4 H5]. cbn [r_done] in Hn.
  pose proof (responses_snoc n (r_decoder r) None r (b, fields) Hn) as Hr.
  assert (forall w, headed live n (mkReader (r_decoder r) None (r_done r)) w ->
    of_stream (b, fields) = false ->
    headed live n (mkReader (r_decoder r) None (r_done r ++ [(b, fields)])) w) as Hskip.
  { intros w0 H0 Ho. eapply hd_other; [| |apply H0|exact H0]; cbn [r_done].
    - by rewrite Hr, Ho, app_nil_r.
    - rewrite length_app. lia. }
  destruct (of_stream (b, fields)) eqn:Ho.
  2: { apply Hskip; [|done]. apply (on_stream_hd live n _ (b_stream b) (delivery fields (b_end b))); [|done].
       left. unfold of_stream in Ho. cbn in Ho. rewrite Hb, andb_true_r in Ho. by apply Z.eqb_neq. }
  assert (b_stream b = id) as -> by (unfold of_stream in Ho; cbn in Ho; lia).
  cbn in Hr. unfold on_stream. rewrite st_get_bind. destruct (streams w !! id) as [s|] eqn:Hs.
  - pose proof (receive_headers_tells fields (b_end b) _ s _ (H4 s eq_refl)) as Ht. cbn zeta in Ht.
    unfold delivery. fold (cells_of w). destruct (StreamState.receive_headers fields (b_end b) s (cells_of w)) as [[s1 c1] k].
    cbn in Ht. rewrite st_put_bind. apply (wake_all_hd live n _ k).
    split; cbn [next_stream_id set_cells set_streams r_done closed decoder pending_header_block r_decoder r_open streams].
    + done.
    + rewrite length_app. lia.
    + exact H2.
    + rewrite Hr. apply (tells_told _ (if b_end b then set_remote_closed s1 else s1)).
      unfold cells_of. cbn. by rewrite lookup_insert_eq.
    + intros s'. rewrite lookup_insert_eq. intros [= <-]. rewrite Hr. unfold cells_of. cbn.
      by rewrite lookup_insert_eq.
    + intros _ Hn'. cbn in Hn'. by rewrite lookup_insert_eq in Hn'.
  - cbn. split; cbn [r_done]; [done|rewrite length_app; lia|exact H2| |by rewrite Hs|auto].
    rewrite Hr. by apply told_snoc.
Qed.

(** What is left to do once a block is decoded. *)
Definition completed (pb : PendingHeaderBlock) (fields : list Header) : M unit :=
  match pb_kind pb with
  | Response =>
      _ ← on_stream (pb_stream_id pb) (delivery fields (pb_end_stream pb));
      if pb_end_stream pb then retire_if_fully_closed (pb_stream_id pb) else mret tt
  | Push =>
      let promised := default 0 (pb_promised_stream_id pb) in
      _ ← st_modify (fun w =>
            if highest_promised w <? promised then set_highest_promised promised w else w);
      send_frame (Frame.RstStream promised (ErrorCode.value ErrorCode.RefusedStream))
  end.

Lemma complete_run pb w :
  pending_header_block w = Some pb ->
  complete_header_block w =
  let '(d, o) := HpackDecoder.decode (concat (pb_fragments pb)) (decoder w) in
  (fields ← st_lift o; completed pb fields) (set_decoder d (set_pending_header_block None w)).
Proof using Type.
  intros Hpb. unfold complete_header_block. rewrite st_get_bind, Hpb. cbn [expect].
  rewrite st_lift_bind, st_put_bind, st_get_bind.
  replace (match pb_fragments pb with [f] => f | l => concat l end) with (concat (pb_fragments pb))
    by (destruct (pb_fragments pb) as [|f [|g l]]; cbn; by rewrite ?app_nil_r).
  cbn [decoder set_pending_header_block]. destruct (HpackDecoder.decode _ _) as [d o].
  by rewrite st_put_bind.
Qed.

(** The block under way is complete. *)
Lemma complete_hd n r w pb :
  closed w = false -> headed true n r w -> pending_header_block w = Some pb ->
  headed true n (close_block (block_of pb) r) (complete_header_block w).1.
Proof using Type.
  intros Hcl Hw Hpb. pose proof Hw as [H1 Hn H2 H3 H4 H5]. destruct (H2 eq_refl Hcl) as [Hd _].
  rewrite (complete_run pb) by done. unfold close_block. cbn [block_of b_bytes]. rewrite <- Hd.
  destruct (HpackDecoder.decode _ _) as [d o]. set (w1 := set_decoder d _).
  set (r0 := mkReader d None (r_done r)).
  assert (headed true n r0 w1) as Hw1 by by split.
  assert (headed true n (mkReader d None (r_done r ++ [])) w1) as Hw1' by by rewrite app_nil_r.
  destruct o as [fields|e| |]; try exact Hw1'. cbn [mbind st_lift].
  change ((fields ← st_lift (Ok fields); completed pb fields) w1) with (completed pb fields w1).
  pose proof (deliver_hd true n (mkReader d (r_open r) (r_done r)) (block_of pb) fields w1) as Hdel.
  unfold completed. cbn [block_of b_response b_stream b_end r_decoder r_done] in Hdel.
  assert (pb_kind pb = Push -> of_stream (block_of pb, fields) = false) as Hpush
    by (unfold of_stream; cbn; intros ->; apply andb_false_r).
  destruct (pb_kind pb).
  - specialize (Hdel eq_refl Hw1). revert Hdel. rewrite st_bind_run.
    destruct (on_stream _ _ w1) as [w2 [[]|e| |]]; cbn [fst]; try done.
    destruct (pb_end_stream pb); [|done]. apply (retire_hd true n _ (pb_stream_id pb)).
  - assert (headed true n (mkReader d None (r_done r ++ [(block_of pb, fields)])) w1) as H.
    { eapply hd_other; [| |intros _ _; split; reflexivity|exact Hw1]; cbn [r_done].
      - by rewrite (responses_snoc n d None r _ Hn), (Hpush eq_refl), app_nil_r.
      - rewrite length_app. lia. }
    revert H. match goal with |- _ -> headed _ _ ?r' (fst (?m ?w')) =>
      change (ensures_at (keeps (headed true n r')) m w') end.
    apply ensures_at_of, ensures_bind; [exact _| |auto with heads]. apply ensures_modify.
    intros w2. destruct (highest_promised w2 <? _); auto with heads.
Qed.

(** ** Frames *)

(** A stream that is gone learns nothing more. *)
Lemma hd_gone_on live live' n r r' w :
  closed w = true -> streams w !! id = None -> r_done r `prefix_of` r_done r' ->
  headed live n r w -> headed live' n r' w.
Proof using Type.
  intros Hc Hs [l E] [H1 Hn H2 H3 H4 H5]. split; [done|rewrite E, length_app; lia|congruence| |by rewrite Hs|auto].
  unfold responses. rewrite E, drop_app_le, filter_app, fmap_app by done. fold (responses n r).
  generalize (snd <$> filter of_stream l). intros rs. revert H3. generalize (responses n r).
  induction rs as [|f rs IH]; intros rs0 H3; [by rewrite app_nil_r|].
  rewrite cons_middle, app_assoc. by apply IH, told_snoc.
Qed.

Lemma extend_done b eh r : r_done r `prefix_of` r_done (extend_block b eh r).
Proof using Type.
  unfold extend_block, close_block. destruct eh; [|done].
  destruct (HpackDecoder.decode _ _) as [d o]. by eexists.
Qed.

Lemma read_frame_done f r : r_done r `prefix_of` r_done (read_frame r f).
Proof using Type.
  destruct f; cbn [read_frame]; try done; try apply extend_done. destruct (r_open r); [apply extend_done|done].
Qed.

Lemma read_frames_done fs r : r_done r `prefix_of` r_done (read_frames fs r).
Proof using Type.
  revert r. induction fs as [|f fs IH]; intros r; [done|]. cbn.
  etransitivity; [apply read_frame_done|apply IH].
Qed.

(** A frame that carries no header block. *)
Definition plain (f : Frame.t) : bool :=
  match f with
  | Frame.Headers _ _ _ _ _ | Frame.PushPromise _ _ _ _ | Frame.Continuation _ _ _ => false
  | _ => true
  end.

Lemma dispatch_plain live n r now f :
  plain f = true -> ensures (keeps (headed live n r)) (dispatch now f).
Proof using Type.
  intros Hf. unfold dispatch, receive_goaway. apply ensures_get_bind. intros w.
  destruct (_ && _); [apply ensures_at_of; auto with heads|].
  destruct f; try done; cbn [plain]; hd_auto.
Qed.

(** On a stream that is gone. *)
Lemma complete_gone n r w :
  streams w !! id = None -> headed false n r w -> headed false n r (complete_header_block w).1.
Proof using Type.
  intros Hs Hw. destruct (pending_header_block w) as [pb|] eqn:Hpb.
  2: { unfold complete_header_block. by rewrite st_get_bind, Hpb. }
  rewrite (complete_run pb) by done. destruct (HpackDecoder.decode _ _) as [d o]. set (w1 := set_decoder d _).
  assert (headed false n r w1) as Hw1 by (destruct Hw; by split).
  assert (streams w1 !! id = None) as Hs1 by exact Hs. clearbody w1.
  destruct o as [fields|e| |]; try exact Hw1.
  change ((fields ← st_lift (Ok fields); completed pb fields) w1) with (completed pb fields w1).
  revert Hw1. match goal with |- _ -> headed _ _ ?r' (fst (?m ?w')) =>
    change (ensures_at (keeps (headed false n r')) m w') end.
  unfold completed. destruct (pb_kind pb).
  - apply ensures_at_bind; [exact _| |intros; apply ensures_at_of; hd_auto].
    destruct (decide (pb_stream_id pb = id)) as [->|]; [|apply ensures_at_of; auto with heads].
    unfold ensures_at, on_stream. by rewrite st_get_bind, Hs1.
  - apply ensures_at_of, ensures_bind; [exact _| |auto with heads]. apply ensures_modify.
    intros w2. destruct (highest_promised w2 <? _); auto with heads.
Qed.

(** The size guard, and the end of the block if it is there. *)
Definition received (eh : bool) : M unit :=
  _ ← guard_header_block_size; if eh then complete_header_block else mret tt.

Lemma received_gone eh n r w :
  streams w !! id = None -> headed false n r w -> headed false n r (received eh w).1.
Proof using Type.
  intros Hs Hw. unfold received. rewrite st_bind_run.
  assert ((guard_header_block_size w).1 = w) as Hg.
  { unfold guard_header_block_size. rewrite st_get_bind.
    destruct (pending_header_block w) as [pb|]; [|done]. by destruct (_ <? _). }
  destruct (guard_header_block_size w) as [w1 [[]|e| |]]; cbn in Hg |- *; subst w1; try done.
  destruct eh; [by apply complete_gone|done].
Qed.

Lemma received_hd eh n r w pb :
  closed w = false -> pending_header_block w = Some pb ->
  headed true n (mkReader (r_decoder r) (Some (block_of pb)) (r_done r)) w ->
  headed true n (extend_block (block_of pb) eh r) (received eh w).1 \/
  (received eh w).2 <> Ok tt /\ headed false n r (received eh w).1.
Proof using Type.
  intros Hc Hpb Hw. unfold received. rewrite st_bind_run. unfold guard_header_block_size.
  rewrite st_get_bind, Hpb. destruct (_ <? _); [right; split; [done|]|left].
  - cbn. destruct Hw. by split.
  - change ((mret tt : M unit) w) with (w, Ok tt : outcome H2Error.t unit). cbn iota beta.
    destruct eh; [|exact Hw].
    pose proof (complete_hd n _ w pb Hc Hw Hpb) as H. exact H.
Qed.

Lemma sync_new n r w pb b :
  block_of pb = b -> closed w = false -> headed true n r w ->
  headed true n (mkReader (r_decoder r) (Some b) (r_done r)) (set_pending_header_block (Some pb) w).
Proof using Type.
  intros <- Hc [H1 Hn H2 H3 H4 H5]. split; try done. intros _ _. cbn. split; [|done]. by apply H2.
Qed.

Lemma dispatch_open now f n r w :
  closed w = false -> headed true n r w ->
  headed true n (read_frame r f) (dispatch now f w).1 \/
  (dispatch now f w).2 <> Ok tt /\ headed false n r (dispatch now f w).1.
Proof using Type.
  intros Hc Hw. destruct (plain f) eqn:Hf.
  { left. replace (read_frame r f) with r by by destruct f. by apply dispatch_plain. }
  destruct (hd_sync _ _ _ _ Hw eq_refl Hc) as [_ Hopen].
  assert (forall e : H2Error.t, (Err e : outcome H2Error.t unit) <> Ok tt) as Herr by done.
  unfold dispatch, receive_goaway. rewrite st_get_bind.
  destruct (_ && _) eqn:Hp; [right; split; [done|]; by apply (hd_stale true)|].
  assert (forall pb b eh, block_of pb = b ->
    let w1 := set_pending_header_block (Some pb) w in
    headed true n (extend_block b eh r) (received eh w1).1 \/
    (received eh w1).2 <> Ok tt /\ headed false n r (received eh w1).1) as Hrec.
  { intros pb b eh Hb w1. pose proof (sync_new n r w pb b Hb Hc Hw) as H. subst b.
    by apply received_hd. }
  destruct f as [|i frag es eh p| | | |i pid frag eh| | | |i frag eh]; try done; cbn [read_frame].
  - apply (Hrec (mkPending i Response es None [frag] (zlen frag))). unfold block_of. cbn. by rewrite app_nil_r.
  - apply (Hrec (mkPending i Push false (Some pid) [frag] (zlen frag))). unfold block_of. cbn. by rewrite app_nil_r.
  - destruct (pending_header_block w) as [pb|]; [|right; split; [done|]; by apply (hd_stale true)].
    destruct (pb_stream_id pb =? i); [|right; split; [done|]; by apply (hd_stale true)].
    cbn in Hopen. rewrite <- Hopen. rewrite st_put_bind.
    apply (Hrec (mkPending (pb_stream_id pb) (pb_kind pb) (pb_end_stream pb) (pb_promised_stream_id pb)
      (pb_fragments pb ++ [frag]) (pb_size pb + zlen frag))).
    unfold block_of. cbn. rewrite concat_app. cbn. by rewrite app_nil_r.
Qed.

(** On a connection that is closed. *)
Lemma dispatch_gone now f n r w :
  streams w !! id = None -> headed false n r w -> headed false n r (dispatch now f w).1.
Proof using Type.
  intros Hs Hw. destruct (plain f) eqn:Hf; [by apply dispatch_plain|].
  unfold dispatch, receive_goaway. rewrite st_get_bind. destruct (_ && _); [done|].
  assert (forall pb eh, headed false n r (received eh (set_pending_header_block (Some pb) w)).1) as Hrec.
  { intros pb eh. apply received_gone; [done|]. destruct Hw. by split. }
  destruct f as [|i frag es eh p| | | |i pid frag eh| | | |i frag eh]; try done.
  - apply (Hrec _ eh).
  - apply (Hrec _ eh).
  - destruct (pending_header_block w) as [pb|]; [|done]. destruct (pb_stream_id pb =? i); [|done].
    rewrite st_put_bind. apply (Hrec _ eh).
Qed.

Lemma dispatch_hd now f n r w :
  conn_ok w -> headed true n r w ->
  headed true n (read_frame r f) (dispatch now f w).1 \/
  (dispatch now f w).2 <> Ok tt /\ headed false n r (dispatch now f w).1.
Proof using Type.
  intros Hok Hw. destruct (closed w) eqn:Hc; [|by apply dispatch_open]. left.
  assert (forall w, conn_ok w -> closed w = true -> streams w !! id = None) as Hnone.
  { intros w0 H0 Hc0. destruct (ok_closed _ H0 Hc0) as [-> _]. done. }
  destruct (dispatch_silent now f w Hc) as [Hc' _].
  apply (hd_gone_on false true n r); [done|by apply Hnone; [apply dispatch_ok|]|apply read_frame_done|].
  apply dispatch_gone; [by apply Hnone|by apply (hd_stale true)].
Qed.

Lemma dispatch_all_hd now fs n r w :
  conn_ok w -> headed true n r w ->
  exists fs1 fs2, fs = fs1 ++ fs2 /\ headed false n (read_frames fs1 r) (dispatch_all now fs w).1 /\
    ((dispatch_all now fs w).2 = Ok tt ->
       fs2 = [] /\ headed true n (read_frames fs1 r) (dispatch_all now fs w).1).
Proof using Type.
  revert r w. induction fs as [|f fs IH]; intros r w Hok Hw; cbn [dispatch_all].
  { exists [], []. split; [done|]. split; [by apply (hd_stale true)|done]. }
  rewrite st_bind_run. pose proof (dispatch_hd now f n r w Hok Hw) as Hd.
  pose proof (dispatch_ok now f w Hok) as Hok'.
  destruct (dispatch now f w) as [w1 [[]|e| |]]; cbn [fst snd] in Hd, Hok' |- *.
  { destruct Hd as [Hd|[? _]]; [|done]. destruct (IH _ _ Hok' Hd) as (fs1 & fs2 & -> & H1 & H2).
    by exists (f :: fs1), fs2. }
  all: destruct Hd as [Hd|[_ Hd]]; [exists [f], fs|exists [], (f :: fs)]; (split; [done|]);
    (split; [|done]); [by apply (hd_stale true)|done].
Qed.

(** A connection error leaves no stream. *)
Lemma torn_down live n r r' e w :
  conn_ok w -> r_done r `prefix_of` r_done r' -> headed live n r w ->
  headed true n r' (connection_error e w).1.
Proof using Type.
  intros Hok Hr Hw. pose proof (connection_error_ok e w Hok) as Hok'.
  pose proof (connection_error_closes e w) as Hc.
  apply (hd_gone_on live true n r); [done| |done|by apply connection_error_hd].
  by destruct (ok_closed _ Hok' Hc) as [-> _].
Qed.

Lemma on_bytes_hd now chunk n r w :
  conn_ok w -> (on_bytes now chunk w).2 = Ok tt -> headed true n r w ->
  headed true n (read_frames (frames_in chunk w) r) (on_bytes now chunk w).1.
Proof using Type.
  intros Hok. unfold on_bytes, st_catch, frames_in. rewrite st_get_bind.
  destruct (FrameDecoder.push chunk (frame_decoder w)) as [fd o]. rewrite st_put_bind, st_lift_bind.
  set (w1 := set_frame_decoder fd w). intros Hr Hw.
  assert (headed true n r w1) as Hw1 by (destruct Hw; by split).
  assert (conn_ok w1) as Hok1 by (revert Hok; by apply ok_same).
  destruct o as [frames|e| |]; cbn [snd] in *; try done.
  - destruct (dispatch_all_hd now frames n r w1 Hok1 Hw1) as (fs1 & fs2 & -> & H1 & H2).
    pose proof (dispatch_all_ok now (fs1 ++ fs2) w1 Hok1) as Hok2.
    destruct (dispatch_all now (fs1 ++ fs2) w1) as [w2 [[]|e| |]]; cbn [fst snd] in *; try done.
    + destruct (H2 eq_refl) as [-> H3]. by rewrite app_nil_r.
    + apply (torn_down false n (read_frames fs1 r)); [done| |done].
      unfold read_frames. rewrite foldl_app. apply read_frames_done.
  - by apply (torn_down true n r).
Qed.

(** ** Operations *)

Lemma apply_op_hd up op n r w :
  conn_ok w -> (forall now chunk, bytes_ok chunk -> (on_bytes now chunk w).2 = Ok tt) ->
  op_ok op w -> headed true n r w ->
  headed true n (read_frames (frames_of op w) r) (apply_op up op w).
Proof using Type.
  intros Hok Hret Hop Hw.
  destruct op as [now c| | |k init|k now| |k i c o|i|i k|i]; cbn [frames_of apply_op].
  - unfold read_chunk. destruct (negb _); [apply on_bytes_hd; auto|done].
  - by apply destroy_hd.
  - by apply destroy_hd.
  - by apply request_turn_hd.
  - revert Hw. apply (ensures_at_of (keeps (headed true n r))). unfold ping. hd_auto.
  - revert Hw. apply (ensures_at_of (keeps (headed true n r))). unfold close. hd_auto.
  - by apply pump_turn_hd.
  - revert Hw. apply (ensures_at_of (keeps (headed true n r))). unfold pump_finish. hd_auto.
  - revert Hw. apply (ensures_at_of (keeps (headed true n r))). unfold body_poll_next. hd_auto.
  - revert Hw. apply (ensures_at_of (keeps (headed true n r))). unfold body_drop. hd_auto.
Qed.

Lemma connect_writes_hd live n r options : ensures (keeps (headed live n r)) (connect_writes options).
Proof using Type. unfold connect_writes. hd_auto. Qed.

(** The stream a request opens: no header list has come on it. *)
Lemma request_turn_heads up k init r w w' :
  next_stream_id w + 2 < 4294967296 ->
  (closed w = false -> decoder w = r_decoder r /\ block_of <$> pending_header_block w = r_open r) ->
  request_turn up k init w = (w', Ok (Some id)) ->
  next_stream_id w = id /\ headed true (length (r_done r)) r w'.
Proof using Type.
  intros Hn Hsync. unfold request_turn. rewrite st_bind_run, request_wait_run.
  destruct (closed w); [done|]. destruct (goaway_received w); [done|].
  destruct (can_open_stream w); [|done]. cbn [fst snd]. rewrite st_bind_run.
  destruct (request_open up init w) as [w1 [i|e| |]] eqn:Ho; try done. intros [= -> ->]. revert Ho.
  unfold request_open. rewrite st_bind_run.
  pose proof (check_open_state w) as Hc. destruct (check_open w) as [w0 [[]|e| |]]; try done.
  cbn in Hc. subst w0. cbn [fst snd]. rewrite st_get_bind. unfold u32_add.
  destruct (Z.ltb_spec (next_stream_id w + 2) 4294967296); [|lia].
  rewrite st_lift_Ok, st_put_bind, st_modify_bind.
  match goal with |- ?m ?a = _ -> _ => set (w1 := a); set (mm := m) end. intros Hr.
  assert (next_stream_id w = id) as Hid.
  { revert Hr. unfold mm. rewrite st_lift_bind. destruct (HpackEncoder.encode _); try done.
    rewrite st_bind_run. destruct (send_headers _ _ _ w1) as [w2 [[]|e| |]]; try done.
    destruct (body_is_empty (init_body init)); cbn; by intros [=]. }
  assert (responses (length (r_done r)) r = []) as Hnil by (unfold responses; by rewrite drop_all).
  assert (headed true (length (r_done r)) r w1) as H1.
  { unfold w1. rewrite Hid. split; rewrite ?Hnil; unfold cells_of; cbn; rewrite ?lookup_insert_eq; cbn.
    - lia.
    - reflexivity.
    - intros _ _. exact (Hsync eq_refl).
    - split; [intros h|intros m]; discriminate.
    - intros s [= <-]. repeat (split; [reflexivity|]). reflexivity.
    - intros _. discriminate. }
  split; [exact Hid|]. revert H1. replace w' with (mm w1).1 by by rewrite Hr.
  change (ensures_at (keeps (headed true (length (r_done r)) r)) mm w1). apply ensures_at_of.
  unfold mm. hd_auto.
Qed.

Variable to_uppercase : bytes -> bytes.

(** A request opened as stream [id] after the frames [fs], then any operations; the
    frames taken in since are recorded. *)
Inductive exchange (options : ConnectOptions) (fs : list Frame.t) : list Frame.t -> ConnState -> Prop :=
  | exchange_opened k init w w' :
      run to_uppercase options fs w -> op_ok (OpRequest k init) w ->
      request_turn to_uppercase k init w = (w', Ok (Some id)) ->
      exchange options fs [] w'
  | exchange_op seen w op :
      exchange options fs seen w -> op_ok op w ->
      exchange options fs (seen ++ frames_of op w) (apply_op to_uppercase op w).

Lemma exchange_runs options fs seen w :
  exchange options fs seen w -> run to_uppercase options (fs ++ seen) w.
Proof using Type.
  induction 1 as [k init w w' Hrun Hop Hr|seen w op _ IH Hop].
  - pose proof (run_step to_uppercase options fs w _ Hrun Hop) as H. cbn in H. by rewrite Hr in H.
  - rewrite app_assoc. by apply run_step.
Qed.

(** The header lists of the stream since its opening. *)
Definition answers (options : ConnectOptions) (fs seen : list Frame.t) : list (list Header) :=
  let opened := read_frames fs (reader_new options) in
  responses (length (r_done opened)) (read_frames seen opened).
End heads.

(** ** Theorems *)

Section theorems.
Context {arch : Arch} {arch_ok : ArchOk arch}.
Variables (up : bytes -> bytes) (options : ConnectOptions).
Hypothesis ints : 50 <= usize_bits \/ overflow_checks = false.
Hypothesis table_size : 0 <= default 4096 (opt_header_table_size options).

Lemma run_inbound_ok fs w : run up options fs w -> inbound_ok w.
Proof using All.
  induction 1 as [|fs w op Hrun IH Hop]; [by apply connect_inbound|]. by apply apply_op_inbound.
Qed.

Lemma run_bytes fs w now chunk :
  run up options fs w -> bytes_ok chunk -> (on_bytes now chunk w).2 = Ok tt.
Proof using All. intros Hrun Hc. by apply on_bytes_inbound; [..|eapply run_inbound_ok]. Qed.

(** Stream 0 is never opened: what is left of the invariant is the reader. *)
Lemma run_reader fs w : run up options fs w -> headed 0 true 0 (read_frames fs (reader_new options)) w.
Proof using All.
  induction 1 as [|fs w op Hrun IH Hop].
  - assert (headed 0 true 0 (reader_new options) (new_state options)) as H.
    { split; [reflexivity|cbn; lia|by split|by split|intros s [=]|intros []; reflexivity]. }
    by apply connect_writes_hd.
  - unfold read_frames. rewrite foldl_app. apply apply_op_hd; auto; [by eapply run_ok|].
    intros now chunk Hc. by eapply run_bytes.
Qed.

Lemma exchange_headed id fs seen w :
  exchange id up options fs seen w ->
  let opened := read_frames fs (reader_new options) in
  id <> 0 /\ headed id true (length (r_done opened)) (read_frames seen opened) w.
Proof using All.
  intros H opened. induction H as [k init w w' Hrun Hop Hr|seen w op He IH Hop].
  - pose proof (run_reader fs w Hrun) as H0.
    destruct (request_turn_heads id up k init opened w w') as [Hid H]; [exact Hop| |exact Hr|].
    { intros Hc. by apply (hd_sync _ _ _ _ _ H0). }
    split; [|exact H]. pose proof (hd_next _ _ _ _ _ H0). lia.
  - pose proof (exchange_runs id up options fs seen w He) as Hrun.
    destruct IH as [Hid IH]. split; [exact Hid|].
    unfold read_frames. rewrite foldl_app. apply apply_op_hd; auto; [by eapply run_ok|].
    intros now chunk Hc. by eapply run_bytes.
Qed.

(** What [request] and [Trailers::get] return. *)
Lemma exchange_answers id fs seen w :
  exchange id up options fs seen w ->
  let rs := answers id options fs seen in
  match (request_response id w).2 with
  | Ok (Ready r) => exists fields rest, final rs = Some (fields, rest) /\
      r = mkResponse (collect_headers fields) id
  | Ok Pending => is_Some (streams w !! id) /\ final rs = None
  | Err _ => streams w !! id = None
  | _ => False
  end /\
  forall m, get_trailers id w = Some m ->
    exists fields rest1 t rest2, final rs = Some (fields, rest1 ++ t :: rest2) /\ m = headers (collect_headers t).
Proof using All.
  intros He rs. destruct (exchange_headed id fs seen w He) as [Hid [_ _ _ [H1 H2] H3 H4]].
  fold (answers id options fs seen) in H1, H2, H3. fold rs in H1, H2, H3. split; [|exact H2].
  specialize (H4 Hid). unfold request_response. rewrite st_bind_run. unfold request_head. rewrite st_get_bind.
  fold (cells_of id w).
  destruct (streams w !! id) as [s|] eqn:Hs.
  - specialize (H3 s eq_refl). unfold tells in H3. destruct (final rs) as [[f rest]|].
    + destruct H3 as (_ & _ & -> & _). by eexists _, _.
    + destruct H3 as (_ & _ & -> & _). by split; [eexists|].
  - destruct (head (cells_of id w)) as [|[e|h]|]; [by destruct H4|done| |done].
    destruct (H1 h eq_refl) as (f & rest & -> & ->). by eexists _, _.
Qed.

(** C8: A response is the one the peer sent.  From the opening of its stream on, whatever
    else happens on the connection: [request] returns the first header list that is not
    informational among those completed on the stream (however the peer cut the blocks
    into frames, the decoder's table being that of all the blocks of the connection);
    it waits only while the stream is open and no such list has come; it fails only
    when the stream is gone; and the trailers are a list that came later. *)
Theorem response_faithful id fs seen w :
  exchange id up options fs seen w ->
  let rs := answers id options fs seen in
  match (request_response id w).2 with
  | Ok (Ready r) => exists fields rest, final rs = Some (fields, rest) /\
      r = mkResponse (collect_headers fields) id
  | Ok Pending => is_Some (streams w !! id) /\ final rs = None
  | Err _ => streams w !! id = None
  | _ => False
  end /\
  forall m, get_trailers id w = Some m ->
    exists fields rest1 t rest2, final rs = Some (fields, rest1 ++ t :: rest2) /\ m = headers (collect_headers t).
Proof using All. apply exchange_answers. Qed.
End theorems.

(** ** A run *)

(** A [100] cut in two, then a [200]. *)
Definition interim_then_final : bytes :=
  [0; 0; 3; 1; 0; 0; 0; 0; 1; 8; 3; 49; 0; 0; 2; 9; 4; 0; 0; 0; 1; 48; 48;
   0; 0; 1; 1; 4; 0; 0; 0; 1; 0x88].

Lemma interim_then_final_ok : bytes_ok interim_then_final.
Proof. repeat constructor; done. Qed.

Definition asking_client : ConnState :=
  fst (request_turn (arch := host64_debug) (fun b => b) 0 sample_request
    (connect (arch := host64_debug) default_options)).

Lemma response_faithful_witness :
  let op := OpRead 0 interim_then_final in
  let w := apply_op (arch := host64_debug) (fun b => b) op asking_client in
  let rs := answers (arch := host64_debug) 1 default_options [] ([] ++ frames_of op asking_client) in
  length rs = 2%nat /\
  exists r, snd (request_response (arch := host64_debug) 1 w) = Ok (Ready r) /\ status (response_head r) = 200 /\
  exists fields rest, final rs = Some (fields, rest) /\ r = mkResponse (collect_headers fields) 1.
Proof.
  intros op w rs. split; [vm_compute; reflexivity|].
  pose proof (@response_faithful host64_debug host64_debug_ok (fun b => b) default_options
    ltac:(left; vm_compute; discriminate) ltac:(vm_compute; discriminate) 1 []
    ([] ++ frames_of op asking_client) w) as H.
  destruct H as [H _].
  - apply (exchange_op (arch := host64_debug) 1 (fun b => b) default_options [] [] asking_client op);
      [|exact interim_then_final_ok].
    apply (exchange_opened 1 (fun b => b) default_options [] 0 sample_request
      (connect (arch := host64_debug) default_options)); [constructor|vm_compute; reflexivity|].
    vm_compute. reflexivity.
  - eexists. split; [vm_compute; reflexivity|]. split; [vm_compute; reflexivity|].
    match type of H with match ?x with _ => _ end => 
      assert (x = Ok (Ready (mkResponse (mkHead 200 ∅ [header (str ":status") (str "200")]) 1))) as E by (vm_compute; reflexivity) end.
    rewrite E in H. exact H.
Defined.
