(* ===== verification/EndToEnd.v ===== *)
(** * EndToEnd: the client and the bridge

    The client of Web.v on the browser's WebSocket and the bridge of Bridge.v with the
    wslay of WslayC.v at the other end of it.  The browser and the network between them
    are the hypotheses: the browser sends the client's messages as the frames of a
    conversation, any of which may still be under way, and dispatches the binary messages
    of the frames it is sent. *)

From S2P Require Import Prelude Utf8 Bridge BridgeFacts WslayC WslayFacts WslayStream WslaySend Tunnel.
From S2P Require Import Connection Driver Web.

(** ** What is written to the socket has been taken for it *)

Section known.
Context {Ctx : Type} `{WS : Wslay Ctx} {IoError : Type} (error_text : IoError -> bytes).
Variable config : BridgeConfig.

Notation state := (@Bridge.t Ctx IoError).

(** The blocks written, waiting for the lock or held back come from [taken]. *)
Record known (s : state) : Prop := {
  kn_written : Forall (fun b => b ∈ Bridge.taken s) (written s);
  kn_lock : Forall (fun b => b ∈ Bridge.taken s) (lock s);
  kn_held : match d1 s with
            | D1PeerWrite _ block _ _ => (WsToPeer, block) ∈ Bridge.taken s
            | _ => True
            end;
}.

Lemma known_same (s s' : state) :
  Bridge.taken s' = Bridge.taken s -> written s' = written s -> lock s' = lock s ->
  d1 s' = d1 s \/ match d1 s' with D1PeerWrite _ _ _ _ => False | _ => True end ->
  known s -> known s'.
Proof using Type.
  intros E1 E2 E3 E4 [H1 H2 H3]. split; rewrite ?E1, ?E2, ?E3; try done.
  destruct E4 as [-> |H]; [done|by destruct (d1 s')].
Qed.

(** The fields that count are the same. *)
Ltac unchanged s := apply (known_same s); [done|done|done|first [by left|by right]|].

Ltac kept := intros ?; split_and!; first [done|by left|by right].

Lemma after_write_known d r (s : state) : known s -> known (after_write error_text config d r s).
Proof using Type.
  intros H. unfold after_write, finish.
  destruct d; [destruct (d1 s) eqn:E1|destruct (d2 s)|destruct (d3 s)|destruct (d4 s), (keepalive config)];
    try done; destruct r; try (by unchanged s); destruct closed; by unchanged s.
Qed.

Lemma write_ws_known d block (s : state) :
  known s -> (d, block) ∈ Bridge.taken s -> known (write_ws error_text config d block s).
Proof using Type.
  intros H Hin. destruct block as [|x l]; [by apply after_write_known|].
  destruct H as [H1 H2 H3]. split; try done. apply Forall_app_2; [done|]. by constructor.
Qed.

(** More is taken. *)
Lemma taken_known (s : state) b i p k f c :
  known s -> k = Bridge.taken s ++ [b] ->
  known (set_history i p k f (set_wslay c s)).
Proof using Type.
  intros [H1 H2 H3] ->. split; cbn; try (eapply Forall_impl; [eassumption|]; cbn; intros; apply elem_of_app; by left).
  destruct (d1 s); try done. apply elem_of_app. by left.
Qed.

Lemma flush_known d k f (s s' : state) :
  known s -> (forall s1, Bridge.taken (f s1) = Bridge.taken s1 /\ written (f s1) = written s1 /\ lock (f s1) = lock s1 /\
    (d1 (f s1) = d1 s1 \/ match d1 (f s1) with D1PeerWrite _ _ _ _ => False | _ => True end)) ->
  ('(s1, block) ← flush_as d k s; Ok (write_ws error_text config d block (f s1))) = Ok s' -> known s'.
Proof using Type.
  intros H Hf. unfold flush_as. destruct (flush k (wslay s)) as [[c block]| | |] eqn:E; cbn; try done.
  intros [= <-]. set (s1 := set_history _ _ _ _ _). destruct (Hf s1) as (F1 & F2 & F3 & F4).
  apply write_ws_known.
  - apply (known_same s1); try done. by eapply taken_known.
  - rewrite F1. cbn. apply elem_of_app. right. by apply list_elem_of_singleton.
Qed.

Lemma after_peer_write_known outbound closed evs (s : state) :
  known s -> (WsToPeer, outbound) ∈ Bridge.taken s ->
  known (after_peer_write error_text config outbound closed evs s).
Proof using Type.
  intros H Hin. unfold after_peer_write. destruct (on_events_hooks config evs s None) as (h & pc & ->).
  apply write_ws_known; [|done]. by unchanged s.
Qed.

Lemma ka_check_known ka (s s' : state) :
  ka_check error_text config ka s = Ok s' -> known s -> known s'.
Proof using Type.
  unfold ka_check. destruct (_ <? _).
  - intros [= <-] ?. by unchanged s.
  - intros E H. eapply (flush_known _ _ (set_d4 D4PingWrite)); [exact H| |exact E]. kept.
Qed.

Lemma ws_read_known r (s s' : state) :
  ws_read error_text config r s = Ok s' -> known s -> known s'.
Proof using Type.
  destruct r as [e|[|x data]]; cbn [ws_read]; try (intros [= <-] ?; by unchanged s).
  destruct (feed (x :: data) _) as [[[[[c tp] block] closed] evs]| | |] eqn:E; try done. cbn [mbind outcome_bind].
  intros Hs H. set (s0 := set_time _ _ s) in *. set (s1 := set_history _ _ _ _ _) in Hs.
  assert (known s1) as H1.
  { eapply taken_known; [|reflexivity]. by unchanged s. }
  assert ((WsToPeer, block) ∈ Bridge.taken s1) as Hin.
  { cbn. apply elem_of_app. right. by apply list_elem_of_singleton. }
  destruct tp; injection Hs as <-; [by apply after_peer_write_known|].
  destruct H1 as [K1 K2 _]. by split.
Qed.

Lemma step_known e (s s' : state) : Bridge.step error_text config e s = Ok s' -> known s -> known s'.
Proof using Type.
  unfold Bridge.step. destruct (ended s); [by intros [= <-]|].
  destruct e as [d|r|r| |r|cmd| | |r].
  - intros [= <-] ?. by unchanged s.
  - destruct (d1 s); try (by intros [= <-]). destruct (read_fits r); [apply ws_read_known|by intros [= <-]].
  - destruct (d1 s) as [|tp block closed evs| | |] eqn:Hd; try (by intros [= <-]). intros E H.
    destruct r as [e|[]]; cbn [peer_wrote] in E.
    + eapply (flush_known _ _ (fun s1 => set_d1 D1ErrWrite
        (set_history (Bridge.ws_in s1) (peer_in s1) (Bridge.taken s1) true s1))); [exact H| |exact E]. kept.
    + injection E as <-. pose proof (kn_held _ H) as Hh. rewrite Hd in Hh.
      apply after_peer_write_known; [|done]. by unchanged s.
  - destruct (d1 s); intros [= <-] ?; try done. by unchanged s.
  - destruct (d2 s); try (by intros [= <-]). destruct (read_fits r); [|by intros [= <-]].
    intros E H. destruct r as [e|[|x data]]; cbn [peer_read] in E;
      [eapply (flush_known _ _ (set_d2 _)); [exact H| |exact E]; kept..|].
    eapply (flush_known _ _ (set_d2 _)); [|..|exact E]; [|kept]. by unchanged s.
  - destruct (d3 s); try (by intros [= <-]). intros E H.
    eapply (flush_known ControlDir _ (set_d3 _)); [exact H| |exact E]. kept.
  - destruct (d3 s); intros [= <-] ?; try done. by unchanged s.
  - destruct (keepalive config) as [ka|]; [|by intros [= <-]]. unfold ka_timer.
    destruct (d4 s); try (by intros [= <-]); (destruct (_ <=? _); [|by intros [= <-]]); [apply ka_check_known|].
    destruct (_ <=? _); [|apply ka_check_known]. intros E H.
    eapply (flush_known KeepAliveDir _ (set_d4 _)); [exact H| |exact E]. kept.
  - destruct (lock s) as [|[d block] rest] eqn:El; intros [= <-]; [done|]. intros [K1 K2 K3].
    apply after_write_known. rewrite El in K2. apply Forall_cons in K2 as [K2 K2'].
    split; try done. apply Forall_app_2; [done|]. destruct r; by constructor.
Qed.

Lemma run_known es s0 (s : state) :
  Bridge.start error_text config = Ok s0 -> run_from error_text config es s0 = Ok s -> known s.
Proof using Type.
  intros Hs. assert (known s0) as H0.
  { unfold Bridge.start in Hs. destruct server_init as [c|]; [|done].
    assert (known (initial (IoError := IoError) config c)) as Hi by by split.
    fold (initial (IoError := IoError) config c) in Hs.
    destruct (keepalive config) as [ka|]; [by eapply ka_check_known|by injection Hs as <-]. }
  clear Hs. revert s0 H0. induction es as [|e es IH]; intros s0 H0 Hr; [by injection Hr as <-|].
  cbn [run_from] in Hr. apply bind_Ok in Hr as (s1 & E & Hr). eapply IH; [|exact Hr]. by eapply step_known.
Qed.
End known.

(** ** Frames and blocks *)

Lemma frames_prefix ms1 ms2 :
  Forall sendable ms1 -> Forall sendable ms2 -> frames ms1 `prefix_of` frames ms2 -> ms1 `prefix_of` ms2.
Proof.
  intros H1. revert ms2. induction H1 as [|m1 ms1 Hm1 _ IH]; intros ms2 H2 [x E]; [apply prefix_nil|].
  destruct H2 as [|m2 ms2 Hm2 H2]; [discriminate E|].
  change (server_frame m2 ++ frames ms2 = (server_frame m1 ++ frames ms1) ++ x) in E.
  rewrite <- (assoc_L (++)) in E. apply server_frame_inj in E as [-> E]; try done.
  apply prefix_cons, IH; [done|]. by exists x.
Qed.

Lemma binary_prefix ms1 ms2 : ms1 `prefix_of` ms2 -> binary_of ms1 `prefix_of` binary_of ms2.
Proof. intros [x ->]. rewrite binary_of_app. by exists (binary_of x). Qed.

(** Without the blocks of direction 1. *)
Definition not_dir1 {A} (l : list (dir * A)) : list (dir * A) := filter (fun x => fst x <> WsToPeer) l.

Lemma others_blocks bs : others (block_bytes <$> bs) = frames (messages (not_dir1 bs)).
Proof.
  unfold others, not_dir1. induction bs as [|[d ms] bs IH]; [done|]. cbn [fmap list_fmap].
  destruct (decide (d = WsToPeer)) as [->|Hd].
  - by rewrite !filter_cons_False by (cbn; congruence).
  - rewrite !filter_cons_True by done. unfold messages. cbn [fmap list_fmap concat]. rewrite IH, frames_app. done.
Qed.

Lemma binary_not_dir1 bs :
  Forall (fun b => fst b <> PeerToWs -> binary_of (snd b) = []) bs ->
  binary_of (messages (not_dir1 bs)) = binary_of (messages bs).
Proof.
  unfold not_dir1. induction 1 as [|[d ms] bs Hb _ IH]; [done|].
  assert (forall l, messages ((d, ms) :: l) = ms ++ messages l) as Hm by done.
  destruct (decide (d = WsToPeer)) as [->|Hd].
  - rewrite filter_cons_False by (cbn; congruence). cbn [fst snd] in Hb. by rewrite Hm, binary_of_app, Hb.
  - rewrite filter_cons_True by done. by rewrite !Hm, !binary_of_app, IH.
Qed.

(** Blocks taken from known ones. *)
Lemma blocks_choice (l : list (dir * bytes)) (bs : list (dir * list wslay_event_omsg)) :
  Forall (fun b => b ∈ block_bytes <$> bs) l -> exists ws, l = block_bytes <$> ws /\ Forall (fun b => b ∈ bs) ws.
Proof.
  induction 1 as [|b l Hb _ (ws & -> & Hws)]; [by exists []|].
  apply list_elem_of_fmap in Hb as (w & -> & Hw). exists (w :: ws). split; [done|by constructor].
Qed.

Lemma messages_forall (P : wslay_event_omsg -> Prop) bs :
  Forall P (messages bs) <-> Forall (fun b => Forall P (snd b)) bs.
Proof. unfold messages. by rewrite Forall_concat, Forall_fmap. Qed.

(** ** A conversation that has come *)

Lemma visible_prefix fs n : Forall (fun f => legal f = true) fs -> visible fs n `prefix_of` data_of fs.
Proof.
  intros H. revert n. induction H as [|f fs Hf _ IH]; intros n; [done|]. cbn [visible].
  change (data_of (f :: fs)) with (payload_of f ++ data_of fs).
  destruct (decide (length (encode f) <= n)%nat) as [Hle|Hlt].
  - rewrite take_ge.
    + by apply prefix_app, IH.
    + rewrite encode_length in Hle by by apply legal_key. unfold payload_of. destruct (f_data f); cbn [length]; lia.
  - replace (n - length (encode f))%nat with 0%nat by lia. rewrite visible_0, app_nil_r.
    apply prefix_app_r, prefix_take.
Qed.

Lemma visible_all fs : Forall (fun f => legal f = true) fs -> visible fs (length (WslayStream.wire fs)) = data_of fs.
Proof.
  induction 1 as [|f fs Hf _ IH]; [done|]. cbn [visible].
  change (data_of (f :: fs)) with (payload_of f ++ data_of fs). rewrite wire_cons, length_app, take_ge.
  - by replace (length (encode f) + length (WslayStream.wire fs) - length (encode f))%nat with (length (WslayStream.wire fs)) by lia; rewrite IH.
  - rewrite encode_length by by apply legal_key. unfold payload_of. destruct (f_data f); cbn [length]; lia.
Qed.

Section socket.
Context {IoError : Type} (error_text : IoError -> bytes).
Variable config : BridgeConfig.

(** The frames written to the socket, and what they carry. *)
Lemma socket_frames es s0 (s : @Bridge.t wslay_event_context IoError) :
  Bridge.start error_text config = Ok s0 -> run_from error_text config es s0 = Ok s ->
  exists ms, out_of (written s) = frames ms /\ Forall outgoing ms /\ binary_of ms `prefix_of` peer_in s.
Proof.
  intros Hs Hr. destruct (run_outbox error_text config es s0 s Hs Hr) as (_ & bs & Et & (Ho & Hp & _) & Hbs).
  cbn in Et, Hp. pose proof (run_known error_text config es s0 s Hs Hr) as [Hw _ _].
  pose proof (run_tunnel error_text config es s0 s Hs Hr) as Hrel.
  pose proof (rel_written _ _ Hrel) as Hpre. rewrite Et in Hw, Hpre.
  destruct (blocks_choice _ _ Hw) as (ws & Ew & Hin). rewrite Ew, !others_blocks in Hpre.
  assert (Forall (fun b => fst b <> PeerToWs -> binary_of (snd b) = []) ws) as Hbs'.
  { eapply Forall_impl; [exact Hin|]. intros b Hb. rewrite Forall_forall in Hbs. by apply Hbs. }
  assert (Forall outgoing (messages ws)) as Ho'.
  { rewrite messages_forall in *. eapply Forall_impl; [exact Hin|]. intros b Hb.
    rewrite Forall_forall in Ho. by apply Ho. }
  exists (messages ws). split; [by rewrite Ew, out_blocks|]. split; [done|].
  assert (forall l, Forall outgoing (messages l) -> Forall sendable (messages (not_dir1 l))) as Hsend.
  { intros l Hl. rewrite messages_forall in *. unfold not_dir1.
    rewrite Forall_forall in *. intros b Hb. apply list_elem_of_filter in Hb as [_ Hb].
    eapply Forall_impl; [by apply Hl|]. by intros m [? _]. }
  etransitivity; [|exact Hp]. rewrite <- (binary_not_dir1 ws), <- (binary_not_dir1 bs) by done.
  apply binary_prefix, frames_prefix; auto.
Qed.

(** ** The two directions *)

(** The messages of the calls on the socket. *)
Definition messages_of (cs : list socket_call) : list bytes :=
  omap (fun call => match call with CSend item => Some item | CClose => None end) cs.

Lemma messages_of_sends l : messages_of (CSend <$> l) = l.
Proof using Type. unfold messages_of. induction l; cbn; congruence. Qed.

(** What the peer has been given, of what the connection of the client has queued. *)
Lemma client_sent {arch : Arch} up options ces c :
  web_ok up options ces c ->
  concat (messages_of (Web.calls c)) `prefix_of` concat (out_bytes <$> sent (conn (drv c))) /\
  (write (drv c) = WDone false ->
    concat (messages_of (Web.calls c)) = concat (out_bytes <$> sent (conn (drv c)))).
Proof using Type.
  intros [H1 _ H3 _ _ _ _ _]. rewrite H3, messages_of_sends. split.
  - rewrite <- (take_drop (Driver.taken (drv c)) (sent (conn (drv c)))) at 2.
    rewrite fmap_app, concat_app. by apply prefix_app_r.
  - intros Hw. destruct (drive_flushing up options _ H1) as [Hf _].
    destruct (fl_done _ Hf Hw) as [Ht _]. by rewrite Ht, firstn_all.
Qed.

(** What the peer of the bridge has been given, of a conversation that carries [b]. *)
Lemma origin_given fs es s0 (s : @Bridge.t wslay_event_context IoError) fut b :
  valid false fs = true -> data_of fs = b ->
  Bridge.start error_text config = Ok s0 -> run_from error_text config es s0 = Ok s ->
  ws_in s ++ fut = WslayStream.wire fs ->
  peer_out s ++ held s `prefix_of` b /\ (fut = [] -> peer_failed s = false -> peer_out s ++ held s = b).
Proof using Type.
  intros Hv <- Hs Hr Hfut.
  destruct (run_inbox error_text config fs es s0 s Hv Hs Hr) as (Hset & _). cbn [l_core ledger_of] in Hset.
  destruct (relays_peer s (run_tunnel error_text config es s0 s Hs Hr)) as (lost & Hl & Hp).
  rewrite (sc_peer _ Hset), app_nil_r in Hl.
  destruct (run_position error_text config fs es s0 s fut Hv Hs Hr Hfut) as [Hvis _]. rewrite Hvis in Hl.
  pose proof (valid_legal _ _ Hv) as Hleg. split.
  - etransitivity; [|by apply (visible_prefix fs (length (ws_in s)))]. exists lost. by rewrite <- Hl, <- (assoc_L (++)).
  - intros -> Hpf. rewrite <- (visible_all fs) by done. rewrite app_nil_r in Hfut.
    rewrite <- Hfut, <- Hl, (Hp Hpf), app_nil_r. done.
Qed.

(** From the client to the origin: if the browser sends the client's messages as a
    conversation of frames, whatever its fragments, masks and pings, then at any time the
    origin behind the bridge has been given a beginning of the bytes the client's
    connection has queued, in order; and all of them once the driver has ended well, the
    bytes have come and the bridge holds nothing back. *)
Theorem client_to_origin {arch : Arch} up options ces c fs es s0 s fut :
  web_run up options ces c ->
  valid false fs = true -> data_of fs = concat (messages_of (Web.calls c)) ->
  Bridge.start error_text config = Ok s0 -> run_from error_text config es s0 = Ok s ->
  ws_in s ++ fut = WslayStream.wire fs ->
  peer_out s ++ held s `prefix_of` concat (out_bytes <$> sent (conn (drv c))) /\
  (write (drv c) = WDone false -> fut = [] -> peer_failed s = false ->
    peer_out s ++ held s = concat (out_bytes <$> sent (conn (drv c)))).
Proof using Type.
  intros Hc Hv Hd Hs Hr Hfut. destruct (client_sent up options ces c (web_runs up options ces c Hc)) as [Hpre Hall].
  destruct (origin_given fs es s0 s fut _ Hv Hd Hs Hr Hfut) as [H1 H2]. split; [by transitivity (concat (messages_of (Web.calls c)))|].
  intros Hw Hf Hp. by rewrite <- (Hall Hw), H2.
Qed.

(** What the read loop of a client has been given, of what its peer was given to send. *)
Lemma delivered_given {arch : Arch} up options ces c es s0 (s : @Bridge.t wslay_event_context IoError) ms :
  web_ok up options ces c ->
  Bridge.start error_text config = Ok s0 -> run_from error_text config es s0 = Ok s ->
  Forall sendable ms -> frames ms `prefix_of` out_of (written s) ->
  concat (arrived ces) `prefix_of` binary_of ms ->
  concat (delivered c) `prefix_of` peer_in s.
Proof using Type.
  intros [_ _ _ _ _ _ H7 _] Hs Hr Hms Hpre Harr.
  destruct (socket_frames es s0 s Hs Hr) as (ms' & E & Ho & Hp). rewrite E in Hpre.
  etransitivity; [|exact Hp]. etransitivity; [|apply binary_prefix, frames_prefix; [exact Hms| |exact Hpre]].
  - etransitivity; [|exact Harr]. destruct H7 as [x ->]. rewrite concat_app. by exists (concat x).
  - eapply Forall_impl; [exact Ho|]. by intros m [? _].
Qed.

(** From the origin to the client: if the binary messages the browser dispatches are
    those of the frames written to the socket, as far as they have come, then what the
    read loop of the client has been given is a beginning of what the origin has sent, in
    order, whatever pings, pongs and closes are sent between. *)
Theorem origin_to_client {arch : Arch} up options ces c es s0 s ms :
  web_run up options ces c ->
  Bridge.start error_text config = Ok s0 -> run_from error_text config es s0 = Ok s ->
  Forall sendable ms -> frames ms `prefix_of` out_of (written s) ->
  concat (arrived ces) `prefix_of` binary_of ms ->
  concat (delivered c) `prefix_of` peer_in s.
Proof using Type. intros Hc. apply (delivered_given up options ces), web_runs, Hc. Qed.
End socket.

(** ** Runs *)

Definition closed_client : client :=
  fold_left (fun c e => web_step (arch := host64_debug) id e c) closing
    (connect_websocket (arch := host64_debug) default_options).

Lemma closed_client_run : web_run (arch := host64_debug) id default_options closing closed_client.
Proof.
  apply (web_run_fold (arch := host64_debug) id default_options [] closing); [constructor|].
  repeat constructor; done.
Qed.

(** Each message in a frame of its own. *)
Definition client_frames : list ws_frame :=
  (fun item => wsFrame true 2 [1; 2; 3; 4] item) <$> messages_of (Web.calls closed_client).

Lemma client_to_origin_witness :
  exists s0 s, Bridge.start Run.text BridgeConfig_default = Ok s0 /\
    run_from Run.text BridgeConfig_default
      [WsRead (inr (WslayStream.wire client_frames)); PeerWrote (inr tt)] s0 = Ok s /\
    (60 <? zlen (peer_out s)) = true /\
    peer_out s ++ held s = concat (out_bytes <$> sent (conn (drv closed_client))).
Proof.
  eexists _, _. split; [reflexivity|]. split; [vm_compute; reflexivity|]. split; [vm_compute; reflexivity|].
  match goal with |- peer_out ?s ++ _ = _ =>
    unshelve epose proof (client_to_origin (arch := host64_debug) Run.text BridgeConfig_default id default_options closing closed_client
      client_frames [WsRead (inr (WslayStream.wire client_frames)); PeerWrote (inr tt)] _ s []
      closed_client_run _ _ eq_refl _ _) as [_ H]; [vm_compute; reflexivity..|] end.
  apply H; vm_compute; reflexivity.
Defined.

Lemma origin_to_client_witness :
  exists s0 s, Bridge.start Run.text BridgeConfig_default = Ok s0 /\
    run_from Run.text BridgeConfig_default
      [PeerRead (inr [0; 0; 0; 4; 1; 0; 0; 0; 0]); WsWrote (inr tt)] s0 = Ok s /\
    concat (delivered closed_client) = [0; 0; 0; 4; 1; 0; 0; 0; 0] /\
    concat (delivered closed_client) `prefix_of` peer_in s.
Proof.
  eexists _, _. split; [reflexivity|]. split; [vm_compute; reflexivity|]. split; [vm_compute; reflexivity|].
  eapply (origin_to_client (arch := host64_debug) Run.text BridgeConfig_default id default_options closing closed_client
    [PeerRead (inr [0; 0; 0; 4; 1; 0; 0; 0; 0]); WsWrote (inr tt)] _ _
    [mkOmsg WSLAY_BINARY_FRAME 0 [0; 0; 0; 4; 1; 0; 0; 0; 0]]);
    [exact closed_client_run|reflexivity|vm_compute; reflexivity| | |].
  - repeat constructor; vm_compute; discriminate.
  - exists []. vm_compute. reflexivity.
  - exists []. vm_compute. reflexivity.
Defined.
