(* ===== verification/Stack.v ===== *)
(** * Stack: the client, its body pumps and the tunnel

    The client of Web.v with the body pumps its requests register on the driver
    ([drive] polls its loops and [run_tasks] together), and the bridge of Bridge.v with
    the wslay of WslayC.v at the other end of the WebSocket, as in EndToEnd.v.  What the
    origin is given is read here by the frame decoder of Frames.v. *)

From stdpp Require Import relations.
From S2P Require Import Prelude Errors Bytes Utf8 Frames FramesFacts Hpack HpackFacts Flow Stream Connection.
From S2P Require Import ConnectionFacts FlowSafety Lifecycle Sending Totality Wire Posted System.
From S2P Require Import Bridge BridgeFacts WslayC WslayFacts WslayStream WslaySend Tunnel Driver Web EndToEnd.

(** ** The client with its pumps *)

Record stack := mkStack {
  front : client;
  uploads : gmap Z pump_state;  (* the tasks of [run_tasks] *)
}.

Definition connection (s : stack) : ConnState := conn (drv (front s)).

Inductive stack_event :=
  | SWeb (e : web_event)
  | SPump (id : Z) (k : waker).

Section stack.
Context {arch : Arch} {arch_ok : ArchOk arch} (up : bytes -> bytes).

Definition stack_start (options : ConnectOptions) : stack := mkStack (connect_websocket options) ∅.

(** [run_tasks] is dropped with the driver. *)
Definition stack_step (e : stack_event) (s : stack) : stack :=
  match e with
  | SWeb e =>
      let c := web_step up e (front s) in
      mkStack c (start_tasks (drop (length (tasks (connection s))) (tasks (conn (drv c)))) (uploads s))
  | SPump id k =>
      let d := drv (front s) in
      match uploads s !! id with
      | Some p =>
          if running d then
            let '(w, r) := pump_body k id p (conn d) in
            let d := mkDriver w (reading d) (write d) (taken d) (wire d) in
            mkStack (settle d (inbound (front s)) (calls (front s)) (delivered (front s)))
              (match r with Ok (Some p) => <[id := p]> (uploads s) | _ => delete id (uploads s) end)
          else s
      | None => s
      end
  end.

(** Requests are made of strings and bytes; pumps are tasks, not operations. *)
Definition stack_event_ok (e : stack_event) (s : stack) : Prop :=
  match e with
  | SWeb e =>
      web_event_ok e (front s) /\
      match e with
      | WOp op => post_ok up op /\ match op with OpPump _ _ _ _ | OpPumpFinish _ => False | _ => True end
      | _ => True
      end
  | SPump _ _ => True
  end.

Inductive stack_run (options : ConnectOptions) : list web_event -> stack -> Prop :=
  | stack_init : stack_run options [] (stack_start options)
  | stack_next es s e :
      stack_run options es s -> stack_event_ok e s ->
      stack_run options (es ++ match e with SWeb e => [e] | SPump _ _ => [] end) (stack_step e s).

(** ** A pump is a sequence of operations *)

Definition pump_op (w w' : ConnState) : Prop :=
  exists op, match op with OpPump _ _ _ _ | OpPumpFinish _ => w' = apply_op up op w | _ => False end.

Lemma pump_chunk_ops fuel k id chunk offset w : rtc pump_op w (fst (pump_chunk fuel k id chunk offset w)).
Proof using Type.
  revert offset w. induction fuel as [|fuel IH]; intros offset w; [apply rtc_refl|]. cbn [pump_chunk].
  destruct (offset <? length chunk)%nat; [|apply rtc_refl]. rewrite st_bind_run.
  assert (pump_op w (fst (pump_turn k id chunk offset w))) as H by by exists (OpPump k id chunk offset).
  destruct (pump_turn k id chunk offset w) as [w1 [[[o|]|]|e| |]]; try (by apply rtc_once).
  eapply rtc_l; [exact H|apply IH].
Qed.

Lemma pump_body_ops k id p w : rtc pump_op w (fst (pump_body k id p w)).
Proof using Type.
  assert (forall chunk offset rest, rtc pump_op w (fst (pump_in k id chunk offset rest w))) as Hin.
  { intros chunk offset rest. unfold pump_in. rewrite st_bind_run.
    pose proof (pump_chunk_ops (S (length chunk)) k id chunk offset w) as H.
    by destruct (pump_chunk _ k id chunk offset w) as [w1 [r|e| |]]. }
  destruct p as [[|chunk rest]|chunk offset rest]; cbn [pump_body]; [|by case_bool_decide; [apply rtc_refl|]|done].
  assert (pump_op w (fst (pump_finish id w))) as H by by exists (OpPumpFinish id).
  rewrite st_bind_run. destruct (pump_finish id w) as [w1 [r|e| |]]; by apply rtc_once.
Qed.

Definition with_conn (w : ConnState) (d : driver) : driver := mkDriver w (reading d) (write d) (taken d) (wire d).

Lemma pump_ops_drive options d w :
  rtc pump_op (conn d) w -> drive_run up options d ->
  drive_run up options (with_conn w d) /\ grows (conn d) w.
Proof using Type.
  intros H. remember (conn d) as w0 eqn:E. revert d E.
  induction H as [w0|w0 w1 w2 [op Hop] _ IH]; intros d E Hd; [by destruct d; cbn in E; subst|].
  assert (w1 = apply_op up op (conn d)) as Ew by (by destruct op; subst).
  assert (drive_run up options (drive_step up (DOp op) d)) as Hd1 by (apply drive_next; [done|by destruct op]).
  destruct (IH (with_conn w1 d) eq_refl) as [H1 H2]; [by rewrite Ew|].
  split; [exact H1|]. etransitivity; [|exact H2]. rewrite Ew, E. apply apply_op_grows.
Qed.

Lemma pump_ops_tasks w w' : rtc pump_op w w' -> conn_ok w -> tasks w' = tasks w.
Proof using Type.
  induction 1 as [w|w w1 w2 [op Hop] _ IH]; intros Hok; [done|].
  assert (w1 = apply_op up op w) as -> by by destruct op.
  rewrite IH by by apply apply_op_ok. destruct op as [| | | | | |k i c o|i| |]; try done; cbn.
  - apply (pump_turn_books k i c o w).
  - destruct (pump_finish_wire i w Hok) as (w1 & E & (_ & Ht & _) & _). by rewrite E.
Qed.

Lemma web_ok_pump options es c w :
  web_ok up options es c -> rtc pump_op (conn (drv c)) w ->
  web_ok up options es (settle (with_conn w (drv c)) (inbound c) (calls c) (delivered c)).
Proof using Type.
  intros [H1 H2 H3 H4 H5 H6 H7 H8] Hops. destruct (pump_ops_drive options _ _ Hops H1) as [Hd Hg].
  eapply web_ok_settle; [exact Hd| | | | | | |reflexivity]; try done.
  - cbn [taken conn with_conn]. by rewrite (calls_grow up options) by done.
  - change (running (with_conn w (drv c)) && reading (with_conn w (drv c)))
      with (running (drv c) && reading (drv c)). rewrite <- H5. auto.
Qed.

(** ** The connection with its pumps *)

Definition sys_of (s : stack) : sys := mkSys (connection s) (uploads s).

(** What holds of every state: [es] are the events of the WebSocket so far. *)
Record stack_ok (options : ConnectOptions) (es : list web_event) (s : stack) : Prop := {
  sk_web : web_ok up options es (front s);
  sk_sys : sys_run up options (sys_of s);
  sk_posted : posted (connection s);
  sk_tasks : Forall (fun t => Forall bytes_ok (body_chunks t.2)) (tasks (connection s));
  sk_pumps id p : uploads s !! id = Some p -> pump_bytes p;
}.

(** The parts of it that the connection alone carries through one operation. *)
Record carries (options : ConnectOptions) (w : ConnState) (m : gmap Z pump_state) : Prop := {
  ca_sys : sys_run up options (mkSys w m);
  ca_posted : posted w;
  ca_tasks : Forall (fun t => Forall bytes_ok (body_chunks t.2)) (tasks w);
  ca_pumps id p : m !! id = Some p -> pump_bytes p;
}.

Lemma carries_ok options w m :
  carries options w m -> conn_ok w /\ (decoder_ok (frame_decoder w) /\ bytes_ok (FrameDecoder.pending (frame_decoder w))).
Proof using Type.
  intros [H _ _ _]. assert (exists fs, run up options fs w) as [fs Hr].
  { remember (mkSys w m) as s eqn:E. assert (w = System.conn s) as -> by by rewrite E.
    clear E. induction H as [|s o _ [fs IH] Ho]; [exists []; constructor|]. destruct o as [op|i k]; cbn in *.
    - eexists. apply (run_step up options fs (System.conn s) op); [done|apply Ho].
    - exists fs. destruct (System.pumps s !! i) as [p|]; [|done].
      pose proof (pump_body_runs up options k i p fs (System.conn s) IH) as Hp.
      by destruct (pump_body k i p (System.conn s)). }
  split; [by eapply run_ok|by apply (run_accounts up options fs)].
Qed.

Lemma start_tasks_bytes l m :
  Forall (fun t => Forall bytes_ok (body_chunks t.2)) l -> (forall id p, m !! id = Some p -> pump_bytes p) ->
  forall id p, start_tasks l m !! id = Some p -> pump_bytes p.
Proof using Type.
  intros Hl. revert m. induction Hl as [|[i b] l Hb _ IH]; intros m Hm id p; [apply Hm|]. cbn.
  apply IH. intros id' p'. destruct (decide (id' = i)) as [->|Hne].
  - rewrite lookup_insert_eq. by intros [= <-].
  - rewrite lookup_insert_ne by done. apply Hm.
Qed.

Lemma request_tasks k init w :
  conn_ok w -> next_stream_id w + 2 < 4294967296 -> request_ok up init ->
  Forall (fun t => Forall bytes_ok (body_chunks t.2)) (tasks w) ->
  Forall (fun t => Forall bytes_ok (body_chunks t.2)) (tasks (fst (request_turn up k init w))).
Proof using Type.
  intros Hok Hn [_ Hb] Ht.
  destruct (request_turn_wire up k init w Hok Hn) as [_ [(_ & -> & _)|(frags & _ & _ & _ & ->)]]; [done|].
  apply Forall_app_2; [done|]. destruct (body_is_empty _); by repeat constructor.
Qed.

Lemma carries_op options op w m :
  carries options w m -> op_ok op w -> post_ok up op ->
  match op with OpPump _ _ _ _ | OpPumpFinish _ => False | _ => True end ->
  let w' := apply_op up op w in
  carries options w' (start_tasks (drop (length (tasks w)) (tasks w')) m) /\
  (plain_op op -> start_tasks (drop (length (tasks w)) (tasks w')) m = m).
Proof using arch_ok.
  intros Hc Hop Hpo Hnp w'. destruct (carries_ok options w m Hc) as [Hok Hd]. destruct Hc as [C1 C2 C3 C4].
  assert (plain_op op -> tasks w' = tasks w) as Hpl by (intros H; apply (plain_op_signals up op w H)).
  assert (Forall (fun t => Forall bytes_ok (body_chunks t.2)) (tasks w')) as Ht.
  { destruct op; try (rewrite Hpl; [done|exact I]); try done. by apply request_tasks. }
  split; [|intros H; by rewrite Hpl, start_tasks_same]. split.
  - by apply (sys_next up options (mkSys w m) (SysOp op)).
  - apply (posted_step w); [|done]. by apply apply_op_posts.
  - done.
  - intros i p. apply start_tasks_bytes; [by apply Forall_drop|done].
Qed.

Lemma carries_pump options k i p w m :
  carries options w m -> m !! i = Some p ->
  let '(w', r) := pump_body k i p w in
  carries options w' (match r with Ok (Some p) => <[i := p]> m | _ => delete i m end).
Proof using arch_ok.
  intros Hc Hp. destruct (carries_ok options w m Hc) as [Hok _]. destruct Hc as [C1 C2 C3 C4].
  pose proof (sys_next up options (mkSys w m) (SysPump i k) C1 I) as Hs. cbn in Hs. rewrite Hp in Hs.
  destruct (pump_body_posts k i p w (C4 i p Hp) Hok) as [Hposts Hbytes].
  assert (tasks (fst (pump_body k i p w)) = tasks w) as Ht.
  { apply pump_ops_tasks; [apply pump_body_ops|done]. }
  destruct (pump_body k i p w) as [w' r]. cbn [fst snd] in *. split; [done|apply (posted_step w); [apply Hposts|done]|by rewrite Ht|].
  intros j q. destruct r as [[p'|]|e| |]; cbn; try (intros [_ H]%lookup_delete_Some; by eapply C4).
  intros [[<- <-]|[_ H]]%lookup_insert_Some; [by apply Hbytes|by eapply C4].
Qed.

Lemma carries_plain options op w m :
  carries options w m -> op_ok op w -> plain_op op -> carries options (apply_op up op w) m /\ tasks (apply_op up op w) = tasks w.
Proof using arch_ok.
  intros Hc Hop Hpl. split; [|apply (plain_op_signals up op w Hpl)].
  destruct (carries_op options op w m Hc Hop) as [H E]; [by destruct op|by destruct op|].
  by rewrite (E Hpl) in H.
Qed.

Definition driven_ok (e : devent) : Prop :=
  match e with
  | DOp op => post_ok up op /\ match op with OpPump _ _ _ _ | OpPumpFinish _ => False | _ => True end
  | _ => True
  end.

Lemma drive_step_carries options e d m :
  carries options (conn d) m -> event_ok e d -> driven_ok e ->
  let w' := conn (drive_step up e d) in
  carries options w' (start_tasks (drop (length (tasks (conn d))) (tasks w')) m).
Proof using arch_ok.
  intros Hc He Hd. cbv zeta.
  assert (forall w', carries options w' m /\ tasks w' = tasks (conn d) ->
    carries options w' (start_tasks (drop (length (tasks (conn d))) (tasks w')) m)) as Hsame.
  { intros w' [H1 H2]. by rewrite start_tasks_same. }
  destruct e as [now chunk| | |ok|op]; cbn [drive_step event_ok] in *.
  - destruct (running d && reading d); [|by apply Hsame].
    destruct (carries_plain options (OpRead now chunk) _ _ Hc He I) as [H1 E1].
    destruct (closed _); cbn [conn]; apply Hsame; [|done].
    destruct (carries_plain options OpReadEnd _ _ H1 I I) as [H2 E2]. split; [done|]. by rewrite E2.
  - destruct (running d && reading d); [|by apply Hsame]. cbn [conn]. by apply Hsame, carries_plain.
  - destruct (write d); try by apply Hsame. destruct (Connection.sent (conn d) !! taken d); [by apply Hsame|].
    destruct (out_tx (conn d)); by apply Hsame.
  - destruct (write d); try by apply Hsame. destruct ok; [by apply Hsame|]. cbn [conn].
    by apply Hsame, carries_plain.
  - destruct Hd as [H1 H2]. cbn [conn]. apply carries_op; try done. by destruct op.
Qed.

Lemma web_step_carries options es e c m :
  web_ok up options es c -> carries options (conn (drv c)) m -> web_event_ok e c ->
  match e with WOp op => driven_ok (DOp op) | _ => True end ->
  let w' := conn (drv (web_step up e c)) in
  carries options w' (start_tasks (drop (length (tasks (conn (drv c)))) (tasks w')) m).
Proof using arch_ok.
  intros Hw Hc He Hd. cbv zeta.
  assert (forall e' d, conn d = conn (drv c) -> event_ok e' d -> driven_ok e' ->
    carries options (conn (drive_step up e' d))
      (start_tasks (drop (length (tasks (conn (drv c)))) (tasks (conn (drive_step up e' d)))) m)) as Hdrive.
  { intros e' d E H1 H2. rewrite <- E. apply drive_step_carries; [by rewrite E|done|done]. }
  pose proof (Hdrive DTake (drv c) eq_refl I I) as Htake. cbn [drive_step] in Htake.
  assert (carries options (conn (drv c))
    (start_tasks (drop (length (tasks (conn (drv c)))) (tasks (conn (drv c)))) m)) as Hsame
    by by rewrite start_tasks_same.
  destruct e as [data| |now|ok|op]; cbn [web_step]; [done|done| | |by apply (Hdrive (DOp op))].
  - destruct (running _ && reading _); [|done]. unfold poll_next.
    destruct (Web.queue (inbound c)) as [|b q] eqn:Eq; [destruct (in_tx (inbound c)); [done|]|];
      cbn [settle drv]; apply Hdrive; try done.
    pose proof (wo_bytes _ _ _ _ Hw) as Hb. rewrite Eq in Hb. by apply Forall_cons in Hb as [? _].
  - assert (conn (drive_step up DTake (drv c)) = conn (drv c)) as Et.
    { cbn [drive_step]. destruct (write (drv c)); try done. destruct (_ !! _); [done|]. by destruct (out_tx _). }
    set (d1 := drive_step up DTake (drv c)) in *. clearbody d1.
    destruct (write d1) eqn:Ew; cbn [settle drv]; [by rewrite Et| |by rewrite Et].
    by apply (Hdrive (DSent ok) d1).
Qed.

Lemma stack_runs options es s : options_ok options -> stack_run options es s -> stack_ok options es s.
Proof using arch_ok.
  intros Ho. induction 1 as [|es s e _ IH He].
  - split; [apply web_ok_init|constructor|by apply connect_posted| |done].
    assert (Wire.books (new_state options) (connect options)) as (_ & Ht & _)
      by (unfold connect, connect_writes; by destruct (0 <? _)).
    unfold connection. cbn. rewrite Ht. constructor.
  - destruct IH as [K1 K2 K3 K4 K5]. assert (carries options (connection s) (uploads s)) as Hc by done.
    destruct e as [e|i k]; cbn [stack_step].
    + destruct He as [H1 H2].
      destruct (web_step_carries options es e (front s) (uploads s) K1 Hc H1) as [C1 C2 C3 C4]; [by destruct e|].
      by split; [apply web_ok_step| | | |].
    + rewrite app_nil_r. destruct (uploads s !! i) as [p|] eqn:Hp; [|done].
      destruct (running _); [|done].
      pose proof (carries_pump options k i p _ _ Hc Hp) as Hc'.
      pose proof (web_ok_pump options es (front s) _ K1 (pump_body_ops k i p (connection s))) as Hw.
      unfold connection in *. destruct (pump_body k i p (conn (drv (front s)))) as [w r].
      destruct Hc' as [C1 C2 C3 C4]. by split.
Qed.
End stack.

(** ** The order of frames and the uploads, as they are read *)

(** The ids that order and uploads are about have no reserved bit. *)
Definition aligned (f : Frame.t) : Prop :=
  match f with
  | Frame.Data i _ _ | Frame.Headers i _ _ _ _ | Frame.Continuation i _ _ => is_u31 i
  | _ => True
  end.

Notation order := wire_run.

(** Ids are positive and at most the last one opened. *)
Definition ranged (s : System.wire) : Prop :=
  0 <= last_id s /\ (forall i, i ∈ uploading s -> 0 <= i <= last_id s) /\
  (forall i, block s = Some i -> 0 <= i <= last_id s).

Lemma wire_step_ranged f s s' :
  wire_step f s = Some s' -> ranged s ->
  ranged s' /\ last_id s <= last_id s' /\ (last_id s' < 2147483648 -> aligned f).
Proof.
  intros E (R1 & R2 & R3). unfold wire_step in E. unfold ranged, aligned, is_u31.
  repeat case_match; simplify_eq; cbn; try (split_and!; intros; first [done|lia|by apply R2|by apply R3]).
  all: rewrite ?andb_true_iff, ?Z.ltb_lt, ?Z.eqb_eq, ?bool_decide_eq_true in *; destruct_and?.
  all: try specialize (R3 _ eq_refl); split_and!; intros; simplify_eq; try lia.
  all: repeat match goal with
    | H : _ ∈ uploading _ |- _ => apply R2 in H
    | H : block _ = Some _ |- _ => apply R3 in H
    | H : _ ∈ {[_]} ∪ _ |- _ => apply elem_of_union in H as [->%elem_of_singleton|H]
    | H : _ ∈ _ ∖ _ |- _ => apply elem_of_difference in H as [H _]
    end; lia.
Qed.

Lemma order_aligned fs s s' :
  order fs s = Some s' -> ranged s -> last_id s' < 2147483648 -> Forall aligned fs /\ last_id s <= last_id s'.
Proof.
  revert s. induction fs as [|f fs IH]; intros s E Hs Hl; [by injection E as <-|].
  cbn in E. apply bind_Some in E as (s1 & E1 & E). destruct (wire_step_ranged f s s1 E1 Hs) as (H1 & H2 & H3).
  destruct (IH s1 E H1 Hl) as [H4 H5]. split; [|lia]. constructor; [apply H3; lia|done].
Qed.

Lemma masked_upload id fs : Forall aligned fs -> upload_frames id (masked <$> fs) = upload_frames id fs.
Proof.
  induction 1 as [|f fs Hf _ IH]; [done|].
  change (upload_frames id ([masked f] ++ (masked <$> fs)) = upload_frames id ([f] ++ fs)).
  rewrite !upload_frames_app, IH. f_equal. destruct f; cbn [masked aligned] in *; by rewrite ?land_31_id by done.
Qed.

Lemma prefix_pieces {A} (x y : A) (got : list A) (pieces : list A) (fin : bool) :
  got `prefix_of` pieces ++ (if fin then [y] else []) ->
  exists more (last : bool), got = take (length got) pieces ++ (if last then [y] else []) /\
    take (length got) pieces ++ more = pieces /\ (last = true -> fin = true /\ more = []).
Proof.
  intros H. destruct (decide (length got <= length pieces)%nat) as [Hle|Hgt].
  - exists (drop (length got) pieces), false. split_and!; [|apply take_drop|done].
    destruct H as [z E]. rewrite app_nil_r.
    assert (take (length got) (got ++ z) = take (length got) (pieces ++ if fin then [y] else [])) as Ht by by rewrite E.
    by rewrite take_app_length, take_app_le in Ht.
  - exists [], true. rewrite take_ge, app_nil_r by lia. destruct fin.
    + split_and!; try done. destruct H as [z E]. assert (z = []) as ->.
      { assert (length (pieces ++ [y]) = length (got ++ z)) as Hlen by by rewrite E.
        rewrite !length_app in Hlen. cbn in Hlen. apply nil_length_inv. lia. }
      by rewrite E, app_nil_r.
    + exfalso. destruct H as [z E]. assert (length (pieces ++ []) = length (got ++ z)) as Hlen by by rewrite E.
      rewrite !length_app in Hlen. cbn in Hlen. lia.
Qed.

(** What a decoder has read of an upload: pieces of its body in order, and its end only
    after all of them. *)
Definition upload_read (body : RequestBody) (got : list (bytes * bool)) : Prop :=
  exists pieces (fin : bool),
    got = ((fun d => (d, false)) <$> pieces) ++ (if fin then [([], true)] else []) /\
    concat pieces `prefix_of` concat (body_chunks body) /\
    (fin = true -> concat pieces = concat (body_chunks body)).

Lemma upload_state_read body p l got : upload_state body p l -> got `prefix_of` l -> upload_read body got.
Proof.
  intros (pieces & rest & fin & -> & Hc & Hf & _) Hp.
  destruct (prefix_pieces ([] : bytes, true) ([], true) got _ fin Hp) as (more & last & E & Hm & Hl).
  set (n := length got) in *. clearbody n. exists (take n pieces), last. rewrite <- fmap_take in E.
  assert (concat pieces = concat (take n pieces) ++ concat (drop n pieces)) as Hcat
    by by rewrite <- concat_app, take_drop.
  split; [done|]. rewrite <- Hc, Hcat, <- (assoc_L (++)). split; [by eexists|].
  intros ->. destruct (Hl eq_refl) as [-> ->]. rewrite Hf by done.
  assert (drop n pieces = []) as ->; [|by rewrite !app_nil_r].
  apply nil_length_inv. rewrite length_drop. apply (f_equal length) in Hm.
  rewrite app_nil_r, length_take, length_fmap in Hm. lia.
Qed.

Section tunnelled.
Context {IoError : Type} (error_text : IoError -> bytes).
Variable config : BridgeConfig.

(** C13: A request reaches the origin.  The client with its pumps on the browser's
    WebSocket, the bridge over its wslay at the other end, in every interleaving of each
    and whatever the fragments, masks and pings of the conversation between: what the
    origin has been given at any time begins with the preface, and the frames a decoder
    reads from the rest are those of a beginning [got] of what the client queued (all of it
    once the driver has ended well and everything has come), to the reserved bit, which
    no HEADERS, CONTINUATION or DATA has set.  [got] keeps the order of [wire_step]: SETTINGS
    first, streams opened with odd increasing ids, header blocks whole, DATA only on streams
    opened with a body and before their END_STREAM; and after an RST_STREAM on a stream
    opened there is no DATA on it, the refusal of a promise aside.  The DATA of each stream
    is a beginning of the body of its request, END_STREAM only after the last byte. *)
Theorem request_reaches_origin {arch : Arch} {arch_ok : ArchOk arch} up options ces st fs es s0 s fut :
  options_ok options -> stack_run up options ces st -> next_stream_id (connection st) <= 2147483648 ->
  valid false fs = true -> data_of fs = concat (messages_of (Web.calls (front st))) ->
  Bridge.start error_text config = Ok s0 -> run_from error_text config es s0 = Ok s ->
  ws_in s ++ fut = WslayStream.wire fs ->
  let given := peer_out s ++ held s in
  take 24 given `prefix_of` CONNECTION_PREFACE /\
  exists d got, FrameDecoder.push (drop 24 given) (FrameDecoder.new MAX_PAYLOAD) = (d, Ok (masked <$> got)) /\
    got `prefix_of` frames_out (connection st) /\
    (write (drv (front st)) = WDone false -> fut = [] -> peer_failed s = false ->
       got = frames_out (connection st)) /\
    Forall aligned got /\
    is_Some (order got wire_init) /\
    (forall id code before after, got = before ++ Frame.RstStream id code :: after ->
       headers_sent id before -> code <> REFUSED -> forall data fin, Frame.Data id data fin ∉ after) /\
    forall id body, (id, body) ∈ tasks (connection st) -> upload_read body (upload_frames id (masked <$> got)).
Proof using Type.
  intros Ho Hst Hid Hv Hd Hs Hr Hfut given. destruct (stack_runs up options ces st Ho Hst) as [K1 K2 K3 _ _].
  destruct (client_sent up options ces _ K1) as [Hpre Hall].
  destruct (origin_given error_text config fs es s0 s fut _ Hv Hd Hs Hr Hfut) as [Hg1 Hg2].
  assert (given `prefix_of` concat (out_bytes <$> Connection.sent (connection st))) as Hg by (etransitivity; done).
  destruct (posted_read (connection st) given K3 Hg) as (H1 & d & got & H2 & H3 & H4).
  split; [done|].
  pose proof (sys_run_ok up options _ K2) as Hok. destruct (so_wire _ Hok) as (w & Hw & _ & Hlast & _).
  destruct (order_aligned _ _ _ Hw) as [Hal _]; [by split; cbn; [lia|set_solver]|cbn in Hlast; unfold connection in *; lia|].
  destruct H3 as [x E]. apply fmap_app_inv in E as (queue & rest & -> & -> & Eq).
  cbn [sys_of System.conn] in Hw, Hal. rewrite Eq in Hw. rewrite Eq in Hal.
  apply Forall_app in Hal as [Hal _]. rewrite wire_run_app in Hw. apply bind_Some in Hw as (w1 & Hw1 & _).
  exists d, queue. split; [done|]. split; [exists rest; done|]. split_and!; [|done|by exists w1|..].
  - intros Hwr Hf Hp. assert (masked <$> queue = masked <$> frames_out (connection st)) as Hg'.
    { apply H4. transitivity (concat (messages_of (Web.calls (front st)))); [by apply Hg2|by apply Hall]. }
    apply (f_equal length) in Hg'. rewrite !length_fmap, Eq, length_app in Hg'.
    rewrite Eq. assert (rest = []) as -> by (apply nil_length_inv; lia). by rewrite app_nil_r.
  - intros id code before after E Ho' Hc. by apply (wire_reset_last queue w1 id code before).
  - intros id body Hin. apply (upload_state_read body (uploads st !! id) (upload_frames id (frames_out (connection st)))).
    + by apply (so_upload _ Hok).
    + rewrite masked_upload by done. rewrite Eq, upload_frames_app. by apply prefix_app_r.
Qed.
End tunnelled.

(** ** A run *)

Definition opened : stack :=
  stack_step (arch := host64_debug) id (SWeb (WOp (OpRequest 0 sample_request)))
    (stack_start (arch := host64_debug) default_options).

(** The pump of the request, and the write loop taking what is queued. *)
Definition asking : list stack_event := [SPump 1 7; SPump 1 7] ++ replicate 6 (SWeb (WPollWrite true)).

Definition asked : stack := fold_left (fun s e => stack_step (arch := host64_debug) id e s) asking opened.

Lemma stack_run_fold {arch : Arch} up options es es' s :
  stack_run up options es s ->
  Forall (fun e => match e with SPump _ _ | SWeb (WPollWrite _) => True | _ => False end) es' ->
  exists es2, stack_run up options es2 (fold_left (fun s e => stack_step up e s) es' s).
Proof.
  intros H He. revert es s H. induction He as [|e es' He _ IH]; intros es s H; cbn; [by exists es|].
  eapply IH. apply stack_next; [exact H|]. by destruct e as [[]|].
Qed.

Lemma opened_run :
  stack_run (arch := host64_debug) id default_options [WOp (OpRequest 0 sample_request)] opened.
Proof.
  apply (stack_next (arch := host64_debug) id default_options [] _ (SWeb (WOp (OpRequest 0 sample_request)))).
  - constructor.
  - split; [vm_compute; reflexivity|]. split; [|exact I]. split.
    + apply ascii_headers_ok. vm_compute. reflexivity.
    + repeat constructor; done.
Qed.

(** The messages in one frame, cut in two. *)
Definition asked_frames : list ws_frame :=
  let b := concat (messages_of (Web.calls (front asked))) in
  [wsFrame false 2 [1; 2; 3; 4] (take 40 b); wsFrame true 0 [9; 8; 7; 6] (drop 40 b)].

Lemma request_reaches_origin_witness :
  exists s0 s d got, Bridge.start Run.text BridgeConfig_default = Ok s0 /\
    run_from Run.text BridgeConfig_default
      [WsRead (inr (WslayStream.wire asked_frames)); PeerWrote (inr tt)] s0 = Ok s /\
    FrameDecoder.push (drop 24 (peer_out s ++ held s)) (FrameDecoder.new MAX_PAYLOAD) = (d, Ok (masked <$> got)) /\
    upload_frames 1 (masked <$> got) = [(str "hello", false); ([], true)] /\
    upload_read (BodyBytes (str "hello")) (upload_frames 1 (masked <$> got)).
Proof.
  assert (exists s0 s fs, Bridge.start Run.text BridgeConfig_default = Ok s0 /\
    run_from Run.text BridgeConfig_default
      [WsRead (inr (WslayStream.wire asked_frames)); PeerWrote (inr tt)] s0 = Ok s /\
    ws_in s ++ [] = WslayStream.wire asked_frames /\
    snd (FrameDecoder.push (drop 24 (peer_out s ++ held s)) (FrameDecoder.new MAX_PAYLOAD)) = Ok fs /\
    upload_frames 1 fs = [(str "hello", false); ([], true)]) as (s0 & s & fs & E0 & E1 & E2 & E3 & E4)
    by (eexists _, _, _; split; [reflexivity|]; repeat (split; [vm_compute; reflexivity|]); vm_compute; reflexivity).
  destruct (stack_run_fold (arch := host64_debug) id default_options _ asking opened opened_run) as [ces Hst];
    [repeat constructor|]. change (fold_left _ asking opened) with asked in Hst.
  pose proof (request_reaches_origin (arch := host64_debug) Run.text BridgeConfig_default id default_options ces asked
    asked_frames [WsRead (inr (WslayStream.wire asked_frames)); PeerWrote (inr tt)] s0 s []) as H.
  destruct H as (_ & d & got & E & _ & _ & _ & _ & _ & H); try assumption;
    [exact I|vm_compute; discriminate|vm_compute; reflexivity|vm_compute; reflexivity|].
  exists s0, s, d, got. rewrite E in E3. injection E3 as <-. repeat (split; [assumption|]).
  apply H. vm_compute. left.
Defined.
