(* ===== verification/Fetch.v ===== *)
(** * Fetch: a response, from the bytes of the origin to the caller

    The client of Stack.v while one caller waits for the head of a response and collects
    its body, the rest of the client going on in any order.  The frames the client takes
    in are those that a decoder reads from a beginning of what its read loop has been
    given, and so, with the tunnel between, of what the origin has sent. *)

From stdpp Require Import relations.
From S2P Require Import Prelude Errors Bytes Utf8 Frames FramesFacts Hpack HpackFacts Flow Stream Connection.
From S2P Require Import ConnectionFacts FlowSafety Lifecycle Sending Totality Wire Posted System Download Heads.
From S2P Require Import Bridge BridgeFacts WslayC WslayFacts WslayStream WslaySend Tunnel Driver Web EndToEnd Stack.

(** ** What the read loop has been given, as frames *)

Lemma push_twice b c max d d' fs fs' :
  bytes_ok b -> bytes_ok c -> FrameDecoder.push b (FrameDecoder.new max) = (d, Ok fs) ->
  FrameDecoder.push c d = (d', Ok fs') -> FrameDecoder.push (b ++ c) (FrameDecoder.new max) = (d', Ok (fs ++ fs')).
Proof.
  intros Hb Hc E1 E2.
  pose proof (push_all_concat [b; c] (FrameDecoder.new max)) as H.
  cbn [push_all concat] in H. rewrite app_nil_r in H. rewrite <- H;
    [|by apply decoder_new_ok|constructor|by repeat constructor].
  rewrite (st_bind_Ok _ _ _ _ _ E1), (st_bind_Ok _ _ _ _ _ (st_bind_Ok _ _ _ _ _ E2)). cbn. by rewrite app_nil_r.
Qed.

Section fetch.
Context {arch : Arch} {arch_ok : ArchOk arch} (up : bytes -> bytes).
Variable options : ConnectOptions.

Definition first_decoder : FrameDecoder.t := FrameDecoder.new (default DEFAULT_MAX_FRAME_SIZE (opt_max_frame_size options)).

(** The frames taken in are those of a beginning of what was delivered, and of all of it
    while the read loop runs. *)
Definition reads (fs : list Frame.t) (c : client) : Prop :=
  exists b d, bytes_ok b /\ b `prefix_of` concat (delivered c) /\ FrameDecoder.push b first_decoder = (d, Ok fs) /\
    (reading (drv c) = true -> b = concat (delivered c) /\ frame_decoder (conn (drv c)) = d).

(** Nothing is delivered, and the decoder is as it was. *)
Lemma reads_same fs c c' :
  delivered c' = delivered c -> (reading (drv c') = true -> reading (drv c) = true) ->
  frame_decoder (conn (drv c')) = frame_decoder (conn (drv c)) -> reads fs c -> reads fs c'.
Proof using Type.
  intros E1 E2 E3 (b & d & H1 & H2 & H3 & H4). exists b, d. rewrite E1, E3. split_and!; auto.
Qed.

(** A predicate of the frames taken in and the connection, carried by the operations. *)
Variable carried : list Frame.t -> ConnState -> Prop.
Variable allowed : conn_op -> Prop.
Hypothesis carried_step : forall fs w op,
  carried fs w -> op_ok op w -> allowed op -> carried (fs ++ frames_of op w) (apply_op up op w).
Hypothesis allowed_driver : forall op,
  match op with
  | OpRead _ _ | OpReadEnd | OpWriteFailed | OpPump _ _ _ _ | OpPumpFinish _ => allowed op
  | _ => True
  end.

Definition tracked (fs : list Frame.t) (c : client) : Prop := carried fs (conn (drv c)) /\ reads fs c.

(** An operation that reads nothing. *)
Lemma carried_op fs w op :
  carried fs w -> op_ok op w -> allowed op -> match op with OpRead _ _ => False | _ => True end ->
  carried fs (apply_op up op w).
Proof using carried_step.
  intros H Hop Hal Hr. pose proof (carried_step fs w op H Hop Hal) as Hc.
  destruct op; try done; by rewrite app_nil_r in Hc.
Qed.

Lemma decoder_op w op :
  conn_ok w -> decoder_ok (frame_decoder w) /\ bytes_ok (FrameDecoder.pending (frame_decoder w)) ->
  op_ok op w -> post_ok up op -> match op with OpRead _ _ => False | _ => True end ->
  frame_decoder (apply_op up op w) = frame_decoder w.
Proof using arch_ok.
  intros H1 H2 H3 H4 H5. destruct (apply_op_posts up op w H1 H2 H3 H4) as [_ ->]. by destruct op.
Qed.

(** What a chunk does to the decoder, and the frames it brings. *)
Lemma read_result now b w :
  decoder_ok (frame_decoder w) -> bytes_ok (FrameDecoder.pending (frame_decoder w)) -> bytes_ok b ->
  let w' := apply_op up (OpRead now b) w in
  match FrameDecoder.push b (frame_decoder w) with
  | (d, Ok fs) => frames_of (OpRead now b) w = fs /\ frame_decoder w' = d
  | (_, Err _) => frames_of (OpRead now b) w = [] /\ closed w' = true
  | _ => False
  end.
Proof using Type.
  intros Hd Hp Hb. cbn [apply_op frames_of]. unfold read_chunk, frames_in.
  destruct (push_keeps b (frame_decoder w) Hd Hp Hb) as (_ & _ & Hk).
  case_bool_decide as Hbe; cbn [negb].
  { subst b. pose proof (push_all_concat [] (frame_decoder w) Hd Hp (Forall_nil_2 _)) as Hn.
    cbn [push_all concat] in Hn. by rewrite <- Hn. }
  pose proof (on_bytes_posts now b w Hd Hp Hb) as [_ Hpo].
  destruct (FrameDecoder.push b (frame_decoder w)) as [d1 [fs|e| |]] eqn:Ep; cbn [snd] in Hk |- *; try done.
  split; [done|]. unfold on_bytes, st_catch. rewrite st_get_bind, Ep, st_put_bind, st_lift_bind.
  apply connection_error_closes.
Qed.

(** A chunk is given to the read loop. *)
Lemma tracked_read fs c now b :
  tracked fs c -> bytes_ok b -> running (drv c) && reading (drv c) = true ->
  decoder_ok (frame_decoder (conn (drv c))) /\ bytes_ok (FrameDecoder.pending (frame_decoder (conn (drv c)))) ->
  let d := drive_step up (DRead now b) (drv c) in
  exists fs', carried fs' (conn d) /\
    forall c', drv c' = d -> delivered c' = delivered c ++ [b] -> reads fs' c'.
Proof using carried_step allowed_driver.
  intros [Hc (b0 & d0 & H1 & H2 & H3 & H4)] Hb Hr [Hd Hp] d. apply andb_true_iff in Hr as [Hru Hre].
  destruct (H4 Hre) as [-> E0]. set (w := conn (drv c)) in *.
  pose proof (carried_step fs w (OpRead now b) Hc Hb (allowed_driver (OpRead now b))) as Hc1.
  pose proof (read_result now b w Hd Hp Hb) as Hres. cbv zeta in Hres.
  set (w1 := apply_op up (OpRead now b) w) in *.
  assert (d = if closed w1 then mkDriver (apply_op up OpReadEnd w1) false (write (drv c)) (taken (drv c)) (wire (drv c))
              else mkDriver w1 true (write (drv c)) (taken (drv c)) (wire (drv c))) as ->
    by (unfold d; cbn [drive_step]; by rewrite Hru, Hre).
  exists (fs ++ frames_of (OpRead now b) w). split.
  { destruct (closed w1); [|done]. by apply (carried_op _ _ OpReadEnd); [|exact I|apply (allowed_driver OpReadEnd)|]. }
  intros c' Ed El. assert (concat (delivered c') = concat (delivered c) ++ b) as Ec
    by by rewrite El, concat_app; cbn; rewrite app_nil_r.
  destruct (FrameDecoder.push b (frame_decoder w)) as [d1 [frs|e| |]] eqn:Ep; [| |done|done].
  - destruct Hres as [-> E1]. exists (concat (delivered c) ++ b), d1. rewrite Ec.
    split; [by apply bytes_ok_app|]. split; [done|].
    split; [apply (push_twice _ _ _ (frame_decoder w)); [done|done|by rewrite E0|done]|].
    rewrite Ed. destruct (closed w1); [done|]. by intros _.
  - destruct Hres as [-> Hcl]. exists (concat (delivered c)), d0. rewrite app_nil_r, Ec.
    split; [done|]. split; [by apply prefix_app_r|]. split; [done|]. by rewrite Ed, Hcl.
Qed.

(** ** The steps of the stack *)

Lemma tracked_web es fs c e :
  web_ok up options es c -> tracked fs c ->
  conn_ok (conn (drv c)) ->
  decoder_ok (frame_decoder (conn (drv c))) /\ bytes_ok (FrameDecoder.pending (frame_decoder (conn (drv c)))) ->
  web_event_ok e c -> match e with WOp op => allowed op /\ post_ok up op | _ => True end ->
  exists fs', tracked fs' (web_step up e c).
Proof using carried_step allowed_driver arch_ok.
  intros Hw Ht Hok Hd He Ha. pose proof Ht as [Hc Hr].
  assert (forall op d, conn d = conn (drv c) -> allowed op -> op_ok op (conn (drv c)) -> post_ok up op ->
    match op with OpRead _ _ => False | _ => True end ->
    carried fs (apply_op up op (conn d)) /\ frame_decoder (apply_op up op (conn d)) = frame_decoder (conn (drv c))) as Hop.
  { intros op d -> H1 H2 H3 H4. split; [by apply carried_op|by apply decoder_op]. }
  destruct e as [data| |now|ok|op]; cbn [web_step].
  - exists fs. split; [done|]. by apply (reads_same fs c).
  - exists fs. split; [done|]. by apply (reads_same fs c).
  - destruct (running (drv c) && reading (drv c)) eqn:Er; [|by exists fs]. unfold poll_next.
    destruct (Web.queue (inbound c)) as [|b q] eqn:Eq.
    + destruct (in_tx (inbound c)); [by exists fs|]. exists fs. cbn [drive_step]. rewrite Er.
      destruct (Hop OpReadEnd (drv c)) as [H1 H2]; try done; [apply (allowed_driver OpReadEnd)|].
      split; [exact H1|]. by apply (reads_same fs c).
    + pose proof (wo_bytes _ _ _ _ Hw) as Hb. rewrite Eq in Hb. apply Forall_cons in Hb as [Hb _].
      destruct (tracked_read fs c now b Ht Hb Er Hd) as (fs' & H1 & H2). exists fs'.
      split; [exact H1|]. by apply H2.
  - assert (conn (drive_step up DTake (drv c)) = conn (drv c) /\ reading (drive_step up DTake (drv c)) = reading (drv c))
      as [E1 E2].
    { cbn [drive_step]. destruct (write (drv c)); try done. destruct (_ !! _); [done|]. by destruct (out_tx _). }
    set (d1 := drive_step up DTake (drv c)) in *. clearbody d1. exists fs.
    destruct (write d1) eqn:Ew; [|cbn [drive_step]; rewrite Ew; destruct ok|].
    1,2,4: split; [cbn; by rewrite E1|apply (reads_same fs c); cbn; rewrite ?E1, ?E2; try done].
    destruct (Hop OpWriteFailed d1) as [H1 H2]; try done; [apply (allowed_driver OpWriteFailed)|].
    split; [exact H1|]. apply (reads_same fs c); cbn; rewrite ?E2; try done.
  - destruct Ha as [Ha1 Ha2]. exists fs. assert (match op with OpRead _ _ => False | _ => True end) as Hnr by by destruct op.
    destruct (Hop op (drv c)) as [H1 H2]; try done; [by destruct op|].
    split; [exact H1|]. by apply (reads_same fs c).
Qed.

Lemma tracked_pump fs c w :
  tracked fs c -> rtc (pump_op up) (conn (drv c)) w -> frame_decoder w = frame_decoder (conn (drv c)) ->
  tracked fs (settle (with_conn w (drv c)) (inbound c) (calls c) (delivered c)).
Proof using carried_step allowed_driver.
  intros [Hc Hr] Hops E. split; [|by apply (reads_same fs c)]. cbn. clear E Hr. revert Hc.
  induction Hops as [w0|w0 w1 w2 [op Hop] _ IH]; [done|]. intros Hc. apply IH.
  destruct op; try done; subst w1; by apply carried_op; [|exact I|apply (allowed_driver (OpPump _ _ _ _))|]
    || (by apply carried_op; [|exact I|apply (allowed_driver (OpPumpFinish _))|]).
Qed.

Lemma tracked_stack es fs s e :
  stack_ok up options es s -> tracked fs (front s) -> stack_event_ok up e s ->
  match e with SWeb (WOp op) => allowed op | _ => True end ->
  exists fs', tracked fs' (front (stack_step up e s)).
Proof using carried_step allowed_driver arch_ok.
  intros Hs Ht He Ha.
  destruct (carries_ok up options (connection s) (uploads s)) as [Hok Hd]; [by destruct Hs|].
  destruct e as [e|i k]; cbn [stack_step].
  - destruct He as [He1 He2]. apply (tracked_web es fs (front s) e); try done; [by destruct Hs|].
    destruct e; try done. by destruct He2.
  - exists fs. destruct (uploads s !! i) as [p|] eqn:Hp; [|done]. destruct (running _); [|done].
    pose proof (tracked_pump fs (front s) _ Ht (pump_body_ops up k i p (connection s))) as H.
    destruct (pump_body_posts k i p (connection s)) as [[_ E] _]; [by eapply sk_pumps|done|].
    specialize (H E). unfold connection in *. by destruct (pump_body k i p (conn (drv (front s)))).
Qed.
End fetch.

(** ** One response *)

Section response.
Context {arch : Arch} {arch_ok : ArchOk arch} (up : bytes -> bytes).
Variable options : ConnectOptions.
Variable id : Z.

(** A request is opened as stream [id]; its caller collects the body by turns of
    [Response::bytes], and all the rest happens in any order. *)
Inductive fetch : list web_event -> stack -> bytes_task -> Prop :=
  | fetch_opened es s k init w' :
      stack_run up options es s -> stack_event_ok up (SWeb (WOp (OpRequest k init))) s ->
      request_turn up k init (connection s) = (w', Ok (Some id)) ->
      (forall pb, pending_header_block (connection s) = Some pb -> pb_stream_id pb <> id) ->
      fetch (es ++ [WOp (OpRequest k init)]) (stack_step up (SWeb (WOp (OpRequest k init))) s) (Collecting [])
  | fetch_step es s t e :
      fetch es s t -> stack_event_ok up e s ->
      match e with SWeb (WOp op) => owned id op | _ => True end ->
      fetch (es ++ match e with SWeb e => [e] | SPump _ _ => [] end) (stack_step up e s) t
  | fetch_turn es s out k t :
      fetch es s (Collecting out) -> snd (bytes_turn id k (Collecting out) (connection s)) = Ok t ->
      fetch (es ++ [WOp (OpBodyPoll id k)]) (stack_step up (SWeb (WOp (OpBodyPoll id k))) s) t.

Lemma fetch_runs es s t : fetch es s t -> stack_run up options es s.
Proof using Type.
  induction 1 as [es s k init w' Hs He _ _|es s t e _ IH He _|es s out k t _ IH _];
    [by apply (stack_next up options es s (SWeb (WOp (OpRequest k init))))|by apply stack_next|].
  by apply (stack_next up options es s (SWeb (WOp (OpBodyPoll id k)))).
Qed.

Lemma first_decoder_connect : frame_decoder (connect options) = first_decoder options.
Proof using Type. unfold connect, connect_writes. by destruct (0 <? _). Qed.

Lemma stack_reads es s :
  options_ok options -> stack_run up options es s ->
  exists fs, tracked options (run up options) fs (front s).
Proof using arch_ok.
  intros Ho. induction 1 as [|es s e Hs [fs IH] He].
  - exists []. split; [constructor|]. exists [], (first_decoder options).
    split; [constructor|]. split; [apply prefix_nil|]. split; [done|]. intros _. split; [done|apply first_decoder_connect].
  - apply (tracked_stack up options (run up options) (fun _ => True)) with (es := es) (fs := fs); try done.
    + intros fs' w op H Hop _. by apply run_step.
    + by intros [].
    + by apply stack_runs.
    + by destruct e as [[]|].
Qed.

(** What the response says of the frames taken in: [fs0] before the opening of the
    stream, [seen] since. *)
Definition collected (fs0 : list Frame.t) (t : bytes_task) (fs : list Frame.t) (w : ConnState) : Prop :=
  exists seen, fs = fs0 ++ seen /\ download id up options seen w t /\ exchange id up options fs0 seen w.

Lemma collected_step fs0 t fs w op :
  collected fs0 t fs w -> op_ok op w -> owned id op -> collected fs0 t (fs ++ frames_of op w) (apply_op up op w).
Proof using Type.
  intros (seen & -> & H1 & H2) Hop Hown. exists (seen ++ frames_of op w). rewrite app_assoc.
  split; [done|]. split; [by apply download_op|by apply exchange_op].
Qed.

Lemma fetch_tracked es s t :
  options_ok options -> fetch es s t -> exists fs0 fs, tracked options (collected fs0 t) fs (front s).
Proof using arch_ok.
  intros Ho. induction 1 as [es s k init w' Hs He Hr Hp|es s t e Hf (fs0 & fs & IH) He Hown|es s out k t Hf (fs0 & fs & IH) Ht].
  - destruct (stack_reads es s Ho Hs) as [fs0 [Hc Hrd]]. exists fs0, fs0.
    destruct He as [Hev [Hpo _]]. split.
    + exists []. rewrite app_nil_r. split; [done|]. unfold connection in Hr. cbn [stack_step front web_step settle drv drive_step conn apply_op].
      rewrite Hr. split; [by eapply download_opened|by eapply exchange_opened].
    + apply (reads_same options fs0 (front s)); [done|done| |done].
      destruct (carries_ok up options (connection s) (uploads s)) as [Hok Hd]; [by destruct (stack_runs up options es s Ho Hs)|].
      by apply (decoder_op up (connection s) (OpRequest k init)).
  - exists fs0. apply (tracked_stack up options (collected fs0 t) (owned id)) with (es := es) (fs := fs); try done.
    + intros fs' w op H1 H2 H3. by apply collected_step.
    + by intros [].
    + apply stack_runs; [done|by eapply fetch_runs].
  - exists fs0, fs. destruct IH as [(seen & -> & H1 & H2) Hrd]. split.
    + exists seen. split; [done|]. cbn [stack_step front web_step settle drv drive_step conn apply_op].
      pose proof (exchange_op id up options fs0 seen _ (OpBodyPoll id k) H2 I) as He. rewrite app_nil_r in He.
      split; [|exact He]. unfold connection in Ht.
      destruct (bytes_turn id k (Collecting out) (conn (drv (front s)))) as [w r] eqn:E. cbn [snd] in Ht. subst r.
      assert (fst (body_poll_next id k (conn (drv (front s)))) = w) as ->; [|by eapply download_turn].
      cbn [bytes_turn] in E. rewrite st_bind_run in E.
      destruct (body_poll_next id k (conn (drv (front s)))) as [w1 [o|e| |]]; by injection E.
    + apply (reads_same options (fs0 ++ seen) (front s)); [done|done| |done].
      pose proof (fetch_runs es s _ Hf) as Hs.
      destruct (carries_ok up options (connection s) (uploads s)) as [Hok Hd]; [by destruct (stack_runs up options es s Ho Hs)|].
      by apply (decoder_op up (connection s) (OpBodyPoll id k)).
Qed.
End response.

(** ** Theorem *)

Section tunnelled.
Context {IoError : Type} (error_text : IoError -> bytes).
Variable config : BridgeConfig.

(** C14: A response reaches its caller.  The client with its pumps on the browser's
    WebSocket and the bridge over its wslay at the other end, in every interleaving, the
    browser dispatching the binary messages written to its socket, as far as they have
    come: there is a beginning of the bytes the origin has sent whose frames decide all
    that a caller sees.  The head [request] returns is the first that is not
    informational among the header lists of the stream; and what [Response::bytes] has
    collected is a beginning of the DATA of the stream, all of it up to a frame with
    END_STREAM once it returns it as the body. *)
Theorem response_reaches_caller {arch : Arch} {arch_ok : ArchOk arch} id up options ces st t es s0 s ms :
  50 <= usize_bits \/ overflow_checks = false -> 0 <= default 4096 (opt_header_table_size options) ->
  options_ok options -> fetch up options id ces st t ->
  Bridge.start error_text config = Ok s0 -> run_from error_text config es s0 = Ok s ->
  Forall WslaySend.sendable ms -> frames ms `prefix_of` out_of (written s) ->
  concat (arrived ces) `prefix_of` binary_of ms ->
  exists b d fs seen, b `prefix_of` peer_in s /\
    FrameDecoder.push b (first_decoder options) = (d, Ok (fs ++ seen)) /\
    match snd (request_response id (connection st)) with
    | Ok (Ready r) => exists fields rest, Heads.final (Heads.answers id options fs seen) = Some (fields, rest) /\
        r = mkResponse (collect_headers fields) id
    | Ok Pending => is_Some (streams (connection st) !! id) /\ Heads.final (Heads.answers id options fs seen) = None
    | Err _ => streams (connection st) !! id = None
    | _ => False
    end /\
    match t with
    | Collecting out => out `prefix_of` Download.data_of id seen
    | Collected (inr v) => whole id seen v
    | Collected (inl _) => True
    end.
Proof using Type.
  intros Hint Htab Ho Hf Hs Hr Hms Hpre Harr.
  destruct (fetch_tracked up options id ces st t Ho Hf) as (fs0 & fs & (seen & -> & Hd & He) & b & d & _ & Hb & Hp & _).
  pose proof (fetch_runs up options id ces st t Hf) as Hst.
  destruct (stack_runs up options ces st Ho Hst) as [K1 _ _ _ _].
  pose proof (delivered_given error_text config up options ces (front st) es s0 s ms K1 Hs Hr Hms Hpre Harr) as Hg.
  exists b, d, fs0, seen. split; [by transitivity (concat (delivered (front st)))|]. split; [done|]. split.
  - by destruct (exchange_answers up options Hint Htab id fs0 seen (connection st) He).
  - exact (download_delivers id up options seen (connection st) t Hint Htab Hd).
Qed.
End tunnelled.

(** ** A run *)

Definition asker : stack :=
  stack_step (arch := host64_debug) (fun b => b) (SWeb (WPollRead 0))
    (stack_step (arch := host64_debug) (fun b => b) (SWeb (WMessage (ArrayBuffer sample_response))) opened).

Definition turn (s : stack) : stack :=
  stack_step (arch := host64_debug) (fun b => b) (SWeb (WOp (OpBodyPoll 1 7))) s.

Definition asker_web : list web_event :=
  ((([] ++ [WOp (OpRequest 0 sample_request)]) ++ [WMessage (ArrayBuffer sample_response)]) ++ [WPollRead 0])
  ++ [WOp (OpBodyPoll 1 7)] ++ [WOp (OpBodyPoll 1 7)].

Lemma asker_fetch :
  fetch (arch := host64_debug) (fun b => b) default_options 1 asker_web (turn (turn asker)) (Collected (inr (str "hi"))).
Proof.
  unfold asker_web. rewrite app_assoc.
  apply (fetch_turn (arch := host64_debug) _ _ _ _ _ (str "hi") 7); [|vm_compute; reflexivity].
  apply (fetch_turn (arch := host64_debug) _ _ _ _ _ [] 7); [|vm_compute; reflexivity].
  apply (fetch_step (arch := host64_debug) _ _ _ _ _ _ (SWeb (WPollRead 0))); [|by split|exact I].
  apply (fetch_step (arch := host64_debug) _ _ _ _ _ _ (SWeb (WMessage (ArrayBuffer sample_response))));
    [|split; [exact sample_response_ok|exact I]|exact I].
  eapply (fetch_opened (arch := host64_debug) _ _ _ [] (stack_start (arch := host64_debug) default_options) 0 sample_request).
  - constructor.
  - split; [vm_compute; reflexivity|]. split; [|exact I]. split.
    + apply ascii_headers_ok. vm_compute. reflexivity.
    + repeat constructor; done.
  - vm_compute. reflexivity.
  - vm_compute. discriminate.
Qed.

Lemma response_reaches_caller_witness :
  exists s0 s b d fs seen, Bridge.start Run.text BridgeConfig_default = Ok s0 /\
    run_from Run.text BridgeConfig_default [PeerRead (inr sample_response); WsWrote (inr tt)] s0 = Ok s /\
    b `prefix_of` peer_in s /\
    FrameDecoder.push b (first_decoder default_options) = (d, Ok (fs ++ seen)) /\ whole 1 seen (str "hi").
Proof.
  assert (exists s0 s, Bridge.start Run.text BridgeConfig_default = Ok s0 /\
    run_from Run.text BridgeConfig_default [PeerRead (inr sample_response); WsWrote (inr tt)] s0 = Ok s /\
    frames [mkOmsg WSLAY_BINARY_FRAME 0 sample_response] = out_of (written s)) as (s0 & s & E0 & E1 & E2)
    by (eexists _, _; split; [reflexivity|]; split; vm_compute; reflexivity).
  destruct (response_reaches_caller (arch := host64_debug) Run.text BridgeConfig_default 1 (fun b => b) default_options
    asker_web (turn (turn asker)) (Collected (inr (str "hi"))) [PeerRead (inr sample_response); WsWrote (inr tt)] s0 s
    [mkOmsg WSLAY_BINARY_FRAME 0 sample_response]) as (b & d & fs & seen & H1 & H2 & _ & H3); try assumption.
  - left. vm_compute. discriminate.
  - vm_compute. discriminate.
  - exact I.
  - exact asker_fetch.
  - repeat constructor; vm_compute; discriminate.
  - by rewrite E2.
  - exists []. vm_compute. reflexivity.
  - by exists s0, s, b, d, fs, seen.
Defined.
