(* ===== verification/WebPool.v ===== *)
(** * WebPool: the connection pool over the browser's WebSockets

    Models [connect_pool] of [rust/crates/h2ts-client/src/web.rs]: the pool of Pool.v
    whose factory opens a WebSocket (Web.v) and runs a connection with its pumps on it
    (Stack.v).  The connections are kept in the order they were opened; what the browser
    dispatches, which tasks take a turn and what happens on each connection are events. *)

From S2P Require Import Prelude Errors Bytes Utf8 Frames Hpack HpackFacts Flow Stream Connection.
From S2P Require Import ConnectionFacts FlowSafety Lifecycle Sending Pool Posted Driver Web Stack.

(** ** Turns of the pool *)

Section turns.
Context {W C : Type} {PC : PoolConnection W C} (max : Z).

(** No connection comes from nowhere, and a routed task has one of the pool's. *)
Definition kept (st : H2Pool.t C) (r : H2Pool.t C * H2Pool.task C) : Prop :=
  (NoDup (H2Pool.conns st) -> NoDup (H2Pool.conns r.1)) /\
  (forall c, c ∈ H2Pool.conns r.1 -> c ∈ H2Pool.conns st) /\
  (forall c, r.2 = H2Pool.Routed c -> c ∈ H2Pool.conns st).

Lemma route_kept k w st : kept st (H2Pool.route max k w st).
Proof using Type.
  pose proof (H2Pool.route_moved max k w st) as Hm. unfold H2Pool.route in *.
  pose proof (H2Pool.choose_spec max w st) as H. destruct (H2Pool.choose max w st) as [st1 o].
  destruct H as (Hc & _ & _ & _).
  assert (H2Pool.conns (match o with Some c => (st1, H2Pool.Routed c) | None => H2Pool.open_one k st1 end).1 =
    H2Pool.conns st1) as E by (destruct o; [done|]; unfold H2Pool.open_one; by destruct (H2Pool.opening st1)).
  unfold kept. rewrite E, Hc. split_and!.
  - apply NoDup_filter.
  - by intros c [_ ?]%list_elem_of_filter.
  - intros c Ej. destruct o as [c0|]; [|unfold H2Pool.open_one in Ej; by destruct (H2Pool.opening st1)].
    destruct Hm as ((Hin & _) & _). injection Ej as ->. cbn in Hin. rewrite Hc in Hin.
    by apply list_elem_of_filter in Hin as [_ ?].
Qed.

Lemma after_open_kept k w st : kept st (H2Pool.after_open max k w st).
Proof using Type.
  unfold H2Pool.after_open. destruct (last (H2Pool.conns st)) as [c|] eqn:Hl; [|apply route_kept].
  destruct (negb _ && _); [|apply route_kept]. split; [done|]. split; [done|]. intros c' [= <-].
  by apply last_Some_elem_of.
Qed.
End turns.

Section web_pool.
Context {arch : Arch} (up : bytes -> bytes).
Context {JsValue : Type} (from_str : bytes -> JsValue) (debug : JsValue -> string).
Variable construct : bytes -> option (list bytes) -> option JsValue.
Variables (url : bytes) (protocols : list bytes) (options : ConnectOptions) (max_connections : Z).

Record web_pool := mkWebPool {
  sockets : list stack;
  factories : gmap nat (Opening.state JsValue);  (* the opens awaited, by their task *)
  requests : H2Pool.sys nat;
}.

Definition world (s : web_pool) (i : nat) : ConnState :=
  match sockets s !! i with Some st => connection st | None => new_state options end.

Definition connect_pool : web_pool := mkWebPool [] ∅ H2Pool.init.

(** A turn of a task or an answer of the factory; a task that has come to own an open
    calls the factory at once. *)
Definition pool_step (o : H2Pool.op nat) (s : web_pool) : web_pool :=
  mkWebPool (sockets s) (factories s) (H2Pool.step max_connections (world s) o (requests s)).

Definition connect_error (e : JsValue) : H2Error.t := H2Error.new ErrorCode.ConnectError (debug e).

Definition launch (k : nat) (s : web_pool) : web_pool :=
  match H2Pool.jobs (requests s) !! k with
  | Some H2Pool.Opening =>
      match Opening.open construct url protocols with
      | Opening.Returned (inl e) => pool_step (H2Pool.Opened k (inl (connect_error e))) s
      | st => mkWebPool (sockets s) (<[k := st]> (factories s)) (requests s)
      end
  | _ => s
  end.

(** The factory of task [k] has returned: a connection is started on the socket. *)
Definition land (k : nat) (r : JsValue + unit) (s : web_pool) : web_pool :=
  let s := mkWebPool (sockets s) (delete k (factories s)) (requests s) in
  match r with
  | inl e => pool_step (H2Pool.Opened k (inl (connect_error e))) s
  | inr _ =>
      let i := length (sockets s) in
      launch k (pool_step (H2Pool.Opened k (inr i))
        (mkWebPool (sockets s ++ [stack_start options]) (factories s) (requests s)))
  end.

Definition on_socket (i : nat) (e : stack_event) (s : web_pool) : web_pool :=
  match sockets s !! i with
  | Some st => mkWebPool (<[i := stack_step up e st]> (sockets s)) (factories s) (requests s)
  | None => s
  end.

Inductive pool_event :=
  | PTurn (k : nat)  (* a new request takes its first turn, or a woken one its next *)
  | PDrop (k : nat)  (* the future of a request is dropped *)
  | PClose  (* [close] *)
  | PBrowser (k : nat) (e : Opening.event)  (* on the socket that task [k] opens *)
  | PSocket (i : nat) (e : stack_event).  (* on the [i]-th connection *)

Definition close_all (cs : list nat) (s : web_pool) : web_pool :=
  fold_left (fun s i => on_socket i (SWeb (WOp OpClose)) s) cs s.

Definition web_pool_step (e : pool_event) (s : web_pool) : web_pool :=
  match e with
  | PTurn k =>
      match H2Pool.jobs (requests s) !! k with
      | None => launch k (pool_step (H2Pool.Start k) s)
      | Some H2Pool.Waiting => launch k (pool_step (H2Pool.Wake k) s)
      | _ => s
      end
  | PDrop k =>
      let s := pool_step (H2Pool.Drop k) s in
      mkWebPool (sockets s) (delete k (factories s)) (requests s)
  | PClose => close_all (snd (H2Pool.close (H2Pool.pool (requests s)))) (pool_step H2Pool.Close s)
  | PBrowser k e =>
      match factories s !! k with
      | Some st =>
          match Opening.step from_str st e with
          | Opening.Returned r => land k r s
          | st => mkWebPool (sockets s) (<[k := st]> (factories s)) (requests s)
          end
      | None => s
      end
  | PSocket i e => on_socket i e s
  end.

(** What happens on a connection is legal there, and [close] has no conditions. *)
Definition pool_event_ok (e : pool_event) (s : web_pool) : Prop :=
  match e with
  | PSocket i e => match sockets s !! i with Some st => stack_event_ok up e st | None => True end
  | _ => True
  end.

(** Runs, with or without requests being dropped. *)
Inductive web_pool_run (drops : bool) : web_pool -> Prop :=
  | web_pool_init : web_pool_run drops connect_pool
  | web_pool_next s e :
      web_pool_run drops s -> pool_event_ok e s -> (if drops then True else forall k, e <> PDrop k) ->
      web_pool_run drops (web_pool_step e s).

(** ** The invariant *)

(** Each connection is a run of its own; the tasks and the pool name connections that
    were opened, each once. *)
Record web_pool_ok (drops : bool) (s : web_pool) : Prop := {
  wp_runs i st : sockets s !! i = Some st -> exists es, stack_run up options es st;
  wp_pool : H2Pool.run max_connections drops (requests s);
  wp_conns : NoDup (H2Pool.conns (H2Pool.pool (requests s)));
  wp_known i : i ∈ H2Pool.conns (H2Pool.pool (requests s)) -> (i < length (sockets s))%nat;
  wp_routed k i : H2Pool.jobs (requests s) !! k = Some (H2Pool.Routed i) -> (i < length (sockets s))%nat;
}.

(** A factory is awaited for the task that owns the open. *)
Definition awaited (s : web_pool) (k : nat) : Prop :=
  is_Some (factories s !! k) <-> H2Pool.jobs (requests s) !! k = Some H2Pool.Opening.

Lemma connect_pool_ok drops : web_pool_ok drops connect_pool /\ forall k, awaited connect_pool k.
Proof using Type.
  split; [split; cbn; try done|].
  - constructor.
  - constructor.
  - intros i Hi. by apply elem_of_nil in Hi.
  - intros k. unfold awaited. cbn. rewrite !lookup_empty. split; [by intros []|done].
Qed.

Lemma on_socket_ok drops i e s :
  web_pool_ok drops s -> match sockets s !! i with Some st => stack_event_ok up e st | None => True end ->
  web_pool_ok drops (on_socket i e s).
Proof using Type.
  intros [H1 H2 H3 H4 H5] He. unfold on_socket. destruct (sockets s !! i) as [st|] eqn:Ei; [|by split].
  split; cbn; try done; [|by rewrite length_insert|by rewrite length_insert].
  intros j st' Hj. destruct (decide (i = j)) as [<-|Hne].
  - rewrite list_lookup_insert_eq in Hj by by eapply lookup_lt_Some. injection Hj as <-.
    destruct (H1 i st Ei) as [es Hes]. eexists. by constructor.
  - rewrite list_lookup_insert_ne in Hj by done. by eapply H1.
Qed.

Lemma on_socket_awaited i e s k : awaited (on_socket i e s) k <-> awaited s k.
Proof using Type. unfold on_socket. by destruct (sockets s !! i). Qed.

Lemma close_all_ok drops cs s :
  web_pool_ok drops s -> (forall k, awaited s k) ->
  web_pool_ok drops (close_all cs s) /\ forall k, awaited (close_all cs s) k.
Proof using Type.
  revert s. induction cs as [|i cs IH]; intros s Hs Ha; [done|]. apply IH.
  - apply on_socket_ok; [done|]. case_match; [|done]. by repeat split.
  - intros k. by apply on_socket_awaited.
Qed.

(** ** What an operation on the pool does *)

(** The connection it brings. *)
Definition fresh (o : H2Pool.op nat) : list nat := match o with H2Pool.Opened _ (inr c) => [c] | _ => [] end.

(** The pool and the tasks name connections below [n]. *)
Definition named (n : nat) (r : H2Pool.sys nat) : Prop :=
  NoDup (H2Pool.conns (H2Pool.pool r)) /\
  (forall i, i ∈ H2Pool.conns (H2Pool.pool r) -> (i < n)%nat) /\
  (forall k i, H2Pool.jobs r !! k = Some (H2Pool.Routed i) -> (i < n)%nat).

Lemma turn_named n st0 jobs k r wk :
  named n (H2Pool.mkSys st0 jobs []) -> kept st0 r -> named n (H2Pool.mkSys r.1 (<[k := r.2]> jobs) wk).
Proof using Type.
  intros (N1 & N2 & N3) (K1 & K2 & K3). split; [by apply K1|]. split; [intros i Hi; by apply N2, K2|].
  intros k' i. cbn. destruct (decide (k = k')) as [<-|Hne].
  - rewrite lookup_insert_eq. intros [= E]. by apply N2, K3.
  - rewrite lookup_insert_ne by done. apply N3.
Qed.

Lemma step_named n w o r :
  named n r -> (forall i, i ∈ fresh o -> (i < n)%nat /\ i ∉ H2Pool.conns (H2Pool.pool r)) ->
  named n (H2Pool.step max_connections w o r).
Proof using Type.
  intros Hr Hf. destruct r as [st jobs wk]. destruct Hr as (N1 & N2 & N3). cbn in N1, N2, N3.
  assert (named n (H2Pool.mkSys st jobs [])) as Hr by done.
  destruct o as [k|k r|k| |k]; cbn [H2Pool.step H2Pool.jobs H2Pool.pool H2Pool.woken].
  - destruct (jobs !! k); [done|]. pose proof (route_kept max_connections k w st) as Hk.
    destruct (H2Pool.route _ _ _ _) as [st' j]. exact (turn_named n st jobs k (st', j) wk Hr Hk).
  - destruct (jobs !! k) as [[]|]; try done. destruct r as [e|c]; cbn [H2Pool.open_done].
    + apply (turn_named n st jobs k (H2Pool.mk (H2Pool.conns st) false [], H2Pool.Failed e) _ Hr). by split_and!.
    + destruct (Hf c) as [Hc Hni]; [by left|].
      assert (named n (H2Pool.mkSys (H2Pool.mk (H2Pool.conns st ++ [c]) false []) jobs [])) as Hr'.
      { split; [|split; [|exact N3]]; cbn.
        - apply NoDup_app. split; [done|]. split; [by intros i Hi ->%list_elem_of_singleton|apply NoDup_singleton].
        - intros i [Hi| ->%list_elem_of_singleton]%elem_of_app; [by apply N2|done]. }
      pose proof (after_open_kept max_connections k w (H2Pool.mk (H2Pool.conns st ++ [c]) false [])) as Hk.
      destruct (H2Pool.after_open _ _ _ _) as [st' j]. exact (turn_named n _ jobs k (st', j) _ Hr' Hk).
  - destruct (jobs !! k) as [[]|]; try done. case_bool_decide; [|done].
    pose proof (after_open_kept max_connections k w st) as Hk.
    destruct (H2Pool.after_open _ _ _ _) as [st' j]. exact (turn_named n st jobs k (st', j) _ Hr Hk).
  - split; [constructor|]. split; [by intros i ?%elem_of_nil|done].
  - split; [done|]. split; [done|]. cbn. intros k' i [_ H]%lookup_delete_Some. by apply N3 in H.
Qed.

Lemma pool_step_ok drops o s :
  web_pool_ok drops s -> (if drops then True else forall k, o <> H2Pool.Drop k) ->
  (forall i, i ∈ fresh o -> (i < length (sockets s))%nat /\ i ∉ H2Pool.conns (H2Pool.pool (requests s))) ->
  web_pool_ok drops (pool_step o s).
Proof using Type.
  intros [H1 H2 H3 H4 H5] Hd Hf.
  destruct (step_named (length (sockets s)) (world s) o (requests s)) as (G1 & G2 & G3); [done|done|].
  split; cbn; try done. by constructor.
Qed.

(** The tasks other than the one that takes its turn stay where they are. *)
Lemma step_others w k o r i :
  o = H2Pool.Start k \/ o = H2Pool.Wake k \/ (exists x, o = H2Pool.Opened k x) \/ o = H2Pool.Drop k ->
  i <> k -> H2Pool.jobs (H2Pool.step max_connections w o r) !! i = H2Pool.jobs r !! i.
Proof using Type.
  intros Ho Hne. destruct Ho as [->|[->|[[x ->]| ->]]]; cbn [H2Pool.step].
  - destruct (H2Pool.jobs r !! k); [done|]. destruct (H2Pool.route _ _ _ _). by apply lookup_insert_ne.
  - destruct (H2Pool.jobs r !! k) as [[]|]; try done. case_bool_decide; [|done].
    destruct (H2Pool.after_open _ _ _ _). by apply lookup_insert_ne.
  - destruct (H2Pool.jobs r !! k) as [[]|]; try done. destruct (H2Pool.open_done _ _ _ _ _) as [[st j] ks].
    by apply lookup_insert_ne.
  - by apply lookup_delete_ne.
Qed.

(** Launching settles what task [k] awaits. *)
Lemma launch_ok drops k s :
  web_pool_ok drops s -> (forall i, i <> k -> awaited s i) -> factories s !! k = None ->
  web_pool_ok drops (launch k s) /\ forall i, awaited (launch k s) i.
Proof using Type.
  intros Hs Ha Hk. unfold launch. destruct (H2Pool.jobs (requests s) !! k) as [[]|] eqn:Ej.
  2-5: split; [done|]; intros i; (destruct (decide (i = k)) as [->|]; [|by apply Ha]);
    unfold awaited; rewrite Hk, Ej; split; [by intros []|done].
  assert (forall st, web_pool_ok drops (mkWebPool (sockets s) (<[k := st]> (factories s)) (requests s)) /\
    forall i, awaited (mkWebPool (sockets s) (<[k := st]> (factories s)) (requests s)) i) as Hw.
  { intros st. split; [by destruct Hs|]. intros i. unfold awaited. cbn. destruct (decide (i = k)) as [->|Hne].
    - rewrite lookup_insert_eq. split; [done|by eexists].
    - rewrite lookup_insert_ne by done. by apply Ha. }
  destruct (Opening.open construct url protocols) as [tx rx|[e|[]]]; [apply Hw| |apply Hw].
  split.
  - apply pool_step_ok; [done|by destruct drops|by intros i ?%elem_of_nil].
  - intros i. unfold awaited. cbn [pool_step factories requests]. destruct (decide (i = k)) as [->|Hne].
    + rewrite Hk. cbn [H2Pool.step]. rewrite Ej. cbn. rewrite lookup_insert_eq. split; [by intros []|done].
    + rewrite (step_others _ k) by eauto. by apply Ha.
Qed.

Lemma land_ok drops k r s :
  web_pool_ok drops s -> (forall i, awaited s i) -> is_Some (factories s !! k) ->
  web_pool_ok drops (land k r s) /\ forall i, awaited (land k r s) i.
Proof using Type.
  intros Hs Ha Hk. assert (H2Pool.jobs (requests s) !! k = Some H2Pool.Opening) as Ej by by apply Ha.
  set (s1 := mkWebPool (sockets s) (delete k (factories s)) (requests s)).
  assert (forall i, i <> k -> awaited s1 i) as Ha1.
  { intros i Hne. unfold awaited. cbn. rewrite lookup_delete_ne by done. apply Ha. }
  unfold land. fold s1. destruct r as [e|[]].
  - split.
    + apply pool_step_ok; [by destruct Hs|by destruct drops|by intros i ?%elem_of_nil].
    + intros i. destruct (decide (i = k)) as [->|Hne]; unfold awaited; cbn [pool_step factories requests].
      * cbn [s1 factories requests]. rewrite lookup_delete_eq. cbn [H2Pool.step]. rewrite Ej. cbn.
        rewrite lookup_insert_eq. split; [by intros []|done].
      * rewrite (step_others _ k) by eauto. by apply Ha1.
  - cbv zeta. apply launch_ok.
    + destruct Hs as [H1 H2 H3 H4 H5].
      apply pool_step_ok; [|by destruct drops|].
      * split; cbn; try done; rewrite ?length_app; cbn.
        -- intros i st [Hi|[Hi Est]]%lookup_app_Some; [by eapply H1|].
           apply list_lookup_singleton_Some in Est as [_ <-]. eexists. constructor.
        -- intros i Hi. specialize (H4 i Hi). lia.
        -- intros k' i Hi. specialize (H5 k' i Hi). lia.
      * intros i ->%list_elem_of_singleton. cbn. rewrite length_app. cbn. split; [lia|].
        intros Hin. specialize (H4 _ Hin). lia.
    + intros i Hne. unfold awaited. cbn [pool_step factories requests].
      rewrite (step_others _ k) by eauto. by apply Ha1.
    + cbn. apply lookup_delete_eq.
Qed.

Lemma web_pool_step_ok drops e s :
  web_pool_ok drops s -> (forall i, awaited s i) -> pool_event_ok e s ->
  (if drops then True else forall k, e <> PDrop k) ->
  web_pool_ok drops (web_pool_step e s) /\ forall i, awaited (web_pool_step e s) i.
Proof using Type.
  intros Hs Ha He Hd. destruct e as [k|k| |k e|i e]; cbn [web_pool_step].
  - assert (forall o, o = H2Pool.Start k \/ o = H2Pool.Wake k -> H2Pool.jobs (requests s) !! k <> Some H2Pool.Opening ->
      web_pool_ok drops (launch k (pool_step o s)) /\ forall i, awaited (launch k (pool_step o s)) i) as Ht.
    { intros o Ho Hj. apply launch_ok.
      - apply pool_step_ok; [done| |]; [by destruct drops, Ho as [->| ->]|by destruct Ho as [->| ->]; intros i ?%elem_of_nil].
      - intros i Hne. unfold awaited. cbn [pool_step factories requests].
        rewrite (step_others _ k) by (done || tauto). apply Ha.
      - cbn. destruct (factories s !! k) eqn:E; [|done]. destruct Hj. apply Ha. by eexists. }
    destruct (H2Pool.jobs (requests s) !! k) as [[]|] eqn:Ej; try done; apply Ht; auto; by rewrite Ej.
  - assert (web_pool_ok drops (pool_step (H2Pool.Drop k) s)) as Hp.
    { apply pool_step_ok; [done| |by intros i ?%elem_of_nil]. destruct drops; [done|]. intros k' [= <-]. by apply (Hd k). }
    split; [by destruct Hp|]. intros i. unfold awaited. cbn. destruct (decide (i = k)) as [->|Hne].
    + rewrite !lookup_delete_eq. split; [by intros []|done].
    + rewrite !lookup_delete_ne by done. apply Ha.
  - apply close_all_ok; [|done]. apply pool_step_ok; [done|by destruct drops|by intros i ?%elem_of_nil].
  - destruct (factories s !! k) as [st|] eqn:Ef; [|done].
    assert (H2Pool.jobs (requests s) !! k = Some H2Pool.Opening) as Ej by (apply Ha; by eexists).
    destruct (Opening.step from_str st e) as [tx rx|r]; [|apply land_ok; eauto].
    split; [by destruct Hs|]. intros i. unfold awaited. cbn. destruct (decide (i = k)) as [->|Hne].
    + rewrite lookup_insert_eq. split; [done|by eexists].
    + rewrite lookup_insert_ne by done. apply Ha.
  - split; [by apply on_socket_ok|]. intros k. apply on_socket_awaited, Ha.
Qed.

Lemma web_pool_runs drops s :
  web_pool_run drops s -> web_pool_ok drops s /\ forall k, awaited s k.
Proof using Type.
  induction 1 as [|s e _ [IH1 IH2] He Hd]; [apply connect_pool_ok|]. by apply web_pool_step_ok.
Qed.
End web_pool.

(** ** Theorem *)

(** C40: The pool over the browser's WebSockets, whatever the browser dispatches, however
    the requests, the connections and their pumps interleave: each connection it has
    opened is a run of the client of its own, so that all that is shown of one holds of
    each; the pool keeps distinct connections that were opened, never more than its cap,
    and routes requests to such connections only; one socket at most is being opened at a
    time, and if no request is dropped nobody waits without one.  And yet the sockets
    are not bounded by the cap: no socket of any connection, closed or not, is ever
    closed by the client. *)
Theorem pool_on_sockets {arch : Arch} {arch_ok : ArchOk arch} {JsValue} up (from_str : bytes -> JsValue) debug
    construct url protocols options max drops s :
  options_ok options ->
  web_pool_run up from_str debug construct url protocols options max drops s ->
  let st := H2Pool.pool (requests s) in
  (forall i c, sockets s !! i = Some c ->
     (exists es, stack_run up options es c) /\ CClose ∉ Web.calls (front c)) /\
  NoDup (H2Pool.conns st) /\ (forall i, i ∈ H2Pool.conns st -> (i < length (sockets s))%nat) /\
  zlen (H2Pool.conns st) <= Z.max 1 max /\
  (forall k i, H2Pool.jobs (requests s) !! k = Some (H2Pool.Routed i) -> (i < length (sockets s))%nat) /\
  (forall k1 k2, is_Some (factories s !! k1) -> is_Some (factories s !! k2) -> k1 = k2) /\
  (drops = false -> forall k, H2Pool.jobs (requests s) !! k = Some H2Pool.Waiting ->
     k ∈ H2Pool.woken (requests s) \/ exists k', is_Some (factories s !! k')).
Proof.
  intros Ho Hrun st. destruct (web_pool_runs up from_str debug construct url protocols options max drops s Hrun) as
    [[H1 H2 H3 H4 H5] Ha].
  destruct (H2Pool.pool_run_ok max drops _ H2) as [[(P1 & P2 & P3) S2 S3 S4] Hown].
  split; [|split_and!; try done].
  - intros i c Hc. destruct (H1 i c Hc) as [es Hes]. split; [by exists es|].
    destruct (stack_runs up options es c Ho Hes) as [[_ _ E _ _ _ _ _] _ _ _ _]. rewrite E.
    by intros (? & ? & _)%list_elem_of_fmap.
  - intros k1 k2 K1 K2. apply S3; by apply Ha.
  - intros Hd k Hk. destruct (S4 k Hk) as [Hw|]; [|by left]. right.
    destruct (Hown Hd) as [k' Hk']; [|exists k'; by apply Ha].
    apply P3. intros E. rewrite E in Hw. by apply elem_of_nil in Hw.
Qed.

(** A cap of one, and two requests with the pool closed between them. *)
Definition reopened : list pool_event :=
  [PTurn 0; PBrowser 0 Opening.EvOpen; PBrowser 0 Opening.Resume; PClose;
   PTurn 1; PBrowser 1 Opening.EvOpen; PBrowser 1 Opening.Resume].

Definition run_pool (es : list pool_event) : web_pool :=
  fold_left (fun s e => web_pool_step (arch := host64_debug) (fun b => b) (fun _ => tt) (fun _ => EmptyString)
    (fun _ _ => None) [] [] default_options 1 e s) es connect_pool.

Lemma pool_on_sockets_witness :
  length (sockets (run_pool reopened)) = 2%nat /\ zlen (H2Pool.conns (H2Pool.pool (requests (run_pool reopened)))) <= 1 /\
  forall i c, sockets (run_pool reopened) !! i = Some c -> CClose ∉ Web.calls (front c).
Proof.
  split; [vm_compute; reflexivity|].
  assert (web_pool_run (arch := host64_debug) (fun b => b) (fun _ => tt) (fun _ => EmptyString) (fun _ _ => None) [] []
    default_options 1 false (run_pool reopened)) as Hr.
  { unfold run_pool, reopened. cbn [fold_left].
    repeat (apply (web_pool_next (arch := host64_debug)); [|exact I|discriminate]). constructor. }
  destruct (pool_on_sockets (arch := host64_debug) (fun b => b) (fun _ => tt) (fun _ => EmptyString) (fun _ _ => None) [] []
    default_options 1 false (run_pool reopened) I Hr) as (H1 & _ & _ & H2 & _).
  split; [exact H2|]. intros i c Hc. by destruct (H1 i c Hc).
Defined.
