(* ===== verification/Service.v ===== *)
(** * Service: HTTP/2 served in the process, behind the tunnel

    Models the composition in [rust/crates/h2ts-server/src/lib.rs]: [WsByteStream] is one
    end of tokio's in-memory pipe, the spawned bridge (Bridge.v) has the other, and
    [serve_h2_with_config] serves a connection on it until that ends, by itself or
    because it was idle (Idle.v); it starts as Serve.v sets it up.  The pipe is an interface, with the behaviour that
    [tokio::io::duplex] documents; hyper's connection is what reads and writes. *)

From S2P Require Import Prelude Errors Bytes Utf8 Frames FramesFacts Hpack Flow Stream Connection.
From S2P Require Import ConnectionFacts FlowSafety Lifecycle Sending Totality Wire Posted System Driver Web Stack.
From S2P Require Import Idle Serve Bridge BridgeFacts WslayC WslayFacts WslayStream WslaySend Tunnel.
From S2P Require Import TunnelEnds EndToEnd.

(** ** The pipe *)

(** One direction of it: a write takes some of what it is given, a read gives what is
    there, or nothing yet, or the end (nothing, ready). *)
Class Pipe (D : Type) := {
  pipe_new : Z -> D;
  pipe_write : bytes -> D -> D * nat;
  pipe_read : nat -> D -> D * option bytes;
  pipe_close : D -> D;  (* the writing end shuts down or is dropped *)
}.

(** [put]: all that was written; [got]: all that was read, a beginning of it; the end is
    read only once the writer is gone and everything is read. *)
Class PipeLaws D {P : Pipe D} := {
  put : D -> bytes;
  got : D -> bytes;
  shut : D -> bool;
  pipe_new_law n : put (pipe_new n) = [] /\ got (pipe_new n) = [] /\ shut (pipe_new n) = false;
  pipe_write_law b d : let '(d', n) := pipe_write b d in
    put d' = put d ++ take n b /\ got d' = got d /\ shut d' = shut d /\ (n <= length b)%nat;
  pipe_read_law n d : let '(d', r) := pipe_read n d in
    put d' = put d /\ shut d' = shut d /\
    match r with
    | None => got d' = got d /\ shut d = false
    | Some b => got d' = got d ++ b /\ (length b <= n)%nat /\ got d' `prefix_of` put d /\
        (b = [] -> (0 < n)%nat -> shut d = true /\ got d = put d)
    end;
  pipe_close_law d : put (pipe_close d) = put d /\ got (pipe_close d) = got d /\ shut (pipe_close d) = true;
}.

(** A buffer of bounded size, with what has gone through it. *)
Record fifo := mkFifo {
  fifo_cap : Z;
  fifo_gone : bytes;
  fifo_buf : bytes;
  fifo_shut : bool;
}.

#[export] Instance fifo_pipe : Pipe fifo := {
  pipe_new n := mkFifo n [] [] false;
  pipe_write b d :=
    let n := Z.to_nat (Z.min (zlen b) (fifo_cap d - zlen (fifo_buf d))) in
    (mkFifo (fifo_cap d) (fifo_gone d) (fifo_buf d ++ take n b) (fifo_shut d), n);
  pipe_read n d :=
    let b := take n (fifo_buf d) in
    if bool_decide (b = []) && negb (fifo_shut d) then (d, None)
    else (mkFifo (fifo_cap d) (fifo_gone d ++ b) (drop n (fifo_buf d)) (fifo_shut d), Some b);
  pipe_close d := mkFifo (fifo_cap d) (fifo_gone d) (fifo_buf d) true;
}.

#[export] Instance fifo_laws : PipeLaws fifo.
Proof.
  refine {| put := fun d => fifo_gone d ++ fifo_buf d; got := fifo_gone; shut := fifo_shut |}.
  - done.
  - intros b d. cbn. rewrite app_assoc. split_and!; try done. unfold zlen. lia.
  - intros n d. cbn. destruct (bool_decide _ && _) eqn:E; cbn.
    { apply andb_true_iff in E as [_ E]. by apply negb_true_iff in E. }
    split; [by rewrite <- app_assoc, take_drop|]. split; [done|]. split; [done|]. split; [by rewrite length_take; lia|].
    split; [by apply prefix_app, prefix_take|]. intros Hb Hn.
    rewrite bool_decide_true in E by done. apply negb_false_iff in E. split; [done|].
    destruct (fifo_buf d); [by rewrite app_nil_r|]. by destruct n; [lia|].
  - done.
Defined.

(** ** The bridge, seen from its peer *)

Section peer.
Context {Ctx : Type} `{WS : Wslay Ctx} {IoError : Type} (error_text : IoError -> bytes).
Variable config : BridgeConfig.
Notation state := (@Bridge.t Ctx IoError).

(** What only reads from the peer and the ends of writes to it change. *)
Definition same_peer (s s' : state) : Prop :=
  peer_in s' = peer_in s /\ peer_out s' = peer_out s /\ peer_failed s' = peer_failed s /\
  forall a b c d, d1 s = D1PeerWrite a b c d -> d1 s' = d1 s.

Lemma after_write_peer d r (s : state) : same_peer s (after_write error_text config d r s).
Proof.
  unfold same_peer, after_write. destruct d; repeat (case_match; cbn; try done).
Qed.

Lemma write_ws_peer d block (s : state) : same_peer s (write_ws error_text config d block s).
Proof. unfold write_ws. destruct block; [apply after_write_peer|done]. Qed.

Lemma same_peer_trans s1 s2 s3 : same_peer s1 s2 -> same_peer s2 s3 -> same_peer s1 s3.
Proof.
  intros (E0 & E1 & E2 & E3) (F0 & F1 & F2 & F3). split; [congruence|]. split; [congruence|]. split; [congruence|].
  intros a b c d H. rewrite <- (E3 a b c d H). apply (F3 a b c d). by rewrite (E3 a b c d H).
Qed.

Lemma flush_as_peer d q (s s' : state) block : flush_as d q s = Ok (s', block) -> same_peer s s'.
Proof.
  unfold flush_as. intros H. destruct (flush q (wslay s)) as [[c b]| | |]; try done. by injection H as <- _.
Qed.

Lemma on_event_peer es (s : state) o : same_peer s (fold_left (on_event config) es (s, o)).1.
Proof.
  revert s o. induction es as [|e es IH]; intros s o; [done|]. cbn [fold_left].
  destruct (on_event config (s, o) e) as [s1 o1] eqn:E. eapply same_peer_trans; [|apply IH].
  unfold on_event in E. destruct e; repeat case_match; by injection E as <- _.
Qed.

Lemma flush_write_peer d q d' k (s s' : state) :
  ('(s, block) ← flush_as d q s; Ok (write_ws error_text config d' block (k s))) = Ok s' ->
  (forall s, same_peer s (k s)) -> same_peer s s'.
Proof.
  intros E Hk. destruct (flush_as d q s) as [[s1 block]| | |] eqn:Ef; try done. injection E as <-.
  eapply same_peer_trans; [by eapply flush_as_peer|]. eapply same_peer_trans; [apply Hk|apply write_ws_peer].
Qed.

Lemma ws_read_peer r (s s' : state) :
  ws_read error_text config r s = Ok s' ->
  peer_in s' = peer_in s /\ peer_out s' = peer_out s /\ peer_failed s' = peer_failed s.
Proof.
  destruct r as [e|[|b data]]; cbn [ws_read]; [by intros [= <-]|by intros [= <-]|].
  destruct (feed _ _) as [[[[[c to_peer] outbound] closed] events]| | |]; try done.
  cbn [mbind outcome_bind]. destruct to_peer; intros [= <-]; [|done].
  unfold after_peer_write. set (s1 := set_history _ _ _ _ _).
  pose proof (on_event_peer events s1 None) as (H0 & H1 & H2 & _).
  destruct (fold_left _ events _) as [s2 cf]. cbn in H0, H1, H2.
  destruct (write_ws_peer WsToPeer outbound (set_d1 (D1WsWrite closed cf) s2)) as (H3 & H4 & H5 & _).
  cbn in H3, H4, H5. by rewrite H3, H4, H5, H0, H1, H2.
Qed.

Lemma ka_check_peer ka (s s' : state) : ka_check error_text config ka s = Ok s' -> same_peer s s'.
Proof.
  unfold ka_check. case_match; [by intros [= <-]|]. intros E. by eapply (flush_write_peer _ _ _ (set_d4 D4PingWrite)).
Qed.

Lemma step_peer e (s s' : state) :
  Bridge.step error_text config e s = Ok s' -> match e with PeerWrote _ | PeerRead _ => False | _ => True end ->
  same_peer s s'.
Proof.
  intros E He. unfold Bridge.step in E. destruct (ended s); [by injection E as <-|].
  assert (forall s0 : state, Ok (E:=unit) s0 = Ok s' -> same_peer s s0 -> same_peer s s') as Hok by by intros s0 [= <-].
  destruct e as [d|r|r| |r|cmd| | |r]; try done.
  - by apply (Hok _ E).
  - destruct (d1 s) eqn:Hd; try by apply (Hok _ E). destruct (read_fits r); [|by apply (Hok _ E)].
    destruct (ws_read_peer r s s' E) as (H1 & H2 & H3). split_and!; [done|done|done|]. intros a b c d. by rewrite Hd.
  - destruct (d1 s) eqn:Hd; by apply (Hok _ E).
  - destruct (d3 s); try by apply (Hok _ E). unfold command in E.
    by eapply (flush_write_peer _ _ _ (set_d3 D3WsWrite)).
  - destruct (d3 s); by apply (Hok _ E).
  - destruct (keepalive config) as [ka|]; [|by apply (Hok _ E)]. unfold ka_timer in E.
    destruct (d4 s); try by apply (Hok _ E).
    + destruct (until <=? now s); [by eapply ka_check_peer|by apply (Hok _ E)].
    + destruct (until <=? now s); [|by apply (Hok _ E)]. destruct (last_activity s <=? pinged_at); [|by eapply ka_check_peer].
      by eapply (flush_write_peer _ _ _ (set_d4 D4CloseWrite)).
  - destruct (lock s) as [|[d block] rest]; [by apply (Hok _ E)|]. apply (Hok _ E).
    eapply same_peer_trans; [|apply after_write_peer]. done.
Qed.

Lemma read_peer b (s s' : state) :
  Bridge.step error_text config (PeerRead (inr b)) s = Ok s' -> ended s = None -> d2 s = D2Read ->
  zlen b <= READ_CHUNK ->
  peer_in s' = peer_in s ++ b /\ peer_out s' = peer_out s /\ peer_failed s' = peer_failed s /\
  forall a b c d, d1 s = D1PeerWrite a b c d -> d1 s' = d1 s.
Proof.
  intros E He Hd Hl. unfold Bridge.step in E. rewrite He, Hd in E. cbn [read_fits] in E.
  destruct (Z.leb_spec (zlen b) READ_CHUNK) as [_|]; [|lia]. unfold peer_read in E.
  destruct b as [|x b].
  - rewrite app_nil_r. by eapply (flush_write_peer _ _ _ (set_d2 (D2CloseWrite (close config)))).
  - by eapply (flush_write_peer _ _ _ (set_d2 D2WsWrite)) in E.
Qed.

Lemma wrote_peer block outbound closed events r (s s' : state) :
  Bridge.step error_text config (PeerWrote r) s = Ok s' -> ended s = None ->
  d1 s = D1PeerWrite block outbound closed events ->
  peer_in s' = peer_in s /\
  match r with
  | inr _ => peer_out s' = peer_out s ++ block /\ peer_failed s' = peer_failed s /\ held s' = []
  | inl _ => True
  end.
Proof.
  intros E He Hd. unfold Bridge.step in E. rewrite He, Hd in E. unfold peer_wrote in E. destruct r as [e|[]].
  - destruct (flush_as _ _ s) as [[s1 b1]| | |] eqn:Ef; try done. injection E as <-.
    apply flush_as_peer in Ef as [H1 _]. split; [|done]. rewrite <- H1.
    by destruct (write_ws_peer WsToPeer b1 (set_d1 D1ErrWrite (set_history (ws_in s1) (peer_in s1) (taken s1) true s1))) as [H2 _].
  - injection E as <-. unfold after_peer_write. set (s1 := set_peer_out _ s).
    pose proof (on_event_peer events s1 None) as (H0 & H1 & H2 & _).
    destruct (fold_left _ events _) as [s2 cf]. cbn in H0, H1, H2.
    set (s3 := set_d1 (D1WsWrite closed cf) s2).
    destruct (write_ws_peer WsToPeer outbound s3) as (H3 & H4 & H5 & _). cbn in H3, H4, H5.
    rewrite H3, H4, H5, H0, H1, H2. split_and!; try done.
    unfold held, write_ws. destruct outbound; [|done]. unfold after_write. cbn. by destruct closed.
Qed.
End peer.

(** ** The service *)

Section service.
Context {arch : Arch} {D : Type} {P : Pipe D} {IoError : Type} (error_text : IoError -> bytes).
(** The error of a write to a pipe whose other end is gone. *)
Variable broken : IoError.
Variable config : ServeConfig.
Notation bridge := (@Bridge.t wslay_event_context IoError).

Record service := mkService {
  tunnel : bridge;
  to_app : D;
  from_app : D;
  posted : nat;  (* of the block direction 1 writes to its peer, what is in the pipe *)
  serving : Idle.sys;
}.

(** The connection has resolved, and with it [WsByteStream] is dropped. *)
Definition app_gone (i : Idle.sys) : bool := match server i with Done => true | _ => false end.

Inductive service_event :=
  | SBridge (e : @Bridge.event IoError)  (* the socket, the timers, the control channel *)
  | SPush  (* the bridge writes to its end *)
  | SPull  (* the bridge reads from it *)
  | SRead (n : nat)  (* the connection reads *)
  | SWrite (b : bytes)  (* the connection writes *)
  | SServe (e : Idle.event).

(** [tokio::io::duplex]: each end reads one direction and writes the other. *)
Definition duplex (n : Z) : (D * D) * (D * D) :=
  let '(a, b) := (pipe_new n, pipe_new n) in ((a, b), (b, a)).

(** [serve_h2_with_config]: [WsByteStream::with_config] makes the pipe and spawns the
    bridge on its second end; the connection is served on the first. *)
Definition service_start : outcome unit service :=
  let '(io, (_, bridge_config), idle) := serve_h2_with_config duplex config in
  b ← Bridge.start error_text bridge_config;
  Ok (mkService b (fst (ws_inner io)) (snd (ws_inner io)) 0 idle).

(** A bridge that has ended drops its end. *)
Definition bridge_turn (e : @Bridge.event IoError) (s : service) : outcome unit service :=
  b ← Bridge.step error_text (serve_bridge config) e (tunnel s);
  Ok (mkService b (match ended b with Some _ => pipe_close (to_app s) | None => to_app s end) (from_app s)
        (posted s) (serving s)).

Definition with_posted (p : D) (n : nat) (s : service) : service :=
  mkService (tunnel s) p (from_app s) n (serving s).

Definition service_step (e : service_event) (s : service) : outcome unit service :=
  match e with
  | SBridge (PeerRead _) | SBridge (PeerWrote _) | SBridge PeerShut => Ok s
  | SBridge e => bridge_turn e s
  | SPush =>
      match ended (tunnel s), d1 (tunnel s) with
      | None, D1PeerWrite block _ _ _ =>
          if app_gone (serving s) then bridge_turn (PeerWrote (inl broken)) (with_posted (to_app s) 0 s)
          else
            let '(p, n) := pipe_write (drop (posted s) block) (to_app s) in
            if (posted s + n <? length block)%nat then Ok (with_posted p (posted s + n) s)
            else bridge_turn (PeerWrote (inr tt)) (with_posted p 0 s)
      | None, D1Shutdown _ => bridge_turn PeerShut (with_posted (pipe_close (to_app s)) (posted s) s)
      | _, _ => Ok s
      end
  | SPull =>
      match ended (tunnel s), d2 (tunnel s) with
      | None, D2Read =>
          let '(p, r) := pipe_read (Z.to_nat READ_CHUNK) (from_app s) in
          let s := mkService (tunnel s) (to_app s) p (posted s) (serving s) in
          match r with Some b => bridge_turn (PeerRead (inr b)) s | None => Ok s end
      | _, _ => Ok s
      end
  | SRead n =>
      if app_gone (serving s) then Ok s else Ok (with_posted (fst (pipe_read n (to_app s))) (posted s) s)
  | SWrite b =>
      if app_gone (serving s) || bool_decide (is_Some (ended (tunnel s))) then Ok s
      else Ok (mkService (tunnel s) (to_app s) (fst (pipe_write b (from_app s))) (posted s) (serving s))
  | SServe e =>
      i ← Idle.step (serve_idle_timeout config) e (serving s);
      Ok (mkService (tunnel s) (to_app s) (if app_gone i then pipe_close (from_app s) else from_app s)
            (posted s) i)
  end.

Fixpoint service_run (es : list service_event) (s : service) : outcome unit service :=
  match es with [] => Ok s | e :: es => s ← service_step e s; service_run es s end.

(** ** The invariant *)

Context {PL : PipeLaws D}.

Lemma done_stays e (i i' : Idle.sys) :
  Idle.step (serve_idle_timeout config) e i = Ok i' -> app_gone i' = false -> app_gone i = false.
Proof using Type.
  intros E H. unfold app_gone in *. destruct (server i) eqn:Hs; try done. exfalso.
  assert (server i' = Done) as Hd; [|by rewrite Hd in H].
  destruct e as [d|k|k|k|p|]; cbn [Idle.step] in E.
  - by injection E as <-.
  - destruct (streams i !! k); [by injection E as <-|]. destruct (enter (count i)); try done. by injection E as <-.
  - destruct (streams i !! k) as [[]|]; by injection E as <-.
  - destruct (streams i !! k); by injection E as <-.
  - rewrite Hs in E. by injection E as <-.
  - by injection E as <-.
Qed.

Record service_ok (b0 : bridge) (s : service) : Prop := {
  so_run : exists bes, Bridge.run_from error_text (serve_bridge config) bes b0 = Ok (tunnel s);
  so_pulled : got (from_app s) = peer_in (tunnel s);
  so_written : got (from_app s) `prefix_of` put (from_app s);
  so_read : got (to_app s) `prefix_of` put (to_app s);
  so_push : app_gone (serving s) = false ->
    peer_failed (tunnel s) = false /\
    put (to_app s) = peer_out (tunnel s) ++ take (posted s) (held (tunnel s)) /\
    (posted s <= length (held (tunnel s)))%nat;
  so_gone : app_gone (serving s) = true -> shut (from_app s) = true;
}.

Lemma run_one e b0 (b b' : bridge) :
  (exists bes, Bridge.run_from error_text (serve_bridge config) bes b0 = Ok b) ->
  Bridge.step error_text (serve_bridge config) e b = Ok b' ->
  exists bes, Bridge.run_from error_text (serve_bridge config) bes b0 = Ok b'.
Proof using Type.
  intros [bes Hr] E. exists (bes ++ [e]). rewrite bridge_run_app, Hr. cbn. by rewrite E.
Qed.

(** A turn of the bridge that neither reads from its peer nor ends a write to it. *)
Lemma bridge_turn_ok e b0 s s' :
  match e with PeerWrote _ | PeerRead _ => False | _ => True end ->
  service_ok b0 s -> bridge_turn e s = Ok s' -> service_ok b0 s'.
Proof using Type.
  intros He [H1 H2 H3 H4 H5 H6] E. unfold bridge_turn in E.
  destruct (Bridge.step _ _ e (tunnel s)) as [b| | |] eqn:Eb; try done. injection E as <-.
  destruct (step_peer error_text _ e _ _ Eb He) as (P0 & P1 & P2 & P3).
  split; cbn [tunnel from_app to_app posted serving].
  - by eapply run_one.
  - congruence.
  - done.
  - destruct (ended b); [|done]. destruct (pipe_close_law (to_app s)) as (-> & -> & _). done.
  - intros Hg. destruct (H5 Hg) as (F1 & F2 & F3). split; [congruence|].
    assert (put (match ended b with Some _ => pipe_close (to_app s) | None => to_app s end) = put (to_app s)) as ->.
    { destruct (ended b); [|done]. by destruct (pipe_close_law (to_app s)). }
    rewrite F2, P1. unfold held in *. destruct (d1 (tunnel s)) eqn:Hd; cbn [length] in F3.
    2: { rewrite (P3 _ _ _ _ eq_refl). done. }
    all: assert (posted s = 0%nat) as -> by lia; by rewrite take_0; split; [|lia].
  - exact H6.
Qed.

(** The bridge writes to its end of the pipe. *)
Lemma push_ok b0 s s' : service_ok b0 s -> service_step SPush s = Ok s' -> service_ok b0 s'.
Proof using Type.
  intros Hok E. cbn [service_step] in E. destruct (ended (tunnel s)) eqn:He; [by injection E as <-|].
  destruct (d1 (tunnel s)) as [|block outbound closed events| | |r] eqn:Hd; try by injection E as <-.
  2: { eapply (bridge_turn_ok PeerShut b0 (with_posted (pipe_close (to_app s)) (posted s) s)); [done| |exact E].
       destruct Hok as [H1 H2 H3 H4 H5 H6]. destruct (pipe_close_law (to_app s)) as (E1 & E2 & _).
       split; cbn [tunnel from_app to_app posted serving with_posted]; rewrite ?E1, ?E2; done. }
  destruct Hok as [H1 H2 H3 H4 H5 H6]. destruct (app_gone (serving s)) eqn:Hg.
  - unfold bridge_turn in E. cbn [with_posted tunnel] in E.
    destruct (Bridge.step _ _ _ (tunnel s)) as [b| | |] eqn:Eb; try done. injection E as <-.
    destruct (wrote_peer _ _ _ _ _ _ _ _ _ Eb He Hd) as [P0 _].
    split; cbn [tunnel from_app to_app posted serving with_posted]; [by eapply run_one|congruence|done| |congruence|auto].
    destruct (ended b); [|done]. destruct (pipe_close_law (to_app s)) as (-> & -> & _). done.
  - destruct (H5 eq_refl) as (F1 & F2 & F3). unfold held in F2, F3. rewrite Hd in F2, F3.
    pose proof (pipe_write_law (drop (posted s) block) (to_app s)) as Hw.
    destruct (pipe_write (drop (posted s) block) (to_app s)) as [p n]. destruct Hw as (W1 & W2 & W3 & W4).
    rewrite length_drop in W4.
    assert (put p = peer_out (tunnel s) ++ take (posted s + n) block) as Hput.
    { by rewrite W1, F2, <- app_assoc, take_take_drop. }
    assert (got p `prefix_of` put p) as Hgp.
    { rewrite W1, W2. by apply prefix_app_r. }
    destruct (posted s + n <? length block)%nat eqn:Hlt.
    + injection E as <-. split; cbn [tunnel from_app to_app posted serving with_posted]; try done; [|congruence].
      intros _. split; [done|]. unfold held. rewrite Hd. split; [done|]. lia.
    + unfold bridge_turn in E. cbn [with_posted tunnel] in E.
      destruct (Bridge.step _ _ _ (tunnel s)) as [b| | |] eqn:Eb; try done. injection E as <-.
      destruct (wrote_peer _ _ _ _ _ _ _ _ _ Eb He Hd) as (P0 & P1 & P2 & P3).
      assert (forall q, q = (match ended b with Some _ => pipe_close p | None => p end) -> put q = put p /\ got q = got p) as Hq.
      { intros q ->. destruct (ended b); [|done]. by destruct (pipe_close_law p) as (-> & -> & _). }
      destruct (Hq _ eq_refl) as [Q1 Q2].
      split; cbn [tunnel from_app to_app posted serving with_posted]; rewrite ?Q1, ?Q2; try done; [by eapply run_one|congruence| |congruence].
      intros _. rewrite P2, P1, P3, Hput, firstn_all2 by lia. split; [done|]. by rewrite app_nil_r.
Qed.

(** It reads from it. *)
Lemma pull_ok b0 s s' : service_ok b0 s -> service_step SPull s = Ok s' -> service_ok b0 s'.
Proof using Type.
  intros [H1 H2 H3 H4 H5 H6] E. cbn [service_step] in E. destruct (ended (tunnel s)) eqn:He; [by injection E as <-|].
  destruct (d2 (tunnel s)) eqn:Hd; try by injection E as <-.
  pose proof (pipe_read_law (Z.to_nat READ_CHUNK) (from_app s)) as Hr.
  destruct (pipe_read (Z.to_nat READ_CHUNK) (from_app s)) as [p [b|]]; destruct Hr as (R1 & R2 & R3).
  - destruct R3 as (R3 & R4 & R5 & _). unfold bridge_turn in E. cbn [tunnel] in E.
    destruct (Bridge.step _ _ _ (tunnel s)) as [b'| | |] eqn:Eb; try done. injection E as <-.
    destruct (read_peer _ _ _ _ _ Eb He Hd) as (P0 & P1 & P2 & P3).
    { unfold zlen. assert (0 <= READ_CHUNK) by (unfold READ_CHUNK; lia). lia. }
    split; cbn [tunnel from_app to_app posted serving]; [by eapply run_one| |by rewrite R1| | |by rewrite R2].
    + by rewrite R3, P0, H2.
    + destruct (ended b'); [|done]. destruct (pipe_close_law (to_app s)) as (-> & -> & _). done.
    + intros Hg. destruct (H5 Hg) as (F1 & F2 & F3). split; [congruence|].
      assert (put (match ended b' with Some _ => pipe_close (to_app s) | None => to_app s end) = put (to_app s)) as ->.
      { destruct (ended b'); [|done]. by destruct (pipe_close_law (to_app s)). }
      rewrite F2, P1. unfold held in *. destruct (d1 (tunnel s)) eqn:Hd1; cbn [length] in F3.
      2: { rewrite (P3 _ _ _ _ eq_refl). done. }
      all: assert (posted s = 0%nat) as -> by lia; by rewrite take_0; split; [|lia].
  - injection E as <-. destruct R3 as [R3 _]. split; cbn [tunnel from_app to_app posted serving]; rewrite ?R1, ?R2, ?R3; done.
Qed.

Lemma service_step_ok b0 e s s' : service_ok b0 s -> service_step e s = Ok s' -> service_ok b0 s'.
Proof using Type.
  intros Hok E. destruct e as [e| | |n|b|e]; [| by eapply push_ok|by eapply pull_ok|..].
  - destruct e; cbn [service_step] in E; try by injection E as <-.
    all: by eapply bridge_turn_ok in E.
  - cbn [service_step] in E. destruct (app_gone (serving s)) eqn:Hg; injection E as <-; [done|].
    destruct Hok as [H1 H2 H3 H4 H5 H6]. pose proof (pipe_read_law n (to_app s)) as Hr.
    destruct (pipe_read n (to_app s)) as [p r]. destruct Hr as (R1 & R2 & R3).
    split; cbn [tunnel from_app to_app posted serving with_posted fst]; try done; [|by rewrite R1].
    rewrite R1. destruct r as [b|]; [by destruct R3 as (_ & _ & R5 & _)|]. by destruct R3 as [-> _].
  - cbn [service_step] in E. destruct (_ || _); injection E as <-; [done|].
    destruct Hok as [H1 H2 H3 H4 H5 H6]. pose proof (pipe_write_law b (from_app s)) as Hw.
    destruct (pipe_write b (from_app s)) as [p n]. destruct Hw as (W1 & W2 & W3 & W4).
    split; cbn [tunnel from_app to_app posted serving fst]; try done; rewrite ?W1, ?W2, ?W3; try done. by apply prefix_app_r.
  - cbn [service_step] in E. destruct (Idle.step _ e (serving s)) as [i| | |] eqn:Ei; try done. injection E as <-.
    destruct Hok as [H1 H2 H3 H4 H5 H6].
    assert (got (if app_gone i then pipe_close (from_app s) else from_app s) = got (from_app s) /\
      put (if app_gone i then pipe_close (from_app s) else from_app s) = put (from_app s)) as [Q1 Q2].
    { destruct (app_gone i); [|done]. by destruct (pipe_close_law (from_app s)) as (-> & -> & _). }
    split; cbn [tunnel from_app to_app posted serving]; rewrite ?Q1, ?Q2; try done.
    + intros Hg. apply H5. by eapply done_stays.
    + intros ->. apply (pipe_close_law (from_app s)).
Qed.

Lemma start_peer (b0 : bridge) :
  Bridge.start error_text (serve_bridge config) = Ok b0 -> peer_in b0 = [] /\ peer_out b0 = [] /\ peer_failed b0 = false.
Proof using Type.
  unfold Bridge.start. destruct server_init as [c|]; [|done]. set (s := Bridge.mk _ _ _ _ _ _ _ _ _ _ _ _ _ _ _ _).
  destruct (keepalive _) as [ka|]; [|by intros [= <-]].
  intros E. by apply ka_check_peer in E as (-> & -> & -> & _).
Qed.

Lemma service_runs es s0 s :
  service_start = Ok s0 -> service_run es s0 = Ok s ->
  exists b0, Bridge.start error_text (serve_bridge config) = Ok b0 /\ service_ok b0 s.
Proof using Type.
  unfold service_start. cbn [serve_h2_with_config with_config duplex ws_inner fst snd].
  destruct (Bridge.start error_text (serve_bridge config)) as [b0| | |] eqn:Es; try done.
  intros [= <-] Hr. exists b0. split; [done|]. destruct (start_peer b0 Es) as (S1 & S2 & S3).
  assert (service_ok b0 (mkService b0 (pipe_new DUPLEX_BUF) (pipe_new DUPLEX_BUF) 0 (Idle.init (serve_idle_timeout config)))) as H0.
  { destruct (pipe_new_law DUPLEX_BUF) as (N1 & N2 & N3).
    split; cbn [tunnel from_app to_app posted serving]; rewrite ?N1, ?N2, ?S1, ?S2, ?S3; try done.
    - by exists [].
    - intros _. split; [done|]. rewrite take_0. split; [done|]. lia.
    - unfold app_gone, Idle.init. cbn. by destruct (serve_idle_timeout config). }
  revert Hr H0. generalize (mkService b0 (pipe_new DUPLEX_BUF) (pipe_new DUPLEX_BUF) 0 (Idle.init (serve_idle_timeout config))).
  induction es as [|e es IH]; intros s1; cbn [service_run]; [by intros [= <-]|].
  destruct (service_step e s1) as [s2| | |] eqn:E; try done. intros Hr H1. apply (IH s2 Hr). by eapply service_step_ok.
Qed.

Lemma service_run_app es1 es2 s : service_run (es1 ++ es2) s = s ← service_run es1 s; service_run es2 s.
Proof using Type.
  revert s. induction es1 as [|e es1 IH]; intros s; cbn [app service_run]; [done|].
  destruct (service_step e s); cbn [mbind outcome_bind]; auto.
Qed.

(** The writes of the bridge, as events of the service. *)
Lemma bridge_writes l s b' :
  Bridge.run_from error_text (serve_bridge config) (WsWrote <$> l) (tunnel s) = Ok b' ->
  exists s', service_run (SBridge ∘ WsWrote <$> l) s = Ok s' /\ tunnel s' = b'.
Proof using Type.
  revert s. induction l as [|r l IH]; intros s; cbn [fmap list_fmap Bridge.run_from service_run]; [intros [= <-]; by exists s|].
  cbn [compose service_step]. unfold bridge_turn. destruct (Bridge.step _ _ _ (tunnel s)) as [b| | |]; try done.
  cbn [mbind outcome_bind]. intros H. by apply IH.
Qed.

(** Once the connection has resolved, the bridge reads the end of the pipe after the
    last byte of it. *)
Lemma pull_end b0 s :
  service_ok b0 s -> app_gone (serving s) = true -> got (from_app s) = put (from_app s) ->
  ended (tunnel s) = None -> d2 (tunnel s) = D2Read ->
  exists p, service_step SPull s = bridge_turn (PeerRead (inr [])) (mkService (tunnel s) (to_app s) p (posted s) (serving s)).
Proof using Type.
  intros [_ _ _ _ _ H6] Hg Hall He Hd. cbn [service_step]. rewrite He, Hd.
  pose proof (pipe_read_law (Z.to_nat READ_CHUNK) (from_app s)) as Hr.
  destruct (pipe_read (Z.to_nat READ_CHUNK) (from_app s)) as [p [b|]]; destruct Hr as (_ & _ & Hr).
  - destruct Hr as (R1 & _ & R2 & _). assert (b = []) as ->; [|by exists p].
    destruct R2 as [x R2]. rewrite R1, <- Hall, <- app_assoc in R2. rewrite <- (app_nil_r (got (from_app s))) in R2 at 1.
    apply app_inv_head in R2. by destruct b.
  - destruct Hr as [_ Hr]. rewrite (H6 Hg) in Hr. done.
Qed.

(** Then it sends the Close of the configuration after what is queued, and ends. *)
Lemma gone_closes b0 s :
  service_ok b0 s ->
  let cf := close (serve_bridge config) in
  app_gone (serving s) = true -> got (from_app s) = put (from_app s) ->
  ended (tunnel s) = None -> d2 (tunnel s) = D2Read -> d1 (tunnel s) <> D1ErrWrite -> d4 (tunnel s) <> D4CloseWrite ->
  write_enabled (eout (ctx (wslay (tunnel s)))) = true -> zlen (reason cf) <= 123 ->
  Bridge.start error_text (serve_bridge config) = Ok b0 ->
  exists s', service_run (SPull :: replicate (S (length (lock (tunnel s)))) (SBridge (WsWrote (inr tt)))) s = Ok s' /\
    ended (tunnel s') = Some (inr (LocalClose cf)) /\
    written (tunnel s') = written (tunnel s) ++ lock (tunnel s) ++
      [(PeerToWs, server_frame (mkOmsg WSLAY_CONNECTION_CLOSE 0 (close_payload (code cf) (reason cf))))].
Proof using Type.
  intros Hok cf Hg Hall He Hd H1 H4 Hw Hlen Hb0. destruct (so_run _ _ Hok) as [bes Hbes].
  destruct (pull_end b0 s Hok Hg Hall He Hd) as [p Ep].
  destruct (peer_ends error_text (serve_bridge config) bes b0 (tunnel s) (inr []) (inr tt) Hb0 Hbes He Hd H1 H4 I Hlen)
    as (b' & Hend & _ & H). rewrite Hw in H. destruct H as [E Hwr].
  cbn [Bridge.run_from] in E. destruct (Bridge.step _ _ (PeerRead (inr [])) (tunnel s)) as [b1| | |] eqn:E1; try done.
  cbn [mbind outcome_bind] in E.
  assert (replicate (length (lock (tunnel s))) (WsWrote (inr ())) ++ [WsWrote (inr ())] =
    WsWrote <$> replicate (S (length (lock (tunnel s)))) (inr (A:=IoError) ())) as Erep
    by by rewrite fmap_replicate, replicate_S_end.
  rewrite Erep in E. set (s0 := mkService (tunnel s) (to_app s) p (posted s) (serving s)) in Ep.
  assert (exists s1, bridge_turn (PeerRead (inr [])) s0 = Ok s1 /\ tunnel s1 = b1) as (s1 & Es1 & Et).
  { unfold bridge_turn, s0. cbn [tunnel]. rewrite E1. by eexists. }
  rewrite <- Et in E. destruct (bridge_writes _ s1 b' E) as (s' & Es' & Et').
  exists s'. rewrite Et'. split; [|done]. cbn [service_run]. rewrite Ep, Es1. cbn [mbind outcome_bind].
  rewrite <- Es'. f_equal. by rewrite fmap_replicate.
Qed.
End service.

(** ** Theorem *)

(** C20: HTTP/2 served in the process.  [serve_h2_with_config] makes tokio's pipe, with the
    connection of the service on one end and the bridge on the other; the client with its
    pumps is on the browser's WebSocket.  In all interleavings, and however the pipe cuts
    what goes through it: what the connection has read begins with the preface, and the
    frames in the rest are a beginning of those the client queued; and what the client has
    been given is a beginning of what the connection wrote.  And from any state reached in
    which the connection has resolved, having ended or been reaped as idle, all it wrote has
    gone out, and the bridge waits to read its peer with nothing going wrong: if nothing
    else comes in first, the bridge reads the end of the pipe, what is queued and then a
    Close with the configured code and reason are written, and the bridge ends.  Data that
    does come in first ends it with the error close instead ([late_data_closes_1011]). *)
Theorem service_in_process {arch : Arch} {arch_ok : ArchOk arch} {D} {P : Pipe D} {PL : PipeLaws D} {IoError}
    (error_text : IoError -> bytes) broken config up options ces st fs es s0 s fut :
  options_ok options -> stack_run up options ces st ->
  valid false fs = true -> data_of fs = concat (messages_of (Web.calls (front st))) ->
  service_start error_text config = Ok s0 -> service_run error_text broken config es s0 = Ok s ->
  ws_in (tunnel s) ++ fut = WslayStream.wire fs ->
  (app_gone (serving s) = false ->
     take 24 (got (to_app s)) `prefix_of` CONNECTION_PREFACE /\
     exists d l, FrameDecoder.push (drop 24 (got (to_app s))) (FrameDecoder.new MAX_PAYLOAD) = (d, Ok l) /\
       l `prefix_of` (masked <$> frames_out (connection st))) /\
  (forall ms, Forall WslaySend.sendable ms -> frames ms `prefix_of` out_of (written (tunnel s)) ->
     concat (arrived ces) `prefix_of` binary_of ms ->
     concat (delivered (front st)) `prefix_of` put (from_app s)) /\
  (let cf := close (serve_bridge config) in
   app_gone (serving s) = true -> got (from_app s) = put (from_app s) ->
   ended (tunnel s) = None -> d2 (tunnel s) = D2Read -> d1 (tunnel s) <> D1ErrWrite -> d4 (tunnel s) <> D4CloseWrite ->
   write_enabled (eout (ctx (wslay (tunnel s)))) = true -> zlen (reason cf) <= 123 ->
   exists s', service_run error_text broken config
       (SPull :: replicate (S (length (lock (tunnel s)))) (SBridge (WsWrote (inr tt)))) s = Ok s' /\
     ended (tunnel s') = Some (inr (LocalClose cf)) /\
     written (tunnel s') = written (tunnel s) ++ lock (tunnel s) ++
       [(PeerToWs, server_frame (mkOmsg WSLAY_CONNECTION_CLOSE 0 (close_payload (code cf) (reason cf))))]).
Proof.
  intros Ho Hst Hv Hdata Hs Hr Hfut. destruct (stack_runs up options ces st Ho Hst) as [K1 K2 K3 _ _].
  destruct (service_runs error_text broken config es s0 s Hs Hr) as (b0 & Hb0 & Hok).
  destruct (so_run _ _ _ _ Hok) as [bes Hbes]. split; [|split].
  - intros Hg. destruct (so_push _ _ _ _ Hok Hg) as (_ & F2 & _).
    destruct (origin_given error_text (serve_bridge config) fs bes b0 (tunnel s) fut _ Hv Hdata Hb0 Hbes Hfut) as [Hg1 _].
    destruct (client_sent up options ces _ K1) as [Hpre _].
    assert (got (to_app s) `prefix_of` concat (out_bytes <$> Connection.sent (connection st))) as Hgot.
    { etransitivity; [exact (so_read _ _ _ _ Hok)|]. rewrite F2. etransitivity; [|exact Hpre]. etransitivity; [|exact Hg1].
      apply prefix_app, prefix_take. }
    destruct (posted_read (connection st) (got (to_app s)) K3 Hgot) as (H1 & d & l & H2 & H3 & _).
    split; [done|]. by exists d, l.
  - intros ms Hms Hpre Harr. etransitivity; [|exact (so_written _ _ _ _ Hok)]. rewrite (so_pulled _ _ _ _ Hok).
    by apply (delivered_given error_text (serve_bridge config) up options ces (front st) bes b0 (tunnel s) ms).
  - intros cf Hg Hall He Hd H1 H4 Hw Hlen.
    exact (gone_closes error_text broken config b0 s Hok Hg Hall He Hd H1 H4 Hw Hlen Hb0).
Qed.

(** ** A run *)

(** A request comes whole, is read, answered, and the connection resolves. *)
Definition in_process : list (@service_event unit) :=
  [SBridge (WsRead (inr (WslayStream.wire asked_frames))); SPush; SRead 4096;
   SWrite [0; 0; 1; 1; 4; 0; 0; 0; 1; 0x88]; SPull; SBridge (WsWrote (inr tt)); SServe Idle.ConnDone].

(** The client sends more after the connection has resolved, before the bridge reads the
    end of the pipe: the write to the pipe fails, and the Close is that of an error. *)
Theorem late_data_closes_1011 :
  let late := [SBridge (WsRead (inr (WslayStream.wire [wsFrame true 2 [1; 2; 3; 4] [65]]))); SPush;
               SBridge (WsWrote (inr tt))] in
  (s0 ← service_start (D := fifo) Run.text ServeConfig_default;
   s ← service_run (arch := host64_debug) (D := fifo) Run.text tt ServeConfig_default (in_process ++ late) s0;
   Ok (ended (tunnel s), last (written (tunnel s)))) =
  Ok (Some (inr (LocalClose (closeFrame 1011 []))), Some (WsToPeer, [0x88; 2; 3; 243])).
Proof. vm_compute. reflexivity. Qed.

Lemma service_in_process_witness :
  exists s0 s s' d l,
    service_start (D := fifo) Run.text ServeConfig_default = Ok s0 /\
    service_run (arch := host64_debug) (D := fifo) Run.text tt ServeConfig_default (take 6 in_process) s0 = Ok s /\
    FrameDecoder.push (drop 24 (got (to_app s))) (FrameDecoder.new MAX_PAYLOAD) = (d, Ok l) /\
    l `prefix_of` (masked <$> frames_out (connection asked)) /\
    service_run (arch := host64_debug) (D := fifo) Run.text tt ServeConfig_default
      (in_process ++ [SPull; SBridge (WsWrote (inr tt))]) s0 = Ok s' /\
    ended (tunnel s') = Some (inr (LocalClose CloseFrame_default)).
Proof.
  assert (exists s0 s s2, service_start (D := fifo) Run.text ServeConfig_default = Ok s0 /\
    service_run (arch := host64_debug) (D := fifo) Run.text tt ServeConfig_default (take 6 in_process) s0 = Ok s /\
    service_run (arch := host64_debug) (D := fifo) Run.text tt ServeConfig_default in_process s0 = Ok s2 /\
    ws_in (tunnel s) ++ [] = WslayStream.wire asked_frames /\ ws_in (tunnel s2) ++ [] = WslayStream.wire asked_frames /\
    app_gone (serving s) = false /\
    (app_gone (serving s2), got (from_app s2), ended (tunnel s2), d2 (tunnel s2), d1 (tunnel s2), lock (tunnel s2)) =
      (true, put (from_app s2), None, D2Read, D1Read, []) /\
    d4 (tunnel s2) <> D4CloseWrite /\ write_enabled (eout (ctx (wslay (tunnel s2)))) = true)
    as (s0 & s & s2 & E0 & E1 & E2 & F1 & F2 & G1 & G2 & G3 & G4).
  { eexists _, _, _. split; [reflexivity|]. repeat (split; [vm_compute; reflexivity|]).
    split; [vm_compute; discriminate|vm_compute; reflexivity]. }
  destruct (stack_run_fold (arch := host64_debug) id default_options _ asking opened opened_run) as [ces Hst];
    [repeat constructor|]. change (fold_left _ asking opened) with asked in Hst.
  destruct (service_in_process (arch := host64_debug) (D := fifo) Run.text tt ServeConfig_default id default_options ces asked
    asked_frames (take 6 in_process) s0 s []) as (HA & _ & _); try assumption;
    [exact I|vm_compute; reflexivity|vm_compute; reflexivity|].
  destruct (service_in_process (arch := host64_debug) (D := fifo) Run.text tt ServeConfig_default id default_options ces asked
    asked_frames in_process s0 s2 []) as (_ & _ & HC); try assumption;
    [exact I|vm_compute; reflexivity|vm_compute; reflexivity|].
  injection G2 as Ga Gb Gc Gd Ge Gf. destruct (HA G1) as (_ & d & l & E3 & E4).
  destruct HC as (s' & E5 & E6 & _); try assumption; [by rewrite Ge|vm_compute; discriminate|].
  rewrite Gf in E5. exists s0, s, s', d, l. do 4 (split; [assumption|]). split; [|exact E6].
  rewrite service_run_app, E2. exact E5.
Defined.
