(* ===== verification/H2Server.v ===== *)
(** * H2Server: the example server

    Models [rust/crates/h2ts-server/examples/h2-server.rs]: the request that opens the
    tunnel, and the service answered over it.  [http::HeaderValue] is the interface of
    Handshake; reading the body of a request, which may fail, is an argument; the
    accept loop is that of the proxy (Gateway). *)

From S2P Require Import Prelude Text Handshake Bridge Idle Serve.

Definition to_string (n : Z) : bytes := str (pretty n).

(** A text between double quotes. *)
Definition quoted (s : bytes) : bytes := [34] ++ s ++ [34].

Record service_request (Error : Type) := mkRequest {
  rq_method : bytes;
  rq_path : bytes;
  rq_header : bytes -> option bytes;  (* [headers().get] *)
  rq_body : Error + bytes;  (* [into_body().collect().await] *)
}.
Arguments mkRequest {Error} _ _ _ _.
Arguments rq_method {Error} _.
Arguments rq_path {Error} _.
Arguments rq_header {Error} _ _.
Arguments rq_body {Error} _.

Record service_response := mkServed {
  sv_status : Z;
  sv_headers : list (bytes * bytes);
  sv_body : bytes;
}.

Definition BIG : Z := 256 * 1024.

(** With the path known, the conditions on it are decided. *)
Ltac settle_path E :=
  rewrite E;
  repeat match goal with
  | |- context [bool_decide ?P] =>
      let b := eval vm_compute in (bool_decide P) in
      replace (bool_decide P) with b by (vm_compute; reflexivity)
  end; cbv iota.

Section server.
Context `{HT : Http} `{DG : Digests}.
Context {Error : Type} (error_text : Error -> bytes) (http_error : Error).

(** [Response::builder]: the first value that is no header value makes [body] fail. *)
Definition builder_header (h : bytes * bytes) : option (bytes * bytes) := (fun v => (h.1, v)) <$> from_str h.2.

Definition build (status : Z) (content_type : bytes) (extra : list (bytes * bytes)) (body : bytes)
    : Error + service_response :=
  match mapM builder_header ((str "content-type", content_type) :: extra) with
  | Some hs => inr (mkServed status hs body)
  | None => inl http_error
  end.

Definition text (body : bytes) : Error + service_response :=
  build 200 (str "text/plain; charset=utf-8") [] body.

Definition json (method path : bytes) : bytes :=
  str "{" ++ quoted (str "ok") ++ str ":true," ++ quoted (str "method") ++ str ":" ++ quoted method ++
  str "," ++ quoted (str "path") ++ str ":" ++ quoted path ++ str "," ++ quoted (str "ts") ++
  str ":1234567890}".

Definition NEWLINE : Z := 10.

Definition route (req : service_request Error) : Error + service_response :=
  let path := rq_path req in
  if bool_decide (path = str "/hello") then
    text (str "hello from in-process Rust h2 server over websocket!" ++ [NEWLINE])
  else if bool_decide (path = str "/json") then
    build 200 (str "application/json") [] (json (rq_method req) path)
  else if bool_decide (path = str "/big") then
    build 200 (str "application/octet-stream") [(str "x-size", to_string BIG)]
      (replicate (Z.to_nat BIG) 120)
  else if bool_decide (path = str "/echo") then
    match rq_body req with
    | inl err => inl err
    | inr body =>
        build 200 (str "application/octet-stream") [(str "x-echo-bytes", to_string (zlen body))] body
    end
  else if bool_decide (path = str "/headers") then
    let seen := default [] (rq_header req (str "x-custom") ≫= to_str) in
    build 200 (str "text/plain") [(str "x-saw-custom", seen)] (str "ok")
  else inr (mkServed 404 [] (str "not found" ++ [NEWLINE])).

Definition app (req : service_request Error) : service_response :=
  match route req with
  | inr r => r
  | inl err => mkServed 500 [] (str "error: " ++ error_text err ++ [NEWLINE])
  end.

(** The response, and the task of an accepted request: once upgraded it serves [app]. *)
Definition on_request {D Upgraded} (duplex : Z -> D * D) (request : Request)
    : outcome unit (Response * option (Error + Upgraded ->
        option (WsByteStream D * (D * BridgeConfig) * Idle.sys))) :=
  match accept (HyperError:=Error) (Upgraded:=Upgraded) request with
  | Ok (resp, ws_fut) =>
      Ok (resp, Some (fun on_upgrade =>
        match ws_fut on_upgrade with inl _ => None | inr _ => Some (serve_h2 duplex) end))
  | Err err => Ok (rejection_response err, None)
  | Panic => Panic
  | OutOfFuel => OutOfFuel
  end.

(** ** What it answers *)

Lemma build_visible `{!HttpLaws HT} st ct extra body :
  Forall (fun h => visible h.2) ((str "content-type", ct) :: extra) ->
  build st ct extra body = inr (mkServed st ((str "content-type", ct) :: extra) body).
Proof.
  intros H. unfold build. assert (mapM builder_header ((str "content-type", ct) :: extra) = Some ((str "content-type", ct) :: extra)) as ->.
  { apply mapM_Some_2. induction H as [|[n v] l Hv _ IH]; constructor; [|exact IH].
    unfold builder_header. by rewrite (from_str_visible v Hv). }
  done.
Qed.

Lemma visible_check s : forallb is_visible_ascii s = true -> visible s.
Proof. rewrite forallb_forall. apply List.Forall_forall. Qed.

Lemma str_String c s : str (String c s) = Z.of_N (Ascii.N_of_ascii c) :: str s.
Proof. done. Qed.

Lemma pretty_N_visible n s : visible (str s) -> visible (str (pretty_N_go n s)).
Proof.
  revert s. induction (N.lt_wf_0 n) as [n _ IH]. intros s Hs.
  destruct (decide (n = 0%N)) as [->|Hn]; [by rewrite pretty_N_go_0|].
  rewrite pretty_N_go_step by lia. apply IH; [apply N.div_lt; lia|].
  rewrite str_String. constructor; [|done]. unfold pretty_N_char. by repeat case_match.
Qed.

Lemma to_string_visible n : 0 <= n -> visible (to_string n).
Proof.
  intros Hn. unfold to_string, pretty, pretty_Z. destruct n as [|n|n]; [by apply visible_check|..|lia].
  change (visible (str (pretty (N.pos n)))). unfold pretty, pretty_N.
  case_decide; [done|]. apply pretty_N_visible. by apply visible_check.
Qed.

Lemma seen_visible `{!HttpLaws HT} v : visible (default [] (v ≫= to_str)).
Proof.
  destruct v as [v|]; [|by apply visible_check]. cbn. destruct (to_str v) as [s|] eqn:E; [|by apply visible_check].
  by apply to_str_visible in E as [-> ?].
Qed.

Definition PATHS : list bytes := [str "/hello"; str "/json"; str "/big"; str "/echo"; str "/headers"].

(** No header value is ever refused: a request fails only when it is an upload that
    cannot be read. *)
Lemma app_status `{!HttpLaws HT} req :
  sv_status (app req) =
  if bool_decide (rq_path req ∈ [str "/hello"; str "/json"; str "/big"; str "/headers"]) then 200
  else if bool_decide (rq_path req = str "/echo") then match rq_body req with inl _ => 500 | inr _ => 200 end
  else 404.
Proof.
  unfold app, route, text. generalize (replicate (Z.to_nat BIG) 120). intros big. cbv zeta.
  destruct (decide (rq_path req ∈ PATHS)) as [Hin|Hout].
  - unfold PATHS in Hin. rewrite !elem_of_cons in Hin.
    destruct Hin as [E|[E|[E|[E|[E|Hin]]]]]; [..|by apply elem_of_nil in Hin]; settle_path E.
    4: destruct (rq_body req) as [err|body]; [done|].
    all: rewrite build_visible; [reflexivity|]; repeat constructor; try by apply visible_check.
    + apply to_string_visible. unfold zlen. lia.
    + apply seen_visible.
  - unfold PATHS in Hout. rewrite !not_elem_of_cons in Hout. destruct Hout as (N1 & N2 & N3 & N4 & N5 & _).
    rewrite !bool_decide_false by done. rewrite bool_decide_false; [done|].
    rewrite !not_elem_of_cons. repeat split; try done. by apply not_elem_of_nil.
Qed.

(** An upload that can be read comes back as it was. *)
Lemma app_echoes `{!HttpLaws HT} req body :
  rq_path req = str "/echo" -> rq_body req = inr body ->
  app req = mkServed 200 [(str "content-type", str "application/octet-stream");
    (str "x-echo-bytes", to_string (zlen body))] body.
Proof.
  intros Hp Hb. unfold app, route, text. generalize (replicate (Z.to_nat BIG) 120). intros big. cbv zeta.
  settle_path Hp. rewrite Hb. rewrite build_visible; [done|]. repeat constructor; try by apply visible_check.
  apply to_string_visible. unfold zlen. lia.
Qed.

(** The tunnel is opened exactly for the requests [accept] takes, and then runs under the
    default configuration. *)
Lemma on_request_serves {D Upgraded} (duplex : Z -> D * D) request :
  match accept (HyperError:=Error) (Upgraded:=Upgraded) request with
  | Ok (resp, fut) => exists task, on_request (Upgraded:=Upgraded) duplex request = Ok (resp, Some task) /\
      forall u ws, fut u = inr ws -> task u = Some (serve_h2 duplex)
  | Err err => on_request (Upgraded:=Upgraded) duplex request = Ok (rejection_response err, None)
  | Panic => on_request (Upgraded:=Upgraded) duplex request = Panic
  | OutOfFuel => on_request (Upgraded:=Upgraded) duplex request = OutOfFuel
  end.
Proof.
  unfold on_request. destruct (accept request) as [[resp fut]|err| |]; try done.
  eexists. split; [done|]. intros u ws E. cbn beta. by rewrite E.
Qed.
End server.
