(* ===== verification/Conformance.v ===== *)
(** * Conformance: the battery the clients are tested with

    Models [rust/crates/h2ts-conformance/src/main.rs] and, as it runs the same checks,
    [rust/crates/h2ts-wasm-conformance/src/lib.rs].  The battery is a script of calls on
    a connection, against the interface [Conversation]; what a line of the report shows
    of a clock is left to an argument. *)

From S2P Require Import Prelude Errors Bytes Utf8 Hpack HpackFacts Flow Stream Connection Heads Text H2Server.

(** A call changes the connection and answers, its awaits included. *)
Class Conversation (S : Type) := {
  conv_request : RequestInit -> S -> S * (H2Error.t + response);
  conv_join_all : list RequestInit -> S -> S * list (H2Error.t + response);
  conv_bytes : response -> S -> S * (H2Error.t + bytes);
  conv_text : response -> S -> S * (H2Error.t + bytes);
  conv_next : Z -> S -> S * option (H2Error.t + bytes);
  conv_trailers : response -> S -> option (gmap bytes bytes);
  conv_ping : S -> S * (H2Error.t + Z);
  conv_close : S -> S;
}.

Record line := mkLine {
  line_ok : bool;
  line_name : bytes;
  line_extra : bytes;
}.

(** [report] is what was printed, a line per check. *)
Record Checks := mkChecks {
  failures : Z;
  report : list line;
}.

Definition print_line (l : line) : bytes :=
  let status := if line_ok l then str "ok  " else str "FAIL" in
  str "[" ++ status ++ str "] " ++ line_name l ++
  (if bool_decide (line_extra l = []) then [] else str "  (" ++ line_extra l ++ str ")").

Definition AUTH : bytes := str "127.0.0.1:8000".

Definition get (p : bytes) : RequestInit := mkInit None (Some p) (Some AUTH) None [] BodyEmpty.

Definition post_echo (body : RequestBody) : RequestInit :=
  mkInit (Some (str "POST")) (Some (str "/echo")) (Some AUTH) None [] body.

(** [From<&str>], [From<Vec<u8>>]. *)
Definition body_from (b : bytes) : RequestBody := BodyBytes b.

Fixpoint starts_with (needle hay : bytes) : bool :=
  match needle, hay with
  | [], _ => true
  | x :: needle, y :: hay => (x =? y) && starts_with needle hay
  | _, [] => false
  end.

Fixpoint contains (hay needle : bytes) : bool :=
  starts_with needle hay ||
  match hay with [] => false | _ :: hay => contains hay needle end.

Definition payload : bytes := (fun i => Z.land (Z.of_nat i) 0xff) <$> seq 0 (Z.to_nat (512 * 1024)).
#[export] Typeclasses Opaque payload.
#[local] Opaque payload.

Definition error_line (e : H2Error.t) : bytes := str (H2Error.fmt e).

Section battery.
Context {arch : Arch} {S : Type} {CS : Conversation S}.
(** [str::to_lowercase], and what is printed of a round trip. *)
Variables (to_lowercase : bytes -> bytes) (show_rtt : Z -> bytes).

Local Abbreviation Script := (ST (S * Checks) H2Error.t).

Definition call {A} (f : S -> S * A) : Script A :=
  fun '(s, c) => let '(s, a) := f s in ((s, c), Ok a).

Definition ask {A} (f : S -> A) : Script A := fun '(s, c) => ((s, c), Ok (f s)).

Definition check (name : bytes) (cond : bool) (extra : bytes) : Script unit :=
  '(s, c) ← st_get;
  n ← (if negb cond then st_lift (u32_add (failures c) 1) else mret (failures c));
  st_put (s, mkChecks n (report c ++ [mkLine cond name extra])).

Definition unwrap_or_default (r : H2Error.t + bytes) : bytes := match r with inr v => v | inl _ => [] end.

Definition header_or_default (name : bytes) (r : response) : bytes :=
  default [] (headers (response_head r) !! name).

Definition hello : Script unit :=
  o ← call (conv_request (get (str "/hello")));
  match o with
  | inr r =>
      let st := status (response_head r) in
      _ ← check (str "GET /hello -> 200") (st =? 200) (str "status=" ++ to_string st);
      body ← call (conv_text r);
      check (str "GET /hello body") (contains (to_lowercase (unwrap_or_default body)) (str "hello")) []
  | inl e => check (str "GET /hello") false (error_line e)
  end.

Definition OK_TRUE : bytes := quoted (str "ok") ++ str ":true".
Definition PATH_JSON : bytes := quoted (str "path") ++ str ":" ++ quoted (str "/json").

Definition json_object : Script unit :=
  o ← call (conv_request (get (str "/json")));
  match o with
  | inr r =>
      let ct := header_or_default (str "content-type") r in
      _ ← check (str "GET /json content-type") (bool_decide (ct = str "application/json")) ct;
      body ← call (conv_text r);
      let body := unwrap_or_default body in
      check (str "GET /json parsed") (contains body OK_TRUE && contains body PATH_JSON) []
  | inl e => check (str "GET /json") false (error_line e)
  end.

Definition small_post : Script unit :=
  o ← call (conv_request (post_echo (body_from (str "ping-pong"))));
  match o with
  | inr r =>
      _ ← check (str "POST /echo -> 200") (status (response_head r) =? 200) [];
      body ← call (conv_text r);
      check (str "POST /echo echoes body") (bool_decide (unwrap_or_default body = str "ping-pong")) []
  | inl e => check (str "POST /echo") false (error_line e)
  end.

Definition big_download : Script unit :=
  o ← call (conv_request (get (str "/big")));
  match o with
  | inr r =>
      let x_size := header_or_default (str "x-size") r in
      _ ← check (str "GET /big x-size header") (bool_decide (x_size = to_string (256 * 1024))) x_size;
      big ← call (conv_bytes r);
      let big := unwrap_or_default big in
      check (str "GET /big size") (zlen big =? 256 * 1024) (str "got " ++ to_string (zlen big))
  | inl e => check (str "GET /big") false (error_line e)
  end.

(** The loop over what [join_all] gathered; [flatten] passes the errors over. *)
Fixpoint count_ok (many : list (H2Error.t + response)) (n : Z) : Script Z :=
  match many with
  | [] => mret n
  | inl _ :: many => count_ok many n
  | inr r :: many =>
      body ← call (conv_text r);
      if contains (unwrap_or_default body) OK_TRUE then n ← st_lift (usize_add n 1); count_ok many n
      else count_ok many n
  end.

Definition concurrent : Script unit :=
  many ← call (conv_join_all (replicate 8 (get (str "/json"))));
  ok_count ← count_ok many 0;
  check (str "8 concurrent streams") (ok_count =? 8) (str "ok=" ++ to_string ok_count ++ str "/8").

Definition large_upload : Script unit :=
  o ← call (conv_request (post_echo (body_from payload)));
  match o with
  | inr r =>
      let x_echo := header_or_default (str "x-echo-bytes") r in
      _ ← check (str "echo x-echo-bytes header") (bool_decide (x_echo = to_string (zlen payload))) x_echo;
      echoed ← call (conv_bytes r);
      let echoed := unwrap_or_default echoed in
      _ ← check (str "512KiB upload echo size") (zlen echoed =? zlen payload) (str "got " ++ to_string (zlen echoed));
      check (str "512KiB upload echo content") (bool_decide (echoed = payload)) []
  | inl e => check (str "512KiB upload") false (error_line e)
  end.

Definition custom_header : Script unit :=
  o ← call (conv_request (mkInit None (Some (str "/headers")) (Some AUTH) None
                            [(str "x-custom", str "h2ts-rocks")] BodyEmpty));
  match o with
  | inr r =>
      let saw := header_or_default (str "x-saw-custom") r in
      check (str "custom header reflected") (bool_decide (saw = str "h2ts-rocks")) saw
  | inl e => check (str "custom header") false (error_line e)
  end.

Definition ping_rtt : Script unit :=
  o ← call conv_ping;
  match o with
  | inr rtt => check (str "ping rtt >= 0") (0 <=? rtt) (show_rtt rtt)
  | inl e => check (str "ping") false (error_line e)
  end.

(** The loop over the chunks of a body, errors passed over. *)
Fixpoint stream_size (fuel : nat) (body : Z) (streamed : Z) : Script Z :=
  match fuel with
  | O => st_lift OutOfFuel
  | Datatypes.S fuel =>
      chunk ← call (conv_next body);
      match chunk with
      | None => mret streamed
      | Some (inr chunk) => n ← st_lift (usize_add streamed (zlen chunk)); stream_size fuel body n
      | Some (inl _) => stream_size fuel body streamed
      end
  end.

Definition streamed_read (fuel : nat) : Script unit :=
  o ← call (conv_request (get (str "/big")));
  match o with
  | inr r =>
      streamed ← stream_size fuel (into_body r) 0;
      check (str "streamed /big size") (streamed =? 256 * 1024) (str "got " ++ to_string streamed)
  | inl e => check (str "streamed /big") false (error_line e)
  end.

Definition not_found : Script unit :=
  o ← call (conv_request (get (str "/nope")));
  match o with
  | inr r =>
      let st := status (response_head r) in
      check (str "GET /nope -> 404") (st =? 404) (str "status=" ++ to_string st)
  | inl e => check (str "GET /nope") false (error_line e)
  end.

Definition trailers_read : Script unit :=
  o ← call (conv_request (get (str "/trailers")));
  match o with
  | inr r =>
      body ← call (conv_text r);
      let body := unwrap_or_default body in
      _ ← check (str "trailers: body") (bool_decide (body = str "trailer-body")) body;
      t ← ask (conv_trailers r);
      let val := default [] (t ≫= fun m => m !! str "x-trailer") in
      check (str "trailers: x-trailer") (bool_decide (val = str "after-body")) val
  | inl e => check (str "trailers") false (error_line e)
  end.

Definition early_hints : Script unit :=
  o ← call (conv_request (get (str "/early-hints")));
  match o with
  | inr r =>
      let st := status (response_head r) in
      _ ← check (str "1xx: final status 200") (st =? 200) (str "status=" ++ to_string st);
      body ← call (conv_text r);
      let body := unwrap_or_default body in
      check (str "1xx: final body") (bool_decide (body = str "final-body")) body
  | inl e => check (str "1xx interim") false (error_line e)
  end.

Definition battery (fuel : nat) : Script unit :=
  _ ← hello; _ ← json_object; _ ← small_post; _ ← big_download; _ ← concurrent; _ ← large_upload;
  _ ← custom_header; _ ← ping_rtt; _ ← streamed_read fuel; _ ← not_found; _ ← trailers_read;
  early_hints.

(** [run]: the battery on a connection, then [close]; the report and the exit code. *)
Definition run (fuel : nat) (s : S) : outcome H2Error.t (Z * list line * S) :=
  match battery fuel (s, mkChecks 0 []) with
  | ((s, c), Ok _) => Ok (if failures c =? 0 then 0 else 1, report c, conv_close s)
  | (_, Err e) => Err e
  | (_, Panic) => Panic
  | (_, OutOfFuel) => OutOfFuel
  end.

(** [run_battery], once [connect_websocket] has answered: the number of failures. *)
Definition run_battery {JsValue} (fuel : nat) (conn : JsValue + S)
    : outcome H2Error.t (JsValue + Z * list line * S) :=
  match conn with
  | inl e => Ok (inl e)
  | inr s =>
      match battery fuel (s, mkChecks 0 []) with
      | ((s, c), Ok _) => Ok (inr (failures c, report c, conv_close s))
      | (_, Err e) => Err e
      | (_, Panic) => Panic
      | (_, OutOfFuel) => OutOfFuel
      end
  end.

(** ** The verdict *)

(** A script prints at least [lo] and at most [hi] lines, and counts its failures. *)
Definition tallied (c : Checks) : Prop :=
  failures c = zlen (filter (fun l => line_ok l = false) (report c)).

Definition prints {A} (lo hi : nat) (m : Script A) : Prop :=
  forall s c s' c' a,
    tallied c -> zlen (report c) + Z.of_nat hi < 4294967296 -> m (s, c) = ((s', c'), Ok a) ->
    tallied c' /\ exists ls, report c' = report c ++ ls /\ (lo <= length ls <= hi)%nat.

Lemma prints_bind {A B} lo1 hi1 lo2 hi2 lo hi (m : Script A) (f : A -> Script B) :
  prints lo1 hi1 m -> (forall a, prints lo2 hi2 (f a)) ->
  (lo <= lo1 + lo2)%nat -> (hi1 + hi2 <= hi)%nat -> prints lo hi (m ≫= f).
Proof using Type.
  intros Hm Hf Hlo Hhi s c s' c' b Hc Hn (a & [s1 c1] & H1 & H2)%st_bind_inv.
  destruct (Hm s c s1 c1 a Hc ltac:(lia) H1) as (Hc1 & ls1 & E1 & L1).
  assert (zlen (report c1) + Z.of_nat hi2 < 4294967296) as Hn1 by (rewrite E1, zlen_app; unfold zlen in *; lia).
  destruct (Hf a s1 c1 s' c' b Hc1 Hn1 H2) as (Hc' & ls2 & E2 & L2).
  split; [done|]. exists (ls1 ++ ls2). rewrite E2, E1, app_assoc, length_app. split; [done|lia].
Qed.

Lemma prints_weaken {A} lo hi lo' hi' (m : Script A) :
  prints lo hi m -> (lo' <= lo)%nat -> (hi <= hi')%nat -> prints lo' hi' m.
Proof using Type.
  intros Hm H1 H2 s c s' c' a Hc Hn E. destruct (Hm s c s' c' a Hc ltac:(lia) E) as (H & ls & ? & ?).
  split; [done|]. exists ls. split; [done|lia].
Qed.

Lemma prints_none {A} (m : Script A) : (forall s c, (m (s, c)).1.2 = c) -> prints 0 0 m.
Proof using Type.
  intros H s c s' c' a Hc _ E. specialize (H s c). rewrite E in H. cbn in H. subst c'.
  split; [done|]. exists []. by rewrite app_nil_r.
Qed.

Lemma prints_call {A} (f : S -> S * A) : prints 0 0 (call f).
Proof using Type. apply prints_none. intros s c. unfold call. by destruct (f s). Qed.

Lemma prints_check name cond extra : prints 1 1 (check name cond extra).
Proof using Type.
  intros s c s' c' [] Hc Hn. unfold check. rewrite st_get_bind. destruct cond; cbn [negb].
  - rewrite st_ret_bind. intros [= <- <-]. split; [|by eexists].
    unfold tallied in *. cbn [failures report]. rewrite filter_app, zlen_app, <- Hc.
    rewrite filter_cons_False by done. unfold zlen. cbn. lia.
  - rewrite st_lift_bind. unfold u32_add.
    assert (failures c + 1 <? 4294967296 = true) as ->.
    { rewrite Hc. pose proof (length_filter (fun l => line_ok l = false) (report c)). unfold zlen in *. lia. }
    intros [= <- <-]. split; [|by eexists].
    unfold tallied in *. cbn [failures report]. rewrite filter_app, zlen_app, <- Hc.
    rewrite filter_cons_True by done. unfold zlen. cbn. lia.
Qed.

Lemma prints_seq {A B} lo1 hi1 lo2 hi2 (m : Script A) (f : A -> Script B) :
  prints lo1 hi1 m -> (forall a, prints lo2 hi2 (f a)) -> prints (lo1 + lo2) (hi1 + hi2) (m ≫= f).
Proof using Type. intros Hm Hf. by eapply prints_bind. Qed.

(** A sequence of checks and calls prints its checks. *)
Ltac prints_steps :=
  cbv beta zeta;
  first
    [ apply prints_check
    | eapply prints_seq;
      [first [apply prints_check | apply prints_call | by apply prints_none]|intros; prints_steps] ].
Ltac prints_auto := eapply prints_weaken; [prints_steps|cbn; lia|cbn; lia].

Lemma prints_answered {A B} (lo hi : nat) (f : S -> S * (A + B)) (g : A -> Script unit) (h : B -> Script unit) :
  (1 <= hi)%nat -> (lo <= 1)%nat -> (forall a, prints 1 1 (g a)) -> (forall b, prints hi hi (h b)) ->
  prints lo hi (o ← call f; match o with inr b => h b | inl a => g a end).
Proof using Type.
  intros H1 H2 Hg Hh. eapply (prints_bind 0 0 1 hi); [apply prints_call| |lia|lia].
  intros [a|b]; (eapply prints_weaken; [done|lia|lia]).
Qed.

Lemma prints_count_ok many n : prints 0 0 (count_ok many n).
Proof using Type.
  revert n. induction many as [|[e|r] many IH]; intros n; cbn [count_ok]; [by apply prints_none|apply IH|].
  apply (prints_bind 0 0 0 0); [apply prints_call| |reflexivity|reflexivity]. intros body. case_match; [|apply IH].
  apply (prints_bind 0 0 0 0); [by apply prints_none|intros; apply IH|reflexivity|reflexivity].
Qed.

Lemma prints_stream_size fuel body n : prints 0 0 (stream_size fuel body n).
Proof using Type.
  revert n. induction fuel as [|fuel IH]; intros n; cbn [stream_size]; [by apply prints_none|].
  apply (prints_bind 0 0 0 0); [apply prints_call| |reflexivity|reflexivity]. intros [[e|chunk]|]; [apply IH| |by apply prints_none].
  apply (prints_bind 0 0 0 0); [by apply prints_none|intros; apply IH|reflexivity|reflexivity].
Qed.

Lemma prints_exchange init k (h : response -> Script unit) name (rest : Script unit) lo hi n :
  (1 <= k)%nat -> (forall r, prints k k (h r)) -> prints lo hi rest -> n = (k + hi)%nat ->
  prints (1 + lo) n
    (_ ← (o ← call (conv_request init); match o with inr r => h r | inl e => check name false (error_line e) end);
     rest).
Proof using Type.
  intros Hk Hh Hr ->. apply (prints_bind 1 k lo hi); [|done|lia|lia].
  apply prints_answered; [done|lia|intros; apply prints_check|done].
Qed.

Ltac exchange k lo hi :=
  eapply (prints_exchange _ k _ _ _ lo hi); [lia|intros; prints_auto| |reflexivity].

Lemma prints_battery fuel : prints 12 20 (battery fuel).
Proof using Type.
  unfold battery.
  exchange 2%nat 11%nat 18%nat. exchange 2%nat 10%nat 16%nat. exchange 2%nat 9%nat 14%nat. exchange 2%nat 8%nat 12%nat.
  apply (prints_bind 1 1 7 11); [|intros []|lia|lia].
  { apply (prints_bind 0 0 1 1); [apply prints_call|intros many|lia|lia].
    apply (prints_bind 0 0 1 1); [apply prints_count_ok|intros; apply prints_check|lia|lia]. }
  exchange 3%nat 6%nat 8%nat. exchange 1%nat 5%nat 7%nat.
  apply (prints_bind 1 1 4 6); [|intros []|lia|lia].
  { apply prints_answered; [lia|lia|intros; apply prints_check..]. }
  apply (prints_bind 1 1 3 5); [|intros []|lia|lia].
  { apply prints_answered; [lia|lia|intros; apply prints_check|intros r].
    apply (prints_bind 0 0 1 1); [apply prints_stream_size|intros; apply prints_check|lia|lia]. }
  exchange 1%nat 2%nat 4%nat. exchange 2%nat 1%nat 2%nat.
  apply prints_answered; [lia|lia|intros; apply prints_check|intros; prints_auto].
Qed.

Lemma no_failures ls :
  zlen (filter (fun l => line_ok l = false) ls) = 0 <-> Forall (fun l => line_ok l = true) ls.
Proof using Type.
  induction ls as [|l ls IH]; [by repeat constructor|]. rewrite Forall_cons, <- IH.
  destruct (line_ok l) eqn:E.
  - rewrite filter_cons_False by congruence. by split; [|intros []].
  - rewrite filter_cons_True by done. unfold zlen. cbn [length]. split; [lia|by intros []].
Qed.

Lemma filter_lines ls :
  zlen (filter (fun b => b = false) (line_ok <$> ls)) = zlen (filter (fun l => line_ok l = false) ls).
Proof using Type.
  induction ls as [|l ls IH]; [done|]. rewrite fmap_cons. destruct (line_ok l) eqn:E.
  - rewrite !filter_cons_False by congruence. exact IH.
  - rewrite !filter_cons_True by done. by rewrite !zlen_cons, IH.
Qed.

(** A run that ends, on whatever connection, exits with 0 exactly when every line it
    printed says ok; it has printed from 12 to 20 lines. *)
Lemma run_verdict fuel s code ls s' :
  run fuel s = Ok (code, ls, s') ->
  (12 <= length ls <= 20)%nat /\ (code = 0 \/ code = 1) /\
  (code = 0 <-> Forall (fun l => line_ok l = true) ls).
Proof using Type.
  unfold run. destruct (battery fuel (s, mkChecks 0 [])) as [[s1 c] [[]|e| |]] eqn:E; try done.
  intros [= <- <- <-].
  destruct (prints_battery fuel s (mkChecks 0 []) s1 c tt eq_refl eq_refl E) as (Hc & ls & Els & Hn).
  cbn in Els. subst ls. split; [done|]. rewrite Hc. split; [case_match; auto|].
  pose proof (no_failures (report c)) as H. split; [intros Hz|intros ->%H; done].
  apply H. by case_match; [lia|].
Qed.

(** ** What a script finds *)

(** From [s], a line for each of [oks], in order, and the connection it leaves. *)
Definition finds (oks : list bool) (m : Script unit) (s : S) (R : S -> Prop) : Prop :=
  forall c, 0 <= failures c -> failures c + zlen oks < 4294967296 ->
  exists s' ls,
    m (s, c) = ((s', mkChecks (failures c + zlen (filter (fun b => b = false) oks)) (report c ++ ls)), Ok tt) /\
    line_ok <$> ls = oks /\ R s'.

Lemma finds_call {A} oks (f : S -> S * A) (k : A -> Script unit) s s' a R :
  f s = (s', a) -> finds oks (k a) s' R -> finds oks (call f ≫= k) s R.
Proof using Type.
  intros E H c Hc Hn. rewrite st_bind_run. unfold call. rewrite E. by apply H.
Qed.

Lemma finds_seq oks1 oks2 (m rest : Script unit) s R1 R :
  finds oks1 m s R1 -> (forall s', R1 s' -> finds oks2 rest s' R) ->
  finds (oks1 ++ oks2) (_ ← m; rest) s R.
Proof using Type.
  intros Hm Hr c Hc Hn. rewrite zlen_app in Hn.
  pose proof (length_filter (fun b => b = false) oks1) as Hl.
  destruct (Hm c Hc) as (s1 & ls1 & E1 & L1 & H1); [unfold zlen in *; lia|].
  destruct (Hr s1 H1 (mkChecks (failures c + zlen (filter (fun b => b = false) oks1)) (report c ++ ls1)))
    as (s2 & ls2 & E2 & L2 & H2); [cbn; unfold zlen in *; lia|cbn; unfold zlen in *; lia|].
  exists s2, (ls1 ++ ls2). rewrite st_bind_run, E1. cbn [fst snd failures report] in *. rewrite E2.
  rewrite fmap_app, L1, L2, filter_app, zlen_app, app_assoc, Z.add_assoc. done.
Qed.

Lemma finds_check name b extra s R : R s -> finds [b] (check name b extra) s R.
Proof using Type.
  intros HR c Hc Hn. exists s, [mkLine b name extra]. split; [|done]. unfold check. rewrite st_get_bind.
  destruct b; cbn [negb].
  - rewrite st_ret_bind. rewrite filter_cons_False by done. by rewrite Z.add_0_r.
  - rewrite st_lift_bind. unfold u32_add. change (zlen [false]) with 1 in Hn.
    destruct (Z.ltb_spec (failures c + 1) 4294967296); [|lia]. by rewrite filter_cons_True.
Qed.

Lemma finds_then oks name b extra (rest : Script unit) s R :
  finds oks rest s R -> finds (b :: oks) (_ ← check name b extra; rest) s R.
Proof using Type.
  intros Hr. apply (finds_seq [b] oks _ _ s (eq s)); [by apply finds_check|by intros s' <-].
Qed.
End battery.

(** ** A connection that answers as an origin would *)

Record reply := mkReply {
  rp_status : Z;
  rp_headers : gmap bytes bytes;
  rp_body : bytes;
  rp_trailers : option (gmap bytes bytes);
}.

(** The headers the battery looks at; a server may send others. *)
Definition NAMES : list bytes := [str "content-type"; str "x-size"; str "x-echo-bytes"; str "x-saw-custom"].

Definition heads (rep : reply) (r : response) : Prop :=
  status (response_head r) = rp_status rep /\
  forall n, n ∈ NAMES -> headers (response_head r) !! n = rp_headers rep !! n.

(** [owed]: for each response, the reply of the origin and what of its body has not been
    read.  [request] returns the head; the readers return what is owed; the trailers are
    there once the body has been read. *)
Class Faithful {S} (CS : Conversation S) (origin : RequestInit -> reply) := {
  owed : S -> gmap Z (reply * bytes);
  request_answers init s : exists r s',
    conv_request init s = (s', inr r) /\ heads (origin init) r /\
    owed s' !! response_stream r = Some (origin init, rp_body (origin init));
  join_answers inits s : exists rs s',
    conv_join_all inits s = (s', inr <$> rs) /\ NoDup (response_stream <$> rs) /\
    Forall2 (fun init r => heads (origin init) r /\
      owed s' !! response_stream r = Some (origin init, rp_body (origin init))) inits rs;
  bytes_answers r s rep rest : owed s !! response_stream r = Some (rep, rest) -> exists s',
    conv_bytes r s = (s', inr rest) /\ owed s' = <[response_stream r := (rep, [])]> (owed s);
  text_answers r s rep rest : owed s !! response_stream r = Some (rep, rest) -> exists s',
    conv_text r s = (s', inr (decode_utf8 rest)) /\ owed s' = <[response_stream r := (rep, [])]> (owed s);
  next_answers id s rep rest : owed s !! id = Some (rep, rest) -> exists s',
    match rest with
    | [] => conv_next id s = (s', None)
    | _ => exists chunk rest', chunk <> [] /\ rest = chunk ++ rest' /\
        conv_next id s = (s', Some (inr chunk)) /\ owed s' = <[id := (rep, rest')]> (owed s)
    end;
  trailers_answers r s rep : owed s !! response_stream r = Some (rep, []) -> conv_trailers r s = rp_trailers rep;
  ping_answers s : exists rtt s', conv_ping s = (s', inr rtt) /\ 0 <= rtt;
}.

Section faithful.
Context {arch : Arch} {arch_ok : ArchOk arch} {S : Type} {CS : Conversation S}.
Context (origin : RequestInit -> reply) {FA : Faithful CS origin}.
Variables (to_lowercase : bytes -> bytes) (show_rtt : Z -> bytes).

Definition header_of (name : bytes) (rep : reply) : bytes := default [] (rp_headers rep !! name).

Definition HEADERS_REQUEST : RequestInit :=
  mkInit None (Some (str "/headers")) (Some AUTH) None [(str "x-custom", str "h2ts-rocks")] BodyEmpty.

(** What each line comes to, from the replies of the origin alone. *)
Definition basics : list bool :=
  let hello := origin (get (str "/hello")) in
  let json := origin (get (str "/json")) in
  let post := origin (post_echo (body_from (str "ping-pong"))) in
  let big := origin (get (str "/big")) in
  let upload := origin (post_echo (body_from payload)) in
  let custom := origin HEADERS_REQUEST in
  let nope := origin (get (str "/nope")) in
  [rp_status hello =? 200; contains (to_lowercase (decode_utf8 (rp_body hello))) (str "hello");
   bool_decide (header_of (str "content-type") json = str "application/json");
   contains (decode_utf8 (rp_body json)) OK_TRUE && contains (decode_utf8 (rp_body json)) PATH_JSON;
   rp_status post =? 200; bool_decide (decode_utf8 (rp_body post) = str "ping-pong");
   bool_decide (header_of (str "x-size") big = to_string (256 * 1024)); zlen (rp_body big) =? 256 * 1024;
   contains (decode_utf8 (rp_body json)) OK_TRUE;
   bool_decide (header_of (str "x-echo-bytes") upload = to_string (zlen payload));
   zlen (rp_body upload) =? zlen payload; bool_decide (rp_body upload = payload);
   bool_decide (header_of (str "x-saw-custom") custom = str "h2ts-rocks");
   true;
   zlen (rp_body big) =? 256 * 1024;
   rp_status nope =? 404].

Definition hard_ones : list bool :=
  let trailed := origin (get (str "/trailers")) in
  let hinted := origin (get (str "/early-hints")) in
  [bool_decide (decode_utf8 (rp_body trailed) = str "trailer-body");
   bool_decide (default [] (rp_trailers trailed ≫= fun m => m !! str "x-trailer") = str "after-body");
   rp_status hinted =? 200; bool_decide (decode_utf8 (rp_body hinted) = str "final-body")].

Lemma finds_request oks init (h : response -> _) (g : H2Error.t -> _) s R :
  (forall r s', heads (origin init) r ->
     owed s' !! response_stream r = Some (origin init, rp_body (origin init)) -> finds oks (h r) s' R) ->
  finds oks (o ← call (conv_request init); match o with inr r => h r | inl e => g e end) s R.
Proof using Type.
  intros H. destruct (request_answers init s) as (r & s' & E & Hh & Ho).
  eapply finds_call; [exact E|]. by apply H.
Qed.

Lemma finds_text oks r (k : H2Error.t + bytes -> _) s rep rest R :
  owed s !! response_stream r = Some (rep, rest) ->
  (forall s', owed s' = <[response_stream r := (rep, [])]> (owed s) -> finds oks (k (inr (decode_utf8 rest))) s' R) ->
  finds oks (call (conv_text r) ≫= k) s R.
Proof using Type.
  intros Ho H. destruct (text_answers r s rep rest Ho) as (s' & E & Ho').
  eapply finds_call; [exact E|]. by apply H.
Qed.

Lemma finds_bytes oks r (k : H2Error.t + bytes -> _) s rep rest R :
  owed s !! response_stream r = Some (rep, rest) ->
  (forall s', finds oks (k (inr rest)) s' R) ->
  finds oks (call (conv_bytes r) ≫= k) s R.
Proof using Type.
  intros Ho H. destruct (bytes_answers r s rep rest Ho) as (s' & E & _).
  eapply finds_call; [exact E|]. by apply H.
Qed.

(** A part of the script that prints nothing. *)
Lemma finds_quiet {A} oks (m : ST (S * Checks) H2Error.t A) k s s' a R :
  (forall c, m (s, c) = ((s', c), Ok a)) -> finds oks (k a) s' R -> finds oks (m ≫= k) s R.
Proof using Type. intros E H c Hc Hn. rewrite st_bind_run, E. by apply H. Qed.

Lemma headers_given n rep r : heads rep r -> n ∈ NAMES -> header_or_default n r = header_of n rep.
Proof using Type. intros [_ H] Hn. unfold header_or_default, header_of. by rewrite H. Qed.

Lemma stream_size_all fuel id n s rep rest :
  owed s !! id = Some (rep, rest) -> (length rest < fuel)%nat -> 0 <= n -> n + zlen rest < 2 ^ usize_bits ->
  exists s', forall c, stream_size fuel id n (s, c) = ((s', c), Ok (n + zlen rest)).
Proof using Type.
  revert n s rest. induction fuel as [|fuel IH]; intros n s rest Ho Hf Hn Hb; [lia|].
  destruct (next_answers id s rep rest Ho) as [s' H]. destruct rest as [|b rest].
  - exists s'. intros c. cbn [stream_size]. rewrite st_bind_run. unfold call. rewrite H. cbn. by rewrite Z.add_0_r.
  - destruct H as (chunk & rest' & Hne & Er & E & Ho').
    assert (zlen (b :: rest) = zlen chunk + zlen rest') as Hz by (by rewrite Er, zlen_app).
    assert (length (b :: rest) = (length chunk + length rest')%nat) as Hl by (by rewrite Er, length_app).
    assert (1 <= length chunk)%nat by (destruct chunk; [done|cbn; lia]).
    destruct (IH (n + zlen chunk) s' rest') as [s2 H2].
    + by rewrite Ho', lookup_insert_eq.
    + lia.
    + unfold zlen. lia.
    + lia.
    + exists s2. intros c. cbn [stream_size]. rewrite st_bind_run. unfold call. rewrite E. cbn [fst snd].
      rewrite usize_add_ok by (unfold zlen in *; lia). rewrite st_lift_Ok, H2. by rewrite Hz, Z.add_assoc.
Qed.

Lemma count_all rs rep n s :
  NoDup (response_stream <$> rs) ->
  Forall (fun r => owed s !! response_stream r = Some (rep, rp_body rep)) rs ->
  0 <= n -> n + zlen rs < 2 ^ usize_bits ->
  exists s', forall c, count_ok (inr <$> rs) n (s, c) =
    ((s', c), Ok (if contains (decode_utf8 (rp_body rep)) OK_TRUE then n + zlen rs else n)).
Proof using Type.
  revert n s. induction rs as [|r rs IH]; intros n s Hnd Hall Hn Hb.
  - exists s. intros c. cbn. case_match; [by rewrite Z.add_0_r|done].
  - apply NoDup_cons in Hnd as [Hni Hnd]. apply Forall_cons in Hall as [Hr Hall].
    destruct (text_answers r s rep (rp_body rep) Hr) as (s1 & E & Ho).
    assert (zlen (r :: rs) = 1 + zlen rs) as Hz by (unfold zlen; cbn [length]; lia).
    assert (Forall (fun r => owed s1 !! response_stream r = Some (rep, rp_body rep)) rs) as Hall1.
    { rewrite Forall_forall in Hall |- *. intros r' Hr'. rewrite Ho, lookup_insert_ne; [by apply Hall|].
      intros Heq. apply Hni. rewrite Heq. apply list_elem_of_fmap_2. done. }
    cbn [fmap list_fmap count_ok].
    destruct (contains (decode_utf8 (rp_body rep)) OK_TRUE) eqn:Ec.
    + destruct (IH (n + 1) s1 Hnd Hall1) as [s2 H2]; [lia|lia|]. exists s2. intros c.
      rewrite st_bind_run. unfold call. rewrite E. cbn [fst snd unwrap_or_default]. rewrite Ec.
      rewrite usize_add_ok by (unfold zlen in *; lia). rewrite st_lift_Ok, H2. do 2 f_equal. lia.
    + destruct (IH n s1 Hnd Hall1) as [s2 H2]; [lia|unfold zlen in *; lia|]. exists s2. intros c.
      rewrite st_bind_run. unfold call. rewrite E. cbn [fst snd unwrap_or_default]. rewrite Ec. apply H2.
Qed.

Lemma in_names n : bool_decide (n ∈ NAMES) = true -> n ∈ NAMES.
Proof using Type. apply bool_decide_eq_true. Qed.

Lemma finds_header oks n v line rep r (rest : ST (S * Checks) H2Error.t unit) s R :
  heads rep r -> bool_decide (n ∈ NAMES) = true -> finds oks rest s R ->
  finds (bool_decide (header_of n rep = v) :: oks)
    (_ ← check line (bool_decide (header_or_default n r = v)) (header_or_default n r); rest) s R.
Proof using Type. intros H Hn Hr. rewrite (headers_given n rep r H) by by apply in_names. by apply finds_then. Qed.

Lemma finds_last_header n v line rep r s (R : S -> Prop) :
  heads rep r -> bool_decide (n ∈ NAMES) = true -> R s ->
  finds [bool_decide (header_of n rep = v)]
    (check line (bool_decide (header_or_default n r = v)) (header_or_default n r)) s R.
Proof using Type. intros H Hn Hr. rewrite (headers_given n rep r H) by by apply in_names. by apply finds_check. Qed.

(** The first [n] lines belong to the first exchange. *)
Lemma finds_split n oks (m rest : ST (S * Checks) H2Error.t unit) s :
  finds (take n oks) m s (fun _ => True) -> (forall s', finds (drop n oks) rest s' (fun _ => True)) ->
  finds oks (_ ← m; rest) s (fun _ => True).
Proof using Type. intros H1 H2. rewrite <- (take_drop n oks). by apply (finds_seq _ _ _ _ _ (fun _ => True)). Qed.

Ltac finds_group n := apply (finds_split n); [|let x := fresh "s" in intros x]; cbn [take drop].
Ltac then_text := eapply finds_text; [eassumption|intros; by apply finds_check].
Ltac then_bytes := eapply finds_bytes; [eassumption|intros; try apply finds_then; by apply finds_check].

Lemma finds_concurrent s :
  finds [contains (decode_utf8 (rp_body (origin (get (str "/json"))))) OK_TRUE] concurrent s (fun _ => True).
Proof using All.
  unfold concurrent. destruct (join_answers (replicate 8 (get (str "/json"))) s) as (rs & s' & E & Hnd & Hall).
  eapply finds_call; [exact E|].
  assert (length rs = 8%nat) as Hl by (by apply Forall2_length in Hall).
  destruct (count_all rs (origin (get (str "/json"))) 0 s' Hnd) as [s2 H2].
  - apply Forall_forall. intros r [i Hi]%list_elem_of_lookup_1.
    destruct (Forall2_lookup_r _ _ _ _ _ Hall Hi) as (init & Hinit & _ & Ho).
    by apply lookup_replicate in Hinit as [-> _].
  - done.
  - unfold zlen. rewrite Hl. pose proof arch_ok as Ha. unfold ArchOk in Ha.
    pose proof (Z.pow_le_mono_r 2 32 usize_bits). lia.
  - eapply finds_quiet; [exact H2|]. unfold zlen. rewrite Hl. case_match; by apply finds_check.
Qed.

Lemma finds_streamed fuel s :
  let big := rp_body (origin (get (str "/big"))) in
  (length big < fuel)%nat -> zlen big < 2 ^ usize_bits ->
  finds [zlen big =? 256 * 1024] (streamed_read fuel) s (fun _ => True).
Proof using All.
  intros big Hf Hb. unfold streamed_read. apply finds_request. intros r s' _ Ho.
  destruct (stream_size_all fuel (into_body r) 0 s' _ _ Ho Hf) as [s2 H2]; [done|done|].
  eapply finds_quiet; [exact H2|]. by apply finds_check.
Qed.

Lemma finds_ping s : finds [true] (ping_rtt show_rtt) s (fun _ => True).
Proof using All.
  destruct (ping_answers s) as (rtt & s' & E & Hr). eapply finds_call; [exact E|].
  cbv beta iota.  rewrite (proj2 (Z.leb_le 0 rtt) Hr). by apply finds_check.
Qed.

(** The battery comes to what the replies of the origin come to, line by line. *)
Lemma finds_battery fuel s :
  let big := rp_body (origin (get (str "/big"))) in
  (length big < fuel)%nat -> zlen big < 2 ^ usize_bits ->
  finds (basics ++ hard_ones) (battery to_lowercase show_rtt fuel) s (fun _ => True).
Proof using All.
  intros big Hf Hb. unfold battery, basics, hard_ones. cbv zeta. cbn [app].
  finds_group 2%nat. { apply finds_request. intros r s' [Hs _] Ho. cbv zeta. rewrite Hs. apply finds_then. then_text. }
  finds_group 2%nat. { apply finds_request. intros r s' Hh Ho. cbv zeta. eapply finds_header; [exact Hh|vm_compute; reflexivity|]. then_text. }
  finds_group 2%nat. { apply finds_request. intros r s' [Hs _] Ho. cbv zeta. rewrite Hs. apply finds_then. then_text. }
  finds_group 2%nat. { apply finds_request. intros r s' Hh Ho. cbv zeta. eapply finds_header; [exact Hh|vm_compute; reflexivity|]. then_bytes. }
  finds_group 1%nat. { apply finds_concurrent. }
  finds_group 3%nat.
  { apply finds_request. intros r s' Hh Ho. cbv zeta. eapply finds_header; [exact Hh|vm_compute; reflexivity|]. then_bytes. }
  finds_group 1%nat. { apply finds_request. intros r s' Hh Ho. cbv zeta. by apply finds_last_header. }
  finds_group 1%nat. { apply finds_ping. }
  finds_group 1%nat. { by apply finds_streamed. }
  finds_group 1%nat. { apply finds_request. intros r s' [Hs _] Ho. cbv zeta. rewrite Hs. by apply finds_check. }
  finds_group 2%nat.
  { apply finds_request. intros r s' Hh Ho. eapply finds_text; [exact Ho|]. intros sx Hx. apply finds_then.
    eapply (finds_quiet _ (ask _)); [done|]. rewrite (trailers_answers r sx (origin (get (str "/trailers")))).
    - by apply finds_check.
    - by rewrite Hx, lookup_insert_eq. }
  apply finds_request. intros r s' [Hs _] Ho. cbv zeta. rewrite Hs. apply finds_then. then_text.
Qed.

(** With the loop over the chunks given its due, the battery ends, and its exit code is 0
    exactly when the replies of the origin are all as they should be. *)
Lemma run_faithful fuel s :
  let big := rp_body (origin (get (str "/big"))) in
  (length big < fuel)%nat -> zlen big < 2 ^ usize_bits ->
  exists code ls s', run to_lowercase show_rtt fuel s = Ok (code, ls, s') /\
    line_ok <$> ls = basics ++ hard_ones /\
    (code = 0 <-> Forall (fun b => b = true) (basics ++ hard_ones)).
Proof using All.
  intros big Hf Hb. destruct (finds_battery fuel s Hf Hb (mkChecks 0 [])) as (s' & ls & E & Hl & _); [done|done|].
  unfold run. rewrite E. cbn [failures report app] in *.
  eexists _, ls, _. split; [reflexivity|]. split; [done|]. rewrite <- Hl, Forall_fmap.
  rewrite <- (no_failures ls), <- filter_lines, Hl. case_match; lia.
Qed.
End faithful.
