(* ===== verification/Origins.v ===== *)
(** * Origins: what the battery finds in the servers it is run against

    Models the origin of the harness, [conformance/origin.mjs], next to the example
    server of H2Server.v, both as what they answer to a request, and says which of the
    checks of Conformance.v each passes. *)

From S2P Require Import Prelude Handshake Errors Bytes Utf8 Hpack HpackFacts Flow Stream Connection.
From S2P Require Import Heads Text H2Server Conformance.

(** ** A connection straight to an origin *)

Record direct := mkDirect {
  next_id : Z;
  unread : gmap Z (reply * bytes);
}.

Section direct.
Variable origin : RequestInit -> reply.

Definition head_of (rep : reply) : Head := mkHead (rp_status rep) (rp_headers rep) [].

Definition ask_origin (init : RequestInit) (s : direct) : direct * response :=
  let rep := origin init in
  (mkDirect (next_id s + 1) (<[next_id s := (rep, rp_body rep)]> (unread s)), mkResponse (head_of rep) (next_id s)).

Fixpoint ask_all (inits : list RequestInit) (s : direct) : direct * list response :=
  match inits with
  | [] => (s, [])
  | init :: inits =>
      let '(s, r) := ask_origin init s in
      let '(s, rs) := ask_all inits s in
      (s, r :: rs)
  end.

Definition read_all (id : Z) (s : direct) : direct * bytes :=
  match unread s !! id with
  | Some (rep, rest) => (mkDirect (next_id s) (<[id := (rep, [])]> (unread s)), rest)
  | None => (s, [])
  end.

#[export] Instance direct_conversation : Conversation direct := {
  conv_request init s := let '(s, r) := ask_origin init s in (s, inr r);
  conv_join_all inits s := let '(s, rs) := ask_all inits s in (s, inr <$> rs);
  conv_bytes r s := let '(s, b) := read_all (response_stream r) s in (s, inr b);
  conv_text r s := let '(s, b) := read_all (response_stream r) s in (s, inr (decode_utf8 b));
  conv_next id s :=
    match read_all id s with (s, []) => (s, None) | (s, b) => (s, Some (inr b)) end;
  conv_trailers r s := unread s !! response_stream r ≫= fun x => rp_trailers x.1;
  conv_ping s := (s, inr 0);
  conv_close s := s;
}.

Lemma ask_all_owed inits s s' rs :
  ask_all inits s = (s', rs) -> (forall id, id < next_id s -> unread s' !! id = unread s !! id) /\
  NoDup (response_stream <$> rs) /\ Forall (fun r => next_id s <= response_stream r) rs /\
  Forall2 (fun init r => heads (origin init) r /\
    unread s' !! response_stream r = Some (origin init, rp_body (origin init))) inits rs.
Proof using Type.
  revert s s' rs. induction inits as [|init inits IH]; intros s s' rs.
  - intros [= <- <-]. split; [done|]. split; [constructor|by split; constructor].
  - cbn [ask_all ask_origin]. destruct (ask_all inits _) as [s1 rs1] eqn:E. intros [= <- <-].
    destruct (IH _ _ _ E) as (H1 & H2 & H3 & H4). cbn [next_id unread] in *.
    split; [|split; [|split]].
    + intros id Hid. rewrite H1 by lia. apply lookup_insert_ne. lia.
    + rewrite fmap_cons. constructor; [|done]. intros (r & Er & Hr)%list_elem_of_fmap.
      rewrite Forall_forall in H3. specialize (H3 r Hr). cbn in Er. lia.
    + constructor; [cbn; lia|]. eapply Forall_impl; [exact H3|]. cbn. intros r. lia.
    + constructor; [|exact H4]. split; [by split|]. cbn. rewrite H1 by lia. apply lookup_insert_eq.
Qed.

#[export] Instance direct_faithful : Faithful direct_conversation origin.
Proof.
  refine {| owed := unread |}.
  - intros init s. eexists _, _. split; [reflexivity|]. split; [by split|]. cbn. apply lookup_insert_eq.
  - intros inits s. cbn. destruct (ask_all inits s) as [s' rs] eqn:E.
    destruct (ask_all_owed _ _ _ _ E) as (_ & H2 & _ & H4). by exists rs, s'.
  - intros r s rep rest E. cbn. unfold read_all. rewrite E. by eexists.
  - intros r s rep rest E. cbn. unfold read_all. rewrite E. by eexists.
  - intros id s rep rest E. cbn. unfold read_all. rewrite E. destruct rest as [|b rest]; [by eexists|].
    eexists. exists (b :: rest), []. split; [done|]. split; [by rewrite app_nil_r|]. by split.
  - intros r s rep E. cbn. by rewrite E.
  - intros s. exists 0, s. by split.
Defined.
End direct.

Section origins.
Context {arch : Arch} {arch_ok : ArchOk arch} `{HT : Http} `{HL : !HttpLaws HT}.
Context {Error : Type} (error_text : Error -> bytes) (http_error : Error).
Variables (up low uri_path : bytes -> bytes).

(** The request as a server has it: [uri_path] is the path of a request target. *)
Definition field (n : bytes) (fields : list Header) : option bytes :=
  Hpack.value <$> hd_error (filter (fun h => Hpack.name h = n) fields).

Definition received (init : RequestInit) : service_request Error :=
  let fields := build_request_headers up init in
  mkRequest (default [] (field (str ":method") fields)) (uri_path (default [] (field (str ":path") fields)))
    (fun n => field n fields) (inr (concat (body_chunks (init_body init)))).

Definition reply_of (r : service_response) : reply :=
  mkReply (sv_status r) (list_to_map (sv_headers r)) (sv_body r) None.

(** The example server as an origin. *)
Definition example_origin (init : RequestInit) : reply := reply_of (app error_text http_error (received init)).

(** [origin.mjs], its handler of a stream. *)
Definition node (rq : service_request Error) : reply :=
  let path := rq_path rq in
  let answer st hs body t := mkReply st (list_to_map hs) body t in
  let ct v := (str "content-type", v) in
  if bool_decide (path = str "/hello") then
    answer 200 [ct (str "text/plain; charset=utf-8")]
      (str "hello from the h2c origin, tunneled over websocket!" ++ [NEWLINE]) None
  else if bool_decide (path = str "/json") then
    answer 200 [ct (str "application/json")] (json (rq_method rq) path) None
  else if bool_decide (path = str "/big") then
    answer 200 [ct (str "application/octet-stream"); (str "x-size", to_string BIG)]
      (replicate (Z.to_nat BIG) 120) None
  else if bool_decide (path = str "/echo") then
    let body := match rq_body rq with inr b => b | inl _ => [] end in
    answer 200 [ct (str "application/octet-stream"); (str "x-echo-bytes", to_string (zlen body))] body None
  else if bool_decide (path = str "/headers") then
    answer 200 [ct (str "text/plain"); (str "x-saw-custom", default [] (rq_header rq (str "x-custom")))]
      (str "ok") None
  else if bool_decide (path = str "/trailers") then
    answer 200 [ct (str "text/plain")] (str "trailer-body")
      (Some {[ str "x-trailer" := str "after-body" ]})
  else if bool_decide (path = str "/early-hints") then
    answer 200 [ct (str "text/plain")] (str "final-body") None
  else answer 404 [] (str "not found" ++ [NEWLINE]) None.

Definition node_origin (init : RequestInit) : reply := node (received init).

(** What the standard library and the URI parser are relied on for. *)
Hypothesis up_get : up (str "GET") = str "GET" /\ up (str "POST") = str "POST".
Hypothesis low_ascii : forall s, Forall (fun b => 0 <= b < 128) s -> low s = ascii_lower <$> s.
Hypothesis path_plain : forall s, 63 ∉ s -> uri_path s = s.

(** ** The request as received *)

Lemma received_path init p :
  path init = Some p -> 63 ∉ p -> rq_path (received init) = p.
Proof using path_plain.
  intros Hp Hn. unfold received, field, build_request_headers. cbn [rq_path].
  rewrite Hp. destruct (authority init); cbn -[str]; rewrite ?bool_decide_false by done; by apply path_plain.
Qed.

Lemma no_query p : forallb (fun b => negb (b =? 63)) p = true -> 63 ∉ p.
Proof using Type. rewrite forallb_forall. intros H Hin%list_elem_of_In%H. done. Qed.

(** ** The example server *)

Ltac arrive p :=
  let E := fresh "E" in
  match goal with |- context [received ?init] =>
    assert (rq_path (received init) = str p) as E
      by (apply received_path; [reflexivity|apply no_query; vm_compute; reflexivity])
  end;
  settle_path E.
Ltac serve :=
  rewrite build_visible; [reflexivity|exact HL|]; repeat constructor; try by apply visible_check.

Lemma example_hello : example_origin (get (str "/hello")) =
  mkReply 200 (list_to_map [(str "content-type", str "text/plain; charset=utf-8")])
    (str "hello from in-process Rust h2 server over websocket!" ++ [NEWLINE]) None.
Proof using HL path_plain. unfold example_origin, app, route, text. arrive "/hello". serve. Qed.

Lemma received_get p : rq_method (received (get p)) = str "GET".
Proof using up_get. destruct up_get as [<- _]. reflexivity. Qed.

Lemma example_json : example_origin (get (str "/json")) =
  mkReply 200 (list_to_map [(str "content-type", str "application/json")]) (json (str "GET") (str "/json")) None.
Proof using HL path_plain up_get.
  unfold example_origin, app, route, text. arrive "/json". rewrite received_get. serve.
Qed.

Lemma example_big : example_origin (get (str "/big")) =
  mkReply 200 (list_to_map [(str "content-type", str "application/octet-stream"); (str "x-size", to_string BIG)])
    (replicate (Z.to_nat BIG) 120) None.
Proof using HL path_plain.
  unfold example_origin, app, route, text. generalize (replicate (Z.to_nat BIG) 120). intros big.
  arrive "/big". serve.
Qed.

Lemma example_echo b : example_origin (post_echo (body_from b)) =
  mkReply 200 (list_to_map [(str "content-type", str "application/octet-stream");
    (str "x-echo-bytes", to_string (zlen b))]) b None.
Proof using HL path_plain.
  unfold example_origin. rewrite (app_echoes _ _ _ b); [reflexivity|..].
  - apply received_path; [reflexivity|apply no_query; vm_compute; reflexivity].
  - unfold received, post_echo, body_from. cbn. by rewrite app_nil_r.
Qed.

Lemma received_custom : rq_header (received HEADERS_REQUEST) (str "x-custom") = Some (str "h2ts-rocks").
Proof using Type. vm_compute. reflexivity. Qed.

Lemma example_headers : example_origin HEADERS_REQUEST =
  mkReply 200 (list_to_map [(str "content-type", str "text/plain"); (str "x-saw-custom", str "h2ts-rocks")])
    (str "ok") None.
Proof using HL path_plain.
  unfold example_origin, app, route, text. generalize (replicate (Z.to_nat BIG) 120). intros big.
  arrive "/headers". rewrite received_custom. cbn [mbind option_bind].
  rewrite to_str_of_visible by by apply visible_check. serve.
Qed.

Lemma example_other p :
  63 ∉ p -> p ∉ PATHS -> example_origin (get p) = mkReply 404 ∅ (str "not found" ++ [NEWLINE]) None.
Proof using path_plain.
  intros Hq Hp. unfold example_origin, app, route, text. generalize (replicate (Z.to_nat BIG) 120). intros big.
  rewrite (received_path (get p) p) by done. unfold PATHS in Hp. rewrite !not_elem_of_cons in Hp.
  destruct Hp as (N1 & N2 & N3 & N4 & N5 & _). by rewrite !bool_decide_false.
Qed.

(** ** The origin of the harness *)

Ltac at_node p := unfold node_origin, node; cbv zeta; arrive p; try reflexivity.

Lemma node_hello : node_origin (get (str "/hello")) =
  mkReply 200 (list_to_map [(str "content-type", str "text/plain; charset=utf-8")])
    (str "hello from the h2c origin, tunneled over websocket!" ++ [NEWLINE]) None.
Proof using path_plain. at_node "/hello". Qed.

Lemma node_json : node_origin (get (str "/json")) =
  mkReply 200 (list_to_map [(str "content-type", str "application/json")]) (json (str "GET") (str "/json")) None.
Proof using path_plain up_get. unfold node_origin, node. cbv zeta. arrive "/json". by rewrite received_get. Qed.

Lemma node_big : node_origin (get (str "/big")) =
  mkReply 200 (list_to_map [(str "content-type", str "application/octet-stream"); (str "x-size", to_string BIG)])
    (replicate (Z.to_nat BIG) 120) None.
Proof using path_plain.
  unfold node_origin, node. generalize (replicate (Z.to_nat BIG) 120). intros big. cbv zeta. by arrive "/big".
Qed.

Lemma node_echo b : node_origin (post_echo (body_from b)) =
  mkReply 200 (list_to_map [(str "content-type", str "application/octet-stream");
    (str "x-echo-bytes", to_string (zlen b))]) b None.
Proof using path_plain.
  assert (rq_body (received (post_echo (body_from b))) = inr b) as Hb.
  { unfold received, post_echo, body_from. cbn. by rewrite app_nil_r. }
  unfold node_origin, node. generalize (replicate (Z.to_nat BIG) 120). intros big. cbv zeta.
  arrive "/echo". by rewrite Hb.
Qed.

Lemma node_headers : node_origin HEADERS_REQUEST =
  mkReply 200 (list_to_map [(str "content-type", str "text/plain"); (str "x-saw-custom", str "h2ts-rocks")])
    (str "ok") None.
Proof using path_plain.
  unfold node_origin, node. generalize (replicate (Z.to_nat BIG) 120). intros big. cbv zeta.
  arrive "/headers". by rewrite received_custom.
Qed.

Lemma node_trailers : node_origin (get (str "/trailers")) =
  mkReply 200 (list_to_map [(str "content-type", str "text/plain")]) (str "trailer-body")
    (Some {[ str "x-trailer" := str "after-body" ]}).
Proof using path_plain.
  unfold node_origin, node. generalize (replicate (Z.to_nat BIG) 120). intros big. cbv zeta. by arrive "/trailers".
Qed.

Lemma node_hints : node_origin (get (str "/early-hints")) =
  mkReply 200 (list_to_map [(str "content-type", str "text/plain")]) (str "final-body") None.
Proof using path_plain.
  unfold node_origin, node. generalize (replicate (Z.to_nat BIG) 120). intros big. cbv zeta. by arrive "/early-hints".
Qed.

Lemma node_nope : node_origin (get (str "/nope")) = mkReply 404 ∅ (str "not found" ++ [NEWLINE]) None.
Proof using path_plain.
  unfold node_origin, node. generalize (replicate (Z.to_nat BIG) 120). intros big. cbv zeta. by arrive "/nope".
Qed.

(** ** The lines *)

(** What the checks both origins pass come down to. *)
Record serves (origin : RequestInit -> reply) (greeting : bytes) : Prop := {
  on_hello : exists hs, origin (get (str "/hello")) = mkReply 200 hs greeting None;
  on_json : origin (get (str "/json")) =
    mkReply 200 (list_to_map [(str "content-type", str "application/json")]) (json (str "GET") (str "/json")) None;
  on_big : origin (get (str "/big")) =
    mkReply 200 (list_to_map [(str "content-type", str "application/octet-stream"); (str "x-size", to_string BIG)])
      (replicate (Z.to_nat BIG) 120) None;
  on_echo b : origin (post_echo (body_from b)) =
    mkReply 200 (list_to_map [(str "content-type", str "application/octet-stream");
      (str "x-echo-bytes", to_string (zlen b))]) b None;
  on_headers : origin HEADERS_REQUEST =
    mkReply 200 (list_to_map [(str "content-type", str "text/plain"); (str "x-saw-custom", str "h2ts-rocks")])
      (str "ok") None;
  on_nope : exists hs b, origin (get (str "/nope")) = mkReply 404 hs b None;
}.

Definition plain_hello (greeting : bytes) : bool :=
  forallb (fun b => (0 <=? b) && (b <? 128)) greeting && contains (ascii_lower <$> greeting) (str "hello").

Lemma echoed_size b :
  header_of (str "x-echo-bytes") (mkReply 200 (list_to_map [(str "content-type", str "application/octet-stream");
    (str "x-echo-bytes", to_string (zlen b))]) b None) = to_string (zlen b).
Proof using Type. generalize (to_string (zlen b)). intros n. reflexivity. Qed.

Lemma big_size : zlen (replicate (Z.to_nat BIG) 120) = 256 * 1024.
Proof using Type. unfold zlen. rewrite length_replicate, Z2Nat.id; unfold BIG; lia. Qed.

Lemma basics_hold origin greeting :
  serves origin greeting -> plain_hello greeting = true -> basics origin low = replicate 16 true.
Proof using low_ascii.
  intros [[hs1 H1] H2 H3 H4 H5 (hs2 & b2 & H6)] [Ha Hc]%andb_prop.
  assert (Forall (fun b => 0 <= b < 128) greeting) as Hg.
  { rewrite forallb_forall in Ha. apply List.Forall_forall. intros b Hb%Ha. lia. }
  unfold basics. cbv zeta. rewrite H1, H2, H3, !H4, H5, H6. cbn [rp_status rp_body].
  rewrite (decode_utf8_valid greeting) by by apply utf8_valid_ascii. rewrite low_ascii, Hc by done.
  rewrite echoed_size, big_size. generalize payload. intros p. rewrite (Z.eqb_refl (zlen p)).
  rewrite (bool_decide_true (p = p)), (bool_decide_true (to_string (zlen p) = _)) by reflexivity.
  vm_compute. reflexivity.
Qed.

Lemma node_serves : serves node_origin (str "hello from the h2c origin, tunneled over websocket!" ++ [NEWLINE]).
Proof using path_plain up_get.
  split; [rewrite node_hello; by eexists|apply node_json|apply node_big|apply node_echo|apply node_headers|].
  rewrite node_nope. by eexists _, _.
Qed.

Lemma example_serves :
  serves example_origin (str "hello from in-process Rust h2 server over websocket!" ++ [NEWLINE]).
Proof using HL path_plain up_get.
  split; [rewrite example_hello; by eexists|apply example_json|apply example_big|apply example_echo|apply example_headers|].
  rewrite example_other; [by eexists _, _|apply no_query; vm_compute; reflexivity|].
  apply (bool_decide_eq_true_1 _). vm_compute. reflexivity.
Qed.

Lemma node_passes : basics node_origin low ++ hard_ones node_origin = replicate 20 true.
Proof using All.
  rewrite (basics_hold _ _ node_serves) by (vm_compute; reflexivity).
  unfold hard_ones. cbv zeta. rewrite node_trailers, node_hints. vm_compute. reflexivity.
Qed.

(** The example has no route for the trailers nor for the early hints. *)
Lemma example_fails_four : basics example_origin low ++ hard_ones example_origin = replicate 16 true ++ replicate 4 false.
Proof using All.
  rewrite (basics_hold _ _ example_serves) by (vm_compute; reflexivity).
  unfold hard_ones. cbv zeta. rewrite !example_other.
  - vm_compute. reflexivity.
  - apply no_query. vm_compute. reflexivity.
  - apply (bool_decide_eq_true_1 _). vm_compute. reflexivity.
  - apply no_query. vm_compute. reflexivity.
  - apply (bool_decide_eq_true_1 _). vm_compute. reflexivity.
Qed.

Lemma big_fits rep :
  rp_body rep = replicate (Z.to_nat BIG) 120 ->
  (length (rp_body rep) < S (Z.to_nat BIG))%nat /\ zlen (rp_body rep) < 2 ^ usize_bits.
Proof using arch_ok.
  intros E. rewrite E, big_size, length_replicate. split; [lia|].
  pose proof arch_ok as Ha. unfold ArchOk in Ha. pose proof (Z.pow_le_mono_r 2 32 usize_bits). lia.
Qed.

(** Through any connection that gives what the server sent, the battery passes against
    the origin of the harness, and fails four checks, those of the trailers and of the
    early hints, against the example server. *)
Lemma battery_on_origins {S} (CS : Conversation S) show_rtt (s : S) :
  let fuel := Datatypes.S (Z.to_nat BIG) in
  (forall FA : Faithful CS node_origin, exists ls s',
     run low show_rtt fuel s = Ok (0, ls, s') /\ line_ok <$> ls = replicate 20 true) /\
  (forall FA : Faithful CS example_origin, exists ls s',
     run low show_rtt fuel s = Ok (1, ls, s') /\ line_ok <$> ls = replicate 16 true ++ replicate 4 false).
Proof using All.
  intros fuel. split; intros FA.
  - destruct (big_fits (node_origin (get (str "/big")))) as [H1 H2]; [by rewrite node_big|].
    destruct (run_faithful node_origin low show_rtt fuel s H1 H2) as (code & ls & s' & E & El & Hc).
    rewrite node_passes in El, Hc. exists ls, s'. split; [|done]. rewrite E. do 3 f_equal.
    apply Hc. by repeat constructor.
  - destruct (big_fits (example_origin (get (str "/big")))) as [H1 H2]; [by rewrite example_big|].
    destruct (run_faithful example_origin low show_rtt fuel s H1 H2) as (code & ls & s' & E & El & Hc).
    destruct (run_verdict low show_rtt fuel s code ls s' E) as (_ & Hcode & _).
    rewrite example_fails_four in El, Hc. exists ls, s'. split; [|done]. rewrite E. do 3 f_equal.
    destruct Hcode as [->| ->]; [|done]. exfalso.
    assert (Forall (fun b => b = true) (replicate 16 true ++ replicate 4 false)) as H by by apply Hc.
    rewrite Forall_app in H. destruct H as [_ H]. inversion H. done.
Qed.
End origins.

(** An instance of all that is assumed: the example server asked directly. *)
Definition direct_example (init : RequestInit) : reply :=
  example_origin (HT := Concrete.http) (Error := unit) (fun _ => []) tt (fun b => b) (fun b => b) init.

Example example_server_run :
  exists ls s', run (CS := direct_conversation direct_example) (arch := host64_debug) (fmap ascii_lower) (fun _ => [])
      (S (Z.to_nat BIG)) (mkDirect 1 ∅) = Ok (1, ls, s') /\
    line_ok <$> ls = replicate 16 true ++ replicate 4 false.
Proof.
  refine (proj2 (battery_on_origins (arch := host64_debug) (HT := Concrete.http) (Error := unit) (fun _ => []) tt
    (fun b => b) (fmap ascii_lower) (fun b => b) _ _ _ (direct_conversation direct_example) (fun _ => []) (mkDirect 1 ∅))
    (direct_faithful direct_example)); [apply Concrete.http_laws|by split|done|done].
Qed.
