(* ===== verification/Native.v ===== *)
(** * Native: the transport of the native driver

    Models [open_ws] and [ws_transport] of [rust/crates/h2ts-conformance/src/main.rs]: the
    upgrade request, and a WebSocket presented as the transport of the client through
    two tasks and two channels.  The WebSocket library is outside: the frames it reads,
    those it has to write and whether a write fails are events.  The channel the read
    task fills is that of the browser's socket, so a run here is a run of Web.v with a
    queue before the socket. *)

From S2P Require Import Prelude Errors Bytes Frames Hpack Connection ConnectionFacts FlowSafety Lifecycle Driver.
From S2P Require Import Text Handshake Web EndToEnd.

(** ** Opening *)

(** The headers the other side looks at; [offer] lists the subprotocols. *)
Definition open_request (key : bytes) (offer : list bytes) : Request := fun h =>
  match h with
  | UPGRADE => Some (str "websocket")
  | CONNECTION => Some (str "upgrade")
  | SEC_WEBSOCKET_KEY => Some key
  | SEC_WEBSOCKET_PROTOCOL => if bool_decide (offer = []) then None else Some (join (str ", ") offer)
  | _ => None
  end.

Definition negotiated `{Http} (r : Response) : option bytes := Handshake.get SEC_WEBSOCKET_PROTOCOL r ≫= to_str.

(** [WS_URL] to [host:port]. *)
Definition strip_prefix (p s : bytes) : option bytes :=
  if bool_decide (take (length p) s = p) then Some (drop (length p) s) else None.

Definition hostport (ws_url : bytes) : bytes :=
  let s := default ws_url (strip_prefix (str "ws://") ws_url) in
  default s (hd_error (split 47 s)).

(** ** The two tasks *)

Inductive op_code := OpContinuation | OpText | OpBinary | OpCloseFrame | OpPing | OpPong.

Definition carries_data (op : op_code) : bool :=
  match op with OpBinary | OpText | OpContinuation => true | _ => false end.

Record native := mkNative {
  face : client;
  read_task : bool;
  write_task : bool;
  out_rx : list bytes;
  wire : list (op_code * bytes);  (* what was written to the WebSocket *)
}.

Inductive native_event :=
  | NFrame (op : op_code) (payload : bytes)  (* [read_frame] returns a frame *)
  | NReadError  (* ... or fails *)
  | NObliged (op : op_code) (payload : bytes)  (* [read_frame] writes an answer *)
  | NWrite (ok : bool)  (* the write task is polled; [ok]: the write does not fail *)
  | NPollRead (now : Z)  (* the read loop of the driver *)
  | NPollWrite  (* its write loop *)
  | NOp (op : conn_op).

Section native.
Context {arch : Arch} (up : bytes -> bytes).

Definition native_start (options : ConnectOptions) : native :=
  mkNative (connect_websocket options) true true [] [].

(** What an event is to the client; the write loop hands its chunk to [out_tx], which
    fails once the write task is gone. *)
Definition face_events (e : native_event) (s : native) : list web_event :=
  match e with
  | NFrame op payload =>
      if read_task s then
        if carries_data op then
          if bool_decide (payload = []) then []
          else if in_rx (inbound (face s)) then [WMessage (ArrayBuffer payload)] else [WClosed]
        else match op with OpCloseFrame => [WClosed] | _ => [] end
      else []
  | NReadError => if read_task s then [WClosed] else []
  | NPollRead now => [WPollRead now]
  | NPollWrite => [WPollWrite (write_task s)]
  | NOp op => [WOp op]
  | NObliged _ _ | NWrite _ => []
  end.

Definition reads_on (e : native_event) (s : native) : bool :=
  match e with
  | NFrame _ _ | NReadError =>
      read_task s && match face_events e s with [WClosed] => false | _ => true end
  | _ => read_task s
  end.

(** The client's part: what its write loop sends is queued while the write task lives. *)
Definition client_turn (e : native_event) (s : native) : native :=
  let c := fold_left (fun c e => web_step up e c) (face_events e s) (face s) in
  mkNative c (reads_on e s) (write_task s)
    (if write_task s then out_rx s ++ messages_of (drop (length (calls (face s))) (calls c)) else [])
    (wire s).

(** The part of the tasks: the answers of the library, and the write task, which ends
    when a write fails or the client has dropped its end of the channel. *)
Definition task_turn (e : native_event) (s : native) : native :=
  match e with
  | NObliged op payload =>
      if read_task s then mkNative (face s) true (write_task s) (out_rx s) (wire s ++ [(op, payload)]) else s
  | NWrite ok =>
      if write_task s then
        match out_rx s with
        | b :: q =>
            if ok then mkNative (face s) (read_task s) true q (wire s ++ [(OpBinary, b)])
            else mkNative (face s) (read_task s) false [] (wire s)
        | [] =>
            if running (drv (face s)) then s
            else mkNative (face s) (read_task s) false [] (wire s)
        end
      else s
  | _ => s
  end.

Definition native_step (e : native_event) (s : native) : native := task_turn e (client_turn e s).

(** The payload of a frame is bytes; what the library writes on its own are pongs and
    closes; operations are the application's. *)
Definition native_event_ok (e : native_event) (s : native) : Prop :=
  match e with
  | NFrame _ payload => bytes_ok payload
  | NObliged op _ => op = OpPong \/ op = OpCloseFrame
  | NOp op => event_ok (DOp op) (drv (face s))
  | _ => True
  end.

Inductive native_run (options : ConnectOptions) : list native_event -> list web_event -> native -> Prop :=
  | native_init : native_run options [] [] (native_start options)
  | native_next es ces s e :
      native_run options es ces s -> native_event_ok e s ->
      native_run options (es ++ [e]) (ces ++ face_events e s) (native_step e s).

(** The data that comes before the read task ends. *)
Fixpoint gathered (es : list native_event) : list bytes :=
  match es with
  | [] => []
  | NReadError :: _ | NFrame OpCloseFrame _ :: _ => []
  | NFrame op payload :: es =>
      if carries_data op && negb (bool_decide (payload = [])) then payload :: gathered es else gathered es
  | _ :: es => gathered es
  end.

Definition binaries (l : list (op_code * bytes)) : list bytes :=
  omap (fun f => match f.1 with OpBinary => Some f.2 | _ => None end) l.

(** ** What the client sees *)

Definition is_end (e : native_event) : bool :=
  match e with NReadError | NFrame OpCloseFrame _ => true | _ => false end.

Lemma gathered_snoc es e :
  gathered (es ++ [e]) = gathered es ++ (if existsb is_end es then [] else gathered [e]).
Proof using Type.
  induction es as [|e0 es IH]; [done|]. cbn [app].
  destruct e0 as [[] p| | | | | |]; cbn [gathered existsb is_end orb carries_data andb]; try exact IH; try done.
  all: match goal with |- context [bool_decide ?P] => destruct (bool_decide P) end; cbn [negb]; rewrite IH; done.
Qed.

Record native_ok options es ces (s : native) : Prop := {
  no_web : web_run up options ces (face s);
  no_read : read_task s = negb (existsb is_closed ces);
  no_data : arrived ces `prefix_of` gathered es;
  no_open : read_task s = true -> arrived ces = gathered es /\ existsb is_end es = false;
  no_wire : binaries (wire s) ++ out_rx s `prefix_of` messages_of (calls (face s));
  no_live : write_task s = true -> binaries (wire s) ++ out_rx s = messages_of (calls (face s));
}.

Lemma native_start_ok options : native_ok options [] [] (native_start options).
Proof using Type. split; cbn; try done. constructor. Qed.

(** A step is at most one event of the client, a legal one. *)
Lemma face_one e s :
  native_event_ok e s ->
  match face_events e s with [] => True | [we] => web_event_ok we (face s) | _ => False end.
Proof using Type.
  intros He. destruct e as [op p| |op p|ok|now| |op]; cbn [face_events]; [|by destruct (read_task s)|exact I..|exact He].
  destruct (read_task s); [|done]. destruct op; cbn [carries_data]; try done.
  all: destruct (bool_decide (p = [])); [done|]; by destruct (in_rx (inbound (face s))).
Qed.

Lemma face_step e s :
  face (native_step e s) = fold_left (fun c e => web_step up e c) (face_events e s) (face s).
Proof using Type. unfold native_step, client_turn. destruct e; cbn [task_turn face face_events fold_left]; repeat case_match; done. Qed.

Lemma read_step e s : read_task (native_step e s) = reads_on e s.
Proof using Type. unfold native_step, client_turn. destruct e; cbn [task_turn read_task reads_on face_events]; repeat case_match; done. Qed.

Lemma face_web options ces e s :
  web_run up options ces (face s) -> native_event_ok e s ->
  web_run up options (ces ++ face_events e s) (face (native_step e s)).
Proof using Type.
  intros H He. rewrite face_step. pose proof (face_one e s He) as H1.
  destruct (face_events e s) as [|we [|]]; [by rewrite app_nil_r| |done]. by constructor.
Qed.

(** The read task passes on what comes, until it ends. *)
Lemma read_faithful options es ces e s :
  native_ok options es ces s ->
  let ces' := ces ++ face_events e s in
  reads_on e s = negb (existsb is_closed ces') /\
  arrived ces' `prefix_of` gathered (es ++ [e]) /\
  (reads_on e s = true -> arrived ces' = gathered (es ++ [e]) /\ existsb is_end (es ++ [e]) = false).
Proof using Type.
  intros [_ Hr Hd Ho _ _] ces'. unfold ces'. rewrite gathered_snoc, !existsb_app. cbn [existsb].
  assert (arrived ces `prefix_of` gathered es ++ (if existsb is_end es then [] else gathered [e])) as Hp
    by by apply prefix_app_r.
  destruct (read_task s) eqn:Er.
  - destruct (Ho eq_refl) as [Ed Ee]. symmetry in Hr. apply negb_true_iff in Hr.
    destruct e as [op p| |op p|ok|now| |op]; cbn [reads_on face_events]; rewrite ?Er in *; cbn [andb].
    all: rewrite Ee in *.
    2-7: rewrite ?app_nil_r, ?arrived_snoc, Hr; cbn; rewrite ?app_nil_r; try done; by rewrite Ed.
    destruct op; cbn [carries_data].
    1-3: destruct (bool_decide (p = [])) eqn:Hp0; [|destruct (in_rx (inbound (face s)))];
      rewrite ?app_nil_r, ?arrived_snoc, Hr; cbn; rewrite Hp0; cbn; rewrite ?app_nil_r, Ed; try done.
    1-3: split; [done|]; split; [by apply prefix_app_r|done].
    all: rewrite ?app_nil_r, ?arrived_snoc, Hr; cbn; rewrite ?app_nil_r, Ed; done.
  - assert (face_events e s = [] \/ exists we, face_events e s = [we] /\ is_closed we = false /\ arrived [we] = []) as Hfe.
    { destruct e; cbn; rewrite ?Er; eauto. }
    assert (reads_on e s = false) as -> by (by destruct e; cbn; rewrite ?Er).
    symmetry in Hr. apply negb_false_iff in Hr. rewrite Hr. split; [done|]. split; [|done].
    destruct Hfe as [-> | (we & -> & _ & Ha)]; [by rewrite app_nil_r|]. by rewrite arrived_snoc, Hr, app_nil_r.
Qed.

Lemma web_step_calls e c : exists l, calls (web_step up e c) = calls c ++ l.
Proof using Type.
  destruct e as [data| |now|ok|op]; cbn [web_step]; try (exists []; by rewrite app_nil_r).
  - exists []. rewrite app_nil_r. destruct (_ && _); [|done]. by destruct (poll_next _) as [[[]|] ?].
  - destruct (write _); [exists []; by rewrite app_nil_r|by eexists|exists []; by rewrite app_nil_r].
Qed.

Lemma calls_app l1 l2 : messages_of (l1 ++ l2) = messages_of l1 ++ messages_of l2.
Proof using Type. apply omap_app. Qed.

Lemma binaries_app l1 l2 : binaries (l1 ++ l2) = binaries l1 ++ binaries l2.
Proof using Type. apply omap_app. Qed.

(** The chunks the client has sent, one frame each, and those queued. *)
Definition forwards (s : native) : Prop :=
  binaries (wire s) ++ out_rx s `prefix_of` messages_of (calls (face s)) /\
  (write_task s = true -> binaries (wire s) ++ out_rx s = messages_of (calls (face s))).

Lemma client_turn_forwards e s : native_event_ok e s -> forwards s -> forwards (client_turn e s).
Proof using Type.
  intros He [Hp Hl]. unfold forwards, client_turn. cbn [wire out_rx write_task face].
  assert (exists l, calls (fold_left (fun c e => web_step up e c) (face_events e s) (face s)) = calls (face s) ++ l) as [l El].
  { pose proof (face_one e s He) as H1. destruct (face_events e s) as [|we [|]]; [|apply web_step_calls|done].
    exists []. by rewrite app_nil_r. }
  rewrite El, drop_app_length, calls_app. destruct (write_task s).
  - rewrite app_assoc, Hl by done. done.
  - rewrite app_nil_r. split; [|done]. apply prefix_app_r. etransitivity; [by apply prefix_app_r|exact Hp].
Qed.

Lemma task_turn_forwards e s :
  match e with NObliged op _ => op = OpPong \/ op = OpCloseFrame | _ => True end ->
  forwards s -> forwards (task_turn e s).
Proof using Type.
  intros He [Hp Hl]. unfold forwards. destruct e as [op p| |op p|ok|now| |op]; cbn [task_turn]; try done.
  - assert (binaries (wire s ++ [(op, p)]) = binaries (wire s)) as E.
    { rewrite binaries_app. destruct He as [-> | ->]; apply app_nil_r. }
    destruct (read_task s); cbn [wire out_rx write_task face]; rewrite ?E; done.
  - assert (binaries (wire s) ++ [] `prefix_of` messages_of (calls (face s))) as Hb.
    { rewrite app_nil_r. etransitivity; [by apply prefix_app_r|exact Hp]. }
    destruct (write_task s) eqn:Ew; [|by rewrite Ew]. specialize (Hl eq_refl).
    destruct (out_rx s) as [|b q] eqn:Eq; [destruct (running _)|destruct ok]; cbn [wire out_rx write_task face];
      rewrite ?Eq, ?binaries_app, <- ?app_assoc; done.
Qed.

Lemma native_runs options es ces s : native_run options es ces s -> native_ok options es ces s.
Proof using Type.
  induction 1 as [|es ces s e H IH He]; [apply native_start_ok|].
  destruct (read_faithful options es ces e s IH) as (H1 & H2 & H3). destruct IH as [Hw _ _ _ H4 H5].
  destruct (task_turn_forwards e (client_turn e s)) as [H6 H7]; [by destruct e|by apply client_turn_forwards|].
  split; rewrite ?read_step; try done. by apply face_web.
Qed.

(** The native transport is the client of the browser's socket, whose messages are the
    data frames that come, up to the first Close or failure, with a queue before the
    WebSocket: each chunk the client sends becomes one binary frame, in order, and none
    is missing while the write task lives. *)
Lemma native_transport options es ces s :
  native_run options es ces s ->
  web_run up options ces (face s) /\
  delivered (face s) `prefix_of` gathered es /\
  (read_task s = true -> arrived ces = gathered es) /\
  binaries (wire s) ++ out_rx s `prefix_of` messages_of (calls (face s)) /\
  (write_task s = true -> binaries (wire s) ++ out_rx s = messages_of (calls (face s))).
Proof using Type.
  intros H. destruct (native_runs options es ces s H) as [H1 H2 H3 H4 H5 H6].
  destruct (web_runs up options ces (face s) H1) as [_ _ _ _ _ _ Hpre _].
  split_and!; try done; [by transitivity (arrived ces)|by intros []%H4].
Qed.
End native.

(** The gateway agrees to the protocol the driver offers. *)
Lemma open_negotiates `{HT : Http} `{DG : Digests} `{!HttpLaws HT, !DigestsLaws DG} {E U} key :
  exists r fut, accept (HyperError:=E) (Upgraded:=U) (open_request key [str "h2ts"]) = Ok (r, fut) /\
    status r = 101 /\ negotiated r = Some (str "h2ts").
Proof.
  assert (visible (str "h2ts")) as Hv by (repeat constructor).
  destruct (client_offer_accepted (E:=E) (U:=U) (open_request key [str "h2ts"]) [str "h2ts"]) as [_ H].
  - assert (forall h v, open_request key [str "h2ts"] h = Some v -> visible v -> COMMA ∉ v -> trim v = v ->
      names (open_request key [str "h2ts"]) h v) as Hn.
    { intros h v E1 Hvis Hc Ht. exists v, v. split; [exists v; split; [done|by apply to_str_of_visible]|].
      split; [|apply bool_decide_eq_true; by destruct v].
      exists [], v, []. rewrite app_nil_r. auto 10. }
    assert (forall v, forallb is_visible_ascii v = true -> visible v) as Hvis.
    { intros v. rewrite forallb_forall. apply List.Forall_forall. }
    split; [|split; [|by eexists]]; apply Hn; try done; try (by apply Hvis);
      apply (bool_decide_eq_true_1 _); vm_compute; reflexivity.
  - constructor; [|constructor]. split; [done|]. split; [|split; [|exact Hv]].
    + assert (Forall (fun x => is_whitespace x = false) (str "h2ts")) as Hw by repeat constructor.
      rewrite Forall_forall in Hw. split; intros x t E1; apply Hw; rewrite E1; set_solver.
    + apply (bool_decide_eq_true_1 _). vm_compute. reflexivity.
  - done.
  - cbn [List.find] in H. destruct H as (r & fut & H1 & H2 & H3). exists r, fut. split; [done|]. split; [done|].
    unfold negotiated. rewrite H3. cbn. by apply to_str_of_visible.
Qed.

Example hostport_strips : hostport (str "ws://127.0.0.1:8091/x") = str "127.0.0.1:8091".
Proof. vm_compute. reflexivity. Qed.
